(* ===== verification/_CoqProject ===== *)
-Q . S2P
Prelude.v
GoLib.v
HttpLib.v
Sha256.v
Base58Check.v
Crypto.v
Address.v
Entry.v
Util.v
Limiter.v
Sqlite.v
NetStore.v
NetDB.v
NetTable.v
NetInv.v
NetRun.v
NetClosest.v
DHT.v
DHTProps.v
Post.v
PieceStream.v
PostDB.v
PostDBProps.v
DataProps.v
Collection.v
CollectionProps.v
Proto.v
Handshake.v
StreamManager.v
LocalPeer.v
Client.v
PeerProps.v
Typing.v
Directory.v
Peer.v
MirrorProps.v
PeerManager.v
PeerManagerProps.v
Explore.v
ExploreJob.v
ExploreProps.v
SeedManager.v
SeedProps.v
SeedJob.v
NetMap.v
NetMapProps.v
CommandServer.v
CommandProps.v
Publish.v
MirrorNet.v
Gossip.v
Index.v
HttpServer.v
HttpProps.v
Commands.v
System.v
Daemon.v
DaemonProps.v
Outside.v
Config.v
Life.v
