(* ===== verification/Prelude.v ===== *)
(** * zif: a peer-to-peer indexing network, as a verified model

    A zif node keeps an index of posts, publishes it under an address, finds other
    nodes through a distributed hash table, mirrors their indexes and serves its own.
    This development models the Go program under src/ as Rocq functions and proves what
    makes its parts correct, and where they are not.

    ** How the program is put together

    - An address is a hash of a public key; an entry describes a peer and is signed by it.
    - [dht] stores entries in an SQLite file and a routing table of 160 buckets.
    - [data] stores posts in an SQLite file, cuts them into pieces of 1000 and hashes the
      pieces into a collection.
    - [proto] carries messages: a handshake, requests of a client, a server that routes
      them to handlers, sessions over one TCP connection.
    - The root package joins them: the local peer with its handlers, remote peers, the
      manager of connected peers, the search for seeds, the exploration of the network,
      the map of the network, the commands of the daemon.

    ** Conventions

    Go values keep their shape: a byte is an [ascii], a slice of bytes a list (with its
    capacity or its array where the code shares it), an integer a [Z] with the
    wrap-around written out. A call gives an [outcome]: a value, an error or a panic.
    Code with state is of type [M S A], state passing over outcomes, and keeps what was
    written before an error. A page of posts is an offset of 64 bits, as in the code. A
    file that is written may stay unopened or be cut short, identity.dat may be unreadable,
    ./data may be missing; entry.json goes through JSON, which mends text that is not
    UTF-8. Libraries are interfaces with the laws their documentation
    states: [Crypto] (hashes, Ed25519), [Sqlite] and [SqlOrder] (text columns, full text
    search, failing statements, the order of rows), [Msgpack] (encoding), [Network]
    (dialling, yamux, messages; it may answer anything). Every statement of a database
    may fail. Randomness, the clock and the order of map iterations are parameters.
    Concrete instances of all interfaces are in the files, so that every theorem with
    hypotheses is also applied at an input that meets them.

    ** Files

    - [Prelude], [GoLib], [HttpLib] (encoding/base64 and src/vendor/.../gorilla/mux),
      [Sha256], [Base58Check] (src/vendor/.../base58check), [Crypto]: the monad with its
      rules and tactics, strconv, Base64 and the router, the text of addresses, the laws
      of signatures.
    - [Address], [Entry] (src/dht/address.go, entry.go): generation, distance, bucket
      index, texts; the signed bytes, Verify and SignEntry.
    - [Util], [Limiter] (src/util): seed lists, shuffling; the rate limiter as a step
      relation of its goroutine -- the receive of a tick, then the select -- Wait and Stop.
    - [Sqlite], [NetStore] (src/dht/sql.go), [NetDB] (src/dht/netdb.go), [DHT]
      (src/dht/dht.go): tables, statements, routing table, calls. [NetTable], [NetInv],
      [NetRun], [NetClosest] hold the invariant and what a healthy database does;
      [DHTProps] the theorems.
    - [Post], [PieceStream], [PostDB], [Collection] (src/data/post.go, piece.go, errors.go,
      database.go, sql.go, collection.go; the piece stream of localpeerhandlers.go and
      client.go), with [PostDBProps], [DataProps], [CollectionProps].
    - [Proto], [Handshake], [StreamManager], [Client] (src/proto): messages, processes on a
      connection, the handshake of both ends, sessions and streams, requests, routing.
    - [LocalPeer] (src/localpeer.go, localpeerhandlers.go): the own entry, adding posts,
      every message handler. [PeerProps]: handlers and requests together. [Directory]: an
      abstract directory and the proof that handlers and clients implement it. [Typing]:
      the answers of every request and that its client reads them. [Publish]: what a
      sequence of added posts leaves for others to fetch.
    - [Peer] (src/peer.go): the state of a whole node, peers by pointer, requests,
      mirroring; [MirrorProps]. [MirrorNet]: two nodes, the network of the one being the
      handlers of the other. [Index]: an abstract index of posts and the proof that an owner
      and a reader over the network implement it. [Gossip]: any number of nodes that
      announce themselves to one, and a node that resolves them through it.
    - [PeerManager] (src/peermanager.go), [SeedManager] (src/seedmanager.go), [NetMap]
      (src/netmap.go), with [PeerManagerProps], [SeedProps] (one search), [SeedJob] (the
      life of a manager), [NetMapProps].
    - [Explore] (the part of localpeer.go): what starts an exploration, what is done with
      an entry that it found, and the arrival of peers; [ExploreJob] (src/jobs/explore.go):
      its goroutines as steps over the two channels; [ExploreProps].
    - [CommandServer] (src/commandserver.go, commands.go, data/search.go), [CommandProps];
      [HttpServer] (src/httpserver.go): the routes and a handler for each; [HttpProps].
      [Commands] (src/commands.go): the commands as data, run and sent over HTTP.
    - [System]: the daemon as a sequence of requests, messages, connections and ticks.
    - [Daemon] (src/cmd/zifd/main.go, the start and end in localpeer.go): the disk, the key,
      the set up, main and Close; [DaemonProps]. [Outside] (src/tor.go, src/nat.go): the
      onion and the external address. [Config] (src/cmd/zifd/config.go and what it uses of
      src/vendor/.../viper): flags, file and defaults. [Life]: the whole of main with its
      interrupt, and the runs that follow each other on one disk.

    ** What the theorems show

    - Entries and addresses: what Verify accepts, that a signed entry is accepted, that
      the distance is a metric and the bucket index a common prefix, texts that decode
      back; that the address is not tied to the key, long keys panic and the signed bytes
      have no boundaries.
    - Hash table: the invariant of every reachable state, the absence of panics whatever
      statements fail, and which calls do panic; the bucket as a refinement of a
      least-recently-used list; insert and query; the search for close entries ends with
      stored or nil entries; saving and loading.
    - Posts: the invariant of the database, insertion, paging, pieces and their hashes,
      the round trip of a whole mirror, collections and their check; posts that are added
      are numbered, hashed, counted and signed for, up to the thousandth, which panics.
    - Network: a completed handshake proves possession of the key, and two honest ends
      complete it; over any announcements and queries of entries without seeds the clients
      of a peer see what an abstract directory of signed entries answers; on any network a
      resolved address is authentic, at most six peers are asked, and the recursion is
      never entered; the number of peers stays bounded while the two maps of the manager
      agree, and what happens when they do not; one session per socket; a mirror takes
      over only what was published, also before an error, and one that talks to a
      publisher's handlers ends with all of it, if no text has the separator of the stream;
      what nodes announce to a hub, a node connected to it resolves, the newest entry and
      from then on without asking; the pages of posts that a reader gets are those
      of an abstract index, whatever new posts the owner adds in between; every answer is of
      the type its client decodes; the map of the network is the reachable graph.
    - Goroutines: however the exploration interleaves, its channels stay bounded and free
      of the own entry and no sender is stuck for good, but a node that knows only itself
      never explores; a seed manager only adds seeds, and nothing after it is closed; the
      calls that a rate limiter lets through are at most the burst, the ticks and two.
    - The daemon as a whole keeps its identity and its databases through any events, and
      through any number of runs on one disk, closed, killed or failed, as long as the key
      can be read.
    - Commands: a field that is set is saved, signed and read back. HTTP: every request
      has one handler, every command is run by the request printed from it, bad numbers
      change nothing.
    - Daemon: the first start, with and without Tor, a restart that finds what was saved,
      where each setting comes from, and the configurations, files and names with which the
      start fails.
    - Errors that the code has are theorems too, listed as findings.

    ** Bounds and fuel

    [FindClosest_loop] has 162 rounds for 160 buckets; more change nothing, which is
    proved. [evict_loop] has a round for every peer; [CreateNetMap] has one level for
    every stored entry and one more; both are shown to be enough. [resolveStep] may nest
    seven times, one more than its depth, and is shown not to nest. [duet] runs two
    processes for 64 steps, which the handshake stays below.

    ** Not modelled

    Tickers and the waiting of the accept loops are left to the environment: the bodies
    they run are modelled, and the exploration and the seed managers with their channels.
    gzip, TOML and MessagePack are libraries, and so is JSON but for what it does to text;
    the entry of entry.json is kept as a value, a cut one counts as missing. Whether
    table.dat could be written, whose error the code drops, is left out. The goroutine of
    InsertPieces runs after the loop that feeds it. net/http gives a request as its method,
    path and form; the Tor control port and the web service of the external address are
    parameters. Of viper the search is modelled, not the reloading of a changed file. The
    counter of a mirror is stepped by the environment, as a goroutine sets it. Data races
    on the fields of the local peer are left out: the code between two uses of a channel or
    of the network runs as one step. Methods that only return a field or call the method
    of the same name of another component have no definition of their own.

    ** Beyond this

    The theorems on several nodes take turns at their requests: a step is one request with
    its answer. Interleaving the streams of one server, with the locks it takes, would need
    a finer step; posts beyond the thousandth are outside the index, as adding them panics. *)

From Stdlib Require Export ZArith Ascii String Lia List.
From stdpp Require Export base tactics list strings gmap option.
#[global] Open Scope Z_scope.

Declare Scope go_scope.
Delimit Scope go_scope with go.

(** ** Outcomes of Go code *)

(** The errors the code builds or compares: a text built by [errors.New] or
    [fmt.Errorf], the sentinel [sql.ErrNoRows], [io.EOF], and a failure the
    SQLite driver reports. *)
Inductive error :=
| ErrText (s : string)
| ErrNoRows
| ErrEOF
| ErrDriver.

#[global] Instance error_eq_dec : EqDecision error.
Proof. solve_decision. Defined.

(** A Go call returns, returns a non-nil error, or panics. *)
Inductive outcome (A : Type) :=
| Ok (a : A)
| Err (e : error)
| Panic.
Arguments Ok {A} _.
Arguments Err {A} _.
Arguments Panic {A}.

#[global] Instance outcome_ret : MRet outcome := @Ok.
#[global] Instance outcome_bind : MBind outcome := fun A B f o =>
  match o with Ok a => f a | Err e => Err e | Panic => Panic end.

(** Stateful Go code: state passing, with the three outcomes. An error or a
    panic keeps the writes made before it, as in the code. *)
Definition M (S A : Type) : Type := S -> S * outcome A.

#[global] Instance M_ret {S} : MRet (M S) := fun A a s => (s, Ok a).
#[global] Instance M_bind {S} : MBind (M S) := fun A B f m s =>
  match m s with
  | (s', Ok a) => f a s'
  | (s', Err e) => (s', Err e)
  | (s', Panic) => (s', Panic)
  end.

Definition get {S} : M S S := fun s => (s, Ok s).
Definition put {S} (s : S) : M S unit := fun _ => (s, Ok tt).
Definition modify {S} (f : S -> S) : M S unit := fun s => (f s, Ok tt).
Definition fail {S A} (e : error) : M S A := fun s => (s, Err e).
Definition lift {S A} (o : outcome A) : M S A := fun s => (s, o).

(** [v, err := c()] when the caller looks at [err] instead of returning it. *)
Definition try {S A} (m : M S A) : M S (A + error) := fun s =>
  match m s with
  | (s', Ok a) => (s', Ok (inl a))
  | (s', Err e) => (s', Ok (inr e))
  | (s', Panic) => (s', Panic)
  end.

(** [for _, x := range l { body }] over a list that the body cannot change. *)
Fixpoint for_each {S A} (l : list A) (body : A -> M S unit) : M S unit :=
  match l with
  | [] => mret tt
  | x :: l' => body x ≫= fun _ => for_each l' body
  end.

(** The code run on a part of a larger state. *)
Definition zoom {S T A} (proj : S -> T) (upd : T -> S -> S) (m : M T A) : M S A :=
  fun s => let '(t, o) := m (proj s) in (upd t s, o).

(** *** Reasoning about stateful code *)

(** [returns o Q]: no panic, and a value it returns satisfies [Q]. *)
Definition returns {A} (o : outcome A) (Q : A -> Prop) : Prop :=
  match o with Ok a => Q a | Err _ => True | Panic => False end.

(** [spec P m Q]: from a state with [P] the code does not panic, it ends in a
    state with [P] whether it returns a value or an error, and a value it returns
    satisfies [Q]. *)
Definition spec {S A} (P : S -> Prop) (m : M S A) (Q : A -> Prop) : Prop :=
  forall s, P s -> P (m s).1 /\ returns (m s).2 Q.

(** The invariant part alone. *)
Definition keeps {S A} (P : S -> Prop) (m : M S A) : Prop := spec P m (fun _ => True).

Section Specs.
Context {S : Type} (P : S -> Prop).

Lemma spec_ret {A} (a : A) (Q : A -> Prop) : Q a -> spec P (mret a) Q.
Proof. by intros HQ s Hs. Qed.

Lemma spec_fail {A} e (Q : A -> Prop) : spec P (fail e) Q.
Proof. by intros s Hs. Qed.

Lemma spec_lift {A} (o : outcome A) (Q : A -> Prop) : returns o Q -> spec P (lift o) Q.
Proof. by intros HQ s Hs. Qed.

Lemma spec_get : spec P get P.
Proof. by intros s Hs. Qed.

Lemma spec_bind {A B} (m : M S A) (f : A -> M S B) (Q : A -> Prop) (R : B -> Prop) :
  spec P m Q -> (forall a, Q a -> spec P (f a) R) -> spec P (m ≫= f) R.
Proof.
  intros Hm Hf s Hs. unfold mbind, M_bind. destruct (Hm s Hs) as [H1 H2].
  destruct (m s) as [s' [a|e|]]; cbn in *; try done. by apply Hf.
Qed.

Lemma spec_try {A} (m : M S A) (Q : A -> Prop) :
  spec P m Q -> spec P (try m) (fun r => match r with inl a => Q a | inr _ => True end).
Proof.
  intros Hm s Hs. unfold try. destruct (Hm s Hs) as [H1 H2].
  by destruct (m s) as [s' [a|e|]].
Qed.

Lemma spec_weaken {A} (m : M S A) (Q R : A -> Prop) :
  spec P m Q -> (forall a, Q a -> R a) -> spec P m R.
Proof.
  intros Hm HQR s Hs. destruct (Hm s Hs) as [H1 H2]. split; [done|].
  destruct ((m s).2); cbn in *; eauto.
Qed.

Lemma spec_for_each {A} (l : list A) body :
  (forall x, x ∈ l -> keeps P (body x)) -> keeps P (for_each l body).
Proof.
  induction l as [|x l IH]; intros Hb; [by apply spec_ret|]. cbn.
  eapply spec_bind; [apply Hb; set_solver|]. intros _ _. apply IH. set_solver.
Qed.

Lemma keeps_bind {A B} (m : M S A) (f : A -> M S B) :
  keeps P m -> (forall a, keeps P (f a)) -> keeps P (m ≫= f).
Proof. intros Hm Hf. eapply spec_bind; [exact Hm|]. intros a _. apply Hf. Qed.

Lemma keeps_try {A} (m : M S A) : keeps P m -> keeps P (try m).
Proof. intros Hm. eapply spec_weaken; [by apply spec_try|]. done. Qed.

Lemma spec_keeps {A} (m : M S A) (Q : A -> Prop) : spec P m Q -> keeps P m.
Proof. intros Hm. by eapply spec_weaken. Qed.

Lemma keeps_modify (f : S -> S) : (forall s, P s -> P (f s)) -> keeps P (modify f).
Proof. intros Hf s Hs. split; [by apply Hf|done]. Qed.

Lemma keeps_ret {A} (a : A) : keeps P (mret a).
Proof. by apply spec_ret. Qed.

Lemma keeps_fail {A} e : keeps P (fail e : M S A).
Proof. apply spec_fail. Qed.

Lemma keeps_lift {A} (o : outcome A) : o <> Panic -> keeps P (lift o).
Proof. intros Ho. apply spec_lift. by destruct o. Qed.

(** Code on a part of the state, when the rest of the invariant only needs the
    part to stay in [R]. *)
Lemma spec_zoom {T A} (proj : S -> T) (upd : T -> S -> S) (R : T -> Prop) (m : M T A) Q :
  spec R m Q -> (forall s, P s -> R (proj s)) -> (forall s t, P s -> R t -> P (upd t s)) ->
  spec P (zoom proj upd m) Q.
Proof.
  intros Hm Hp Hu s Hs. destruct (Hm (proj s) (Hp s Hs)) as [H1 H2]. unfold zoom.
  destruct (m (proj s)) as [t o]. cbn in *. auto.
Qed.
End Specs.

(** The weaker claim that allows a panic: the state it leaves satisfies [P]. *)
Definition preserves {S A} (P : S -> Prop) (m : M S A) : Prop := forall s, P s -> P (m s).1.

Section Preserves.
Context {S : Type} (P : S -> Prop).

Lemma keeps_preserves {A} (m : M S A) : keeps P m -> preserves P m.
Proof. intros Hm s Hs. by apply Hm. Qed.

Lemma preserves_bind {A B} (m : M S A) (f : A -> M S B) :
  preserves P m -> (forall a, preserves P (f a)) -> preserves P (m ≫= f).
Proof.
  intros Hm Hf s Hs. unfold mbind, M_bind. specialize (Hm s Hs).
  destruct (m s) as [s' [a|e|]]; [by apply Hf|done|done].
Qed.

Lemma preserves_bind_get {B} (f : S -> M S B) :
  (forall s, P s -> preserves P (f s)) -> preserves P (get ≫= f).
Proof. intros Hf s Hs. by apply (Hf s). Qed.

Lemma preserves_try {A} (m : M S A) : preserves P m -> preserves P (try m).
Proof. intros Hm s Hs. unfold try. specialize (Hm s Hs). by destruct (m s) as [s' [a|e|]]. Qed.

Lemma preserves_pure {A} (o : outcome A) : preserves P (lift o).
Proof. by intros s Hs. Qed.

Lemma preserves_ret {A} (a : A) : preserves P (mret a).
Proof. by intros s Hs. Qed.

Lemma preserves_fail {A} e : preserves P (fail e : M S A).
Proof. by intros s Hs. Qed.

Lemma preserves_modify (f : S -> S) : (forall s, P s -> P (f s)) -> preserves P (modify f).
Proof. intros Hf s Hs. by apply Hf. Qed.

Lemma preserves_for_each {A} (l : list A) body :
  (forall x, preserves P (body x)) -> preserves P (for_each l body).
Proof.
  intros Hb. induction l as [|x l IH]; [by intros s Hs|]. cbn. by apply preserves_bind.
Qed.
End Preserves.

(** Running a sequence forwards. *)
Section Running.
Context {S A B : Type}.

Lemma run_bind (m : M S A) (f : A -> M S B) s s' a : m s = (s', Ok a) -> (m ≫= f) s = f a s'.
Proof. intros E. unfold mbind, M_bind. by rewrite E. Qed.

Lemma run_bind_Err (m : M S A) (f : A -> M S B) s s' e : m s = (s', Err e) -> (m ≫= f) s = (s', Err e).
Proof. intros E. unfold mbind, M_bind. by rewrite E. Qed.

Lemma run_get (f : S -> M S B) s : (get ≫= f) s = f s s.
Proof. done. Qed.

Lemma run_put (f : unit -> M S B) s s' : (put s' ≫= f) s = f tt s'.
Proof. done. Qed.

Lemma run_modify (g : S -> S) (f : unit -> M S B) s : (modify g ≫= f) s = f tt (g s).
Proof. done. Qed.

Lemma run_ret (a : A) (f : A -> M S B) s : (mret a ≫= f) s = f a s.
Proof. done. Qed.

Lemma run_lift (o : outcome A) (f : A -> M S B) s a : o = Ok a -> (lift o ≫= f) s = f a s.
Proof. by intros ->. Qed.

Lemma run_try (m : M S A) (f : A + error -> M S B) s s' a :
  m s = (s', Ok a) -> (try m ≫= f) s = f (inl a) s'.
Proof. intros E. unfold mbind, M_bind, try. by rewrite E. Qed.

Lemma run_try_Err (m : M S A) (f : A + error -> M S B) s s' e :
  m s = (s', Err e) -> (try m ≫= f) s = f (inr e) s'.
Proof. intros E. unfold mbind, M_bind, try. by rewrite E. Qed.
End Running.

Lemma bind_Ok {S A B} (m : M S A) (f : A -> M S B) s s' b :
  (m ≫= f) s = (s', Ok b) ->
  exists s1 a, m s = (s1, Ok a) /\ f a s1 = (s', Ok b).
Proof.
  unfold mbind, M_bind. destruct (m s) as [s1 [a|e|]]; intros H; simplify_eq; eauto.
Qed.

Lemma obind_Ok {A B} (o : outcome A) (f : A -> outcome B) b :
  (o ≫= f) = Ok b -> exists a, o = Ok a /\ f a = Ok b.
Proof. destruct o; cbn; intros; simplify_eq; eauto. Qed.

Lemma pair_surj {A B} (x : A * B) y : x.2 = y -> x = (x.1, y).
Proof. destruct x. by intros <-. Qed.

(** ** Bytes and strings *)

(** A Go byte is an [ascii], a byte slice a [list ascii], a Go string (a byte
    sequence) a [string]; [string_of_list_ascii] and [list_ascii_of_string]
    are Go's conversions between the last two. *)
Abbreviation byte := ascii.
Abbreviation bytes := (list ascii).
Abbreviation to_string := string_of_list_ascii.
Abbreviation to_bytes := list_ascii_of_string.

Definition bval (b : byte) : Z := Z.of_N (N_of_ascii b).
Definition byte_of (z : Z) : byte := ascii_of_N (Z.to_N (z mod 256)).

Lemma bval_range b : 0 <= bval b < 256.
Proof. unfold bval. pose proof (N_ascii_bounded b). lia. Qed.

Lemma bval_byte_of z : bval (byte_of z) = z mod 256.
Proof.
  unfold bval, byte_of. pose proof (Z.mod_pos_bound z 256).
  rewrite N_ascii_embedding by lia. lia.
Qed.

Lemma byte_of_bval b : byte_of (bval b) = b.
Proof.
  unfold bval, byte_of. pose proof (N_ascii_bounded b).
  rewrite Z.mod_small by lia. rewrite N2Z.id. apply ascii_N_embedding.
Qed.

#[global] Instance bval_inj : Inj (=) (=) bval.
Proof. intros a b H. rewrite <-(byte_of_bval a), H. apply byte_of_bval. Qed.

(** The length of a Go string. *)
Definition slen (s : string) : nat := length (to_bytes s).

Lemma to_string_inj (a b : bytes) : to_string a = to_string b -> a = b.
Proof.
  intros H. by rewrite <-(list_ascii_of_string_of_list_ascii a), H,
    list_ascii_of_string_of_list_ascii.
Qed.

Lemma to_bytes_inj (a b : string) : to_bytes a = to_bytes b -> a = b.
Proof.
  intros H. by rewrite <-(string_of_list_ascii_of_string a), H,
    string_of_list_ascii_of_string.
Qed.

Lemma to_bytes_app (a b : string) : to_bytes (a +:+ b) = to_bytes a ++ to_bytes b.
Proof.
  induction a as [|c a IH]; [done|].
  change (c :: to_bytes (a +:+ b) = c :: (to_bytes a ++ to_bytes b)). by rewrite IH.
Qed.

(** ** Go integers: the wrap-around of the fixed-width types *)

Definition wrap64 (z : Z) : Z := z mod 2 ^ 64.
Definition to_int64 (z : Z) : Z :=
  let w := z mod 2 ^ 64 in if w <? 2 ^ 63 then w else w - 2 ^ 64.

Lemma to_int64_id z : - 2 ^ 63 <= z < 2 ^ 63 -> to_int64 z = z.
Proof.
  intros H. unfold to_int64.
  destruct (Z.le_gt_cases 0 z).
  - rewrite Z.mod_small by lia. case_match; lia.
  - assert (z mod 2 ^ 64 = z + 2 ^ 64) as ->.
    { symmetry. apply Z.mod_unique with (-1); lia. }
    case_match; lia.
Qed.

(** ** Lists *)

(** The Go expression [l[lo:hi]] on a slice without spare capacity. *)
Definition slice {A} (l : list A) (lo hi : Z) : outcome (list A) :=
  if bool_decide (0 <= lo /\ lo <= hi /\ hi <= Z.of_nat (length l))
  then Ok (take (Z.to_nat (hi - lo)) (drop (Z.to_nat lo) l)) else Panic.

Lemma lookup_map {A B} (f : A -> B) l (i : nat) : map f l !! i = f <$> l !! i.
Proof. apply list_lookup_fmap. Qed.

Lemma map_insert {A B} (f : A -> B) l (i : nat) x : map f (<[i := x]> l) = <[i := f x]> (map f l).
Proof. apply list_fmap_insert. Qed.

(** The last [n] elements removed. *)
Definition drop_last {A} (n : nat) (l : list A) : list A := take (length l - n) l.

Lemma drop_last_app {A} (l k : list A) : drop_last (length k) (l ++ k) = l.
Proof. unfold drop_last. rewrite length_app, take_app_le, take_ge by lia. done. Qed.

(** ** Automation *)

Create HintDb zif.
#[export] Hint Resolve keeps_ret keeps_fail keeps_try keeps_modify : zif.

(** Splits a [keeps] goal along the binds and case distinctions of the code. *)
Ltac keeps_step :=
  match goal with
  | |- keeps _ (mbind _ _) => apply keeps_bind; [|intros ?]
  | |- keeps _ (match ?x with _ => _ end) => destruct x eqn:?
  | |- keeps _ (for_each _ _) => apply spec_for_each; intros ? ?
  | |- keeps _ _ => solve [eauto with zif]
  end.
Ltac keeps_tac := repeat keeps_step.

#[export] Hint Resolve preserves_ret preserves_fail preserves_pure preserves_try : zif.
Ltac preserves_step :=
  match goal with
  | |- preserves _ (mbind _ get) => apply preserves_bind_get; intros ? ?
  | |- preserves _ (mbind _ _) => apply preserves_bind; [|intros ?]
  | |- preserves _ (match ?x with _ => _ end) => destruct x eqn:?
  | |- preserves _ (for_each _ _) => apply preserves_for_each; intros ?
  | |- preserves _ (try _) => apply preserves_try
  | |- preserves _ _ => solve [eauto with zif]
  end.
Ltac preserves_tac := repeat preserves_step.
