(* ===== verification/GoLib.v ===== *)
(** The parts of the Go standard library that the code uses: positional
    numerals (shared by [strconv] and [math/big]), [strconv.Itoa] and
    [strconv.Atoi], the conversion [string(int)], big-endian byte strings
    ([big.Int.SetBytes], [big.Int.Bytes]), and what [encoding/json] does to text that is
    not UTF-8. *)

From S2P Require Import Prelude.

(** ** Positional numerals *)

(** The digits of [n] in base [b], least significant first, at most [fuel]. *)
Fixpoint digits (b : Z) (fuel : nat) (n : Z) : list Z :=
  match fuel with
  | O => []
  | S f => if n <=? 0 then [] else n mod b :: digits b f (n / b)
  end.

(** Enough fuel for any base from 2 on: one step per bit. *)
Definition digit_fuel (n : Z) : nat := Z.to_nat (Z.log2 n + 1).

(** Most significant digit first; the numeral of 0 is empty. *)
Definition numeral (b n : Z) : list Z := rev (digits b (digit_fuel n) n).

(** Horner evaluation, most significant digit first. *)
Definition value (b : Z) (l : list Z) : Z := fold_left (fun acc d => acc * b + d) l 0.

Section Numerals.
Context (b : Z) (Hb : 2 <= b).

Lemma value_snoc l d : value b (l ++ [d]) = value b l * b + d.
Proof. unfold value. by rewrite fold_left_app. Qed.

Lemma value_app l k : value b (l ++ k) = value b l * b ^ Z.of_nat (length k) + value b k.
Proof.
  induction k as [|d k IH] using rev_ind.
  - rewrite app_nil_r. cbn. lia.
  - rewrite app_assoc, !value_snoc, IH, length_app, Nat2Z.inj_add, Z.pow_add_r by lia.
    cbn [length]. change (Z.of_nat 1) with 1. rewrite Z.pow_1_r. ring.
Qed.

Lemma value_cons d l : value b (d :: l) = d * b ^ Z.of_nat (length l) + value b l.
Proof. change (d :: l) with ([d] ++ l). rewrite value_app. cbn. lia. Qed.

Lemma value_bound l :
  Forall (fun d => 0 <= d < b) l -> 0 <= value b l < b ^ Z.of_nat (length l).
Proof.
  induction l as [|d l IH] using rev_ind; intros H; [cbn; lia|].
  apply Forall_app in H as [H1 H2]. apply Forall_cons_1 in H2 as [Hd _].
  rewrite value_snoc, length_app, Nat2Z.inj_add, Z.pow_add_r by lia.
  cbn [length]. change (Z.of_nat 1) with 1. rewrite Z.pow_1_r.
  specialize (IH H1). nia.
Qed.

Lemma digits_range f n : Forall (fun d => 0 <= d < b) (digits b f n).
Proof.
  revert n. induction f as [|f IH]; intros n; cbn; [constructor|].
  case_match; [constructor|]. constructor; [|apply IH].
  apply Z.mod_pos_bound. lia.
Qed.

Lemma numeral_range n : Forall (fun d => 0 <= d < b) (numeral b n).
Proof. unfold numeral. apply Forall_rev, digits_range. Qed.

Lemma value_digits f n : 0 <= n < b ^ Z.of_nat f -> value b (rev (digits b f n)) = n.
Proof.
  revert n. induction f as [|f IH]; intros n Hn; cbn [digits].
  - cbn in *. lia.
  - destruct (Z.leb_spec n 0); [cbn; lia|]. cbn [rev]. rewrite value_snoc, IH.
    + pose proof (Z.div_mod n b). lia.
    + rewrite Nat2Z.inj_succ, Z.pow_succ_r in Hn by lia.
      split; [apply Z.div_pos; lia|]. apply Z.div_lt_upper_bound; lia.
Qed.

Lemma digit_fuel_enough n : 0 <= n -> n < b ^ Z.of_nat (digit_fuel n).
Proof.
  intros Hn. unfold digit_fuel. pose proof (Z.log2_nonneg n).
  rewrite Z2Nat.id by lia.
  destruct (Z.eq_dec n 0) as [->|Hz].
  - apply Z.pow_pos_nonneg; cbn; lia.
  - destruct (Z.log2_spec n) as [_ Hlt]; [lia|].
    eapply Z.lt_le_trans; [exact Hlt|]. rewrite <-Z.add_1_r.
    apply Z.pow_le_mono_l. lia.
Qed.

(** Printing then evaluating gives the number back. *)
Lemma value_numeral n : 0 <= n -> value b (numeral b n) = n.
Proof. intros. apply value_digits. split; [done|]. by apply digit_fuel_enough. Qed.

Lemma digits_value f l :
  Forall (fun d => 0 <= d < b) l -> hd 0 l <> 0 ->
  value b l < b ^ Z.of_nat f -> digits b f (value b l) = rev l.
Proof.
  revert f. induction l as [|d l IH] using rev_ind; intros f H Hh Hf; [done|].
  apply Forall_app in H as [H1 H2]. apply Forall_cons_1 in H2 as [Hd _].
  pose proof (value_bound l H1) as Hl. rewrite value_snoc in *.
  assert (0 < value b l * b + d) as Hpos.
  { destruct l as [|x l]; [cbn in *; lia|].
    cbn in Hh. rewrite value_cons in *. apply Forall_cons_1 in H1 as [? H1].
    pose proof (value_bound l H1). pose proof (Z.pow_pos_nonneg b (Z.of_nat (length l))). nia. }
  destruct f as [|f]; [cbn in Hf; lia|]. cbn [digits].
  destruct (Z.leb_spec (value b l * b + d) 0); [lia|].
  rewrite rev_app_distr. cbn [rev app]. f_equal.
  - rewrite Z.add_comm, Z.mod_add by lia. apply Z.mod_small. lia.
  - rewrite Z.div_add_l, (Z.div_small d), Z.add_0_r by lia.
    destruct l as [|x l]; [by destruct f|].
    apply IH; [done|done|].
    rewrite Nat2Z.inj_succ, Z.pow_succ_r in Hf by lia. nia.
Qed.

(** Evaluating a numeral with no leading zero then printing gives it back. *)
Lemma numeral_value l :
  Forall (fun d => 0 <= d < b) l -> hd 0 l <> 0 -> numeral b (value b l) = l.
Proof.
  intros H Hh. unfold numeral. rewrite digits_value; [apply rev_involutive|done|done|].
  apply digit_fuel_enough. by apply value_bound.
Qed.

(** The numeral of a positive number does not start with a zero. *)
Lemma numeral_head n : 0 < n -> exists d l, numeral b n = d :: l /\ d <> 0.
Proof.
  intros Hn. unfold numeral.
  cut (forall f m, 0 < m < b ^ Z.of_nat f ->
         exists l d, digits b f m = l ++ [d] /\ d <> 0).
  { intros Hc. destruct (Hc (digit_fuel n) n) as (l & d & E & Hd).
    { split; [done|]. apply digit_fuel_enough. lia. }
    rewrite E, rev_app_distr. cbn. eauto. }
  induction f as [|f IH]; intros m Hm; [cbn in Hm; lia|]. cbn [digits].
  destruct (Z.leb_spec m 0); [lia|].
  rewrite Nat2Z.inj_succ, Z.pow_succ_r in Hm by lia.
  destruct (Z.le_gt_cases b m) as [Hle|Hlt].
  - destruct (IH (m / b)) as (l & d & E & Hd).
    { split; [apply Z.div_str_pos; lia|]. apply Z.div_lt_upper_bound; lia. }
    rewrite E. exists (m mod b :: l), d. done.
  - rewrite Z.div_small, Z.mod_small by lia.
    exists [], m. split; [by destruct f|lia].
Qed.

Lemma pow_gap (i j : nat) : (i < j)%nat -> b * b ^ Z.of_nat i <= b ^ Z.of_nat j.
Proof.
  intros H. rewrite <-Z.pow_succ_r by lia. apply Z.pow_le_mono_r; lia.
Qed.

(** A number between [d * b^k] and [(d+1) * b^k] has [k+1] digits, [d] first. *)
Lemma numeral_leading n d k :
  0 < d < b -> d * b ^ Z.of_nat k <= n < (d + 1) * b ^ Z.of_nat k ->
  exists l, numeral b n = d :: l /\ length l = k.
Proof.
  intros Hd Hn. assert (0 < b ^ Z.of_nat k) as Hp by (apply Z.pow_pos_nonneg; lia).
  destruct (numeral_head n) as (x & l & E & Hx); [nia|].
  pose proof (numeral_range n) as Hr. rewrite E in Hr.
  apply Forall_cons_1 in Hr as [Hxr Hlr].
  pose proof (value_numeral n) as Hv. rewrite E, value_cons in Hv.
  pose proof (value_bound l Hlr) as Hl. rewrite <-Hv in Hn by nia. clear Hv.
  pose proof (Z.pow_pos_nonneg b (Z.of_nat (length l))) as Hq.
  assert (length l = k) as Hlen.
  { destruct (Nat.lt_trichotomy (length l) k) as [H|[H|H]]; [exfalso|done|exfalso].
    - pose proof (pow_gap (length l) k H). nia.
    - pose proof (pow_gap k (length l) H). nia. }
  exists l. split; [|done]. rewrite E. f_equal. rewrite Hlen in *.
  clear Hq. set (q := b ^ Z.of_nat k) in *. 
  assert (x < d + 1) by (apply (Z.mul_lt_mono_pos_r q); lia).
  assert (d < x + 1) by (apply (Z.mul_lt_mono_pos_r q); lia). lia.
Qed.

End Numerals.

(** ** [math/big]: big-endian byte strings *)

(** [big.Int.SetBytes]. *)
Definition be_val (l : bytes) : Z := value 256 (map bval l).

(** [big.Int.Bytes]: no leading zero byte, empty for 0. *)
Definition be_bytes (n : Z) : bytes := map byte_of (numeral 256 n).

Lemma map_byte_of_bval (l : bytes) : map byte_of (map bval l) = l.
Proof.
  rewrite map_map. rewrite <-(map_id l) at 2. apply map_ext. apply byte_of_bval.
Qed.

Lemma map_bval_range (l : bytes) : Forall (fun d => 0 <= d < 256) (map bval l).
Proof. apply Forall_map, Forall_true. intros c. apply bval_range. Qed.

Lemma be_bytes_val (c : byte) (l : bytes) :
  bval c <> 0 -> be_bytes (be_val (c :: l)) = c :: l.
Proof.
  intros Hc. unfold be_bytes, be_val. rewrite numeral_value; [|lia| |].
  - apply (map_byte_of_bval (c :: l)).
  - apply map_bval_range.
  - exact Hc.
Qed.

Lemma be_val_app l k : be_val (l ++ k) = be_val l * 256 ^ Z.of_nat (length k) + be_val k.
Proof. unfold be_val. by rewrite map_app, value_app, length_map by lia. Qed.

Lemma be_val_cons c l : be_val (c :: l) = bval c * 256 ^ Z.of_nat (length l) + be_val l.
Proof. unfold be_val. cbn [map]. by rewrite value_cons, length_map by lia. Qed.

Lemma be_val_bound l : 0 <= be_val l < 256 ^ Z.of_nat (length l).
Proof.
  unfold be_val. rewrite <-(length_map bval l). apply value_bound; [lia|].
  apply map_bval_range.
Qed.

Lemma be_val_inj l k : length l = length k -> be_val l = be_val k -> l = k.
Proof.
  revert k. induction l as [|c l IH]; intros [|d k] Hlen Heq; try done.
  rewrite !be_val_cons in Heq. cbn in Hlen. injection Hlen as Hlen.
  rewrite Hlen in Heq.
  pose proof (be_val_bound l) as Hl. pose proof (be_val_bound k) as Hk. rewrite Hlen in Hl.
  assert (bval c = bval d) as Hcd by nia.
  f_equal; [by apply (inj bval)|]. apply IH; [done|]. rewrite Hcd in Heq. lia.
Qed.

(** ** [strconv] *)

Definition digit_char (d : Z) : byte := byte_of (48 + d).

(** [strconv.Itoa]. *)
Definition Itoa (z : Z) : string :=
  if z =? 0 then "0"%string
  else if z <? 0 then String "-" (to_string (map digit_char (numeral 10 (- z))))
  else to_string (map digit_char (numeral 10 z)).

Definition char_digit (c : byte) : option Z :=
  let v := bval c in if (48 <=? v) && (v <=? 57) then Some (v - 48) else None.

(** The digits of a decimal literal; [None] for an empty one or a bad byte. *)
Definition parse_digits (l : bytes) : option Z :=
  match l with
  | [] => None
  | _ => value 10 <$> mapM char_digit l
  end.

(** [strconv.Atoi] on a 64-bit platform; [None] is a syntax or range error. *)
Definition Atoi (s : string) : option Z :=
  let in_range z := if (- 2 ^ 63 <=? z) && (z <? 2 ^ 63) then Some z else None in
  match to_bytes s with
  | "-"%char :: l => ((fun v => - v) <$> parse_digits l) ≫= in_range
  | "+"%char :: l => parse_digits l ≫= in_range
  | l => parse_digits l ≫= in_range
  end.

Lemma bval_digit_char d : 0 <= d < 10 -> bval (digit_char d) = 48 + d.
Proof. intros. unfold digit_char. rewrite bval_byte_of, Z.mod_small by lia. done. Qed.

Lemma char_digit_digit_char d : 0 <= d < 10 -> char_digit (digit_char d) = Some d.
Proof.
  intros Hd. unfold char_digit. rewrite bval_digit_char by lia.
  destruct (Z.leb_spec 48 (48 + d)); [|lia]. destruct (Z.leb_spec (48 + d) 57); [|lia].
  cbn. f_equal. lia.
Qed.

Lemma mapM_char_digit l :
  Forall (fun d => 0 <= d < 10) l -> mapM char_digit (map digit_char l) = Some l.
Proof.
  induction 1 as [|x k Hx _ IH]; [done|]. cbn. by rewrite char_digit_digit_char, IH.
Qed.

Lemma parse_digits_numeral n :
  0 < n -> parse_digits (map digit_char (numeral 10 n)) = Some n.
Proof.
  intros Hn. destruct (numeral_head 10 ltac:(lia) n Hn) as (d & l & E & _).
  pose proof (mapM_char_digit _ (numeral_range 10 ltac:(lia) n)) as Hm.
  unfold parse_digits. rewrite Hm, E. cbn [map]. rewrite <-E. cbn [fmap option_fmap option_map].
  f_equal. apply value_numeral; lia.
Qed.

Lemma digit_char_not_sign d : 0 <= d < 10 -> digit_char d <> "-"%char /\ digit_char d <> "+"%char.
Proof.
  intros Hd. pose proof (bval_digit_char d Hd) as Hv.
  assert (bval "-"%char = 45 /\ bval "+"%char = 43) as [? ?] by done.
  split; intros Hc; rewrite Hc in Hv; lia.
Qed.

(** [strconv.Atoi] reads back what [strconv.Itoa] prints, on every 64-bit int. *)
Lemma Atoi_Itoa z : - 2 ^ 63 <= z < 2 ^ 63 -> Atoi (Itoa z) = Some z.
Proof.
  intros Hz. unfold Atoi, Itoa.
  destruct (Z.eqb_spec z 0) as [->|Hnz]; [done|].
  destruct (Z.ltb_spec z 0).
  - cbn [list_ascii_of_string]. rewrite list_ascii_of_string_of_list_ascii.
    rewrite parse_digits_numeral by lia. cbn [fmap option_fmap option_map mbind option_bind].
    rewrite Z.opp_involutive.
    destruct (Z.leb_spec (- 2 ^ 63) z); [|lia]. destruct (Z.ltb_spec z (2 ^ 63)); [done|lia].
  - rewrite list_ascii_of_string_of_list_ascii.
    pose proof (parse_digits_numeral z ltac:(lia)) as Hp.
    destruct (numeral_head 10 ltac:(lia) z ltac:(lia)) as (d & l & E & _).
    pose proof (numeral_range 10 ltac:(lia) z) as Hr. rewrite E in Hr, Hp |- *.
    apply Forall_cons_1 in Hr as [Hd _]. cbn [map] in *.
    destruct (digit_char_not_sign d Hd) as [Hm Hpl].
    assert ((parse_digits (digit_char d :: map digit_char l) ≫=
       fun z0 => if (- 2 ^ 63 <=? z0) && (z0 <? 2 ^ 63) then Some z0 else None) = Some z) as Hfin.
    { rewrite Hp. cbn [mbind option_bind].
      destruct (Z.leb_spec (- 2 ^ 63) z); [|lia]. destruct (Z.ltb_spec z (2 ^ 63)); [done|lia]. }
    revert Hfin Hm Hpl. generalize (digit_char d) as c.
    intros [[] [] [] [] [] [] [] []] Hfin Hm Hpl; first [exact Hfin | congruence].
Qed.

(** No digit or sign is the separator of the wire formats. *)
Lemma Itoa_chars z c : c ∈ to_bytes (Itoa z) -> c = "-"%char \/ 48 <= bval c <= 57.
Proof.
  assert (forall n, c ∈ map digit_char (numeral 10 n) -> 48 <= bval c <= 57) as Hn.
  { intros n Hc. apply list_elem_of_In, in_map_iff in Hc as (d & <- & Hd).
    pose proof (numeral_range 10 ltac:(lia) n) as Hr.
    rewrite List.Forall_forall in Hr. specialize (Hr d Hd). rewrite bval_digit_char; lia. }
  unfold Itoa. case_match; [|case_match].
  - cbn. intros Hc. apply list_elem_of_singleton in Hc as ->. right. done.
  - cbn. rewrite list_ascii_of_string_of_list_ascii, elem_of_cons. naive_solver.
  - rewrite list_ascii_of_string_of_list_ascii. eauto.
Qed.

(** ** The conversion [string(i)] of an integer: the UTF-8 form of the rune *)

Definition rune_valid (r : Z) : bool :=
  (0 <=? r) && (r <=? 1114111) && negb ((55296 <=? r) && (r <=? 57343)).

Definition utf8_encode (r : Z) : bytes :=
  if r <? 128 then [byte_of r]
  else if r <? 2048 then [byte_of (192 + r / 64); byte_of (128 + r mod 64)]
  else if r <? 65536 then
    [byte_of (224 + r / 4096); byte_of (128 + r / 64 mod 64); byte_of (128 + r mod 64)]
  else [byte_of (240 + r / 262144); byte_of (128 + r / 4096 mod 64);
        byte_of (128 + r / 64 mod 64); byte_of (128 + r mod 64)].

(** Out of range or a surrogate: the replacement character U+FFFD. *)
Definition string_of_int (i : Z) : string :=
  to_string (if rune_valid i then utf8_encode i else utf8_encode 65533).

Definition utf8_decode (l : bytes) : Z :=
  match map bval l with
  | [a] => a
  | [a; b] => (a - 192) * 64 + (b - 128)
  | [a; b; c] => (a - 224) * 4096 + (b - 128) * 64 + (c - 128)
  | [a; b; c; d] => (a - 240) * 262144 + (b - 128) * 4096 + (c - 128) * 64 + (d - 128)
  | _ => -1
  end.

Lemma utf8_decode_encode r : 0 <= r <= 1114111 -> utf8_decode (utf8_encode r) = r.
Proof.
  intros Hr. unfold utf8_encode.
  repeat case_match; cbn [utf8_decode map]; unfold utf8_decode; cbn [map];
    rewrite ?bval_byte_of;
    repeat match goal with H : (_ <? _) = true |- _ => apply Z.ltb_lt in H
                         | H : (_ <? _) = false |- _ => apply Z.ltb_ge in H end;
    Z.to_euclidean_division_equations; lia.
Qed.

Lemma string_of_int_inj a b :
  rune_valid a = true -> rune_valid b = true -> string_of_int a = string_of_int b -> a = b.
Proof.
  unfold string_of_int. intros Ha Hb. rewrite Ha, Hb. intros H%to_string_inj.
  unfold rune_valid in *.
  assert (0 <= a <= 1114111 /\ 0 <= b <= 1114111) as [? ?] by lia.
  rewrite <-(utf8_decode_encode a), <-(utf8_decode_encode b), H by lia. done.
Qed.

(** ** Text that goes through JSON *)

(** The size of the rune at the start of [l] (the table of unicode/utf8); 0 for a byte
    that starts none. *)
Definition within (lo hi : Z) (c : byte) : bool := (lo <=? bval c) && (bval c <=? hi).
Definition rune_size (l : bytes) : nat :=
  match l with
  | [] => 0%nat
  | a :: l1 =>
      let v := bval a in
      if v <? 128 then 1%nat
      else if within 194 223 a then
        match l1 with b :: _ => if within 128 191 b then 2%nat else 0%nat | _ => 0%nat end
      else if within 224 239 a then
        match l1 with
        | b :: c :: _ =>
            if within (if v =? 224 then 160 else 128) (if v =? 237 then 159 else 191) b && within 128 191 c then 3%nat else 0%nat
        | _ => 0%nat
        end
      else if within 240 244 a then
        match l1 with
        | b :: c :: d :: _ =>
            if within (if v =? 240 then 144 else 128) (if v =? 244 then 143 else 191) b &&
               within 128 191 c && within 128 191 d then 4%nat else 0%nat
        | _ => 0%nat
        end
      else 0%nat
  end.

(** Each byte that belongs to no rune becomes U+FFFD; [skip] bytes of the last rune are
    still to come. *)
Fixpoint utf8_fix_from (skip : nat) (l : bytes) : bytes :=
  match l with
  | [] => []
  | a :: l' =>
      match skip with
      | S k => a :: utf8_fix_from k l'
      | O => match rune_size l with
             | O => utf8_encode 65533 ++ utf8_fix_from O l'
             | S k => a :: utf8_fix_from k l'
             end
      end
  end.
Definition json_string (s : string) : string := to_string (utf8_fix_from 0 (to_bytes s)).

Lemma utf8_fix_ascii l : Forall (fun c => bval c < 128) l -> utf8_fix_from 0 l = l.
Proof.
  induction 1 as [|c l Hc _ IH]; [done|]. cbn [utf8_fix_from rune_size].
  rewrite (proj2 (Z.ltb_lt _ _) Hc). by rewrite IH.
Qed.
Lemma json_string_ascii s : Forall (fun c => bval c < 128) (to_bytes s) -> json_string s = s.
Proof. intros H. unfold json_string. by rewrite utf8_fix_ascii, string_of_list_ascii_of_string. Qed.

Example json_string_1 : json_string (to_string [byte_of 195; byte_of 169; byte_of 255]) =
  to_string [byte_of 195; byte_of 169; byte_of 239; byte_of 191; byte_of 189].
Proof. reflexivity. Qed.
