(* ===== verification/HttpLib.v ===== *)
(** What the HTTP server uses of its libraries: the standard Base64 encoding
    ([encoding/base64]) and the router of gorilla/mux as it is set up by
    [ListenHttp]: canonical paths, templates with variables, redirects to the path
    with its slash. *)

From S2P Require Import Prelude GoLib.

(** ** Base64 *)

Definition base64_alphabet : bytes :=
  to_bytes "ABCDEFGHIJKLMNOPQRSTUVWXYZabcdefghijklmnopqrstuvwxyz0123456789+/".

Definition base64_char (v : Z) : byte := nth (Z.to_nat v) base64_alphabet "="%char.

(** The value of a character, none outside the alphabet. *)
Definition base64_value (c : byte) : option Z :=
  let v := bval c in
  if (65 <=? v) && (v <=? 90) then Some (v - 65)
  else if (97 <=? v) && (v <=? 122) then Some (v - 71)
  else if (48 <=? v) && (v <=? 57) then Some (v + 4)
  else if v =? 43 then Some 62
  else if v =? 47 then Some 63
  else None.

(** Four characters to three bytes; two with "==", three with "=" end the input. *)
Fixpoint base64_quanta (l : bytes) : option bytes :=
  match l with
  | [] => Some []
  | a :: b :: c :: d :: rest =>
      va ← base64_value a; vb ← base64_value b;
      let b1 := byte_of (va * 4 + vb / 16) in
      if Ascii.eqb d "=" && bool_decide (rest = []) then
        if Ascii.eqb c "=" then Some [b1]
        else vc ← base64_value c; Some [b1; byte_of (vb * 16 + vc / 4)]
      else
        vc ← base64_value c; vd ← base64_value d;
        more ← base64_quanta rest;
        Some (b1 :: byte_of (vb * 16 + vc / 4) :: byte_of (vc * 64 + vd) :: more)
  | _ => None
  end.

(** [StdEncoding.DecodeString]: line ends are skipped. *)
Definition base64_DecodeString (s : string) : option bytes :=
  base64_quanta (filter (fun c => ~ (c = "010"%char \/ c = "013"%char)) (to_bytes s)).

(** [StdEncoding.EncodeToString], which a caller of the server uses. *)
Fixpoint base64_encode (l : bytes) : bytes :=
  match l with
  | [] => []
  | [a] => [base64_char (bval a / 4); base64_char (bval a mod 4 * 16); "="%char; "="%char]
  | [a; b] => [base64_char (bval a / 4); base64_char (bval a mod 4 * 16 + bval b / 16);
               base64_char (bval b mod 16 * 4); "="%char]
  | a :: b :: c :: rest =>
      base64_char (bval a / 4) :: base64_char (bval a mod 4 * 16 + bval b / 16) ::
      base64_char (bval b mod 16 * 4 + bval c / 64) :: base64_char (bval c mod 64) :: base64_encode rest
  end.
Definition base64_EncodeToString (l : bytes) : string := to_string (base64_encode l).

(** ** Paths *)

(** The parts between slashes, at least one. *)
Fixpoint split_slash (s : string) : list string :=
  match s with
  | EmptyString => [""%string]
  | String c r =>
      if Ascii.eqb c "/" then ""%string :: split_slash r
      else match split_slash r with
           | h :: t => String c h :: t
           | [] => [String c ""]
           end
  end.
Definition join_slash (l : list string) : string := String.concat "/" l.

Definition ends_slash (s : string) : bool :=
  match rev (to_bytes s) with c :: _ => Ascii.eqb c "/" | [] => false end.
Definition drop_last (s : string) : string := to_string (removelast (to_bytes s)).

(** [path.Clean] of a path that starts with a slash: empty parts and dots go, two
    dots take the part before them along. *)
Definition clean_part (done : list string) (part : string) : list string :=
  if bool_decide (part = ""%string) || bool_decide (part = "."%string) then done
  else if bool_decide (part = ".."%string) then removelast done
  else done ++ [part].
Definition path_Clean (p : string) : string := "/" +:+ join_slash (fold_left clean_part (split_slash p) []).

(** [cleanPath(p)]. *)
Definition cleanPath (p : string) : string :=
  match p with
  | EmptyString => "/"
  | String c _ =>
      let p := if Ascii.eqb c "/" then p else "/" +:+ p in
      let np := path_Clean p in
      if ends_slash p && negb (bool_decide (np = "/"%string)) then np +:+ "/" else np
  end.

(** ** Templates *)

(** A part of a template: text, or a variable that stands for one part of a path. *)
Inductive part := Lit (s : string) | Var (name : string).

#[global] Instance part_eq_dec : EqDecision part.
Proof. solve_decision. Defined.

Definition parse_part (s : string) : part :=
  match to_bytes s with
  | "{"%char :: l => if Ascii.eqb (List.last l "{"%char) "}" then Var (to_string (removelast l)) else Lit s
  | _ => Lit s
  end.

(** A template that ends in a slash is compiled without it. *)
Definition template (tpl : string) : list part :=
  map parse_part (split_slash (if ends_slash tpl then drop_last tpl else tpl)).

(** A match of the whole path, with or without a slash at its end: the variables. *)
Fixpoint part_match (t : list part) (p : list string) : option (list (string * string)) :=
  match t, p with
  | [], [] => Some []
  | [], [s] => if bool_decide (s = ""%string) then Some [] else None
  | Lit l :: t', s :: p' => if bool_decide (s = l) then part_match t' p' else None
  | Var n :: t', s :: p' => if bool_decide (s = ""%string) then None else cons (n, s) <$> part_match t' p'
  | _, _ => None
  end.

(** [Vars(r)[name]]. *)
Fixpoint var (name : string) (vars : list (string * string)) : string :=
  match vars with
  | [] => ""
  | (n, v) :: rest => if bool_decide (n = name) then v else var name rest
  end.

(** ** Routing *)

Section Router.
Context {H : Type}.

(** A route: its template, its handler, and whether it is restricted to POST. *)
Record Route := mkRoute { rt_template : string; rt_handler : H; rt_post : bool }.

(** [Route.Match]. *)
Definition Route_Match (r : Route) (method path : string) : option (list (string * string)) :=
  if rt_post r && negb (bool_decide (method = "POST"%string)) then None
  else part_match (template (rt_template r)) (split_slash path).

(** [Router.Match]: the first route that matches. *)
Fixpoint Router_Match (rs : list Route) (method path : string) : option (Route * list (string * string)) :=
  match rs with
  | [] => None
  | r :: rs' =>
      match Route_Match r method path with
      | Some vars => Some (r, vars)
      | None => Router_Match rs' method path
      end
  end.

Inductive routed :=
| Moved (location : string)
| NotFound
| Handled (h : H) (vars : list (string * string)).

(** [Router.ServeHTTP], with [StrictSlash(true)]. *)
Definition Router_ServeHTTP (rs : list Route) (method path : string) : routed :=
  if negb (bool_decide (cleanPath path = path)) then Moved (cleanPath path)
  else
    match Router_Match rs method path with
    | None => NotFound
    | Some (r, vars) =>
        match ends_slash path, ends_slash (rt_template r) with
        | true, false => Moved (drop_last path)
        | false, true => Moved (path +:+ "/")
        | _, _ => Handled (rt_handler r) vars
        end
    end.
End Router.
Arguments Route : clear implicits.
Arguments routed : clear implicits.

Example base64_1 : base64_DecodeString "TWFuTQ==" = Some (to_bytes "ManM").
Proof. vm_compute. reflexivity. Qed.
Example base64_2 : base64_DecodeString "TWE=TWFu" = None.
Proof. vm_compute. reflexivity. Qed.
Example path_1 : cleanPath "/peer//a/../b/" = "/peer/b/"%string.
Proof. vm_compute. reflexivity. Qed.
