(* ===== verification/Sha256.v ===== *)
(** SHA-256, the digest of Go's [crypto/sha256] (FIPS 180-4), which the
    Base58Check encoding of addresses uses for its checksum. Executable, so
    that an encoded address can be compared with one the program printed. *)

From S2P Require Import Prelude GoLib.

Definition mask32 : Z := 0xffffffff.
Definition add32 (a b : Z) : Z := Z.land (a + b) mask32.
Definition rotr (n w : Z) : Z :=
  Z.lor (Z.shiftr w n) (Z.land (Z.shiftl w (32 - n)) mask32).

(** The constants are the first 32 bits of the fractional parts of roots of the
    first primes: cube roots for the rounds, square roots for the start. [root_loop]
    finds the largest [r] with [r ^ k <= n], one bit at a time. *)
Definition divides_none (p : Z) (below : list Z) : bool := forallb (fun q => negb (p mod q =? 0)) below.
Definition primes_upto (n : nat) : list Z :=
  fold_left (fun ps p => if divides_none p ps then ps ++ [p] else ps) (map Z.of_nat (seq 2 (n - 1))) [].
Fixpoint root_loop (bits : nat) (k n r : Z) : Z :=
  match bits with
  | O => r
  | S b =>
      let r' := r + 2 ^ Z.of_nat b in
      root_loop b k n (if r' ^ k <=? n then r' else r)
  end.
Definition root_fraction (k p : Z) : Z := root_loop 40 k (p * 2 ^ (32 * k)) 0 mod 2 ^ 32.

Definition K256 : list Z := Eval vm_compute in map (root_fraction 3) (primes_upto 311).

Record hstate := HState { ha : Z; hb : Z; hc : Z; hd_ : Z; he : Z; hf : Z; hg : Z; hh : Z }.

Definition H0 : hstate := Eval vm_compute in
  let r := root_fraction 2 in HState (r 2) (r 3) (r 5) (r 7) (r 11) (r 13) (r 17) (r 19).

(** The message with its padding: a one bit, zeros, the bit length. *)
Definition be_pad (n : nat) (z : Z) : bytes :=
  rev (map byte_of (map (fun i => Z.shiftr z (8 * Z.of_nat i)) (seq 0 n))).
Definition sha_pad (m : bytes) : bytes :=
  let len := Z.of_nat (length m) in
  m ++ byte_of 128 :: replicate (Z.to_nat ((55 - len) mod 64)) (byte_of 0) ++ be_pad 8 (8 * len).

Fixpoint chunks {A} (n fuel : nat) (l : list A) : list (list A) :=
  match fuel with
  | O => []
  | S f => match l with [] => [] | _ => take n l :: chunks n f (drop n l) end
  end.

Definition words (blk : bytes) : list Z := map be_val (chunks 4 16 blk).

(** The message schedule, newest word first. *)
Fixpoint schedule (n : nat) (w : list Z) : list Z :=
  match n with
  | O => w
  | S n' =>
      let g i := nth i w 0 in
      let s0 x := Z.lxor (Z.lxor (rotr 7 x) (rotr 18 x)) (Z.shiftr x 3) in
      let s1 x := Z.lxor (Z.lxor (rotr 17 x) (rotr 19 x)) (Z.shiftr x 10) in
      schedule n' (add32 (add32 (s1 (g 1%nat)) (g 6%nat)) (add32 (s0 (g 14%nat)) (g 15%nat)) :: w)
  end.

Definition round (s : hstate) (kw : Z * Z) : hstate :=
  let '(k, w) := kw in
  let 'HState a b c d e f g h := s in
  let S1 := Z.lxor (Z.lxor (rotr 6 e) (rotr 11 e)) (rotr 25 e) in
  let ch := Z.lxor (Z.land e f) (Z.land (mask32 - e) g) in
  let t1 := add32 (add32 (add32 h S1) (add32 ch k)) w in
  let S0 := Z.lxor (Z.lxor (rotr 2 a) (rotr 13 a)) (rotr 22 a) in
  let maj := Z.lxor (Z.lxor (Z.land a b) (Z.land a c)) (Z.land b c) in
  HState (add32 t1 (add32 S0 maj)) a b c (add32 d t1) e f g.

Definition compress (s : hstate) (blk : bytes) : hstate :=
  let w := rev (schedule 48 (rev (words blk))) in
  let r := fold_left round (combine K256 w) s in
  HState (add32 (ha s) (ha r)) (add32 (hb s) (hb r)) (add32 (hc s) (hc r)) (add32 (hd_ s) (hd_ r))
         (add32 (he s) (he r)) (add32 (hf s) (hf r)) (add32 (hg s) (hg r)) (add32 (hh s) (hh r)).

Definition sha256 (m : bytes) : bytes :=
  let p := sha_pad m in
  let s := fold_left compress (chunks 64 (length p) p) H0 in
  be_pad 4 (ha s) ++ be_pad 4 (hb s) ++ be_pad 4 (hc s) ++ be_pad 4 (hd_ s) ++
  be_pad 4 (he s) ++ be_pad 4 (hf s) ++ be_pad 4 (hg s) ++ be_pad 4 (hh s).

#[global] Arguments sha256 : simpl never.

Lemma length_be_pad n z : length (be_pad n z) = n.
Proof. unfold be_pad. by rewrite length_rev, !length_map, length_seq. Qed.

Lemma length_sha256 m : length (sha256 m) = 32%nat.
Proof. unfold sha256. by rewrite !length_app, !length_be_pad. Qed.

(** The FIPS test vector: the digest of the three bytes of abc. *)
Example sha256_abc :
  be_val (sha256 (to_bytes "abc")) =
  0xba7816bf8f01cfea414140de5dae2223b00361a396177a9cb410ff61f20015ad.
Proof. vm_compute. reflexivity. Qed.
