(* ===== verification/Base58Check.v ===== *)
(** The Base58Check encoding of the vendored package
    [github.com/wjh/hellobitcoin/base58check], which prints and reads Zif
    addresses: [base58.EncodeBig], [base58.DecodeToBig], [Encode], [Decode]. *)

From S2P Require Import Prelude GoLib Sha256.

Module base58.

Definition alphabet : bytes :=
  to_bytes "123456789ABCDEFGHJKLMNPQRSTUVWXYZabcdefghijkmnopqrstuvwxyz".

(** [decodeMap]: the position of a byte in the alphabet, [None] for 0xFF. *)
Definition decodeMap (c : byte) : option Z :=
  (fun p => Z.of_nat p.1) <$> list_find (eq c) alphabet.

(** [alphabet[d]]. *)
Definition digit_of (d : Z) : byte := nth (Z.to_nat d) alphabet zero.

(** The digits are appended least significant first, then reversed. *)
Definition EncodeBig (n : Z) : bytes := map digit_of (numeral 58 n).

Fixpoint DecodeToBig_loop (n : Z) (src : bytes) : outcome Z :=
  match src with
  | [] => Ok n
  | c :: src' =>
      match decodeMap c with
      | None => Err (ErrText "illegal base58 data at input byte")
      | Some d => DecodeToBig_loop (n * 58 + d) src'
      end
  end.
Definition DecodeToBig (src : bytes) : outcome Z := DecodeToBig_loop 0 src.

Lemma decodeMap_digit_of d : 0 <= d < 58 -> decodeMap (digit_of d) = Some d.
Proof.
  intros Hd. replace d with (Z.of_nat (Z.to_nat d)) by lia.
  assert (Z.to_nat d < 58)%nat as H by lia. revert H. generalize (Z.to_nat d) as n.
  intros n Hn. do 58 (destruct n as [|n]; [vm_compute; reflexivity|]). lia.
Qed.

Lemma DecodeToBig_digits l n :
  Forall (fun d => 0 <= d < 58) l ->
  DecodeToBig_loop n (map digit_of l) = Ok (fold_left (fun acc d => acc * 58 + d) l n).
Proof.
  intros H. revert n. induction H as [|d l Hd _ IH]; intros n; [done|].
  cbn [DecodeToBig_loop map fold_left]. by rewrite decodeMap_digit_of, IH.
Qed.

Lemma DecodeToBig_EncodeBig n : 0 <= n -> DecodeToBig (EncodeBig n) = Ok n.
Proof.
  intros Hn. unfold DecodeToBig, EncodeBig.
  rewrite DecodeToBig_digits by (apply numeral_range; lia).
  f_equal. change (value 58 (numeral 58 n) = n). apply value_numeral; lia.
Qed.

Lemma digit_of_one d : 0 <= d < 58 -> digit_of d = "1"%char -> d = 0.
Proof.
  intros Hd H. pose proof (decodeMap_digit_of d Hd) as E. rewrite H in E.
  vm_compute in E. congruence.
Qed.
End base58.

Module base58check.
Import base58.

Fixpoint count_leading (c : byte) (l : bytes) : nat :=
  match l with
  | x :: l' => if bool_decide (x = c) then S (count_leading c l') else O
  | [] => O
  end.

(** The first four bytes of the doubled SHA-256. *)
Definition checksum (l : bytes) : bytes := take 4 (sha256 (sha256 l)).

(** [Encode(prefix, byteData)], with the prefix already decoded from hex (the
    callers pass the constant 51, the byte 0x51), so it has no error. *)
Definition Encode (prefix : byte) (byteData : bytes) : string :=
  let encoded := prefix :: byteData in
  let encodedChecksum := encoded ++ checksum encoded in
  let zeroBytes := count_leading zero encodedChecksum in
  to_string (replicate zeroBytes "1"%char ++ EncodeBig (be_val encodedChecksum)).

(** [Decode(value)]. The two slice expressions panic when the number has fewer
    than four bytes, and when there is no byte for the prefix. The checksum is
    cut off and not compared. *)
Definition Decode (value : string) : outcome bytes :=
  let zeroBytes := count_leading "1"%char (to_bytes value) in
  publicKeyInt ← DecodeToBig (to_bytes value);
  let encodedChecksum := be_bytes publicKeyInt in
  encoded ← slice encodedChecksum 0 (Z.of_nat (length encodedChecksum) - 4);
  let buffer := replicate zeroBytes zero ++ encoded in
  slice buffer 1 (Z.of_nat (length buffer)).

#[global] Arguments Encode : simpl never.
#[global] Arguments Decode : simpl never.

Lemma length_checksum l : length (checksum l) = 4%nat.
Proof. unfold checksum. by rewrite length_take, length_sha256. Qed.

Lemma slice_prefix {A} (l k : list A) :
  slice (l ++ k) 0 (Z.of_nat (length (l ++ k)) - Z.of_nat (length k)) = Ok l.
Proof.
  unfold slice. rewrite bool_decide_true by (rewrite length_app; lia).
  rewrite drop_0, length_app. f_equal. rewrite take_app_le, take_ge by lia. done.
Qed.

Lemma slice_tail {A} (x : A) l : slice (x :: l) 1 (Z.of_nat (length (x :: l))) = Ok l.
Proof.
  unfold slice. rewrite bool_decide_true by (cbn; lia).
  f_equal. cbn [length]. change (Z.to_nat 1) with 1%nat. cbn [drop].
  apply take_ge. lia.
Qed.

Section Encoding.
Context (p : byte) (Hp : bval p <> 0).

Lemma payload_pos l : 0 < be_val (p :: l).
Proof.
  rewrite be_val_cons. pose proof (be_val_bound l). pose proof (bval_range p).
  assert (0 < 256 ^ Z.of_nat (length l)) by (apply Z.pow_pos_nonneg; lia). nia.
Qed.

Lemma no_leading_zero l : count_leading zero (p :: l) = O.
Proof. cbn. rewrite bool_decide_false; [done|]. intros ->. by apply Hp. Qed.

Lemma Encode_eq l :
  Encode p l = to_string (EncodeBig (be_val (p :: l ++ checksum (p :: l)))).
Proof. unfold Encode. rewrite <-app_comm_cons, no_leading_zero. done. Qed.

(** The encoding of a payload with a non-zero prefix starts with no [1]. *)
Lemma Encode_no_one l : count_leading "1"%char (to_bytes (Encode p l)) = O.
Proof.
  rewrite Encode_eq, list_ascii_of_string_of_list_ascii. unfold EncodeBig.
  destruct (numeral_head 58 ltac:(lia) _ (payload_pos (l ++ checksum (p :: l))))
    as (d & k & E & Hd).
  pose proof (numeral_range 58 ltac:(lia) (be_val (p :: l ++ checksum (p :: l)))) as Hr.
  rewrite E in Hr |- *. apply Forall_cons_1 in Hr as [Hdr _].
  cbn. rewrite bool_decide_false; [done|]. intros H. by apply Hd, digit_of_one.
Qed.

Lemma Decode_Encode l : Decode (Encode p l) = Ok l.
Proof.
  unfold Decode. rewrite Encode_no_one, Encode_eq, list_ascii_of_string_of_list_ascii.
  pose proof (payload_pos (l ++ checksum (p :: l))).
  rewrite DecodeToBig_EncodeBig by lia. cbn [mbind outcome_bind].
  rewrite be_bytes_val by done.
  rewrite app_comm_cons. replace 4 with (Z.of_nat (length (checksum (p :: l))))
    by (by rewrite length_checksum).
  rewrite slice_prefix. cbn [replicate app]. apply slice_tail.
Qed.

Lemma Encode_inj l k : Encode p l = Encode p k -> l = k.
Proof.
  intros H. pose proof (Decode_Encode l) as E. rewrite H, Decode_Encode in E. congruence.
Qed.

Lemma Encode_nonempty l : Encode p l <> ""%string.
Proof.
  rewrite Encode_eq. unfold EncodeBig.
  destruct (numeral_head 58 ltac:(lia) _ (payload_pos (l ++ checksum (p :: l))))
    as (d & k & -> & _). done.
Qed.
End Encoding.
End base58check.
