(* ===== verification/Crypto.v ===== *)
(** The cryptographic packages the code calls (SHA3-256, BLAKE2b, Ed25519) as
    an interface: the functions, what the code relies on of them, and a small
    concrete instance that shows the laws can hold. The length guards of
    [ed25519.Verify] and [ed25519.Sign] are those of the vendored package. *)

From S2P Require Import Prelude GoLib Sha256.

(** What the code computes with, and cannot be read here. *)
Class Crypto := {
  sha3_Sum256 : bytes -> bytes;
  (** BLAKE2b with a digest of [AddressBinarySize] bytes. *)
  blake2b_160 : bytes -> bytes;
  (** The group equation of Ed25519: public key, message, signature. *)
  curve_check : bytes -> bytes -> bytes -> bool;
  (** The signature of a message under a 64-byte private key. *)
  curve_sign : bytes -> bytes -> bytes;
}.

(** A private key is the seed followed by the public key. *)
Definition ed25519_Public (sk : bytes) : bytes := drop 32 sk.

Definition PublicKeySize : nat := 32.
Definition PrivateKeySize : nat := 64.
Definition SignatureSize : nat := 64.

(** [sig[63]&224 != 0]: the top bits of the scalar are set. *)
Definition high_bits_set (sig : bytes) : bool :=
  negb (Z.land (bval (nth 63 sig zero)) 224 =? 0).

(** The documented behaviour the development relies on. *)
Class CryptoLaws (C : Crypto) : Prop := {
  sha3_length m : length (sha3_Sum256 m) = 32%nat;
  blake2b_length m : length (blake2b_160 m) = 20%nat;
  sign_length sk m : length sk = PrivateKeySize -> length (curve_sign sk m) = SignatureSize;
  sign_high_bits sk m : length sk = PrivateKeySize -> high_bits_set (curve_sign sk m) = false;
  sign_check sk m : length sk = PrivateKeySize ->
    curve_check (ed25519_Public sk) m (curve_sign sk m) = true;
}.

Section Ed25519.
Context `{Crypto}.

(** [ed25519.Verify]: panics on a public key that is not 32 bytes long. *)
Definition ed25519_Verify (publicKey message sig : bytes) : outcome bool :=
  if negb (length publicKey =? PublicKeySize)%nat then Panic
  else if negb (length sig =? SignatureSize)%nat || high_bits_set sig then Ok false
  else Ok (curve_check publicKey message sig).

(** [ed25519.Sign]: panics on a private key that is not 64 bytes long. *)
Definition ed25519_Sign (privateKey message : bytes) : outcome bytes :=
  if negb (length privateKey =? PrivateKeySize)%nat then Panic
  else Ok (curve_sign privateKey message).

Lemma Verify_Sign {L : CryptoLaws _} sk m :
  length sk = PrivateKeySize ->
  ed25519_Verify (ed25519_Public sk) m (curve_sign sk m) = Ok true.
Proof.
  intros Hsk. unfold ed25519_Verify, ed25519_Public at 1.
  rewrite length_drop, Hsk. cbn [Nat.eqb negb PublicKeySize PrivateKeySize Nat.sub].
  rewrite sign_length, sign_high_bits, sign_check by done. done.
Qed.
End Ed25519.

(** *** A concrete instance, used by the witnesses. *)

Definition toy_tail : bytes := replicate 32 zero.
Definition toy_digest (n : nat) (m : bytes) : bytes := take n (m ++ replicate n zero).
Definition toy_crypto : Crypto := {|
  sha3_Sum256 := toy_digest 32;
  blake2b_160 := toy_digest 20;
  curve_check pk m sig := bool_decide (sig = toy_digest 32 (rev (pk ++ m)) ++ toy_tail);
  curve_sign sk m := toy_digest 32 (rev (ed25519_Public sk ++ m)) ++ toy_tail;
|}.

Lemma length_toy_digest n m : length (toy_digest n m) = n.
Proof. unfold toy_digest. rewrite length_take, length_app, length_replicate. lia. Qed.

Lemma toy_laws : CryptoLaws toy_crypto.
Proof.
  split; intros; cbn [sha3_Sum256 blake2b_160 curve_check curve_sign toy_crypto].
  - apply length_toy_digest.
  - apply length_toy_digest.
  - by rewrite length_app, length_toy_digest.
  - unfold high_bits_set. rewrite app_nth2; rewrite length_toy_digest; [done|lia].
  - by apply bool_decide_true.
Qed.
