(* ===== verification/Address.v ===== *)
(** Zif addresses ([dht/address.go]): the address of a public key, its
    Base58Check form, the XOR distance of two addresses, the bucket index of
    a distance, and the order of distances. *)

From S2P Require Import Prelude GoLib Sha256 Base58Check Crypto.

Definition AddressBinarySize : nat := 20.
Definition AddressVersion : Z := 0.

Record Address := mkAddress { Raw : bytes; Encoded : string }.

#[global] Instance Address_eq_dec : EqDecision Address.
Proof. solve_decision. Defined.

(** The zero value with a given [Raw]: [Address{Raw: raw}]. *)
Definition raw_address (raw : bytes) : Address := mkAddress raw "".

(** The decoded hex prefix 51. *)
Definition prefix51 : byte := byte_of 0x51.

(** [(a *Address) String()]: the cached form if there is one, else the encoding,
    which is stored in the receiver. The result and the receiver afterwards. *)
Definition Address_String (a : Address) : string * Address :=
  if (0 <? slen (Encoded a))%nat then (Encoded a, a)
  else
    let encoded := base58check.Encode prefix51 (Raw a) in
    (encoded, mkAddress (Raw a) encoded).

(** The string alone, for callers that work on a copy of the address. *)
Definition addr_str (a : Address) : string := (Address_String a).1.

(** [(a Address) StringOr(or)]: the encoding has no error, so [or] is unused. *)
Definition Address_StringOr (a : Address) (or : string) : string := addr_str a.

Definition Address_Bytes (a : Address) : bytes := Raw a.

(** [DecodeAddress(value)]. *)
Definition DecodeAddress (value : string) : outcome Address :=
  raw ← base58check.Decode value; mret (raw_address raw).

(** [(a *Address) Generate(key)]. *)
Definition Address_Generate `{Crypto} (a : Address) (key : bytes) : Address * outcome string :=
  if negb (length key =? 32)%nat then (a, Err (ErrText "Public key is not 32 bytes"))
  else
    let secondHash := blake2b_160 (sha3_Sum256 key) in
    let '(s, a') := Address_String (mkAddress secondHash (Encoded a)) in
    (a', Ok s).

Definition NewAddress `{Crypto} (key : bytes) : Address :=
  (Address_Generate (raw_address []) key).1.

(** [(a *Address) Less(other)]: indexing [other.Raw] may panic. *)
Fixpoint Less_loop (a other : bytes) : outcome bool :=
  match a with
  | [] => Ok false
  | x :: a' =>
      match other with
      | [] => Panic
      | y :: o' =>
          if negb (bool_decide (x = y)) then Ok (bval x <? bval y) else Less_loop a' o'
      end
  end.
Definition Address_Less (a other : Address) : outcome bool := Less_loop (Raw a) (Raw other).

(** [(a *Address) Xor(other)]. *)
Fixpoint Xor_loop (a other : bytes) : outcome bytes :=
  match a with
  | [] => Ok []
  | x :: a' =>
      match other with
      | [] => Panic
      | y :: o' => r ← Xor_loop a' o'; mret (byte_of (Z.lxor (bval x) (bval y)) :: r)
      end
  end.
Definition Address_Xor (a other : Address) : outcome Address :=
  r ← Xor_loop (Raw a) (Raw other); mret (raw_address r).

(** The inner loop of [LeadingZeroes]: the first [j] from [j] on, of [n] left,
    whose bit [(b>>(7-j))&1] is set. *)
Fixpoint bit_loop (b : byte) (n : nat) (j : Z) : option Z :=
  match n with
  | O => None
  | S n' =>
      if negb (Z.land (Z.shiftr (bval b) (7 - j)) 1 =? 0) then Some j
      else bit_loop b n' (j + 1)
  end.

Fixpoint LeadingZeroes_loop (raw : bytes) (i : Z) : option Z :=
  match raw with
  | [] => None
  | b :: raw' =>
      match bit_loop b 8 0 with
      | Some j => Some (i * 8 + j)
      | None => LeadingZeroes_loop raw' (i + 1)
      end
  end.

(** [(a *Address) LeadingZeroes()]. *)
Definition Address_LeadingZeroes (a : Address) : Z :=
  match LeadingZeroes_loop (Raw a) 0 with
  | Some n => n
  | None => Z.of_nat (length (Raw a)) * 8 - 1
  end.

(** [(a *Address) Equals(other)]. *)
Definition Address_Equals (a other : Address) : bool := bool_decide (Raw a = Raw other).

(** ** The encoded form *)

(** The cache is absent or holds the encoding of [Raw]. *)
Definition addr_fresh (a : Address) : Prop :=
  Encoded a = ""%string \/ Encoded a = base58check.Encode prefix51 (Raw a).

Lemma prefix51_nonzero : bval prefix51 <> 0.
Proof. by vm_compute. Qed.

Lemma addr_str_fresh a : addr_fresh a -> addr_str a = base58check.Encode prefix51 (Raw a).
Proof.
  intros [H|H]; unfold addr_str, Address_String; rewrite H; [done|]. by case_match.
Qed.

Lemma addr_str_raw raw : addr_str (raw_address raw) = base58check.Encode prefix51 raw.
Proof. apply addr_str_fresh. by left. Qed.

Lemma DecodeAddress_encode raw :
  DecodeAddress (base58check.Encode prefix51 raw) = Ok (raw_address raw).
Proof.
  unfold DecodeAddress. rewrite base58check.Decode_Encode by apply prefix51_nonzero. done.
Qed.

Lemma encode_inj raw raw' :
  base58check.Encode prefix51 raw = base58check.Encode prefix51 raw' -> raw = raw'.
Proof. apply base58check.Encode_inj, prefix51_nonzero. Qed.

(** The text of a 20-byte address: 34 characters, a capital Z first. *)
Lemma encode_Z raw :
  length raw = 20%nat ->
  exists rest, base58check.Encode prefix51 raw = String "Z" rest /\ slen rest = 33%nat.
Proof.
  intros Hlen. rewrite base58check.Encode_eq by apply prefix51_nonzero.
  set (l := raw ++ base58check.checksum (prefix51 :: raw)).
  assert (length l = 24%nat) as Hl.
  { unfold l. by rewrite length_app, base58check.length_checksum, Hlen. }
  pose proof (be_val_cons prefix51 l) as Hv. rewrite Hl in Hv.
  pose proof (be_val_bound l) as Hb. rewrite Hl in Hb.
  destruct (numeral_leading 58 ltac:(lia) (be_val (prefix51 :: l)) 32 33) as (k & E & Hk).
  { lia. }
  { change (bval prefix51) with 81 in Hv. rewrite Hv.
    assert (32 * 58 ^ Z.of_nat 33 <= 81 * 256 ^ Z.of_nat 24) by (vm_compute; discriminate).
    assert (82 * 256 ^ Z.of_nat 24 <= (32 + 1) * 58 ^ Z.of_nat 33) by (vm_compute; discriminate).
    lia. }
  unfold base58.EncodeBig. rewrite E. cbn [map].
  exists (to_string (map base58.digit_of k)). split; [done|].
  unfold slen. by rewrite list_ascii_of_string_of_list_ascii, length_map.
Qed.

(** The address the README shows is the encoding of its own decoding: the
    model of the encoding agrees with what the program printed. *)
Example readme_address :
  match DecodeAddress "ZncGWimPZHWxjTMj51QNKg25PTCXphtLbh" with
  | Ok a => addr_str a = "ZncGWimPZHWxjTMj51QNKg25PTCXphtLbh"%string /\ length (Raw a) = 20%nat
  | _ => False
  end.
Proof. vm_compute. split; reflexivity. Qed.

(** ** Distances *)

(** The big-endian number an address stands for. *)
Definition addr_val (a : Address) : Z := be_val (Raw a).

Lemma lxor_byte x y : bval (byte_of (Z.lxor (bval x) (bval y))) = Z.lxor (bval x) (bval y).
Proof.
  rewrite bval_byte_of. apply Z.mod_small.
  pose proof (bval_range x) as Hx. pose proof (bval_range y) as Hy.
  split; [by apply Z.lxor_nonneg; lia|].
  destruct (Z.eq_dec (Z.lxor (bval x) (bval y)) 0) as [->|Hnz]; [lia|].
  change 256 with (2 ^ 8). apply Z.log2_lt_pow2.
  { pose proof (proj2 (Z.lxor_nonneg (bval x) (bval y))). lia. }
  eapply Z.le_lt_trans; [apply Z.log2_lxor; lia|].
  assert (forall v, 0 <= v < 256 -> Z.log2 v < 8) as Hlog.
  { intros v Hv. destruct (Z.eq_dec v 0) as [->|]; [done|]. apply Z.log2_lt_pow2; lia. }
  apply Z.max_lub_lt; by apply Hlog.
Qed.

(** XOR of two numbers split at bit [m]. *)
Lemma lxor_split a b v w m :
  0 <= m -> 0 <= v < 2 ^ m -> 0 <= w < 2 ^ m ->
  Z.lxor (a * 2 ^ m + v) (b * 2 ^ m + w) = Z.lxor a b * 2 ^ m + Z.lxor v w.
Proof.
  intros Hm Hv Hw.
  assert (forall c x, 0 <= x < 2 ^ m -> Z.shiftr (c * 2 ^ m + x) m = c) as Hdiv.
  { intros c x Hx. rewrite Z.shiftr_div_pow2, Z.div_add_l, Z.div_small by lia. lia. }
  assert (forall c x, 0 <= x < 2 ^ m -> Z.land (c * 2 ^ m + x) (Z.ones m) = x) as Hmod.
  { intros c x Hx. rewrite Z.land_ones, Z.add_comm, Z.mod_add, Z.mod_small by lia. done. }
  set (X := Z.lxor (a * 2 ^ m + v) (b * 2 ^ m + w)).
  rewrite (Z.div_mod X (2 ^ m)) by lia. rewrite (Z.mul_comm (2 ^ m)).
  rewrite <-Z.shiftr_div_pow2, <-Z.land_ones by lia. unfold X.
  rewrite Z.shiftr_lxor, !Hdiv by done. f_equal.
  apply Z.bits_inj'. intros n Hn. rewrite Z.land_spec, !Z.lxor_spec.
  rewrite <-(Hmod a v Hv) at 2. rewrite <-(Hmod b w Hw) at 2. rewrite !Z.land_spec.
  by destruct (Z.testbit (a * 2 ^ m + v) n), (Z.testbit (b * 2 ^ m + w) n), (Z.testbit (Z.ones m) n).
Qed.

Lemma pow256 n : 0 <= n -> 256 ^ n = 2 ^ (8 * n).
Proof. intros. change 256 with (2 ^ 8). by rewrite <-Z.pow_mul_r by lia. Qed.

Lemma Xor_loop_Ok a b :
  length a = length b ->
  exists r, Xor_loop a b = Ok r /\ length r = length a /\
            be_val r = Z.lxor (be_val a) (be_val b).
Proof.
  revert b. induction a as [|x a IH]; intros [|y b] Hlen; try done.
  { by exists []. }
  injection Hlen as Hlen. destruct (IH b Hlen) as (r & E & Hr & Hv).
  cbn [Xor_loop]. rewrite E. cbn [mbind outcome_bind mret outcome_ret].
  eexists. split; [done|]. cbn [length]. split; [by rewrite Hr|].
  rewrite !be_val_cons, lxor_byte, Hr, Hv, Hlen, !pow256 by lia.
  rewrite lxor_split; [done|lia| |]; rewrite <-pow256 by lia.
  - rewrite <-Hlen. apply be_val_bound.
  - apply be_val_bound.
Qed.

(** With addresses of one length the XOR exists and is the XOR of the numbers. *)
Lemma Xor_Ok a b :
  length (Raw a) = length (Raw b) ->
  exists r, Address_Xor a b = Ok r /\ length (Raw r) = length (Raw a) /\
            addr_val r = Z.lxor (addr_val a) (addr_val b) /\ Encoded r = ""%string.
Proof.
  intros H. destruct (Xor_loop_Ok _ _ H) as (r & E & Hl & Hv).
  exists (raw_address r). unfold Address_Xor. by rewrite E.
Qed.

(** A shorter operand makes the loop index out of range. *)
Lemma Xor_loop_short a b : (length b < length a)%nat -> Xor_loop a b = Panic.
Proof.
  revert b. induction a as [|x a IH]; intros [|y b] H; cbn in *; try lia; [done|].
  by rewrite IH by lia.
Qed.

(** A longer one counts as far as the loop goes. *)
Lemma Xor_loop_take a b : Xor_loop a b = Xor_loop a (take (length a) b).
Proof. revert b. induction a as [|x a IH]; intros [|y b]; try done. cbn [Xor_loop length take]. by rewrite IH. Qed.

(** ** Bucket index *)

Lemma bit_loop_spec b :
  bit_loop b 8 0 = if bval b =? 0 then None else Some (7 - Z.log2 (bval b)).
Proof. by destruct b as [[] [] [] [] [] [] [] []]. Qed.

Lemma LeadingZeroes_loop_spec l i :
  LeadingZeroes_loop l i =
  if be_val l =? 0 then None
  else Some (8 * i + 8 * Z.of_nat (length l) - 1 - Z.log2 (be_val l)).
Proof.
  revert i. induction l as [|c l IH]; intros i; [done|].
  cbn [LeadingZeroes_loop]. rewrite bit_loop_spec, be_val_cons.
  pose proof (be_val_bound l) as Hb. pose proof (bval_range c) as Hc.
  destruct (Z.eqb_spec (bval c) 0) as [E|E].
  - rewrite E, Z.mul_0_l, Z.add_0_l, IH.
    destruct (be_val l =? 0); [done|]. f_equal. cbn [length]. lia.
  - assert (0 < 256 ^ Z.of_nat (length l)) as Hp by (apply Z.pow_pos_nonneg; lia).
    destruct (Z.eqb_spec (bval c * 256 ^ Z.of_nat (length l) + be_val l) 0); [nia|].
    f_equal. rewrite pow256 in * by lia.
    destruct (Z.log2_spec (bval c)) as [H1 H2]; [lia|].
    pose proof (Z.log2_nonneg (bval c)).
    assert (Z.log2 (bval c * 2 ^ (8 * Z.of_nat (length l)) + be_val l) =
            Z.log2 (bval c) + 8 * Z.of_nat (length l)) as ->; [|cbn [length]; lia].
    apply Z.log2_unique; [lia|]. rewrite <-Z.add_succ_l, !Z.pow_add_r by lia.
    set (q := 2 ^ (8 * Z.of_nat (length l))) in *. nia.
Qed.

(** The index in terms of the number: the position of its highest set bit,
    and the last index for zero. *)
Lemma LeadingZeroes_spec a :
  Address_LeadingZeroes a =
  8 * Z.of_nat (length (Raw a)) - 1 - (if addr_val a =? 0 then 0 else Z.log2 (addr_val a)).
Proof.
  unfold Address_LeadingZeroes, addr_val. rewrite LeadingZeroes_loop_spec.
  destruct (be_val (Raw a) =? 0); lia.
Qed.

Lemma LeadingZeroes_range a :
  Raw a <> [] -> 0 <= Address_LeadingZeroes a <= 8 * Z.of_nat (length (Raw a)) - 1.
Proof.
  intros Hne. rewrite LeadingZeroes_spec. unfold addr_val.
  pose proof (be_val_bound (Raw a)) as Hb.
  assert (0 < length (Raw a))%nat by (destruct (Raw a); [done|cbn; lia]).
  destruct (Z.eqb_spec (be_val (Raw a)) 0); [lia|].
  pose proof (Z.log2_nonneg (be_val (Raw a))).
  assert (Z.log2 (be_val (Raw a)) < 8 * Z.of_nat (length (Raw a))); [|lia].
  apply Z.log2_lt_pow2; [lia|]. rewrite <-pow256 by lia. lia.
Qed.

(** ** The order of distances *)

Lemma Less_loop_spec a b :
  length a = length b -> Less_loop a b = Ok (be_val a <? be_val b).
Proof.
  revert b. induction a as [|x a IH]; intros [|y b] Hlen; try done.
  injection Hlen as Hlen. cbn [Less_loop]. rewrite !be_val_cons, <-Hlen.
  pose proof (be_val_bound a) as Ha. pose proof (be_val_bound b) as Hb. rewrite <-Hlen in Hb.
  set (p := 256 ^ Z.of_nat (length a)) in *.
  destruct (decide (x = y)) as [->|Hne].
  - rewrite bool_decide_true by done. cbn [negb]. rewrite IH by done. f_equal.
    destruct (Z.ltb_spec (be_val a) (be_val b)), (Z.ltb_spec (bval y * p + be_val a) (bval y * p + be_val b)); lia.
  - rewrite bool_decide_false by done. cbn [negb]. f_equal.
    assert (bval x <> bval y) by (intros E; by apply Hne, (inj bval)).
    destruct (Z.ltb_spec (bval x) (bval y)), (Z.ltb_spec (bval x * p + be_val a) (bval y * p + be_val b)); nia.
Qed.

(** ** Properties *)

(** C36. Encoding an address and decoding the text gives its bytes back, whatever
    the bytes, and the encoding caches the text it returned. *)
Theorem Address_String_roundtrip (raw : bytes) :
  let '(s, a) := Address_String (raw_address raw) in
  DecodeAddress s = Ok (raw_address raw) /\ Raw a = raw /\ Address_String a = (s, a).
Proof.
  unfold Address_String at 1. cbn [raw_address Encoded Raw slen list_ascii_of_string length Nat.ltb Nat.leb].
  split; [apply DecodeAddress_encode|]. split; [done|]. unfold Address_String. cbn [Encoded].
  pose proof (base58check.Encode_nonempty prefix51 prefix51_nonzero raw) as Hne.
  by destruct (base58check.Encode prefix51 raw).
Qed.

(** The text of every 20-byte address has 34 characters and starts with a
    capital Z, as the comment on [String] says. *)
Theorem Address_String_shape (a : Address) :
  addr_fresh a -> length (Raw a) = AddressBinarySize ->
  exists rest, addr_str a = String "Z" rest /\ slen (addr_str a) = 34%nat.
Proof.
  intros Hf Hl. rewrite addr_str_fresh by done.
  destruct (encode_Z (Raw a) Hl) as (rest & E & Hs). exists rest. rewrite E.
  split; [done|]. unfold slen in *. cbn. by rewrite Hs.
Qed.

Lemma Address_String_shape_witness :
  exists rest, addr_str (raw_address (replicate 20 zero)) = String "Z" rest /\
    slen (addr_str (raw_address (replicate 20 zero))) = 34%nat.
Proof. apply Address_String_shape; [by left|reflexivity]. Defined.

(** [Generate] turns a 32-byte key into a 20-byte address whose text decodes
    to it, and refuses any other key without touching the address. *)
Theorem Address_Generate_spec {C : Crypto} {L : CryptoLaws C} (key : bytes) :
  let '(a, r) := Address_Generate (raw_address []) key in
  match r with
  | Ok s => length key = 32%nat /\ length (Raw a) = AddressBinarySize /\
            DecodeAddress s = Ok (raw_address (Raw a))
  | Err _ => length key <> 32%nat /\ a = raw_address []
  | Panic => False
  end.
Proof.
  unfold Address_Generate. destruct (Nat.eqb_spec (length key) 32) as [Hk|Hk]; cbn; [|done].
  rewrite blake2b_length. split; [done|]. split; [done|]. apply DecodeAddress_encode.
Qed.

Lemma Address_Generate_spec_witness :
  let key := replicate 32 zero in
  let '(a, r) := @Address_Generate toy_crypto (raw_address []) key in
  match r with
  | Ok s => length key = 32%nat /\ length (Raw a) = AddressBinarySize /\
            DecodeAddress s = Ok (raw_address (Raw a))
  | Err _ => length key <> 32%nat /\ a = raw_address []
  | Panic => False
  end.
Proof. exact (@Address_Generate_spec toy_crypto toy_laws (replicate 32 zero)). Defined.

Lemma lxor_le_add a b : 0 <= a -> 0 <= b -> Z.lxor a b <= a + b.
Proof.
  intros Ha Hb. rewrite <-Z.add_lxor_2land.
  pose proof (proj2 (Z.land_nonneg a b) (or_introl Ha)). lia.
Qed.

Lemma lxor_chain a b c : Z.lxor a c = Z.lxor (Z.lxor a b) (Z.lxor b c).
Proof. by rewrite Z.lxor_assoc, <-(Z.lxor_assoc b b c), Z.lxor_nilpotent, Z.lxor_0_l. Qed.

Lemma addr_val_nonneg a : 0 <= addr_val a.
Proof. apply be_val_bound. Qed.

(** C34. The XOR distance is a metric on addresses of one length: it is
    symmetric, zero exactly between equal addresses, and satisfies the triangle
    inequality on the numbers the distances stand for. *)
Theorem Address_Xor_metric (a b c : Address) :
  length (Raw a) = length (Raw b) -> length (Raw b) = length (Raw c) ->
  exists ab bc ac,
    Address_Xor a b = Ok ab /\ Address_Xor b c = Ok bc /\ Address_Xor a c = Ok ac /\
    Address_Xor b a = Ok ab /\
    (addr_val ab = 0 <-> Address_Equals a b = true) /\
    addr_val ac <= addr_val ab + addr_val bc.
Proof.
  intros Hab Hbc.
  destruct (Xor_Ok a b Hab) as (ab & Eab & Lab & Vab & Cab).
  destruct (Xor_Ok b c Hbc) as (bc & Ebc & Lbc & Vbc & _).
  destruct (Xor_Ok a c ltac:(congruence)) as (ac & Eac & Lac & Vac & _).
  destruct (Xor_Ok b a ltac:(congruence)) as (ba & Eba & Lba & Vba & Cba).
  exists ab, bc, ac. do 3 (split; [done|]).
  split; [|split].
  - rewrite Eba. f_equal.
    assert (Raw ba = Raw ab) as Hraw.
    { apply be_val_inj; [congruence|]. unfold addr_val in *. by rewrite Vba, Vab, Z.lxor_comm. }
    destruct ab, ba; cbn in *. congruence.
  - rewrite Vab, Z.lxor_eq_0_iff. unfold Address_Equals. rewrite bool_decide_eq_true.
    split; [|unfold addr_val; congruence]. by apply be_val_inj.
  - rewrite Vac, (lxor_chain _ (addr_val b)), <-Vab, <-Vbc.
    apply lxor_le_add; apply addr_val_nonneg.
Qed.

Lemma Address_Xor_metric_witness :
  exists ab bc ac,
    Address_Xor (raw_address ["a"; "b"]%char) (raw_address ["c"; "d"]%char) = Ok ab /\
    Address_Xor (raw_address ["c"; "d"]%char) (raw_address ["e"; "f"]%char) = Ok bc /\
    Address_Xor (raw_address ["a"; "b"]%char) (raw_address ["e"; "f"]%char) = Ok ac /\
    Address_Xor (raw_address ["c"; "d"]%char) (raw_address ["a"; "b"]%char) = Ok ab /\
    (addr_val ab = 0 <->
      Address_Equals (raw_address ["a"; "b"]%char) (raw_address ["c"; "d"]%char) = true) /\
    addr_val ac <= addr_val ab + addr_val bc.
Proof. apply Address_Xor_metric; reflexivity. Defined.

(** The bit [k] of an address, the most significant one first. *)
Definition addr_bit (a : Address) (k : Z) : bool :=
  Z.testbit (addr_val a) (8 * Z.of_nat (length (Raw a)) - 1 - k).

(** C35. The bucket index of two addresses is the number of leading bits they
    share: it is below the number of bits, all bits before it agree, and for
    different addresses the bit at the index differs. *)
Theorem LeadingZeroes_common_prefix (a b d : Address) :
  length (Raw a) = length (Raw b) -> Raw a <> [] -> Address_Xor a b = Ok d ->
  let i := Address_LeadingZeroes d in
  0 <= i < 8 * Z.of_nat (length (Raw a)) /\
  (forall k, 0 <= k < i -> addr_bit a k = addr_bit b k) /\
  (Raw a <> Raw b -> addr_bit a i <> addr_bit b i).
Proof.
  intros Hl Hne E. destruct (Xor_Ok a b Hl) as (d' & E' & Ld & Vd & _).
  rewrite E in E'. injection E' as <-. cbn zeta.
  pose proof (LeadingZeroes_range d) as Hr. rewrite Ld in Hr.
  specialize (Hr ltac:(destruct (Raw d), (Raw a); done)).
  split; [lia|]. unfold addr_bit. rewrite <-Hl.
  assert (forall j, xorb (Z.testbit (addr_val a) j) (Z.testbit (addr_val b) j) = Z.testbit (addr_val d) j)
    as Hx by (intros j; by rewrite Vd, Z.lxor_spec).
  rewrite LeadingZeroes_spec, Ld. split.
  - intros k Hk. apply xorb_eq. rewrite Hx.
    destruct (Z.eqb_spec (addr_val d) 0) as [->|Hz]; [apply Z.bits_0|].
    apply Z.bits_above_log2; [apply addr_val_nonneg|lia].
  - intros Hab Heq.
    destruct (Z.eqb_spec (addr_val d) 0) as [Hz|Hz].
    + rewrite Vd, Z.lxor_eq_0_iff in Hz. by apply Hab, be_val_inj.
    + match type of Heq with Z.testbit _ ?j = _ => specialize (Hx j) end.
      rewrite Heq, xorb_nilpotent in Hx.
      replace (8 * Z.of_nat (length (Raw a)) - 1 -
        (8 * Z.of_nat (length (Raw a)) - 1 - Z.log2 (addr_val d))) with (Z.log2 (addr_val d)) in Hx by lia.
      rewrite Z.bit_log2 in Hx; [done|]. pose proof (addr_val_nonneg d). lia.
Qed.

Lemma LeadingZeroes_common_prefix_witness :
  let a := raw_address [byte_of 5; byte_of 9] in
  let b := raw_address [byte_of 5; byte_of 13] in
  let d := raw_address [byte_of 0; byte_of 4] in
  let i := Address_LeadingZeroes d in
  0 <= i < 8 * Z.of_nat (length (Raw a)) /\
  (forall k, 0 <= k < i -> addr_bit a k = addr_bit b k) /\
  (Raw a <> Raw b -> addr_bit a i <> addr_bit b i).
Proof. apply LeadingZeroes_common_prefix; [reflexivity|discriminate|reflexivity]. Defined.

(** [Less] on addresses of one length compares the numbers they stand for, so
    it is a strict total order: never both ways, and neither way only for equal
    addresses. *)
Theorem Address_Less_order (a b : Address) :
  length (Raw a) = length (Raw b) ->
  Address_Less a b = Ok (addr_val a <? addr_val b) /\
  (Address_Less a b = Ok true -> Address_Less b a = Ok false) /\
  (Address_Less a b = Ok false -> Address_Less b a = Ok false -> Address_Equals a b = true).
Proof.
  intros Hl. unfold Address_Less. rewrite !Less_loop_spec by congruence. fold (addr_val a) (addr_val b).
  split; [done|]. split.
  - intros [= H]. f_equal. lia.
  - intros [= H1] [= H2]. unfold Address_Equals. apply bool_decide_true.
    apply be_val_inj; [done|]. unfold addr_val in *. lia.
Qed.

Lemma Address_Less_order_witness :
  let a := raw_address ["a"; "b"]%char in
  let b := raw_address ["a"; "c"]%char in
  Address_Less a b = Ok (addr_val a <? addr_val b) /\
  (Address_Less a b = Ok true -> Address_Less b a = Ok false) /\
  (Address_Less a b = Ok false -> Address_Less b a = Ok false -> Address_Equals a b = true).
Proof. apply Address_Less_order; reflexivity. Defined.
