(* ===== verification/Entry.v ===== *)
(** DHT entries ([dht/entry.go]): the record a peer publishes about itself, the
    bytes it signs, and the check every received entry passes. *)

From S2P Require Import Prelude GoLib Crypto Address.

Definition MaxEntryNameLength : nat := 32.
Definition MaxEntryDescLength : nat := 160.
Definition MaxEntryPublicAddressLength : nat := 253.
Definition MaxEntrySeeds : Z := 100000.

Record Entry := mkEntry {
  EAddress : Address;
  Name : string;
  Desc : string;
  PublicAddress : string;
  PublicKey : bytes;
  PostCount : Z;
  Updated : Z;
  Signature : bytes;
  CollectionHash : bytes;
  Port : Z;
  Seeds : list bytes;
  Seeding : list bytes;
  Seen : Z;
  distance : Address;
}.

#[global] Instance Entry_eq_dec : EqDecision Entry.
Proof. solve_decision. Defined.

(** The zero value [Entry{}]. *)
Definition Entry_zero : Entry :=
  mkEntry (raw_address []) "" "" "" [] 0 0 [] [] 0 [] [] 0 (raw_address []).

(** Field assignments. *)
Definition set_EAddress (a : Address) (e : Entry) : Entry :=
  mkEntry a (Name e) (Desc e) (PublicAddress e) (PublicKey e) (PostCount e) (Updated e)
    (Signature e) (CollectionHash e) (Port e) (Seeds e) (Seeding e) (Seen e) (distance e).
Definition set_PublicKey (k : bytes) (e : Entry) : Entry :=
  mkEntry (EAddress e) (Name e) (Desc e) (PublicAddress e) k (PostCount e) (Updated e)
    (Signature e) (CollectionHash e) (Port e) (Seeds e) (Seeding e) (Seen e) (distance e).
Definition set_Signature (s : bytes) (e : Entry) : Entry :=
  mkEntry (EAddress e) (Name e) (Desc e) (PublicAddress e) (PublicKey e) (PostCount e) (Updated e)
    s (CollectionHash e) (Port e) (Seeds e) (Seeding e) (Seen e) (distance e).
Definition set_Seeds (l : list bytes) (e : Entry) : Entry :=
  mkEntry (EAddress e) (Name e) (Desc e) (PublicAddress e) (PublicKey e) (PostCount e) (Updated e)
    (Signature e) (CollectionHash e) (Port e) l (Seeding e) (Seen e) (distance e).
Definition set_Seeding (l : list bytes) (e : Entry) : Entry :=
  mkEntry (EAddress e) (Name e) (Desc e) (PublicAddress e) (PublicKey e) (PostCount e) (Updated e)
    (Signature e) (CollectionHash e) (Port e) (Seeds e) l (Seen e) (distance e).
Definition set_Name_Desc (n d : string) (e : Entry) : Entry :=
  mkEntry (EAddress e) n d (PublicAddress e) (PublicKey e) (PostCount e) (Updated e)
    (Signature e) (CollectionHash e) (Port e) (Seeds e) (Seeding e) (Seen e) (distance e).

(** What [DecodeEntry] makes of the JSON text of [EncodeString]: text that is not UTF-8 is
    mended, the unexported field is not there. *)
Definition json_Entry (e : Entry) : Entry :=
  mkEntry (mkAddress (Raw (EAddress e)) (json_string (Encoded (EAddress e)))) (json_string (Name e)) (json_string (Desc e))
    (json_string (PublicAddress e)) (PublicKey e) (PostCount e) (Updated e)
    (Signature e) (CollectionHash e) (Port e) (Seeds e) (Seeding e) (Seen e) (raw_address []).

(** [(e Entry) String()]: the fields joined without separators. The value
    receiver is a copy, so the encoding it caches is dropped. *)
Definition Entry_String (e : Entry) : string :=
  addr_str (EAddress e) +:+ Name e +:+ Desc e +:+ PublicAddress e +:+
  to_string (PublicKey e) +:+ string_of_int (Port e) +:+ Itoa (PostCount e) +:+
  Itoa (to_int64 (Updated e)) +:+ to_string (CollectionHash e) +:+
  fold_right (fun i s => to_string i +:+ s) ""%string (Seeding e).

(** [(e Entry) Bytes()]. *)
Definition Entry_Bytes (e : Entry) : bytes := to_bytes (Entry_String e).

(** [(e *Entry) SetLocalPeer(lp)]. *)
Definition Entry_SetLocalPeer (lp_address : Address) (lp_key : bytes) (e : Entry) : Entry :=
  set_PublicKey lp_key (set_EAddress lp_address e).

(** [(e Entries) Less(i, j)] on a list of entries; an index out of range or a
    nil entry panics. *)
Definition Entries_Less (e : list (option Entry)) (i j : nat) : outcome bool :=
  match e !! i, e !! j with
  | Some (Some a), Some (Some b) => Address_Less (distance a) (distance b)
  | _, _ => Panic
  end.

Definition Entries_Swap (e : list (option Entry)) (i j : nat) : outcome (list (option Entry)) :=
  match e !! i, e !! j with
  | Some a, Some b => Ok (<[j := a]> (<[i := b]> e))
  | _, _ => Panic
  end.

Section Verify.
Context `{Crypto}.

(** [(entry *Entry) Verify()]: [None] is the nil pointer. *)
Definition Entry_Verify (entry : option Entry) : outcome unit :=
  match entry with
  | None => Err (ErrText "Entry is nil")
  | Some e =>
      if negb (length (Raw (EAddress e)) =? 20)%nat then Err (ErrText "Address size invalid")
      else if (MaxEntryNameLength <? slen (Name e))%nat then Err (ErrText "Entry name is too long")
      else if (MaxEntryDescLength <? slen (Desc e))%nat
      then Err (ErrText "Entry description is too long")
      else if MaxEntrySeeds <? Z.of_nat (length (Seeds e))
      then Err (ErrText "Entry has too many seeds")
      else if (length (PublicKey e) <? PublicKeySize)%nat
      then Err (ErrText ("Public key too small: " +:+ Itoa (Z.of_nat (length (PublicKey e)))))
      else if (length (Signature e) <? SignatureSize)%nat then Err (ErrText "Signature too small")
      else
        verified ← ed25519_Verify (PublicKey e) (Entry_Bytes e) (Signature e);
        if negb verified then Err (ErrText "Failed to verify signature")
        else if (slen (PublicAddress e) =? 0)%nat then Err (ErrText "Public address must be set")
        else if (MaxEntryPublicAddressLength <=? slen (PublicAddress e))%nat
        then Err (ErrText "Public address is too large (253 char max)")
        else if 65535 <? Port e
        then Err (ErrText ("Port too large (" +:+ string_of_int (Port e) +:+ ")"))
        else Ok tt
  end.

(** What [Verify] accepts: the size limits and a valid signature. *)
Definition entry_sizes (e : Entry) : Prop :=
  length (Raw (EAddress e)) = 20%nat /\
  (slen (Name e) <= 32)%nat /\ (slen (Desc e) <= 160)%nat /\
  Z.of_nat (length (Seeds e)) <= 100000 /\
  (1 <= slen (PublicAddress e) < 253)%nat /\ Port e <= 65535.

Definition entry_signed (e : Entry) : Prop :=
  ed25519_Verify (PublicKey e) (Entry_Bytes e) (Signature e) = Ok true.

Ltac nat_bools :=
  repeat match goal with
  | |- context [(?a =? ?b)%nat] => destruct (Nat.eqb_spec a b)
  | |- context [(?a <? ?b)%nat] => destruct (Nat.ltb_spec a b)
  | |- context [(?a <=? ?b)%nat] => destruct (Nat.leb_spec a b)
  | |- context [?a <? ?b] => destruct (Z.ltb_spec a b)
  end.

Lemma signed_lengths e :
  entry_signed e ->
  length (PublicKey e) = PublicKeySize /\ length (Signature e) = SignatureSize.
Proof.
  unfold entry_signed, ed25519_Verify. nat_bools; cbn; done.
Qed.

(** Acceptance is exactly the size limits and the signature. *)
Lemma Verify_iff e : Entry_Verify (Some e) = Ok tt <-> entry_sizes e /\ entry_signed e.
Proof.
  unfold Entry_Verify, entry_sizes,
    MaxEntryNameLength, MaxEntryDescLength, MaxEntrySeeds, MaxEntryPublicAddressLength.
  split.
  - unfold entry_signed. destruct (ed25519_Verify _ _ _) as [[]| |];
      nat_bools; cbn; intros Hv; try discriminate Hv.
    split; [lia|done].
  - intros ((?&?&?&?&?&?) & Hs). destruct (signed_lengths e Hs) as [Hp Hg].
    rewrite Hp, Hg. unfold entry_signed in Hs. rewrite Hs.
    nat_bools; cbn; try lia; try done.
Qed.
End Verify.

(** ** Signing the local entry ([LocalPeer.SignEntry], [localpeer.go]) *)

Definition set_Updated (t : Z) (e : Entry) : Entry :=
  mkEntry (EAddress e) (Name e) (Desc e) (PublicAddress e) (PublicKey e) (PostCount e) t
    (Signature e) (CollectionHash e) (Port e) (Seeds e) (Seeding e) (Seen e) (distance e).

(** The built-in [copy(dst, src)]: the contents of [dst] afterwards. *)
Definition copy_into {A} (dst src : list A) : list A :=
  take (length dst) src ++ drop (length src) dst.

(** [SignEntry] with the private key and the Unix time [now]. *)
Definition SignEntry `{Crypto} (privateKey : bytes) (now : Z) (e : Entry) : outcome Entry :=
  let e1 := set_Updated now e in
  sig ← ed25519_Sign privateKey (Entry_Bytes e1);
  mret (set_Signature (copy_into (Signature e1) sig) e1).

Lemma copy_into_same_length {A} (dst src : list A) :
  length dst = length src -> copy_into dst src = src.
Proof.
  intros E. unfold copy_into. rewrite E, take_ge by lia.
  rewrite drop_ge by lia. apply app_nil_r.
Qed.

Lemma SignEntry_accepted {C : Crypto} {L : CryptoLaws C} sk now e :
  length sk = PrivateKeySize -> length (Signature e) = SignatureSize ->
  PublicKey e = ed25519_Public sk -> entry_sizes e ->
  SignEntry sk now e = Ok (set_Signature (curve_sign sk (Entry_Bytes (set_Updated now e)))
                             (set_Updated now e)) /\
  Entry_Verify (Some (set_Signature (curve_sign sk (Entry_Bytes (set_Updated now e)))
                        (set_Updated now e))) = Ok tt.
Proof.
  intros Hsk Hsig Hpk Hsz. unfold SignEntry, ed25519_Sign.
  rewrite Hsk. cbn [Nat.eqb PrivateKeySize negb mbind outcome_bind].
  rewrite copy_into_same_length by (cbn; by rewrite sign_length).
  split; [done|]. apply Verify_iff. split; [exact Hsz|].
  unfold entry_signed. cbn [PublicKey Signature set_Signature set_Updated].
  rewrite Hpk. by apply Verify_Sign.
Qed.

(** ** Properties *)

(** C6. [Verify] accepts an entry exactly when the sizes are within the limits of the code
    -- an address of 20 bytes, a name of at most 32, a description of at most 160, at most
    100000 seeds, a public address of 1 to 252 bytes (the message of the error says that
    253 are allowed), a port of at most 65535 -- and the signature verifies under the
    entry's own key over the entry's bytes. *)
Theorem Entry_Verify_spec `{Crypto} (e : Entry) :
  Entry_Verify (Some e) = Ok tt <->
  (length (Raw (EAddress e)) = 20%nat /\ (slen (Name e) <= 32)%nat /\
   (slen (Desc e) <= 160)%nat /\ Z.of_nat (length (Seeds e)) <= 100000 /\
   (1 <= slen (PublicAddress e) < 253)%nat /\ Port e <= 65535) /\
  ed25519_Verify (PublicKey e) (Entry_Bytes e) (Signature e) = Ok true.
Proof. apply Verify_iff. Qed.

(** An entry for the witnesses: 20-byte address, a name, a public address. *)
Definition toy_sk : bytes := replicate 64 "k"%char.
Definition toy_entry : Entry :=
  mkEntry (raw_address (replicate 20 "a"%char)) "alice" "a node" "localhost"
    (ed25519_Public toy_sk) 3 1500000000 (replicate 64 zero) [] 5050 [] [] 0 (raw_address []).
Definition toy_signed : Entry :=
  match @SignEntry toy_crypto toy_sk 1500000000 toy_entry with Ok e => e | _ => toy_entry end.

Lemma toy_entry_sizes : entry_sizes toy_entry.
Proof. unfold entry_sizes. cbn. lia. Qed.

(** An entry within the limits that its owner signs is accepted by [Verify],
    at any signing time. *)
Theorem SignEntry_verifies {C : Crypto} {L : CryptoLaws C} (sk : bytes) (now : Z) (e : Entry) :
  length sk = PrivateKeySize -> length (Signature e) = SignatureSize ->
  PublicKey e = ed25519_Public sk -> entry_sizes e ->
  exists e', SignEntry sk now e = Ok e' /\ Entry_Verify (Some e') = Ok tt /\
             EAddress e' = EAddress e /\ Updated e' = now.
Proof.
  intros Hsk Hsig Hpk Hsz. destruct (SignEntry_accepted sk now e Hsk Hsig Hpk Hsz).
  eexists. split; [eassumption|]. done.
Qed.

Lemma SignEntry_verifies_witness :
  exists e', @SignEntry toy_crypto toy_sk 42 toy_entry = Ok e' /\
    @Entry_Verify toy_crypto (Some e') = Ok tt /\
    EAddress e' = EAddress toy_entry /\ Updated e' = 42.
Proof.
  apply (@SignEntry_verifies toy_crypto toy_laws toy_sk 42 toy_entry);
    [reflexivity|reflexivity|reflexivity|exact toy_entry_sizes].
Defined.

(** C40. [Verify] does not tie the address to the key: whoever holds a key can
    publish an accepted entry for any 20-byte address, whatever address the key
    generates. The comment on [Signature] says the address is checked against
    the key. *)
Theorem Verify_any_address {C : Crypto} {L : CryptoLaws C} (sk victim : bytes) (now : Z) (e : Entry) :
  length sk = PrivateKeySize -> length victim = AddressBinarySize ->
  length (Signature e) = SignatureSize -> entry_sizes e ->
  exists e', SignEntry sk now (Entry_SetLocalPeer (raw_address victim) (ed25519_Public sk) e) = Ok e' /\
    Entry_Verify (Some e') = Ok tt /\ Raw (EAddress e') = victim /\ PublicKey e' = ed25519_Public sk.
Proof.
  intros Hsk Hv Hsig (_ & Hsz).
  destruct (SignEntry_accepted sk now (Entry_SetLocalPeer (raw_address victim) (ed25519_Public sk) e))
    as [E1 E2]; [done|done|done|by split|]. eexists. split; [exact E1|]. done.
Qed.

Lemma Verify_any_address_witness :
  exists e', @SignEntry toy_crypto toy_sk 7
      (Entry_SetLocalPeer (raw_address (replicate 20 "v"%char)) (ed25519_Public toy_sk) toy_entry) = Ok e' /\
    @Entry_Verify toy_crypto (Some e') = Ok tt /\
    Raw (EAddress e') = replicate 20 "v"%char /\ PublicKey e' = ed25519_Public toy_sk.
Proof.
  apply (@Verify_any_address toy_crypto toy_laws toy_sk (replicate 20 "v"%char) 7 toy_entry);
    [reflexivity|reflexivity|reflexivity|exact toy_entry_sizes].
Defined.

(** A public key longer than 32 bytes passes the length check of [Verify]
    and makes the Ed25519 package panic, so a received entry can stop the
    process. *)
Theorem Verify_long_key_panics `{Crypto} (e : Entry) :
  length (Raw (EAddress e)) = 20%nat -> (slen (Name e) <= 32)%nat ->
  (slen (Desc e) <= 160)%nat -> Z.of_nat (length (Seeds e)) <= 100000 ->
  (64 <= length (Signature e))%nat -> (32 < length (PublicKey e))%nat ->
  Entry_Verify (Some e) = Panic.
Proof.
  intros H1 H2 H3 H4 H5 H6. unfold Entry_Verify, ed25519_Verify,
    MaxEntryNameLength, MaxEntryDescLength, MaxEntrySeeds, PublicKeySize, SignatureSize.
  rewrite H1. cbn [Nat.eqb negb].
  destruct (Nat.ltb_spec 32 (slen (Name e))); [lia|].
  destruct (Nat.ltb_spec 160 (slen (Desc e))); [lia|].
  destruct (Z.ltb_spec 100000 (Z.of_nat (length (Seeds e)))); [lia|].
  destruct (Nat.ltb_spec (length (PublicKey e)) 32); [lia|].
  destruct (Nat.ltb_spec (length (Signature e)) 64); [lia|].
  destruct (Nat.eqb_spec (length (PublicKey e)) 32); [lia|]. done.
Qed.

Lemma Verify_long_key_panics_witness :
  @Entry_Verify toy_crypto (Some (set_PublicKey (replicate 33 zero) toy_entry)) = Panic.
Proof. apply Verify_long_key_panics; cbn; lia. Defined.

(** The signed bytes have no field boundaries: moving text between the name
    and the description keeps them, so the signature of one entry is valid for
    another with a different name and description. *)
Theorem Entry_Bytes_boundary `{Crypto} (e : Entry) (n d : string) :
  n +:+ d = Name e +:+ Desc e -> (slen n <= 32)%nat -> (slen d <= 160)%nat ->
  Entry_Verify (Some e) = Ok tt -> Entry_Verify (Some (set_Name_Desc n d e)) = Ok tt.
Proof.
  intros Hnd Hn Hd. rewrite !Verify_iff. unfold entry_sizes, entry_signed.
  intros ((?&?&?&?&?&?) & Hs). split; [cbn; tauto|].
  assert (Entry_Bytes (set_Name_Desc n d e) = Entry_Bytes e) as ->; [|exact Hs].
  unfold Entry_Bytes, Entry_String. cbn [EAddress Name Desc set_Name_Desc PublicAddress PublicKey
    Port PostCount Updated CollectionHash Seeding].
  rewrite !to_bytes_app. f_equal.
  apply (f_equal to_bytes) in Hnd. rewrite !to_bytes_app in Hnd.
  rewrite !(assoc_L (++)), Hnd. done.
Qed.

Lemma toy_signed_ok : @Entry_Verify toy_crypto (Some toy_signed) = Ok tt.
Proof. vm_compute. reflexivity. Qed.

Lemma Entry_Bytes_boundary_witness :
  @Entry_Verify toy_crypto (Some (set_Name_Desc "alicea" " node" toy_signed)) = Ok tt.
Proof.
  apply (@Entry_Bytes_boundary toy_crypto toy_signed "alicea" " node").
  - vm_compute. reflexivity.
  - cbn. lia.
  - cbn. lia.
  - exact toy_signed_ok.
Defined.

(** Who the seeds are is not signed, as the comment in [String] says: any
    seed list within the limit keeps an accepted entry accepted, so others can
    extend the swarm. *)
Theorem Verify_seeds_unsigned `{Crypto} (e : Entry) (seeds : list bytes) :
  Z.of_nat (length seeds) <= MaxEntrySeeds ->
  Entry_Verify (Some e) = Ok tt -> Entry_Verify (Some (set_Seeds seeds e)) = Ok tt.
Proof.
  unfold MaxEntrySeeds. rewrite !Verify_iff. intros Hl ((?&?&?&?&?&?) & Hs). split; [|exact Hs].
  unfold entry_sizes. cbn. tauto.
Qed.

Lemma Verify_seeds_unsigned_witness :
  @Entry_Verify toy_crypto (Some (set_Seeds [replicate 20 "s"%char] toy_signed)) = Ok tt.
Proof.
  apply (@Verify_seeds_unsigned toy_crypto toy_signed [replicate 20 "s"%char]).
  - cbn. unfold MaxEntrySeeds. lia.
  - exact toy_signed_ok.
Defined.
