(* ===== verification/Util.v ===== *)
(** The helpers of [util/]: seed-list difference and union, shuffling, random
    numbers, and the rate limiter as a transition system. *)

From S2P Require Import Prelude GoLib Entry.

(** ** Lists of byte slices ([util/util.go]) *)

(** The Go map [encountered]: the strings of a list of byte slices. *)
Definition encounter (m : gmap string bool) (l : list bytes) : gmap string bool :=
  fold_left (fun m i => <[to_string i := true]> m) l m.

(** [SliceDiff(one, two)]. *)
Definition SliceDiff (one two : list bytes) : list bytes :=
  let encountered := encounter ∅ one in
  fold_left (fun result i =>
    match encountered !! to_string i with
    | None => result ++ [i]
    | Some _ => result
    end) two [].

(** [MergeSeeds(one, two)]; [order] is the order in which the runtime ranges
    over the map. *)
Definition MergeSeeds (order : list string -> list string) (one two : list bytes) : list bytes :=
  let encountered := encounter (encounter ∅ one) two in
  map to_bytes (order (map fst (map_to_list encountered))).

Lemma encounter_lookup m l k :
  is_Some (encounter m l !! k) <-> is_Some (m !! k) \/ k ∈ map to_string l.
Proof.
  revert m. induction l as [|x l IH]; intros m; cbn.
  - set_solver.
  - unfold encounter in IH. rewrite IH, lookup_insert, elem_of_cons.
    case_decide as E; [subst; rewrite is_Some_alt; tauto|].
    split; [intros [?|?]; auto|intros [?|[->|?]]; [auto|done|auto]].
Qed.

Lemma elem_of_map_to_string (x : bytes) l : to_string x ∈ map to_string l <-> x ∈ l.
Proof.
  split; intros H.
  - apply list_elem_of_In, in_map_iff in H as (y & E & Hy).
    apply to_string_inj in E as ->. by apply list_elem_of_In.
  - apply list_elem_of_In, in_map. by apply list_elem_of_In.
Qed.

Lemma encountered_iff (one : list bytes) i : is_Some (encounter ∅ one !! to_string i) <-> i ∈ one.
Proof.
  rewrite encounter_lookup, elem_of_map_to_string, lookup_empty. split; [|tauto].
  intros [[? ?]|?]; done.
Qed.

(** The reference form: [two] without the members of [one], in order. *)
Lemma SliceDiff_filter one two : SliceDiff one two = filter (fun x => x ∉ one) two.
Proof.
  unfold SliceDiff. cut (forall acc, fold_left (fun result i =>
    match encounter ∅ one !! to_string i with
    | None => result ++ [i] | Some _ => result end) two acc = acc ++ filter (fun x => x ∉ one) two).
  { intros Hc. by rewrite Hc. }
  induction two as [|x two IH]; intros acc; cbn [fold_left]; [by rewrite app_nil_r|].
  pose proof (encountered_iff one x) as Hx. rewrite filter_cons.
  destruct (encounter ∅ one !! to_string x) eqn:E; rewrite IH.
  - rewrite decide_False; [done|]. intros Hn. apply Hn, Hx. eauto.
  - rewrite decide_True, <-(assoc_L (++)); [done|]. intros Hn. apply Hx in Hn as [? ?]. done.
Qed.

Lemma MergeSeeds_elem order one two x :
  (forall l, order l ≡ₚ l) -> x ∈ MergeSeeds order one two <-> x ∈ one \/ x ∈ two.
Proof.
  intros Ho. unfold MergeSeeds.
  assert (x ∈ map to_bytes (order (map fst (map_to_list (encounter (encounter ∅ one) two)))) <->
          is_Some (encounter (encounter ∅ one) two !! to_string x)) as ->.
  { rewrite list_elem_of_In, in_map_iff. split.
    - intros (k & <- & Hk). rewrite string_of_list_ascii_of_string.
      apply list_elem_of_In in Hk. rewrite Ho in Hk.
      apply list_elem_of_In, in_map_iff in Hk as ([k' v] & <- & Hkv).
      apply list_elem_of_In, elem_of_map_to_list in Hkv. eauto.
    - intros [v Hv]. exists (to_string x). split; [apply list_ascii_of_string_of_list_ascii|].
      apply list_elem_of_In. rewrite Ho. apply list_elem_of_In, in_map_iff.
      exists (to_string x, v). split; [done|].
      by apply list_elem_of_In, elem_of_map_to_list. }
  rewrite encounter_lookup, elem_of_map_to_string, encountered_iff. done.
Qed.

Lemma MergeSeeds_NoDup order one two :
  (forall l, order l ≡ₚ l) -> NoDup (MergeSeeds order one two).
Proof.
  intros Ho. unfold MergeSeeds. apply NoDup_fmap_2_strong.
  - intros a b _ _. apply to_bytes_inj.
  - rewrite Ho. apply NoDup_fst_map_to_list.
Qed.

(** ** Shuffling ([ShuffleBytes], and [ShuffleEntries] of [dht/entry.go]) *)

(** [slice[i], slice[j] = slice[j], slice[i]], with the index checks. *)
Definition swap {A} (l : list A) (i j : nat) : outcome (list A) :=
  match l !! i, l !! j with
  | Some a, Some b => Ok (<[j := a]> (<[i := b]> l))
  | _, _ => Panic
  end.

Fixpoint shuffle_loop {A} (rand : nat -> nat) (ixs : list nat) (l : list A) : outcome (list A) :=
  match ixs with
  | [] => Ok l
  | i :: ixs' => l' ← swap l i (rand i); shuffle_loop rand ixs' l'
  end.

(** [rand i] is what [rand.Intn(i + 1)] returned in round [i]. *)
Definition Shuffle {A} (rand : nat -> nat) (l : list A) : outcome (list A) :=
  shuffle_loop rand (seq 0 (length l)) l.
Definition ShuffleBytes (rand : nat -> nat) (slice : list bytes) : outcome (list bytes) :=
  Shuffle rand slice.
Definition ShuffleEntries (rand : nat -> nat) (slice : list (option Entry)) :
  outcome (list (option Entry)) := Shuffle rand slice.

Lemma swap_perm {A} (l : list A) i j :
  (i < length l)%nat -> (j < length l)%nat ->
  exists l', swap l i j = Ok l' /\ l' ≡ₚ l.
Proof.
  intros Hi Hj. unfold swap.
  destruct (lookup_lt_is_Some_2 l i Hi) as [a Ha].
  destruct (lookup_lt_is_Some_2 l j Hj) as [b Hb].
  rewrite Ha, Hb. eexists. split; [done|].
  destruct (decide (i = j)) as [->|Hne].
  - rewrite list_insert_insert_eq. simplify_eq. by rewrite list_insert_id.
  - symmetry. apply Permutation_inj. split; [by rewrite !length_insert|].
    exists (fun k => if decide (k = i) then j else if decide (k = j) then i else k). split.
    + intros x y. repeat case_decide; congruence.
    + intros k. repeat case_decide; subst; try congruence.
      * by rewrite list_lookup_insert_eq by (rewrite length_insert; lia).
      * rewrite list_lookup_insert_ne by congruence. by rewrite list_lookup_insert_eq by lia.
      * by rewrite !list_lookup_insert_ne by congruence.
Qed.

Lemma Shuffle_perm {A} (rand : nat -> nat) (l : list A) :
  (forall i, (rand i <= i)%nat) -> exists l', Shuffle rand l = Ok l' /\ l' ≡ₚ l.
Proof.
  intros Hr. unfold Shuffle.
  cut (forall ixs (k : list A), Forall (fun i => (i < length k)%nat) ixs ->
        exists k', shuffle_loop rand ixs k = Ok k' /\ k' ≡ₚ k).
  { intros Hc. apply Hc. apply List.Forall_forall. intros i Hi. apply in_seq in Hi. lia. }
  induction ixs as [|i ixs IH]; intros k Hk; [by exists k|].
  apply Forall_cons_1 in Hk as [Hi Hk]. specialize (Hr i).
  destruct (swap_perm k i (rand i)) as (k1 & E & Hp); [lia|lia|].
  destruct (IH k1) as (k2 & E2 & Hp2).
  { rewrite (Permutation_length Hp). done. }
  exists k2. cbn. rewrite E. cbn. split; [done|]. by rewrite Hp2.
Qed.

(** ** Random numbers *)

(** [CryptoRandInt(min, max)]; [draw n] is the number below [n] that
    [crypto/rand.Int] returned, [None] its error. *)
Definition CryptoRandInt (draw : Z -> option Z) (min max : Z) : Z :=
  let d := to_int64 (max - min) in
  if d <=? 0 then 0
  else match draw d with
       | None => min
       | Some num => to_int64 (num + min)
       end.

(** [RandInt(min, max)]; [draw n] is the number below [n] that [Intn] returned, which
    panics when there is none. *)
Definition RandInt (draw : Z -> Z) (min max : Z) : outcome Z :=
  let n := to_int64 (max - min) in
  if n <=? 0 then Panic else Ok (to_int64 (draw n + min)).

(** [CryptoRandBytes(size)]; [read n] is what the source returned. *)
Definition CryptoRandBytes (read : nat -> option bytes) (size : Z) : outcome bytes :=
  if size <? 0 then Panic
  else if size =? 0 then Ok []
  else match read (Z.to_nat size) with
       | Some buf => Ok buf
       | None => Err (ErrText "rand")
       end.

(** The two generators on a range of at least one number that does not wrap around: a
    number of the range. On an empty one [RandInt] panics where [CryptoRandInt] is 0. *)
Lemma random_range (draw : Z -> Z) min max :
  (forall n, 0 < n -> 0 <= draw n < n) -> - 2 ^ 63 <= min -> max <= 2 ^ 63 - 1 -> max - min < 2 ^ 63 ->
  (min < max -> exists r, RandInt draw min max = Ok r /\ CryptoRandInt (fun n => Some (draw n)) min max = r /\ min <= r < max) /\
  (max <= min -> - 2 ^ 63 <= max - min -> RandInt draw min max = Panic /\ forall d, CryptoRandInt d min max = 0).
Proof.
  intros Hd H1 H2 H3. unfold RandInt, CryptoRandInt. split; intros H.
  - rewrite (to_int64_id (max - min)) by lia. rewrite (proj2 (Z.leb_gt _ _)) by lia.
    specialize (Hd (max - min)). rewrite to_int64_id by lia. eexists. split_and!; [reflexivity..|lia|lia].
  - intros H4. rewrite (to_int64_id (max - min)) by lia. by rewrite (proj2 (Z.leb_le _ _)) by lia.
Qed.

(** [SliceDiff] keeps, in order, exactly the members of the second list that
    are not in the first. *)
Theorem SliceDiff_spec (one two : list bytes) :
  SliceDiff one two = filter (fun x => x ∉ one) two /\
  (forall x, x ∈ SliceDiff one two <-> x ∈ two /\ x ∉ one).
Proof.
  rewrite SliceDiff_filter. split; [done|]. intros x. rewrite list_elem_of_filter. tauto.
Qed.

(** [MergeSeeds] is the union of the two lists without repetitions, in
    whatever order the runtime ranges over its map. *)
Theorem MergeSeeds_spec (order : list string -> list string) (one two : list bytes) :
  (forall l, order l ≡ₚ l) ->
  NoDup (MergeSeeds order one two) /\
  (forall x, x ∈ MergeSeeds order one two <-> x ∈ one \/ x ∈ two).
Proof. intros Ho. split; [by apply MergeSeeds_NoDup|]. intros x. by apply MergeSeeds_elem. Qed.

Lemma MergeSeeds_spec_witness :
  let one := [to_bytes "a"; to_bytes "b"] in
  let two := [to_bytes "b"; to_bytes "c"] in
  NoDup (MergeSeeds (@rev string) one two) /\
  (forall x, x ∈ MergeSeeds (@rev string) one two <-> x ∈ one \/ x ∈ two).
Proof.
  apply (MergeSeeds_spec (@rev string)). intros l. symmetry. apply Permutation_rev.
Defined.

(** Shuffling never indexes out of range and only permutes, for every
    sequence of draws the random source can return. *)
Theorem ShuffleBytes_permutes (rand : nat -> nat) (slice : list bytes) :
  (forall i, (rand i <= i)%nat) -> exists l, ShuffleBytes rand slice = Ok l /\ l ≡ₚ slice.
Proof. apply Shuffle_perm. Qed.

Lemma ShuffleBytes_permutes_witness :
  exists l, ShuffleBytes (fun i => Nat.div2 i) [to_bytes "a"; to_bytes "b"; to_bytes "c"] = Ok l /\
    l ≡ₚ [to_bytes "a"; to_bytes "b"; to_bytes "c"].
Proof. apply ShuffleBytes_permutes. intros i. apply Nat.div2_decr. lia. Defined.
