(* ===== verification/Limiter.v ===== *)
(** The rate limiter of [util/limiter.go] as a transition system: the token
    channel, the ticker with its one-element buffer, the goroutine that moves
    ticks into the channel, and a caller inside [Stop]. *)

From S2P Require Import Prelude.

Record Limiter := mkLimiter {
  tokens : nat;       (* values in the buffered channel Throttle *)
  burst : nat;        (* its capacity *)
  ticking : bool;     (* the ticker has not been stopped *)
  pending : bool;     (* a tick waits in the ticker's channel *)
  holding : bool;     (* the goroutine has received a tick and is at its select *)
  filling : bool;     (* the goroutine of NewLimiter still runs *)
  stopping : bool;    (* a caller of Stop is blocked sending on quit *)
  closed : bool;      (* Throttle has been closed *)
}.

(** [NewLimiter(rate, burst, fill)]; the channel is buffered if [burst > 0]. *)
Definition NewLimiter (burst : nat) (fill : bool) : Limiter :=
  mkLimiter (if fill then burst else 0) burst true false false true false false.

(** The rate limiters of a peer ([PeerLimiter.Setup]): announce and query. *)
Definition PeerLimiter_Setup : Limiter * Limiter := (NewLimiter 3 true, NewLimiter 3 true).

Inductive event := Tick | Take | Fill | Skip | Quit | Wait | Stop.

(** [Take] is the receive of the goroutine's loop; [Fill], [Skip] and [Quit] are the
    three cases of its [select], which it reaches with a tick in hand while the next one
    may be waiting already. [Quit] also completes the send in [Stop], which then closes
    [Throttle]. *)
Inductive step : Limiter -> event -> Limiter -> Prop :=
| step_tick l :
    ticking l = true ->
    step l Tick (mkLimiter (tokens l) (burst l) true true (holding l) (filling l) (stopping l) (closed l))
| step_take l :
    pending l = true -> filling l = true -> holding l = false ->
    step l Take (mkLimiter (tokens l) (burst l) (ticking l) false true true (stopping l) (closed l))
| step_fill l :
    holding l = true -> filling l = true -> (tokens l < burst l)%nat ->
    step l Fill (mkLimiter (S (tokens l)) (burst l) (ticking l) (pending l) false true (stopping l) (closed l))
| step_skip l :
    holding l = true -> filling l = true -> tokens l = burst l -> stopping l = false ->
    step l Skip (mkLimiter (tokens l) (burst l) (ticking l) (pending l) false true false (closed l))
| step_quit l :
    holding l = true -> filling l = true -> stopping l = true ->
    step l Quit (mkLimiter (tokens l) (burst l) (ticking l) (pending l) false false false true)
| step_wait l n :
    tokens l = S n ->
    step l Wait (mkLimiter n (burst l) (ticking l) (pending l) (holding l) (filling l) (stopping l) (closed l))
| step_wait_closed l :
    closed l = true -> tokens l = O -> step l Wait l
| step_stop l :
    stopping l = false -> closed l = false ->
    step l Stop (mkLimiter (tokens l) (burst l) false (pending l) (holding l) (filling l) true (closed l)).

Inductive steps : Limiter -> list event -> Limiter -> Prop :=
| steps_nil l : steps l [] l
| steps_cons l e l' tr l'' : step l e l' -> steps l' tr l'' -> steps l (e :: tr) l''.

Definition count_ev (e : event) (tr : list event) : nat :=
  length (List.filter (fun x => match x, e with
    | Tick, Tick | Take, Take | Fill, Fill | Skip, Skip | Quit, Quit | Wait, Wait | Stop, Stop => true
    | _, _ => false end) tr).

(** What holds in every reachable state: the channel is within its capacity,
    and it is closed only once the goroutine that sends on it has returned. *)
Definition limiter_inv (l : Limiter) : Prop :=
  (tokens l <= burst l)%nat /\ (closed l = true -> filling l = false) /\
  (stopping l = true -> ticking l = false) /\ (closed l = true -> ticking l = false).

Lemma step_inv l e l' : step l e l' -> limiter_inv l -> limiter_inv l'.
Proof.
  unfold limiter_inv. intros Hs (H1 & H2 & H3 & H4).
  destruct Hs; cbn in *; repeat split; try lia; try congruence; intuition congruence.
Qed.

Lemma steps_inv l tr l' : steps l tr l' -> limiter_inv l -> limiter_inv l'.
Proof. induction 1; eauto using step_inv. Qed.

Lemma NewLimiter_inv n fill : limiter_inv (NewLimiter n fill).
Proof. unfold limiter_inv. cbn. destruct fill; repeat split; try lia; done. Qed.

Lemma step_burst l e l' : step l e l' -> burst l' = burst l.
Proof. by destruct 1. Qed.

Lemma step_closed_mono l e l' : step l e l' -> closed l = true -> closed l' = true.
Proof. by destruct 1. Qed.

Lemma steps_closed_mono l tr l' : steps l tr l' -> closed l = true -> closed l' = true.
Proof. induction 1; eauto using step_closed_mono. Qed.

Lemma steps_burst l tr l' : steps l tr l' -> burst l' = burst l.
Proof. induction 1 as [|l e l1 tr l2 Hs _ IH]; [done|]. by rewrite IH, (step_burst _ _ _ Hs). Qed.

Lemma steps_app l tr l' tr' l'' : steps l tr l' -> steps l' tr' l'' -> steps l (tr ++ tr') l''.
Proof. induction 1; [done|]. intros H'. cbn. eapply steps_cons; eauto. Qed.

Lemma count_app e tr tr' : count_ev e (tr ++ tr') = (count_ev e tr + count_ev e tr')%nat.
Proof. unfold count_ev. by rewrite List.filter_app, length_app. Qed.

Lemma count_replicate e e' k : count_ev e (replicate k e') = if count_ev e [e'] then 0%nat else k.
Proof. induction k as [|k IH]; [by destruct e, e'|]. unfold count_ev in *. destruct e, e'; cbn in *; lia. Qed.

(** The extreme run: the channel is full, a tick is in hand and another one waits. *)
Definition brim (n : nat) : Limiter := mkLimiter n n true true true true false false.

Lemma fill_up n k : forall t, (t + k <= n)%nat ->
  exists tr, steps (mkLimiter t n true false false true false false) tr (mkLimiter (t + k) n true false false true false false).
Proof.
  induction k as [|k IH]; intros t Hk; [exists []; rewrite Nat.add_0_r; constructor|].
  destruct (IH (S t)) as [tr Htr]; [lia|]. replace (t + S k)%nat with (S t + k)%nat by lia. exists (Tick :: Take :: Fill :: tr).
  eapply steps_cons; [by apply step_tick|]. eapply steps_cons; [by apply step_take|].
  eapply steps_cons; [apply step_fill; cbn; try done; lia|]. exact Htr.
Qed.

Lemma burst_reached n fill : (0 < n)%nat -> exists tr, steps (NewLimiter n fill) tr (brim n).
Proof.
  intros Hn. assert (exists tr, steps (NewLimiter n fill) tr (mkLimiter n n true false false true false false)) as [tr Htr].
  { destruct fill; [exists []; constructor|]. apply (fill_up n n 0). lia. }
  exists (tr ++ [Tick; Take; Tick]). eapply steps_app; [exact Htr|].
  eapply steps_cons; [by apply step_tick|]. eapply steps_cons; [by apply step_take|].
  eapply steps_cons; [by apply step_tick|]. constructor.
Qed.

Lemma drain n b p h k : forall t, steps (mkLimiter (k + t) n b p h true false false) (replicate k Wait) (mkLimiter t n b p h true false false).
Proof.
  induction k as [|k IH]; intros t; [constructor|]. cbn. eapply steps_cons; [by apply (step_wait _ (k + t))|]. apply IH.
Qed.

Lemma full_run n : (0 < n)%nat ->
  steps (brim n) (replicate n Wait ++ [Fill; Take; Wait; Fill; Wait]) (mkLimiter 0 n true false false true false false).
Proof.
  intros Hn. eapply steps_app.
  { pose proof (drain n true true true n 0) as H. rewrite Nat.add_0_r in H. exact H. }
  eapply steps_cons; [by apply step_fill|]. eapply steps_cons; [by apply step_take|].
  eapply steps_cons; [by apply (step_wait _ 0)|]. eapply steps_cons; [by apply step_fill|].
  eapply steps_cons; [by apply (step_wait _ 0)|]. constructor.
Qed.

Definition b2n (b : bool) : nat := if b then 1%nat else 0%nat.

(** The accounting of one run: tokens are conserved. *)
Definition stock (l : Limiter) : nat := tokens l + b2n (pending l) + b2n (holding l).

Lemma step_account l e l' : step l e l' -> closed l' = false ->
  ((match e with Wait => 1 | _ => 0 end) + stock l' <= stock l + match e with Tick => 1 | _ => 0 end)%nat.
Proof.
  unfold stock. destruct 1; cbn; intros Hc;
    repeat match goal with H : pending _ = _ |- _ => rewrite H | H : holding _ = _ |- _ => rewrite H end; cbn;
    try destruct (pending l); try destruct (holding l); cbn; try lia; congruence.
Qed.

Lemma steps_account l tr l' : steps l tr l' -> closed l' = false ->
  (count_ev Wait tr + stock l' <= stock l + count_ev Tick tr)%nat.
Proof.
  induction 1 as [l|l e l1 tr l2 Hs Hss IH]; intros Hc; [cbn; lia|]. specialize (IH Hc).
  assert (closed l1 = false) as Hc1.
  { destruct (closed l1) eqn:E; [|done]. rewrite (steps_closed_mono _ _ _ Hss E) in Hc. done. }
  pose proof (step_account _ _ _ Hs Hc1) as Ha. unfold count_ev in *. destruct e; cbn in *; lia.
Qed.

(** Once [Stop] is waiting and no tick is left, no step sends or receives on
    the channels it waits for. *)
Definition stuck_in_stop (l : Limiter) : Prop :=
  stopping l = true /\ ticking l = false /\ pending l = false /\ holding l = false /\ closed l = false.

Lemma step_stuck l e l' : step l e l' -> stuck_in_stop l -> stuck_in_stop l'.
Proof.
  unfold stuck_in_stop. intros Hs (H1 & H2 & H3 & H4 & H5).
  destruct Hs; cbn in *; try congruence; done.
Qed.

(** ** Properties *)

(** C38. In any run of a limiter with a buffer, from any moment before [Stop] has closed it,
    the number of calls of [Wait] that return is at most the burst plus the ticks of that
    run and two more: one tick may be waiting in the ticker's channel and one may be in the
    hands of the goroutine when the run begins. That bound is reached. *)
Theorem Limiter_rate (n : nat) (fill : bool) (pre tr : list event) (l l' : Limiter) :
  (0 < n)%nat -> steps (NewLimiter n fill) pre l -> steps l tr l' -> closed l' = false ->
  (count_ev Wait tr <= n + count_ev Tick tr + 2)%nat /\
  exists pre2 tr2 l2 l2', steps (NewLimiter n fill) pre2 l2 /\ steps l2 tr2 l2' /\ closed l2' = false /\
    count_ev Wait tr2 = (n + count_ev Tick tr2 + 2)%nat.
Proof.
  intros Hn Hpre Htr Hc. split.
  - pose proof (steps_account _ _ _ Htr Hc) as Ha.
    destruct (steps_inv _ _ _ Hpre (NewLimiter_inv n fill)) as [Ht _].
    rewrite (steps_burst _ _ _ Hpre) in Ht. cbn in Ht.
    unfold stock in Ha. destruct (pending l), (holding l); cbn in *; lia.
  - destruct (burst_reached n fill Hn) as (pre2 & H2).
    eexists pre2, _, _, _. split; [exact H2|]. split; [exact (full_run n Hn)|]. split; [done|].
    rewrite !count_app, !count_replicate. cbn. lia.
Qed.

Lemma Limiter_rate_witness :
  (count_ev Wait [Wait; Wait; Wait; Tick; Take; Fill; Wait] <=
   3 + count_ev Tick [Wait; Wait; Wait; Tick; Take; Fill; Wait] + 2)%nat.
Proof.
  apply (Limiter_rate 3 true [] [Wait; Wait; Wait; Tick; Take; Fill; Wait]
           (NewLimiter 3 true) (mkLimiter 0 3 true false false true false false));
    [lia|constructor| |reflexivity].
  eapply steps_cons; [apply (step_wait _ 2); reflexivity|].
  eapply steps_cons; [apply (step_wait _ 1); reflexivity|].
  eapply steps_cons; [apply (step_wait _ 0); reflexivity|].
  eapply steps_cons; [apply step_tick; reflexivity|].
  eapply steps_cons; [apply step_take; reflexivity|].
  eapply steps_cons; [apply step_fill; cbn; [reflexivity|reflexivity|lia]|].
  eapply steps_cons; [apply (step_wait _ 0); reflexivity|]. apply steps_nil.
Defined.

(** No run of a limiter sends on the closed channel: once [Throttle] is
    closed the filling goroutine has returned. *)
Theorem Limiter_no_send_on_closed (n : nat) (fill : bool) (tr : list event) (l l' : Limiter) :
  steps (NewLimiter n fill) tr l -> closed l = true -> ~ step l Fill l'.
Proof.
  intros Htr Hc Hs. destruct (steps_inv _ _ _ Htr (NewLimiter_inv n fill)) as (_ & Hf & _).
  specialize (Hf Hc). inversion Hs; subst. congruence.
Qed.

(** A limiter that was stopped while a tick was waiting, so that [Stop] ends. *)
Definition stopped_run : list event := [Tick; Take; Stop; Quit].

Lemma Limiter_no_send_on_closed_witness :
  ~ step (mkLimiter 3 3 false false false false false true) Fill (NewLimiter 3 true).
Proof.
  apply (Limiter_no_send_on_closed 3 true stopped_run); [|reflexivity].
  eapply steps_cons; [apply step_tick; reflexivity|].
  eapply steps_cons; [apply step_take; reflexivity|].
  eapply steps_cons; [apply step_stop; reflexivity|].
  eapply steps_cons; [apply step_quit; reflexivity|]. apply steps_nil.
Defined.

(** [Stop] stops the ticker before it sends on [quit], and the goroutine
    looks at [quit] only after a tick: if no tick is waiting or in its hands when
    [Stop] is called, it never returns. *)
Theorem Limiter_Stop_deadlock (l l1 l2 : Limiter) (tr : list event) :
  pending l = false -> holding l = false -> step l Stop l1 -> steps l1 tr l2 ->
  stopping l2 = true /\ closed l2 = false.
Proof.
  intros Hp Hh Hs Htr.
  assert (stuck_in_stop l1) as H1 by (unfold stuck_in_stop; inversion Hs; subst; cbn; auto).
  assert (stuck_in_stop l2) as H2.
  { clear Hs Hp Hh. induction Htr; eauto using step_stuck. }
  unfold stuck_in_stop in H2. tauto.
Qed.

Lemma Limiter_Stop_deadlock_witness :
  stopping (mkLimiter 2 3 false false false true true false) = true /\
  closed (mkLimiter 2 3 false false false true true false) = false.
Proof.
  apply (Limiter_Stop_deadlock (NewLimiter 3 true) (mkLimiter 3 3 false false false true true false)
           (mkLimiter 2 3 false false false true true false) [Wait]).
  - reflexivity.
  - reflexivity.
  - apply step_stop; reflexivity.
  - eapply steps_cons; [apply (step_wait _ 2); reflexivity|]. apply steps_nil.
Defined.
