(* ===== verification/Sqlite.v ===== *)
(** What the code relies on of SQLite and its driver: the text columns, the
    full text index, and statements that can fail. Shared by the peer database
    ([dht/]) and the post database ([data/]). *)

From S2P Require Import Prelude.

Definition is_digit (c : byte) : bool := let v := bval c in (48 <=? v) && (v <=? 57).
Definition is_blank (c : byte) : bool := let v := bval c in (v =? 32) || ((9 <=? v) && (v <=? 13)).

(** Numeric literals: an integer or a real, with a sign, an exponent and blanks around. *)
Fixpoint skip (f : byte -> bool) (l : bytes) : bytes :=
  match l with c :: l' => if f c then skip f l' else l | [] => [] end.
Definition skip_sign (l : bytes) : bytes :=
  match l with c :: l' => if (bval c =? 43) || (bval c =? 45) then l' else l | [] => [] end.
(** At least one digit, and what is after the digits. *)
Definition digits (l : bytes) : option bytes :=
  match l with c :: l' => if is_digit c then Some (skip is_digit l') else None | [] => None end.
Definition literal_end (l : bytes) : bool :=
  match skip is_blank l with
  | [] => true
  | c :: l' =>
      ((bval c =? 69) || (bval c =? 101)) && bool_decide (skip is_blank l = l) &&
      match digits (skip_sign l') with Some rest => bool_decide (skip is_blank rest = []) | None => false end
  end.
Definition numeric_literal (s : string) : bool :=
  let l := skip_sign (skip is_blank (to_bytes s)) in
  match digits l with
  | Some (c :: rest) => literal_end (if bval c =? 46 then skip is_digit rest else c :: rest)
  | Some [] => true
  | None =>
      match l with
      | c :: rest => (bval c =? 46) && match digits rest with Some rest' => literal_end rest' | None => false end
      | [] => false
      end
  end.

Definition looks_textual (s : string) : bool := negb (numeric_literal s).

(** The columns are declared STRING, which gives them SQLite's NUMERIC
    affinity: a text that is a numeric literal is stored as a number.
    [col_text s] is the Go string that [Scan] reads back after [s] was stored
    in such a column. [fts_docids] are the rows of a full text index that match
    a query, [fts_docids_or] those of an index on two columns of which one
    matches its query, in the order of the engine. *)
Class Sqlite := {
  col_text : string -> string;
  fts_docids : string -> list (Z * string) -> list Z;
  fts_docids_or : string -> string -> list (Z * (string * string)) -> list Z;
}.

(** Documented behaviour: a text that is not a numeric literal is kept,
    and storing a text that was read back changes nothing; the index returns
    rows it holds. *)
Class SqliteLaws (D : Sqlite) : Prop := {
  col_text_textual s : looks_textual s = true -> col_text s = s;
  col_text_idem s : col_text (col_text s) = col_text s;
  fts_docids_in q rows d : d ∈ fts_docids q rows -> d ∈ map fst rows;
  fts_docids_or_in q1 q2 rows d : d ∈ fts_docids_or q1 q2 rows -> d ∈ map fst rows;
}.

(** A concrete instance: leading zeros of an all-digit text are dropped (as an
    integer is stored), and the index matches equal texts. *)
Fixpoint all_digits (s : string) : bool :=
  match s with EmptyString => true | String c s' => is_digit c && all_digits s' end.
Fixpoint strip_zeros (s : string) : string :=
  match s with
  | String "0" s' => match s' with EmptyString => s | _ => strip_zeros s' end
  | _ => s
  end.
Definition toy_col_text (s : string) : string := if all_digits s then strip_zeros s else s.
Definition toy_sqlite : Sqlite := {|
  col_text := toy_col_text;
  fts_docids q rows := map fst (filter (fun r => r.2 = q) rows);
  fts_docids_or q1 q2 rows := map fst (filter (fun r => r.2.1 = q1 \/ r.2.2 = q2) rows);
|}.

Lemma map_fst_filter {B} (P : Z * B -> Prop) `{!forall x, Decision (P x)} rows d :
  d ∈ map fst (filter P rows) -> d ∈ map fst rows.
Proof.
  intros Hd. apply list_elem_of_In, in_map_iff in Hd as (r & <- & Hr).
  apply list_elem_of_In, in_map. apply list_elem_of_In in Hr.
  apply list_elem_of_filter in Hr as [_ Hr]. by apply list_elem_of_In.
Qed.

Lemma strip_zeros_fix s : strip_zeros (strip_zeros s) = strip_zeros s.
Proof.
  induction s as [|c s IH]; [done|]. destruct s as [|d s]; [by destruct c as [[] [] [] [] [] [] [] []]|].
  destruct c as [[] [] [] [] [] [] [] []]; try done; exact IH.
Qed.

Lemma strip_zeros_digits s : all_digits s = true -> all_digits (strip_zeros s) = true.
Proof.
  induction s as [|c s IH]; [done|]. destruct s as [|d s]; [by destruct c as [[] [] [] [] [] [] [] []]|].
  intros H. assert (all_digits (String d s) = true) as Ht by (cbn in H |- *; destruct (is_digit c); done).
  destruct c as [[] [] [] [] [] [] [] []]; try exact H; exact (IH Ht).
Qed.

Lemma skip_digits s : all_digits s = true -> skip is_digit (to_bytes s) = [].
Proof. induction s as [|c s IH]; [done|]. cbn. destruct (is_digit c); [exact IH|done]. Qed.

Lemma digits_numeric c s : all_digits (String c s) = true -> numeric_literal (String c s) = true.
Proof.
  intros H. assert (is_digit c = true) as Hc by (cbn in H; by destruct (is_digit c)).
  assert (all_digits s = true) as Hs by (cbn in H; by rewrite Hc in H).
  assert (is_blank c = false /\ (bval c =? 43) = false /\ (bval c =? 45) = false) as (H1 & H2 & H3).
  { unfold is_digit in Hc. unfold is_blank. lia. }
  unfold numeric_literal. cbn [to_bytes skip]. rewrite H1. cbn [skip_sign]. rewrite H2, H3. cbn [orb digits].
  by rewrite Hc, skip_digits.
Qed.

(** A text that starts with no digit, sign, point or blank is no number. *)
Lemma textual_start c s :
  is_digit c || is_blank c || (bval c =? 43) || (bval c =? 45) || (bval c =? 46) = false -> looks_textual (String c s) = true.
Proof.
  rewrite !orb_false_iff. intros [[[[H1 H2] H3] H4] H5]. unfold looks_textual, numeric_literal.
  cbn [to_bytes skip]. rewrite H2. cbn [skip_sign]. rewrite H3, H4. cbn [orb digits]. by rewrite H1, H5.
Qed.

Lemma toy_sqlite_laws : SqliteLaws toy_sqlite.
Proof.
  split; cbn.
  - intros [|c s] H; [done|]. unfold toy_col_text. destruct (all_digits (String c s)) eqn:E; [|done].
    unfold looks_textual in H. by rewrite digits_numeric in H.
  - intros s. unfold toy_col_text. destruct (all_digits s) eqn:E; [|by rewrite E].
    rewrite strip_zeros_digits by done. apply strip_zeros_fix.
  - intros q rows d. apply map_fst_filter.
  - intros q1 q2 rows d. apply map_fst_filter.
Qed.

(** ** Statements that may fail *)

(** A store with the outcomes of the coming statements: [true] is a statement
    the driver refuses (a disk error, a locked file); an empty list means that
    no statement fails any more. *)
Class Faulty (D : Type) := {
  faults : D -> list bool;
  set_faults : list bool -> D -> D;
}.

Definition sql_stmt {D A} `{Faulty D} (f : D -> D * outcome A) : M D A := fun d =>
  match faults d with
  | true :: fs => (set_faults fs d, Err ErrDriver)
  | false :: fs => f (set_faults fs d)
  | [] => f d
  end.

(** A statement that only reads. *)
Definition sql_query {D A} `{Faulty D} (f : D -> outcome A) : M D A :=
  sql_stmt (fun d => (d, f d)).

Lemma spec_sql_stmt {D A} `{Faulty D} (P : D -> Prop) (f : D -> D * outcome A) (Q : A -> Prop) :
  (forall fs d, P d -> P (set_faults fs d)) ->
  (forall d, P d -> P (f d).1 /\ returns (f d).2 Q) ->
  spec P (sql_stmt f) Q.
Proof.
  intros Hfs Hf d Hd. unfold sql_stmt. destruct (faults d) as [|[] fs]; auto.
  split; [by apply Hfs|]. done.
Qed.

Lemma sql_stmt_healthy {D A} `{Faulty D} (f : D -> D * outcome A) d :
  faults d = [] -> sql_stmt f d = f d.
Proof. unfold sql_stmt. by intros ->. Qed.

Example ip_textual : looks_textual "192.0.2.1" = true.
Proof. reflexivity. Qed.
Example number_numeric : forallb numeric_literal ["12"; " -1.5e3 "; ".5"; "7."]%string = true.
Proof. reflexivity. Qed.
Example text_textual : forallb looks_textual [""; "1e"; "0x10"; "."; "-"; "1 2"; "2nd"]%string = true.
Proof. reflexivity. Qed.
