(* ===== verification/NetStore.v ===== *)
(** The tables of the peer database and the statements on them ([dht/sql.go]):
    entries, seeds (who seeds for whom) and the full text index. *)

From S2P Require Import Prelude GoLib Entry Sqlite.

Record entry_row := mkRow {
  r_id : Z;
  r_address : string;
  r_name : string;
  r_desc : string;
  r_publicAddress : string;
  r_port : Z;
  r_publicKey : bytes;
  r_signature : bytes;
  r_collectionHash : bytes;
  r_postCount : Z;
  r_seedCount : Z;
  r_seedingCount : Z;
  r_updated : Z;
  r_seen : Z;
}.

(** A row of [seed]: the peer with id [s_seed] seeds for the one with [s_for]. *)
Record seed_row := mkSeed { s_id : Z; s_seed : Z; s_for : Z }.

Record Db := mkDb {
  entries : list entry_row;
  seeds : list seed_row;
  ftsEntry : list (Z * (string * string));   (* docid, name, desc *)
  db_faults : list bool;
}.

#[global] Instance Db_faulty : Faulty Db := {|
  faults := db_faults;
  set_faults fs d := mkDb (entries d) (seeds d) (ftsEntry d) fs;
|}.

(** The rowid SQLite gives a new row: one above the largest. *)
Definition max_id (ids : list Z) : Z := fold_right Z.max 0 ids.
Definition next_id (ids : list Z) : Z := max_id ids + 1.

Section Statements.
Context `{Sqlite}.

(** [WHERE address=?]: the parameter gets the affinity of the column. *)
Definition has_address (a : string) (r : entry_row) : bool := String.eqb (col_text a) (r_address r).

Definition find_address (a : string) (d : Db) : option entry_row :=
  List.find (has_address a) (entries d).

(** The columns that [Insert] and [Update] write, from the statement's arguments. *)
Definition row_of (id : Z) (a : string) (e : Entry) : entry_row :=
  mkRow id (col_text a) (col_text (Name e)) (col_text (Desc e)) (col_text (PublicAddress e))
    (Port e) (PublicKey e) (Signature e) (CollectionHash e) (PostCount e)
    (Z.of_nat (length (Seeds e))) (Z.of_nat (length (Seeding e))) (Updated e) (Seen e).

(** database/sql refuses a uint64 argument with the high bit set. *)
Definition bind_uint64 (u : Z) : bool := u <? 2 ^ 63.

(** [sqlUpdateEntry]: every row with the address; the number of rows. *)
Definition sqlUpdateEntry (a : string) (e : Entry) : M Db Z :=
  if bind_uint64 (Updated e) then
    sql_stmt (fun d =>
      (mkDb (map (fun r => if has_address a r then
                   mkRow (r_id r) (r_address r) (col_text (Name e)) (col_text (Desc e))
                     (col_text (PublicAddress e)) (Port e) (PublicKey e) (Signature e)
                     (CollectionHash e) (PostCount e) (Z.of_nat (length (Seeds e)))
                     (Z.of_nat (length (Seeding e))) (Updated e) (Seen e)
                 else r) (entries d)) (seeds d) (ftsEntry d) (db_faults d),
       Ok (Z.of_nat (length (List.filter (has_address a) (entries d))))))
  else fail ErrDriver.

(** [sqlInsertEntry], INSERT OR IGNORE on the unique address: rows affected and
    the id of the new row. *)
Definition sqlInsertEntry (a : string) (e : Entry) : M Db (Z * Z) :=
  if bind_uint64 (Updated e) then
    sql_stmt (fun d =>
      match find_address a d with
      | Some r => (d, Ok (0, r_id r))
      | None =>
          let id := next_id (map r_id (entries d)) in
          (mkDb (entries d ++ [row_of id a e]) (seeds d) (ftsEntry d) (db_faults d), Ok (1, id))
      end)
  else fail ErrDriver.

(** [sqlInsertFtsEntry], INSERT OR IGNORE on the docid. *)
Definition sqlInsertFtsEntry (id : Z) (name desc : string) : M Db unit :=
  sql_stmt (fun d =>
    if bool_decide (id ∈ map fst (ftsEntry d)) then (d, Ok tt)
    else (mkDb (entries d) (seeds d) (ftsEntry d ++ [(id, (name, desc))]) (db_faults d), Ok tt)).

(** [sqlQueryAddress] and [sqlQueryIdByAddress], one row at most: the address is unique. *)
Definition sqlQueryAddress (a : string) : M Db entry_row :=
  sql_query (fun d => match find_address a d with Some r => Ok r | None => Err ErrNoRows end).
Definition sqlQueryIdByAddress (a : string) : M Db Z :=
  sql_query (fun d => match find_address a d with Some r => Ok (r_id r) | None => Err ErrNoRows end).

(** [sqlInsertSeed], INSERT OR IGNORE on the pair (seed, for). *)
Definition sqlInsertSeed (seed for_ : Z) : M Db unit :=
  sql_stmt (fun d =>
    if bool_decide ((seed, for_) ∈ map (fun s => (s_seed s, s_for s)) (seeds d)) then (d, Ok tt)
    else (mkDb (entries d) (seeds d ++ [mkSeed (next_id (map s_id (seeds d))) seed for_])
            (ftsEntry d) (db_faults d), Ok tt)).

Definition address_of_id (d : Db) (id : Z) : list string :=
  map r_address (List.filter (fun r => r_id r =? id) (entries d)).

(** [sqlQuerySeeds]: the addresses of the seeds of an entry, in the order of the
    seed table (the statement has no ORDER BY). *)
Definition sqlQuerySeeds (id : Z) : M Db (list string) :=
  sql_query (fun d => Ok (flat_map (fun s => address_of_id d (s_seed s))
    (List.filter (fun s => s_for s =? id) (seeds d)))).

(** [sqlQuerySeeding]: what an entry is a seed for. *)
Definition sqlQuerySeeding (id : Z) : M Db (list string) :=
  sql_query (fun d => Ok (flat_map (fun s => address_of_id d (s_for s))
    (List.filter (fun s => s_seed s =? id) (seeds d)))).

(** [sqlEntryLen]: MAX(id), NULL on an empty table, which [Scan] cannot store in
    an int. *)
Definition sqlEntryLen : M Db Z :=
  sql_query (fun d => match entries d with
    | [] => Err ErrDriver
    | _ => Ok (max_id (map r_id (entries d)))
    end).

(** [sqlQueryLatest]: ORDER BY id DESC LIMIT 20. The ids are ascending in the
    table, as they are given out in order and rows are never deleted. *)
Definition sqlQueryLatest : M Db (list entry_row) :=
  sql_query (fun d => Ok (take 20 (rev (entries d)))).

(** [sqlSearchEntries]: the entry whose id equals the scalar subquery, that is its
    first row, LIMIT offset,count. *)
Definition sqlSearchEntries (name desc : string) (offset count : Z) : M Db (list string) :=
  sql_query (fun d =>
    let docids := fts_docids_or name desc (ftsEntry d) in
    let found := match docids with [] => [] | id :: _ => address_of_id d id end in
    Ok (take (Z.to_nat count) (drop (Z.to_nat offset) found))).

(** ** The invariant of the store *)

(** Ids are 1, 2, ... in table order; addresses are unique texts that storing
    does not change; seed rows name existing ids. *)
Definition db_wf (good : string -> Prop) (d : Db) : Prop :=
  map r_id (entries d) = map Z.of_nat (seq 1 (length (entries d))) /\
  NoDup (map r_address (entries d)) /\
  Forall (fun r => good (r_address r)) (entries d) /\
  Forall (fun s => s_seed s ∈ map r_id (entries d) /\ s_for s ∈ map r_id (entries d)) (seeds d).

Lemma max_id_seq n : max_id (map Z.of_nat (seq 1 n)) = Z.of_nat n.
Proof.
  enough (forall k, (1 <= k)%nat -> max_id (map Z.of_nat (seq k n)) =
            if (n =? 0)%nat then 0 else Z.of_nat (k + n - 1)) as Hk.
  { rewrite Hk by lia. destruct (Nat.eqb_spec n 0); lia. }
  induction n as [|n IH]; intros k Hk; [done|]. cbn [seq map max_id fold_right].
  fold (max_id (map Z.of_nat (seq (S k) n))). rewrite IH by lia.
  destruct (Nat.eqb_spec n 0); cbn [Nat.eqb]; lia.
Qed.

Lemma next_id_wf good d : db_wf good d -> next_id (map r_id (entries d)) = Z.of_nat (S (length (entries d))).
Proof. intros (Hid & _). unfold next_id. rewrite Hid, max_id_seq. lia. Qed.

Lemma find_address_Some a d r :
  find_address a d = Some r -> r ∈ entries d /\ r_address r = col_text a.
Proof.
  intros Hf. apply find_some in Hf as [Hin Ha]. split; [by apply list_elem_of_In|].
  by apply String.eqb_eq in Ha.
Qed.

Lemma find_address_None a d :
  find_address a d = None <-> col_text a ∉ map r_address (entries d).
Proof.
  unfold find_address. split.
  - intros Hf Hin. apply list_elem_of_In, in_map_iff in Hin as (r & Hr & Hin).
    pose proof (find_none _ _ Hf r Hin) as Hn. unfold has_address in Hn.
    by rewrite Hr, String.eqb_refl in Hn.
  - intros Hn. destruct (List.find _ _) as [r|] eqn:E; [|done]. exfalso.
    apply find_some in E as [Hin Ha]. apply Hn. apply String.eqb_eq in Ha as ->.
    by apply list_elem_of_In, in_map.
Qed.

Lemma row_good good d r : db_wf good d -> r ∈ entries d -> good (r_address r).
Proof. intros (_ & _ & Hg & _) Hr. rewrite List.Forall_forall in Hg. by apply Hg, list_elem_of_In. Qed.

Lemma elem_of_map {A B} (f : A -> B) l y : y ∈ map f l <-> exists x, y = f x /\ x ∈ l.
Proof.
  rewrite list_elem_of_In, in_map_iff. split; intros (x & H1 & H2); exists x;
    (split; [by symmetry|]); by apply list_elem_of_In.
Qed.

Section Invariant.
Context (good : string -> Prop).

Lemma db_wf_faults fs d : db_wf good d -> db_wf good (set_faults fs d).
Proof. done. Qed.

Lemma spec_query {A} (f : Db -> outcome A) (Q : A -> Prop) :
  (forall d, db_wf good d -> returns (f d) Q) -> spec (db_wf good) (sql_query f) Q.
Proof. intros Hf. apply spec_sql_stmt; [exact db_wf_faults|]. cbn. eauto. Qed.

(** Rewriting rows in place without their id and address. *)
Lemma db_wf_map f d fts fs :
  (forall r, r_id (f r) = r_id r /\ r_address (f r) = r_address r) ->
  db_wf good d -> db_wf good (mkDb (map f (entries d)) (seeds d) fts fs).
Proof.
  intros Hf (H1 & H2 & H3 & H4). unfold db_wf. cbn.
  assert (map r_id (map f (entries d)) = map r_id (entries d)) as Hid.
  { rewrite map_map. apply map_ext. intros r. apply Hf. }
  assert (map r_address (map f (entries d)) = map r_address (entries d)) as Ha.
  { rewrite map_map. apply map_ext. intros r. apply Hf. }
  rewrite Hid, Ha, length_map. split_and!; try done.
  apply Forall_map. eapply Forall_impl; [|exact H3]. intros r. cbn.
  by destruct (Hf r) as [_ ->].
Qed.

Lemma keeps_UpdateEntry a e : keeps (db_wf good) (sqlUpdateEntry a e).
Proof.
  unfold sqlUpdateEntry. case_match; [|apply keeps_fail].
  apply spec_sql_stmt; [exact db_wf_faults|]. intros d Hd. split; [|done]. cbn [fst].
  apply db_wf_map; [|exact Hd]. intros r. by case_match.
Qed.

Lemma keeps_InsertEntry a e : good (col_text a) -> keeps (db_wf good) (sqlInsertEntry a e).
Proof.
  intros Ha. unfold sqlInsertEntry. case_match; [|apply keeps_fail].
  apply spec_sql_stmt; [exact db_wf_faults|]. intros d Hd.
  destruct (find_address a d) eqn:E; [by split|]. split; [|done]. cbn [fst].
  apply find_address_None in E. rewrite (next_id_wf good) by done.
  destruct Hd as (H1 & H2 & H3 & H4). unfold db_wf. cbn [entries seeds].
  rewrite !map_app, length_app. cbn [map length r_id r_address row_of].
  split_and!.
  - rewrite H1. replace (length (entries d) + 1)%nat with (S (length (entries d))) by lia.
    by rewrite seq_S, map_app.
  - apply list.NoDup_app. split_and!; [done| |apply NoDup_singleton].
    intros x Hx Hx'. apply list_elem_of_singleton in Hx' as ->. done.
  - apply Forall_app. split; [done|]. by repeat constructor.
  - eapply Forall_impl; [|exact H4]. cbn. intros s [? ?]. rewrite !elem_of_app. tauto.
Qed.

Lemma keeps_InsertFtsEntry id n ds : keeps (db_wf good) (sqlInsertFtsEntry id n ds).
Proof.
  apply spec_sql_stmt; [exact db_wf_faults|]. intros d Hd. by case_bool_decide.
Qed.

Lemma db_wf_seed d s :
  db_wf good d -> s_seed s ∈ map r_id (entries d) -> s_for s ∈ map r_id (entries d) ->
  db_wf good (mkDb (entries d) (seeds d ++ [s]) (ftsEntry d) (db_faults d)).
Proof.
  intros (H1 & H2 & H3 & H4) Hs Hf. unfold db_wf. cbn. split_and!; try done.
  apply Forall_app. split; [done|]. by repeat constructor.
Qed.
End Invariant.

End Statements.
