(* ===== verification/NetDB.v ===== *)
(** The peer database and routing table ([dht/netdb.go]): [NetDB] holds one
    bucket of addresses per bit of the distance to the own address, each bucket
    a Go slice over a backing array, and the SQLite database of entries.

    The backing arrays are modelled: [range] over a bucket reads the array while
    [Query], called in its body, moves addresses inside it. *)

From S2P Require Import Prelude GoLib Base58Check Crypto Address Entry Sqlite NetStore.

Definition BucketSize : nat := 20.

(** ** The database half: methods that only use the prepared statements *)

Section Database.
Context `{Crypto} `{Sqlite}.

(** [insertIntoDB]. *)
Definition insertIntoDB (entry : Entry) : M Db Z :=
  res ← sqlInsertEntry (addr_str (EAddress entry)) entry;
  let '(affected, id) := res in
  if affected =? 0 then mret 0
  else
    _ ← sqlInsertFtsEntry id (Name entry) (Desc entry);
    mret affected.

(** [InsertSeed(entry, seed)]: both queries run before the first result is read. *)
Definition InsertSeed (entry seed : Address) : M Db unit :=
  entryIdRes ← try (sqlQueryIdByAddress (addr_str entry));
  seedIdRes ← try (sqlQueryIdByAddress (addr_str seed));
  match entryIdRes, seedIdRes with
  | inr e, _ => fail e
  | inl _, inr e => fail e
  | inl entryId, inl seedId => sqlInsertSeed seedId entryId
  end.

(** [insertEntrySeeds]. *)
Definition insertEntrySeeds (entry : Entry) : M Db unit :=
  _ ← for_each (Seeding entry) (fun i => InsertSeed (raw_address i) (EAddress entry));
  for_each (Seeds entry) (fun i => InsertSeed (EAddress entry) (raw_address i)).

(** [Update(entry)]. *)
Definition Update (entry : Entry) : M Db Z :=
  _ ← lift (Entry_Verify (Some entry));
  res ← try (sqlUpdateEntry (addr_str (EAddress entry)) entry);
  match res with
  | inl affected => mret affected
  | inr ErrNoRows => mret 0
  | inr e => fail e
  end.

(** The loop that decodes the rows of an address column. *)
Fixpoint decode_all (rows : list string) : outcome (list Address) :=
  match rows with
  | [] => Ok []
  | s :: rows' => a ← DecodeAddress s; l ← decode_all rows'; mret (a :: l)
  end.

Definition querySeeds (id : Z) : M Db (list Address) :=
  rows ← sqlQuerySeeds id; lift (decode_all rows).
Definition querySeeding (id : Z) : M Db (list Address) :=
  rows ← sqlQuerySeeding id; lift (decode_all rows).

(** [addSeedToEntry]: the lists are emptied, then filled from the seed table. *)
Definition addSeedToEntry (e : Entry) (id : Z) : M Db Entry :=
  seeds ← querySeeds id;
  seeding ← querySeeding id;
  mret (set_Seeding (map Raw seeding) (set_Seeds (map Raw seeds) e)).

(** The fields [Scan] fills from a row; the address is decoded separately. *)
Definition entry_of_row (r : entry_row) : Entry :=
  mkEntry (raw_address []) (r_name r) (r_desc r) (r_publicAddress r) (r_publicKey r)
    (r_postCount r) (r_updated r) (r_signature r) (r_collectionHash r) (r_port r) [] []
    (r_seen r) (raw_address []).

(** [QueryLatest]: the address column is scanned and not used. *)
Fixpoint latest_loop (rows : list entry_row) : M Db (list Entry) :=
  match rows with
  | [] => mret []
  | r :: rows' =>
      e ← addSeedToEntry (entry_of_row r) (r_id r);
      l ← latest_loop rows'; mret (e :: l)
  end.
Definition QueryLatest : M Db (list Entry) :=
  rows ← sqlQueryLatest; latest_loop rows.

(** [SearchPeer(name, desc, page)]: the page is passed as the row offset. *)
Definition SearchPeer (name desc : string) (page : Z) : M Db (list Address) :=
  rows ← sqlSearchEntries name desc page 25; lift (decode_all rows).

(** [Len]. *)
Definition NetDB_Len : M Db Z := sqlEntryLen.
End Database.

(** ** The routing table *)

(** A slice header: the backing array, by its number, and the length. *)
Record slice_header := mkSlice { s_arr : nat; s_len : nat }.

Record NetDB := mkNetDB {
  heap : list (list Address);       (* the backing arrays *)
  table : list slice_header;
  ndb_addr : Address;
  conn : Db;
  table_file : option (list (list Address));   (* ./data/table.dat *)
}.

Definition array (ndb : NetDB) (a : nat) : list Address := default [] (heap ndb !! a).
Definition contents (ndb : NetDB) (s : slice_header) : list Address :=
  take (s_len s) (array ndb (s_arr s)).
Definition buckets (ndb : NetDB) : list (list Address) := map (contents ndb) (table ndb).

Definition set_conn (d : Db) (ndb : NetDB) : NetDB :=
  mkNetDB (heap ndb) (table ndb) (ndb_addr ndb) d (table_file ndb).

(** A method of the database half, on the whole [NetDB]. *)
Definition dbop {A} (m : M Db A) : M NetDB A := zoom conn set_conn m.

(** [NewNetDB(addr, path)] on the database in the file: four statements
    create the tables, eleven are prepared. *)
Fixpoint run_statements (n : nat) : M Db unit :=
  match n with
  | O => mret tt
  | S n' => _ ← sql_stmt (fun d => (d, Ok tt)); run_statements n'
  end.
Definition NewNetDB (addr : Address) (d : Db) (file : option (list (list Address))) : outcome NetDB :=
  match run_statements 15 d with
  | (d', Ok _) =>
      Ok (mkNetDB (replicate (AddressBinarySize * 8) [])
           (map (fun n => mkSlice n 0) (seq 0 (AddressBinarySize * 8))) addr d' file)
  | (_, Err e) => Err e
  | (_, Panic) => Panic
  end.

(** [TableLen]. *)
Definition TableLen (ndb : NetDB) : nat := fold_left (fun size i => (size + s_len i)%nat) (table ndb) O.

(** [ndb.table[index]], with the bounds check. *)
Definition table_get (ndb : NetDB) (index : Z) : outcome slice_header :=
  if index <? 0 then Panic
  else match table ndb !! Z.to_nat index with Some s => Ok s | None => Panic end.

(** [SaveTable] and [LoadTable]: the file holds the buckets as they are. *)
Definition SaveTable : M NetDB unit :=
  modify (fun ndb => mkNetDB (heap ndb) (table ndb) (ndb_addr ndb) (conn ndb) (Some (buckets ndb))).

Definition LoadTable : M NetDB unit :=
  modify (fun ndb =>
    match table_file ndb with
    | None => ndb
    | Some t =>
        mkNetDB (heap ndb ++ t)
          (imap (fun i b => mkSlice (length (heap ndb) + i) (length b)) t)
          (ndb_addr ndb) (conn ndb) (table_file ndb)
    end).

(** [insertIntoTable(addr)]. If the address is found, [append(bucket[:found],
    bucket[found+1:]...)] moves the later addresses down in the same array, whose
    last cell keeps its value; a full bucket is cut by one. The new bucket is a
    fresh array. *)
Definition insertIntoTable (addr : Address) : M NetDB unit :=
  ndb ← get;
  d ← lift (Address_Xor addr (ndb_addr ndb));
  let index := Address_LeadingZeroes d in
  bucket ← lift (table_get ndb index);
  let elems := contents ndb bucket in
  let '(heap1, rest) :=
    match list_find (fun i => Address_Equals i addr = true) elems with
    | Some (found, _) =>
        let shifted := take found elems ++ drop (S found) elems in
        (<[s_arr bucket := shifted ++ drop (s_len bucket - 1) (array ndb (s_arr bucket))]> (heap ndb),
         shifted)
    | None =>
        if (s_len bucket =? BucketSize)%nat
        then (heap ndb, take (s_len bucket - 1) elems) else (heap ndb, elems)
    end in
  _ ← put (mkNetDB (heap1 ++ [addr :: rest])
            (<[Z.to_nat index := mkSlice (length heap1) (S (length rest))]> (table ndb))
            (ndb_addr ndb) (conn ndb) (table_file ndb));
  SaveTable.

Section Operations.
Context `{Crypto} `{Sqlite}.

(** [Insert(entry)]: the count and the error it returns. *)
Definition Insert (entry : Entry) : M NetDB (Z * option error) :=
  v ← try (lift (Entry_Verify (Some entry)));
  match v with
  | inr e => mret (0, Some e)
  | inl _ =>
      _ ← insertIntoTable (EAddress entry);
      u ← try (dbop (Update entry));
      match u with
      | inr e => mret (0, Some e)
      | inl affected =>
          if 0 <? affected then mret (affected, None)
          else
            i ← try (dbop (insertIntoDB entry));
            match i with
            | inr e => mret (0, Some e)
            | inl affected =>
                s ← try (dbop (insertEntrySeeds entry));
                mret (affected, match s with inl _ => None | inr e => Some e end)
            end
      end
  end.

(** [Query(addr)]: the entry ([None] is nil) and its id. *)
Definition Query (addr : Address) : M NetDB (option Entry * Z) :=
  row ← try (dbop (sqlQueryAddress (addr_str addr)));
  match row with
  | inr ErrNoRows => mret (None, -1)
  | inr e => fail e
  | inl r =>
      decoded ← lift (DecodeAddress (r_address r));
      ret ← dbop (addSeedToEntry (set_EAddress (raw_address (Raw decoded)) (entry_of_row r)) (r_id r));
      _ ← insertIntoTable (EAddress ret);
      mret (Some ret, r_id r)
  end.

(** [QuerySeeds(addr)] and [QuerySeeding(addr)]. *)
Definition QuerySeeds (addr : Address) : M NetDB (list Address) :=
  q ← Query addr; dbop (querySeeds q.2).
Definition QuerySeeding (addr : Address) : M NetDB (list Address) :=
  q ← Query addr; dbop (querySeeding q.2).

(** [for _, i := range bucket { ... }] with [n] cells left, the next one [k]:
    the cell is read from the array as it is at that moment. [limit] is the
    early exit of [FindClosest], absent in [queryAddresses]. *)
Fixpoint range_query (limit : option nat) (arr n k : nat) (ret : list (option Entry)) :
  M NetDB (list (option Entry)) :=
  match n with
  | O => mret ret
  | S n' =>
      if match limit with Some m => (m <=? length ret)%nat | None => false end then mret ret
      else
        ndb ← get;
        match array ndb arr !! k with
        | None => lift Panic
        | Some i =>
            q ← try (Query i);
            match q with
            | inl (kv, _) => range_query limit arr n' (S k) (ret ++ [kv])
            | inr _ => range_query limit arr n' (S k) ret
            end
        end
  end.

Definition queryAddresses (s : slice_header) : M NetDB (list (option Entry)) :=
  range_query None (s_arr s) (s_len s) 0 [].

(** One bucket of the search: [bucket = ndb.table[index]] and its loop. *)
Definition scan_bucket (index : Z) (ret : list (option Entry)) : M NetDB (list (option Entry)) :=
  ndb ← get;
  bucket ← lift (table_get ndb index);
  range_query (Some BucketSize) (s_arr bucket) (s_len bucket) 0 ret.

(** The outer loop of [FindClosest]; [bits] is [len(addr.Raw)*8]. *)
Fixpoint FindClosest_loop (fuel : nat) (bits index i : Z) (ret : list (option Entry)) :
  M NetDB (list (option Entry)) :=
  match fuel with
  | O => mret ret
  | S f =>
      if ((0 <=? index - i) || (index + i <=? bits)) && (length ret <? BucketSize)%nat then
        ret1 ← (if 0 <=? index - i then scan_bucket (index - i) ret else mret ret);
        ret2 ← (if index + i <? bits then scan_bucket (index + i) ret1 else mret ret1);
        FindClosest_loop f bits index (i + 1) ret2
      else mret ret
  end.

(** [FindClosest(addr)]. After [bits + 2] rounds the loop condition is false. *)
Definition FindClosest (addr : Address) : M NetDB (list (option Entry)) :=
  ndb ← get;
  d ← lift (Address_Xor addr (ndb_addr ndb));
  let index := Address_LeadingZeroes d in
  bucket ← lift (table_get ndb index);
  if (s_len bucket =? BucketSize)%nat then queryAddresses bucket
  else
    let bits := Z.of_nat (length (Raw addr)) * 8 in
    FindClosest_loop (Z.to_nat (bits + 2)) bits index 0 [].
End Operations.
