(* ===== verification/NetTable.v ===== *)
(** The routing table of [dht/netdb.go] against its specification: each bucket a
    list of distinct addresses, most recently used first, at most [BucketSize]
    long, under the index of their distance; the slices of the table in separate
    backing arrays. *)

From S2P Require Import Prelude GoLib Crypto Address Entry Sqlite NetStore NetDB.

(** ** The specification: a list of buckets *)

(** The bucket of an address, for the owner [own] of the table. *)
Definition bucket_index (own a : Address) : outcome Z :=
  d ← Address_Xor a own; mret (Address_LeadingZeroes d).

(** The bucket after the use of [a]: [a] in front, the others in their order, and
    the least recently used one dropped when there is no room. *)
Definition touch (a : Address) (b : list Address) : list Address :=
  a :: take (BucketSize - 1) (filter (fun x => Raw x <> Raw a) b).

Definition bucket_ok (own : Address) (i : nat) (b : list Address) : Prop :=
  (length b <= BucketSize)%nat /\ NoDup (map Raw b) /\
  Forall (fun a => length (Raw a) = AddressBinarySize /\ bucket_index own a = Ok (Z.of_nat i)) b.

Definition buckets_ok (own : Address) (bs : list (list Address)) : Prop :=
  length bs = (AddressBinarySize * 8)%nat /\
  forall i b, bs !! i = Some b -> bucket_ok own i b.

(** ** The representation *)

(** Every slice lies within its array, and no two share one. *)
Definition layout (h : list (list Address)) (t : list slice_header) : Prop :=
  NoDup (map s_arr t) /\
  Forall (fun s => (s_arr s < length h)%nat /\ (s_len s <= length (default [] (h !! s_arr s)))%nat) t.

Definition table_inv (ndb : NetDB) : Prop :=
  length (Raw (ndb_addr ndb)) = AddressBinarySize /\
  layout (heap ndb) (table ndb) /\ buckets_ok (ndb_addr ndb) (buckets ndb).

(** ** Generic facts *)

Lemma NoDup_filter_map {A B} (f : A -> B) (P : A -> Prop) `{!forall x, Decision (P x)} l :
  NoDup (map f l) -> NoDup (map f (filter P l)).
Proof.
  intros Hnd. eapply sublist_NoDup; [exact Hnd|].
  by apply (fmap_sublist f), sublist_filter.
Qed.

Lemma filter_all {A} (P : A -> Prop) `{!forall x, Decision (P x)} l :
  Forall P l -> filter P l = l.
Proof.
  induction 1 as [|x l Hx Hl IH]; [done|]. by rewrite filter_cons_True, IH.
Qed.

(** Cutting out the one element with a key is filtering by the key. *)
Lemma filter_cut {A K} `{EqDecision K} (key : A -> K) l n x :
  NoDup (map key l) -> l !! n = Some x ->
  filter (fun y => key y <> key x) l = take n l ++ drop (S n) l.
Proof.
  revert n. induction l as [|y l IH]; intros n Hnd Hn; [done|].
  apply list.NoDup_cons in Hnd as [Hy Hnd]. destruct n as [|n]; cbn in Hn.
  - injection Hn as ->. rewrite filter_cons_False by (intros H; by apply H). cbn.
    rewrite drop_0. apply filter_all, List.Forall_forall. intros z Hz E. apply Hy. rewrite <-E.
    apply elem_of_map. exists z. split; [done|]. by apply list_elem_of_In.
  - rewrite filter_cons_True; [cbn; by rewrite (IH n)|].
    intros E. apply Hy. rewrite E. apply elem_of_map. exists x. split; [done|].
    by eapply list_elem_of_lookup_2.
Qed.

Lemma length_touch a b : (1 <= length (touch a b) <= BucketSize)%nat.
Proof. unfold touch. cbn [length]. rewrite length_take. unfold BucketSize. lia. Qed.

Lemma touch_ok own i a b :
  bucket_ok own i b -> length (Raw a) = AddressBinarySize -> bucket_index own a = Ok (Z.of_nat i) ->
  bucket_ok own i (touch a b).
Proof.
  intros (H1 & H2 & H3) Ha Hi. split_and!; [apply length_touch| |].
  - unfold touch. cbn [map]. apply list.NoDup_cons. split.
    + intros Hin. apply elem_of_map in Hin as (x & E & Hx).
      apply elem_of_take in Hx as (k & Hx & _). apply list_elem_of_lookup_2 in Hx.
      apply list_elem_of_filter in Hx as [Hx _]. by apply Hx.
    + eapply sublist_NoDup; [apply (NoDup_filter_map Raw (fun x => Raw x <> Raw a) b H2)|].
      apply (fmap_sublist Raw), sublist_take.
  - unfold touch. constructor; [done|]. apply Forall_take. eapply incl_Forall; [|exact H3].
    intros x Hx. apply list_elem_of_In, list_elem_of_filter in Hx as [_ Hx]. by apply list_elem_of_In.
Qed.

(** The index is in range for 20-byte addresses. *)
Lemma bucket_index_short own a :
  (1 <= length (Raw a) <= length (Raw own))%nat ->
  exists i, bucket_index own a = Ok (Z.of_nat i) /\ (i < length (Raw a) * 8)%nat.
Proof.
  intros Ha. destruct (Xor_loop_Ok (Raw a) (take (length (Raw a)) (Raw own))) as (r & E & Hl & _).
  { rewrite length_take. lia. }
  unfold bucket_index, Address_Xor. rewrite Xor_loop_take, E. cbn [mbind outcome_bind mret outcome_ret].
  pose proof (LeadingZeroes_range (raw_address r)) as Hr. cbn [Raw raw_address] in Hr. rewrite Hl in Hr.
  specialize (Hr ltac:(intros ->; cbn in Hl; lia)).
  exists (Z.to_nat (Address_LeadingZeroes (raw_address r))). split; [f_equal; lia|lia].
Qed.

Lemma bucket_index_Ok own a :
  length (Raw own) = AddressBinarySize -> length (Raw a) = AddressBinarySize ->
  exists i, bucket_index own a = Ok (Z.of_nat i) /\ (i < AddressBinarySize * 8)%nat.
Proof.
  intros Ho Ha. rewrite <-Ha. apply bucket_index_short. rewrite Ho, Ha. unfold AddressBinarySize. lia.
Qed.

(** ** The slices *)

Lemma contents_length h t ndb s :
  heap ndb = h -> table ndb = t -> layout h t -> s ∈ t -> length (contents ndb s) = s_len s.
Proof.
  intros <- <- [_ H] Hs. rewrite List.Forall_forall in H. apply list_elem_of_In in Hs.
  destruct (H s Hs) as [_ Hl]. unfold contents, array. rewrite length_take. lia.
Qed.

Lemma layout_other h t i s a arr :
  layout h t -> t !! i = Some s -> s_arr s = a ->
  forall j s', t !! j = Some s' -> j <> i -> (<[a := arr]> h) !! s_arr s' = h !! s_arr s'.
Proof.
  intros [Hnd _] Hi <- j s' Hj Hne. apply list_lookup_insert_ne. intros E. apply Hne.
  eapply (list.NoDup_lookup (map s_arr t)); [done| |].
  - rewrite lookup_map, Hj. done.
  - rewrite lookup_map, Hi. cbn. by rewrite E.
Qed.

(** Replacing a bucket by a fresh array, when the other arrays keep their contents. *)
Lemma buckets_insert ndb h1 i s b file :
  table ndb !! i = Some s -> length h1 = length (heap ndb) ->
  (forall j s', table ndb !! j = Some s' -> j <> i -> h1 !! s_arr s' = heap ndb !! s_arr s') ->
  layout (heap ndb) (table ndb) ->
  let ndb' := mkNetDB (h1 ++ [b]) (<[i := mkSlice (length h1) (length b)]> (table ndb))
                (ndb_addr ndb) (conn ndb) file in
  buckets ndb' = <[i := b]> (buckets ndb) /\ layout (heap ndb') (table ndb').
Proof.
  intros Hi Hlen Hsame [Hnd Hin]. cbn zeta.
  rewrite List.Forall_forall in Hin.
  assert (forall j s', table ndb !! j = Some s' -> (s_arr s' < length h1)%nat /\
    (s_len s' <= length (default [] (heap ndb !! s_arr s')))%nat) as Hin'.
  { intros j s' Hj. rewrite Hlen. apply Hin, list_elem_of_In. by eapply list_elem_of_lookup_2. }
  split.
  - unfold buckets. cbn [table]. apply list_eq. intros j.
    rewrite lookup_map. destruct (decide (j = i)) as [->|Hne].
    + rewrite !list_lookup_insert_eq.
      * cbn. unfold contents, array. cbn [s_len s_arr heap]. rewrite lookup_app_r, Nat.sub_diag by lia.
        cbn. by rewrite take_ge by lia.
      * rewrite length_map. by eapply lookup_lt_Some.
      * by eapply lookup_lt_Some.
    + rewrite !list_lookup_insert_ne by done. rewrite lookup_map.
      destruct (table ndb !! j) as [s'|] eqn:Hj; [|done]. cbn. f_equal.
      unfold contents, array. cbn [heap]. rewrite lookup_app_l by (by eapply Hin').
      by rewrite (Hsame j s' Hj Hne).
  - unfold layout. cbn [heap table]. split.
    + rewrite map_insert. apply list.NoDup_alt. intros j k x Hj Hk.
      destruct (decide (j = i)) as [->|Hji], (decide (k = i)) as [->|Hki]; [done| | |].
      all: repeat first [rewrite list_lookup_insert_ne in Hj by done |
                         rewrite list_lookup_insert_ne in Hk by done |
                         rewrite list_lookup_insert_eq in Hj by (rewrite length_map; by eapply lookup_lt_Some) |
                         rewrite list_lookup_insert_eq in Hk by (rewrite length_map; by eapply lookup_lt_Some)].
      * rewrite lookup_map in Hk. destruct (table ndb !! k) as [s'|] eqn:E; [|done].
        cbn in *. simplify_eq. destruct (Hin' _ _ E). lia.
      * rewrite lookup_map in Hj. destruct (table ndb !! j) as [s'|] eqn:E; [|done].
        cbn in *. simplify_eq. destruct (Hin' _ _ E). lia.
      * by eapply (list.NoDup_lookup (map s_arr (table ndb))).
    + apply List.Forall_forall. intros s' Hs'.
      apply list_elem_of_In, list_elem_of_lookup in Hs' as [j Hj].
      rewrite length_app. cbn [length].
      destruct (decide (j = i)) as [->|Hne].
      * rewrite list_lookup_insert_eq in Hj by (by eapply lookup_lt_Some). simplify_eq. cbn [s_arr s_len].
        rewrite lookup_app_r, Nat.sub_diag by lia. cbn. lia.
      * rewrite list_lookup_insert_ne in Hj by done. destruct (Hin' _ _ Hj) as [Ha Hl].
        split; [lia|]. rewrite lookup_app_l by lia. by rewrite (Hsame _ _ Hj Hne).
Qed.

(** ** [insertIntoTable] implements [touch] *)

(** The arrays afterwards have at least the length they had. *)
Definition heap_grows (ndb ndb' : NetDB) : Prop :=
  forall n, (length (array ndb n) <= length (array ndb' n))%nat.

Lemma grows_insert (h h1 : list (list Address)) x n :
  length h1 = length h ->
  (forall n, length (default [] (h !! n)) = length (default [] (h1 !! n))) ->
  (length (default [] (h !! n)) <= length (default [] ((h1 ++ [x]) !! n)))%nat.
Proof.
  intros Hl Hn. destruct (decide (n < length h1)%nat) as [H|H].
  - rewrite lookup_app_l by lia. by rewrite (Hn n).
  - rewrite (proj2 (lookup_ge_None h n)) by lia. cbn. lia.
Qed.

(** The rest of the bucket and the arrays, as the code computes them. *)
Lemma rest_of_touch ndb s a i :
  table_inv ndb -> table ndb !! i = Some s ->
  let elems := contents ndb s in
  let '(heap1, rest) :=
    match list_find (fun x => Address_Equals x a = true) elems with
    | Some (found, _) =>
        let shifted := take found elems ++ drop (S found) elems in
        (<[s_arr s := shifted ++ drop (s_len s - 1) (array ndb (s_arr s))]> (heap ndb), shifted)
    | None =>
        if (s_len s =? BucketSize)%nat
        then (heap ndb, take (s_len s - 1) elems) else (heap ndb, elems)
    end in
  a :: rest = touch a elems /\ length heap1 = length (heap ndb) /\
  (forall n, length (array ndb n) = length (default [] (heap1 !! n))) /\
  (forall j s', table ndb !! j = Some s' -> j <> i -> heap1 !! s_arr s' = heap ndb !! s_arr s').
Proof.
  intros (Hown & Hlay & Hlen & Hb) Hi. cbn zeta.
  assert (length (contents ndb s) = s_len s) as Hcl.
  { eapply contents_length; [done|done|exact Hlay|by eapply list_elem_of_lookup_2]. }
  assert (bucket_ok (ndb_addr ndb) i (contents ndb s)) as (Hsz & Hnd & _).
  { apply Hb. unfold buckets. by rewrite lookup_map, Hi. }
  unfold touch, BucketSize in *.
  destruct (list_find _ _) as [[n x]|] eqn:Ef.
  - apply list_find_Some in Ef as (Hn & Heq & _).
    unfold Address_Equals in Heq. apply bool_decide_eq_true in Heq.
    pose proof (lookup_lt_Some _ _ _ Hn) as Hlt.
    assert (s_len s <= length (array ndb (s_arr s)))%nat as Hsl.
    { destruct Hlay as [_ HF]. rewrite List.Forall_forall in HF.
      apply HF, list_elem_of_In. by eapply list_elem_of_lookup_2. }
    assert (filter (fun y => Raw y <> Raw a) (contents ndb s) =
            take n (contents ndb s) ++ drop (S n) (contents ndb s)) as ->.
    { rewrite <-Heq. by apply filter_cut. }
    split_and!.
    + f_equal. symmetry. apply take_ge. rewrite length_app, length_take, length_drop. lia.
    + apply length_insert.
    + intros k. unfold array. destruct (decide (s_arr s = k)) as [<-|Hk].
      * destruct (heap ndb !! s_arr s) as [arr|] eqn:Ea.
        -- rewrite list_lookup_insert_eq by (by eapply lookup_lt_Some). cbn.
           unfold array in *. rewrite Ea in Hsl. cbn in Hsl |- *.
           rewrite !length_app, length_take, !length_drop. lia.
        -- rewrite list_insert_ge by (by apply lookup_ge_None). by rewrite Ea.
      * by rewrite list_lookup_insert_ne.
    + eapply layout_other; eauto.
  - apply list_find_None in Ef.
    assert (filter (fun y => Raw y <> Raw a) (contents ndb s) = contents ndb s) as ->.
    { apply filter_all. eapply Forall_impl; [|exact Ef]. intros y Hy E. apply Hy.
      by apply bool_decide_true. }
    destruct (Nat.eqb_spec (s_len s) 20) as [E|E]; split_and!; try done.
    + by rewrite E.
    + f_equal. symmetry. apply take_ge. lia.
Qed.

Lemma buckets_ok_alter own bs i a :
  buckets_ok own bs -> length (Raw a) = AddressBinarySize -> bucket_index own a = Ok (Z.of_nat i) ->
  buckets_ok own (alter (touch a) i bs).
Proof.
  intros [Hlen Hb] Ha Hi. split; [by rewrite length_alter|].
  intros j b Hj. destruct (decide (i = j)) as [<-|Hne].
  - rewrite list_lookup_alter_eq in Hj. destruct (bs !! i) as [b0|] eqn:E; [|done].
    injection Hj as <-. apply touch_ok; eauto.
  - rewrite list_lookup_alter_ne in Hj by done. by apply Hb.
Qed.

Lemma list_insert_alter {A} (f : A -> A) (l : list A) (i : nat) x y :
  l !! i = Some x -> y = f x -> <[i := y]> l = alter f i l.
Proof.
  intros Hx ->. apply list_eq. intros j. destruct (decide (i = j)) as [<-|Hne].
  - rewrite list_lookup_alter_eq, list_lookup_insert_eq by (by eapply lookup_lt_Some). by rewrite Hx.
  - by rewrite list_lookup_alter_ne, list_lookup_insert_ne.
Qed.

Lemma table_get_Ok ndb i s : table ndb !! i = Some s -> table_get ndb (Z.of_nat i) = Ok s.
Proof.
  intros Hs. unfold table_get. by rewrite (proj2 (Z.ltb_ge _ _)), Nat2Z.id, Hs by lia.
Qed.

Lemma insertIntoTable_run ndb a :
  table_inv ndb -> length (Raw a) = AddressBinarySize ->
  exists ndb' i, insertIntoTable a ndb = (ndb', Ok tt) /\
    bucket_index (ndb_addr ndb) a = Ok (Z.of_nat i) /\
    buckets ndb' = alter (touch a) i (buckets ndb) /\
    table_inv ndb' /\ ndb_addr ndb' = ndb_addr ndb /\ conn ndb' = conn ndb /\
    table_file ndb' = Some (buckets ndb') /\ heap_grows ndb ndb'.
Proof.
  intros Hinv Ha. pose proof Hinv as (Hown & Hlay & Hbs).
  destruct (bucket_index_Ok (ndb_addr ndb) a Hown Ha) as (i & Hi & Hlt).
  assert (exists s, table ndb !! i = Some s) as [s Hs].
  { apply lookup_lt_is_Some. destruct Hbs as [Hl _]. unfold buckets in Hl.
    rewrite length_map in Hl. lia. }
  pose proof (rest_of_touch ndb s a i Hinv Hs) as Hrest.
  pose proof Hi as Hx. unfold bucket_index in Hx.
  apply obind_Ok in Hx as (d & Hd & Hd'). injection Hd' as Hd'.
  unfold insertIntoTable. rewrite run_get, (run_lift _ _ _ d) by done. cbn zeta. rewrite Hd', Nat2Z.id.
  rewrite (run_lift _ _ _ s) by (by apply table_get_Ok). cbn zeta in Hrest |- *.
  destruct (match list_find _ _ with Some _ => _ | None => _ end) as [h1 rest].
  destruct Hrest as (Hr & Hl & Hn & Hsame).
  assert (<[i := a :: rest]> (buckets ndb) = alter (touch a) i (buckets ndb)) as Halt.
  { apply list_insert_alter with (contents ndb s); [|done]. unfold buckets. by rewrite lookup_map, Hs. }
  pose proof (fun f => buckets_insert ndb h1 i s (a :: rest) f Hs Hl Hsame Hlay) as Hnew.
  cbn zeta in Hnew. rewrite Halt in Hnew.
  eexists _, i. rewrite run_put. split; [reflexivity|]. split; [done|].
  cbn [heap table ndb_addr conn table_file modify fst].
  pose proof (proj1 (Hnew (table_file ndb))) as Hbk0. cbn [length] in Hbk0. rewrite Hbk0.
  match goal with |- context [mkNetDB ?h ?t ?o ?c ?f] => destruct (Hnew f) as [Hbk Hlay'] end.
  cbn [length] in Hbk, Hlay'. unfold table_inv. rewrite Hbk. split_and!; try done.
  - by apply buckets_ok_alter.
  - intros n. unfold array. cbn [heap]. by apply grows_insert.
Qed.
