(* ===== verification/NetInv.v ===== *)
(** The invariant of [NetDB] (routing table and database together), kept by every
    operation whatever statements fail, with no panic: the specifications of the
    methods of [dht/netdb.go] in terms of [spec]. *)

From S2P Require Import Prelude GoLib Base58Check Crypto Address Entry Sqlite NetStore NetDB NetTable.

(** The text of a 20-byte address. *)
Definition address_text (s : string) : Prop :=
  exists raw, length raw = AddressBinarySize /\ s = base58check.Encode prefix51 raw.

Lemma decode_text s : address_text s -> returns (DecodeAddress s) (fun a =>
  length (Raw a) = AddressBinarySize /\ Encoded a = ""%string /\ addr_str a = s).
Proof.
  intros (raw & Hl & ->). rewrite DecodeAddress_encode. cbn [returns raw_address Raw Encoded].
  by rewrite addr_str_raw.
Qed.

Lemma decode_all_texts rows : Forall address_text rows ->
  returns (decode_all rows) (Forall (fun a => length (Raw a) = AddressBinarySize)).
Proof.
  induction 1 as [|s rows Hs Hrows IH]; [constructor|]. cbn [decode_all].
  pose proof (decode_text s Hs) as Hd.
  destruct (DecodeAddress s) as [a| |]; cbn [returns mbind outcome_bind] in *; try done.
  destruct (decode_all rows); cbn [returns mbind outcome_bind mret outcome_ret] in *; try done.
  constructor; [apply Hd|done].
Qed.

Section Specs.
Context `{C : Crypto} {D : Sqlite} {L : SqliteLaws D}.

Lemma col_text_address s : address_text s -> col_text s = s.
Proof.
  intros (raw & Hl & ->). apply col_text_textual.
  destruct (encode_Z raw Hl) as (rest & -> & _). by apply textual_start.
Qed.

Lemma addr_str_text a :
  addr_fresh a -> length (Raw a) = AddressBinarySize -> address_text (addr_str a).
Proof. intros Hf Hl. exists (Raw a). split; [done|]. by apply addr_str_fresh. Qed.

(** ** The database *)

Abbreviation wf := (db_wf address_text).

(** The well-formed databases with the entries [E]. *)
Definition at_entries (E : list entry_row) (d : Db) : Prop := wf d /\ entries d = E.

Lemma address_of_id_text d id : wf d -> Forall address_text (address_of_id d id).
Proof.
  intros (_ & _ & Hg & _). apply Forall_map, List.Forall_forall. intros r Hr.
  apply filter_In in Hr as [Hr _]. rewrite List.Forall_forall in Hg. by apply Hg.
Qed.

Lemma flat_address_text d l : wf d -> Forall address_text (flat_map (address_of_id d) l).
Proof.
  intros Hd. apply List.Forall_forall. intros s Hs. apply in_flat_map in Hs as (x & _ & Hx).
  pose proof (address_of_id_text d x Hd) as HF. rewrite List.Forall_forall in HF. by apply HF.
Qed.

Lemma flat_map_comp {A B X} (f : B -> list X) (g : A -> B) l :
  flat_map (fun x => f (g x)) l = flat_map f (map g l).
Proof. induction l as [|x l IH]; [done|]. cbn. by rewrite IH. Qed.

Section AtEntries.
Context (E : list entry_row).

Lemma spec_query_at {A} (f : Db -> outcome A) (Q : A -> Prop) :
  (forall d, at_entries E d -> returns (f d) Q) -> spec (at_entries E) (sql_query f) Q.
Proof. intros Hf. apply spec_sql_stmt; [done|]. intros d Hd. by split; [|apply Hf]. Qed.

Lemma spec_QueryAddress a :
  spec (at_entries E) (sqlQueryAddress a) (fun r => r ∈ E /\ r_address r = col_text a /\ address_text (r_address r)).
Proof.
  apply spec_query_at. intros d [Hd HE]. destruct (find_address a d) eqn:Ef; [|done].
  apply find_address_Some in Ef as [Hin Ha]. rewrite <-HE. cbn. split_and!; [done|done|].
  by eapply row_good.
Qed.

Lemma spec_QueryIdByAddress a :
  spec (at_entries E) (sqlQueryIdByAddress a) (fun id => id ∈ map r_id E).
Proof.
  apply spec_query_at. intros d [Hd HE]. destruct (find_address a d) eqn:Ef; [|done].
  apply find_address_Some in Ef as [Hin Ha]. rewrite <-HE. cbn. apply elem_of_map. eauto.
Qed.

Lemma keeps_InsertSeed_stmt seed for_ :
  seed ∈ map r_id E -> for_ ∈ map r_id E -> keeps (at_entries E) (sqlInsertSeed seed for_).
Proof.
  intros Hs Hf. apply spec_sql_stmt; [done|]. intros d [Hd <-].
  case_bool_decide; split; try done. cbn [fst]. split; [|done]. by apply db_wf_seed.
Qed.

Lemma keeps_InsertSeed entry seed : keeps (at_entries E) (InsertSeed entry seed).
Proof.
  unfold InsertSeed. eapply spec_bind; [apply spec_try, spec_QueryIdByAddress|]. intros r1 H1.
  eapply spec_bind; [apply spec_try, spec_QueryIdByAddress|]. intros r2 H2.
  destruct r1, r2; try apply keeps_fail. by apply keeps_InsertSeed_stmt.
Qed.

Lemma keeps_insertEntrySeeds e : keeps (at_entries E) (insertEntrySeeds e).
Proof. unfold insertEntrySeeds. keeps_tac; apply keeps_InsertSeed. Qed.

Lemma spec_querySeeds id :
  spec (at_entries E) (querySeeds id) (Forall (fun a => length (Raw a) = AddressBinarySize)).
Proof.
  unfold querySeeds. eapply spec_bind with (Q := Forall address_text).
  - apply spec_query_at. intros d [Hd _]. cbn. rewrite flat_map_comp. by apply flat_address_text.
  - intros rows Hr. by apply spec_lift, decode_all_texts.
Qed.

Lemma spec_querySeeding id :
  spec (at_entries E) (querySeeding id) (Forall (fun a => length (Raw a) = AddressBinarySize)).
Proof.
  unfold querySeeding. eapply spec_bind with (Q := Forall address_text).
  - apply spec_query_at. intros d [Hd _]. cbn. rewrite flat_map_comp. by apply flat_address_text.
  - intros rows Hr. by apply spec_lift, decode_all_texts.
Qed.

(** [addSeedToEntry] changes nothing but the two seed lists. *)
Lemma spec_addSeedToEntry e id :
  spec (at_entries E) (addSeedToEntry e id) (fun e' =>
    e' = set_Seeding (Seeding e') (set_Seeds (Seeds e') e) /\
    Forall (fun a => length a = AddressBinarySize) (Seeds e' ++ Seeding e')).
Proof.
  unfold addSeedToEntry. eapply spec_bind; [apply spec_querySeeds|]. intros s Hs.
  eapply spec_bind; [apply spec_querySeeding|]. intros g Hg. apply spec_ret. split; [done|].
  cbn. apply Forall_app. by rewrite !Forall_map.
Qed.

Lemma spec_latest_loop rows : spec (at_entries E) (latest_loop rows) (fun l =>
  Forall2 (fun r e => e = set_Seeding (Seeding e) (set_Seeds (Seeds e) (entry_of_row r))) rows l).
Proof.
  induction rows as [|r rows IH]; cbn [latest_loop]; [by apply spec_ret|].
  eapply spec_bind; [apply spec_addSeedToEntry|]. intros e [He _].
  eapply spec_bind; [exact IH|]. intros l Hl. apply spec_ret. by constructor.
Qed.

(** [QueryLatest]: the last twenty rows, newest first. *)
Lemma spec_QueryLatest : spec (at_entries E) QueryLatest (fun l =>
  Forall2 (fun r e => e = set_Seeding (Seeding e) (set_Seeds (Seeds e) (entry_of_row r)))
    (take 20 (rev E)) l).
Proof.
  unfold QueryLatest. eapply spec_bind with (Q := fun rows => rows = take 20 (rev E)).
  - apply spec_query_at. by intros d [_ ->].
  - intros rows ->. apply spec_latest_loop.
Qed.
End AtEntries.

(** An operation that keeps the entries keeps the invariant. *)
Lemma at_entries_keeps {A} (m : M Db A) Q :
  (forall E, spec (at_entries E) m Q) -> spec wf m Q.
Proof.
  intros Hm d Hd. destruct (Hm (entries d) d) as [[H1 _] H2]; [by split|]. by split.
Qed.

Lemma length_address_of_id d id : wf d -> (length (address_of_id d id) <= 1)%nat.
Proof.
  intros (Hid & _). unfold address_of_id. rewrite length_map.
  assert (NoDup (map r_id (entries d))) as Hnd.
  { rewrite Hid. apply (NoDup_fmap_2 Z.of_nat), NoDup_seq. }
  clear Hid. induction (entries d) as [|r l IH]; [cbn; lia|]. cbn in Hnd |- *.
  apply list.NoDup_cons in Hnd as [Hr Hnd]. destruct (Z.eqb_spec (r_id r) id) as [Heq|]; [|auto].
  assert (List.filter (fun r0 => r_id r0 =? id) l = []) as ->; [|cbn; lia].
  destruct (List.filter _ l) as [|r' l'] eqn:Ef; [done|]. exfalso. apply Hr.
  assert (In r' (List.filter (fun r0 => r_id r0 =? id) l)) as Hin by (rewrite Ef; by left).
  apply filter_In in Hin as [Hin Hr']. apply elem_of_map. exists r'.
  split; [lia|]. by apply list_elem_of_In.
Qed.

Lemma decode_all_length rows : returns (decode_all rows) (fun l => length l = length rows) \/ decode_all rows = Panic.
Proof.
  induction rows as [|s rows IH]; [by left|]. cbn [decode_all].
  destruct (DecodeAddress s); cbn [mbind outcome_bind]; [|by left|by right].
  destruct (decode_all rows) as [l| |]; cbn in *; destruct IH as [IH|IH]; try discriminate; try done; try tauto.
  left. by rewrite IH.
Qed.

Lemma spec_SearchPeer n ds page :
  spec wf (SearchPeer n ds page) (fun l => (length l <= 1)%nat /\ (1 <= page -> l = [])).
Proof.
  unfold SearchPeer. eapply spec_bind with
    (Q := fun rows => Forall address_text rows /\ (length rows <= 1)%nat /\ (1 <= page -> rows = [])).
  - apply spec_query. intros d Hd. cbn [returns].
    set (found := match fts_docids_or n ds (ftsEntry d) with [] => [] | id :: _ => address_of_id d id end).
    assert ((length found <= 1)%nat /\ Forall address_text found) as [Hl Ht].
    { unfold found. destruct (fts_docids_or _ _ _); [by split; [cbn; lia|]|].
      split; [by apply length_address_of_id|by apply address_of_id_text]. }
    split_and!.
    + by apply Forall_take, Forall_drop.
    + rewrite length_take, length_drop. lia.
    + intros Hge. rewrite drop_ge by lia. by rewrite take_nil.
  - intros rows (Ht & Hl & He). apply spec_lift.
    pose proof (decode_all_texts rows Ht) as Hd. destruct (decode_all_length rows) as [Hlen|Hpan].
    + destruct (decode_all rows) as [l| |]; cbn [returns] in *; try done. split; [lia|].
      intros Hge. rewrite (He Hge) in Hlen. by destruct l.
    + by rewrite Hpan in Hd.
Qed.

Lemma keeps_insertIntoDB e :
  addr_fresh (EAddress e) -> length (Raw (EAddress e)) = AddressBinarySize ->
  keeps wf (insertIntoDB e).
Proof.
  intros Hf Hl. unfold insertIntoDB. apply keeps_bind.
  { apply keeps_InsertEntry. rewrite col_text_address; by apply addr_str_text. }
  intros [n id]. keeps_tac. apply keeps_InsertFtsEntry.
Qed.

Lemma keeps_Update e : Entry_Verify (Some e) <> Panic -> keeps wf (Update e).
Proof.
  intros Hv. unfold Update. apply keeps_bind; [by apply keeps_lift|intros _].
  apply keeps_bind; [apply keeps_try, keeps_UpdateEntry|]. intros r. keeps_tac.
Qed.
(** ** The whole [NetDB] *)

(** The saved table is one of the same owner. *)
Definition file_ok (ndb : NetDB) : Prop :=
  match table_file ndb with Some t => buckets_ok (ndb_addr ndb) t | None => True end.

Definition ndb_inv (ndb : NetDB) : Prop := table_inv ndb /\ file_ok ndb /\ wf (conn ndb).

(** The states a query can reach from [ndb0]: the same entries, arrays that did
    not get shorter. *)
Definition reading (ndb0 ndb : NetDB) : Prop :=
  (table_inv ndb /\ file_ok ndb) /\ at_entries (entries (conn ndb0)) (conn ndb) /\
  heap_grows ndb0 ndb /\ ndb_addr ndb = ndb_addr ndb0.

Lemma reading_refl ndb : ndb_inv ndb -> reading ndb ndb.
Proof. intros (Ht & Hf & Hd). by split_and!; try done; intros n. Qed.

Lemma reading_keeps {A} (m : M NetDB A) Q :
  (forall ndb0, spec (reading ndb0) m Q) -> spec ndb_inv m Q.
Proof.
  intros Hm ndb Hn. destruct (Hm ndb ndb (reading_refl ndb Hn)) as [([? ?] & [H2 _] & _) H3].
  by split_and!.
Qed.

Lemma table_inv_conn d ndb : table_inv ndb -> table_inv (set_conn d ndb).
Proof. done. Qed.

Lemma spec_dbop_reading {A} ndb0 (m : M Db A) Q :
  spec (at_entries (entries (conn ndb0))) m Q -> spec (reading ndb0) (dbop m) Q.
Proof.
  intros Hm. eapply spec_zoom; [exact Hm|by intros ndb (_ & ? & _)|].
  intros ndb d ([H0 H1] & H2 & H3 & H4) Hd. by split_and!.
Qed.

Lemma spec_dbop {A} (m : M Db A) Q : spec wf m Q -> spec ndb_inv (dbop m) Q.
Proof.
  intros Hm. eapply spec_zoom; [exact Hm|by intros ndb (_ & _ & ?)|].
  by intros ndb d (H1 & H2 & H3) Hd.
Qed.

Lemma keeps_insertIntoTable_reading ndb0 a :
  length (Raw a) = AddressBinarySize -> keeps (reading ndb0) (insertIntoTable a).
Proof.
  intros Ha ndb ([H1 _] & H2 & H3 & H4).
  destruct (insertIntoTable_run ndb a H1 Ha) as (ndb' & i & E & _ & _ & Hinv & Ho & Hc & Hf & Hg).
  rewrite E. split; [|done]. cbn [fst]. split_and!; [done| |by rewrite Hc| |congruence].
  { unfold file_ok. rewrite Hf. apply Hinv. }
  intros n. etrans; [apply H3|apply Hg].
Qed.

Lemma keeps_insertIntoTable a :
  length (Raw a) = AddressBinarySize -> keeps ndb_inv (insertIntoTable a).
Proof. intros Ha. apply reading_keeps. intros ndb0. by apply keeps_insertIntoTable_reading. Qed.

(** An entry read back from the row [r]. *)
Definition stored_as (r : entry_row) (e : Entry) : Prop :=
  r_address r = addr_str (EAddress e) /\ length (Raw (EAddress e)) = AddressBinarySize /\
  e = set_Seeding (Seeding e) (set_Seeds (Seeds e) (set_EAddress (EAddress e) (entry_of_row r))) /\
  Forall (fun a => length a = AddressBinarySize) (Seeds e ++ Seeding e) /\
  EAddress e = raw_address (Raw (EAddress e)).

(** The result of [Query] for the text [a]: nil and -1, or a stored entry. *)
Definition query_result (E : list entry_row) (a : string) (q : option Entry * Z) : Prop :=
  match q with
  | (None, id) => id = -1
  | (Some e, id) => exists r, r ∈ E /\ r_id r = id /\ r_address r = col_text a /\ stored_as r e
  end.

Lemma spec_Query ndb0 a :
  spec (reading ndb0) (Query a) (query_result (entries (conn ndb0)) (addr_str a)).
Proof.
  unfold Query. eapply spec_bind; [apply spec_try, spec_dbop_reading, spec_QueryAddress|].
  intros [r|e] Hr; [|destruct e; by first [apply spec_ret|apply spec_fail]].
  destruct Hr as (Hin & Ha & Ht).
  eapply spec_bind; [apply spec_lift, (decode_text _ Ht)|]. intros a' (Hl & He & Hs).
  eapply spec_bind; [apply spec_dbop_reading, spec_addSeedToEntry|]. intros e [He1 He2].
  assert (EAddress e = raw_address (Raw a')) as Hea by exact (f_equal EAddress He1).
  eapply spec_bind; [apply keeps_insertIntoTable_reading; rewrite Hea; exact Hl|]. intros _ _.
  apply spec_ret. exists r. split_and!; try done.
  unfold stored_as. rewrite Hea. split_and!; try done.
  rewrite <-Hs. destruct a' as [raw enc]; cbn in He. by rewrite He.
Qed.

(** ** The search for close entries *)

(** What is collected: nil or stored entries. *)
Definition all_stored (E : list entry_row) (l : list (option Entry)) : Prop :=
  Forall (fun o => match o with None => True | Some e => exists r, r ∈ E /\ stored_as r e end) l.

Lemma spec_range_query ndb0 limit arr n k ret :
  (k + n <= length (array ndb0 arr))%nat -> all_stored (entries (conn ndb0)) ret ->
  spec (reading ndb0) (range_query limit arr n k ret) (fun l =>
    all_stored (entries (conn ndb0)) l /\ (length l <= length ret + n)%nat /\
    (forall m, limit = Some m -> (length ret <= m)%nat -> (length l <= m)%nat)).
Proof.
  revert k ret. induction n as [|n IH]; intros k ret Hk Hret; cbn [range_query].
  { apply spec_ret. split_and!; [done|lia|done]. }
  destruct (match limit with Some m => (m <=? length ret)%nat | None => false end) eqn:Hlim.
  { apply spec_ret. split_and!; [done|lia|done]. }
  eapply spec_bind; [apply spec_get|]. intros ndb (_ & _ & Hg & _).
  destruct (array ndb arr !! k) as [i|] eqn:Ei.
  2:{ apply lookup_ge_None in Ei. specialize (Hg arr). lia. }
  eapply spec_bind; [apply spec_try, spec_Query|]. intros [[kv id]|e] Hq.
  - eapply spec_weaken; [apply IH; [lia|]|].
    + apply Forall_app. split; [done|]. constructor; [|done].
      destruct kv; [|done]. destruct Hq as (r & ? & _ & _ & ?). eauto.
    + intros l (H1 & H2 & H3). rewrite length_app in *. cbn [length] in *. split_and!; [done|lia|].
      intros m -> Hm. apply (H3 m eq_refl). apply Nat.leb_gt in Hlim. lia.
  - eapply spec_weaken; [apply IH; [lia|done]|]. intros l (H1 & H2 & H3). split_and!; [done|lia|done].
Qed.
(** From a state in reach, what can be reached is still in reach. *)
Lemma reading_trans ndb0 ndb ndb' : reading ndb0 ndb -> reading ndb ndb' -> reading ndb0 ndb'.
Proof.
  intros (_ & [_ H2] & H3 & H4) ([G0 G1] & G2 & G3 & G4).
  split_and!; [done|done|by rewrite <-H2| |congruence].
  intros n. etrans; [apply H3|apply G3].
Qed.

Lemma spec_rebase {A} ndb0 (f : NetDB -> M NetDB A) Q :
  (forall ndb, reading ndb0 ndb -> spec (reading ndb) (f ndb) Q) ->
  spec (reading ndb0) (get ≫= f) Q.
Proof.
  intros Hf ndb Hr. rewrite run_get.
  assert (ndb_inv ndb) as Hi by (destruct Hr as ([? ?] & [? _] & _); by split_and!).
  destruct (Hf ndb Hr ndb (reading_refl ndb Hi)) as [H1 H2]. split; [|done].
  by eapply reading_trans.
Qed.

Lemma table_get_in_range ndb index :
  table_inv ndb -> 0 <= index < 8 * Z.of_nat AddressBinarySize ->
  exists s, table_get ndb index = Ok s /\ (s_len s <= length (array ndb (s_arr s)))%nat /\
    contents ndb s = default [] (buckets ndb !! Z.to_nat index).
Proof.
  intros (_ & [_ HF] & [Hl _]) Hi. unfold AddressBinarySize in *.
  destruct (lookup_lt_is_Some_2 (table ndb) (Z.to_nat index)) as [s Hs].
  { unfold buckets in Hl. rewrite length_map in Hl. lia. }
  exists s. split; [|split].
  - replace index with (Z.of_nat (Z.to_nat index)) by lia. by apply table_get_Ok.
  - rewrite List.Forall_forall in HF. apply HF, list_elem_of_In. by eapply list_elem_of_lookup_2.
  - unfold buckets. by rewrite lookup_map, Hs.
Qed.

Lemma spec_scan_bucket ndb0 index ret :
  0 <= index < 8 * Z.of_nat AddressBinarySize ->
  all_stored (entries (conn ndb0)) ret -> (length ret <= BucketSize)%nat ->
  spec (reading ndb0) (scan_bucket index ret) (fun l =>
    all_stored (entries (conn ndb0)) l /\ (length l <= BucketSize)%nat).
Proof.
  intros Hi Hret Hlen. apply spec_rebase. intros ndb Hr.
  pose proof Hr as ([Ht _] & [_ HE] & _). rewrite <-HE in *.
  destruct (table_get_in_range ndb index Ht Hi) as (s & Es & Hs & _). rewrite Es.
  eapply spec_bind with (Q := eq s); [by apply spec_lift|]. intros ? <-.
  eapply spec_weaken; [by apply spec_range_query|]. intros l (H1 & _ & H3). eauto.
Qed.

Lemma spec_FindClosest_loop ndb0 fuel bits index i ret :
  bits <= 8 * Z.of_nat AddressBinarySize -> 0 <= index < bits -> 0 <= i ->
  all_stored (entries (conn ndb0)) ret -> (length ret <= BucketSize)%nat ->
  spec (reading ndb0) (FindClosest_loop fuel bits index i ret) (fun l =>
    all_stored (entries (conn ndb0)) l /\ (length l <= BucketSize)%nat).
Proof.
  intros Hb. revert i ret. induction fuel as [|f IH]; intros i ret Hx Hi Hret Hlen; cbn [FindClosest_loop].
  { by apply spec_ret. }
  destruct (_ && _); [|by apply spec_ret].
  eapply spec_bind with (Q := fun l => all_stored (entries (conn ndb0)) l /\ (length l <= BucketSize)%nat).
  { destruct (Z.leb_spec 0 (index - i)); [apply spec_scan_bucket; [lia|done|done]|by apply spec_ret]. }
  intros ret1 [H1 H2].
  eapply spec_bind with (Q := fun l => all_stored (entries (conn ndb0)) l /\ (length l <= BucketSize)%nat).
  { destruct (Z.ltb_spec (index + i) bits);
      [apply spec_scan_bucket; [lia|done|done]|by apply spec_ret]. }
  intros ret2 [H3 H4]. apply IH; [done|lia|done|done].
Qed.

Lemma spec_FindClosest ndb0 a :
  (1 <= length (Raw a) <= AddressBinarySize)%nat ->
  spec (reading ndb0) (FindClosest a) (fun l =>
    all_stored (entries (conn ndb0)) l /\ (length l <= BucketSize)%nat).
Proof.
  intros Ha. apply spec_rebase. intros ndb Hr. pose proof Hr as ([Ht _] & [_ HE] & _).
  rewrite <-HE. pose proof Ht as (Ho & _).
  destruct (bucket_index_short (ndb_addr ndb) a) as (i & Hi & Hlt); [by rewrite Ho|].
  unfold bucket_index in Hi. apply obind_Ok in Hi as (d & Hd & Hd'). injection Hd' as Hd'.
  rewrite Hd. eapply spec_bind with (Q := eq d); [by apply spec_lift|]. intros ? <-. cbn zeta.
  rewrite Hd'. assert (0 <= Z.of_nat i < 8 * Z.of_nat AddressBinarySize) as Hr' by lia.
  destruct (table_get_in_range ndb _ Ht Hr') as (s & Es & Hs & _). rewrite Es.
  eapply spec_bind with (Q := eq s); [by apply spec_lift|]. intros ? <-.
  destruct (Nat.eqb_spec (s_len s) BucketSize) as [Eq|].
  - eapply spec_weaken; [apply spec_range_query; [lia|constructor]|]. cbn [length].
    intros l (H1 & H2 & _). split; [done|lia].
  - apply spec_FindClosest_loop; [lia|lia|done|constructor|cbn; lia].
Qed.

(** ** [Insert] *)

Lemma keeps_Insert e :
  Entry_Verify (Some e) <> Panic -> addr_fresh (EAddress e) -> keeps ndb_inv (Insert e).
Proof.
  intros Hv Hf. unfold Insert.
  destruct (Entry_Verify (Some e)) as [[]|err|] eqn:Ev; [|by intros s Hs|done].
  assert (length (Raw (EAddress e)) = AddressBinarySize) as Hl by (by apply Verify_iff in Ev as [[H _] _]).
  apply keeps_bind; [by apply keeps_try, keeps_lift|]. intros [_|]; [|apply keeps_ret].
  apply keeps_bind; [by apply keeps_insertIntoTable|intros _].
  apply keeps_bind; [apply keeps_try, spec_dbop, keeps_Update; by rewrite Ev|].
  intros [n|]; [|apply keeps_ret]. destruct (0 <? n); [apply keeps_ret|].
  apply keeps_bind; [by apply keeps_try, spec_dbop, keeps_insertIntoDB|].
  intros [n'|]; [|apply keeps_ret].
  apply keeps_bind; [|intros; apply keeps_ret].
  apply keeps_try, spec_dbop, at_entries_keeps. intros E. apply keeps_insertEntrySeeds.
Qed.
End Specs.
