(* ===== verification/NetRun.v ===== *)
(** What the methods of [dht/netdb.go] compute when no statement fails: the exact
    result of [Query], and the database after [Insert]. *)

From S2P Require Import Prelude GoLib Base58Check Crypto Address Entry Sqlite NetStore NetDB NetTable NetInv.

Definition healthy (d : Db) : Prop := db_faults d = [].

Definition encoded (raw : bytes) : string := base58check.Encode prefix51 raw.

Section Run.
Context {C : Crypto} {D : Sqlite} {L : SqliteLaws D}.

Abbreviation wf := (db_wf address_text).

(** ** Queries leave a healthy database as it is *)

Lemma query_healthy {A} (f : Db -> outcome A) d : healthy d -> sql_query f d = (d, f d).
Proof. intros Hd. unfold sql_query. by rewrite sql_stmt_healthy. Qed.

Lemma decode_all_Ok rows : Forall address_text rows ->
  exists l, decode_all rows = Ok l /\ map (fun a => encoded (Raw a)) l = rows.
Proof.
  induction 1 as [|s rows (raw & Hl & ->) _ (l & E & Hm)]; [by exists []|].
  exists (raw_address raw :: l). cbn [decode_all]. rewrite DecodeAddress_encode.
  cbn [mbind outcome_bind]. rewrite E. split; [done|]. cbn [map]. by rewrite Hm.
Qed.

(** The addresses that seed for the entry [id], and those it seeds for. *)
Definition seed_texts (d : Db) (id : Z) : list string :=
  flat_map (fun s => address_of_id d (s_seed s)) (List.filter (fun s => s_for s =? id) (seeds d)).
Definition seeding_texts (d : Db) (id : Z) : list string :=
  flat_map (fun s => address_of_id d (s_for s)) (List.filter (fun s => s_seed s =? id) (seeds d)).

Lemma seed_lists_text d id :
  wf d -> Forall address_text (seed_texts d id) /\ Forall address_text (seeding_texts d id).
Proof.
  intros Hd. unfold seed_texts, seeding_texts.
  split; rewrite flat_map_comp; by apply flat_address_text.
Qed.

Lemma QuerySeeds_run d id : healthy d -> sqlQuerySeeds id d = (d, Ok (seed_texts d id)).
Proof. intros Hh. unfold sqlQuerySeeds. by rewrite query_healthy. Qed.

Lemma QuerySeeding_run d id : healthy d -> sqlQuerySeeding id d = (d, Ok (seeding_texts d id)).
Proof. intros Hh. unfold sqlQuerySeeding. by rewrite query_healthy. Qed.

Lemma querySeeds_run d id :
  wf d -> healthy d ->
  exists l, querySeeds id d = (d, Ok l) /\ map (fun a => encoded (Raw a)) l = seed_texts d id.
Proof.
  intros Hd Hh. destruct (decode_all_Ok _ (proj1 (seed_lists_text d id Hd))) as (l & E & Hm).
  exists l. split; [|done]. unfold querySeeds.
  rewrite (run_bind _ _ _ d (seed_texts d id)) by (by apply QuerySeeds_run). unfold lift. by rewrite E.
Qed.

Lemma querySeeding_run d id :
  wf d -> healthy d ->
  exists l, querySeeding id d = (d, Ok l) /\ map (fun a => encoded (Raw a)) l = seeding_texts d id.
Proof.
  intros Hd Hh. destruct (decode_all_Ok _ (proj2 (seed_lists_text d id Hd))) as (l & E & Hm).
  exists l. split; [|done]. unfold querySeeding.
  rewrite (run_bind _ _ _ d (seeding_texts d id)) by (by apply QuerySeeding_run). unfold lift. by rewrite E.
Qed.

Lemma addSeedToEntry_run d e id :
  wf d -> healthy d ->
  exists e', addSeedToEntry e id d = (d, Ok e') /\
    e' = set_Seeding (Seeding e') (set_Seeds (Seeds e') e) /\
    map encoded (Seeds e') = seed_texts d id /\ map encoded (Seeding e') = seeding_texts d id.
Proof.
  intros Hd Hh. destruct (querySeeds_run d id Hd Hh) as (l1 & E1 & M1).
  destruct (querySeeding_run d id Hd Hh) as (l2 & E2 & M2).
  exists (set_Seeding (map Raw l2) (set_Seeds (map Raw l1) e)). split.
  - unfold addSeedToEntry. rewrite (run_bind _ _ _ d l1) by done. by rewrite (run_bind _ _ _ d l2).
  - cbn [Seeds Seeding set_Seeds set_Seeding]. by rewrite !map_map.
Qed.

Lemma dbop_run {A} (m : M Db A) ndb d o : m (conn ndb) = (d, o) -> dbop m ndb = (set_conn d ndb, o).
Proof. intros E. unfold dbop, zoom. by rewrite E. Qed.

Lemma set_conn_same ndb : set_conn (conn ndb) ndb = ndb.
Proof. by destruct ndb. Qed.

Lemma QueryAddress_run d a :
  healthy d -> sqlQueryAddress a d =
    (d, match find_address a d with Some r => Ok r | None => Err ErrNoRows end).
Proof. intros Hh. unfold sqlQueryAddress. by rewrite query_healthy. Qed.

(** [Query] of an address that is not stored. *)
Lemma Query_absent ndb a :
  healthy (conn ndb) -> find_address (addr_str a) (conn ndb) = None ->
  Query a ndb = (ndb, Ok (None, -1)).
Proof.
  intros Hh Hf. unfold Query. erewrite run_try_Err.
  2:{ apply dbop_run. rewrite QueryAddress_run, Hf by done. done. }
  by rewrite set_conn_same.
Qed.

(** [Query] of a stored one: the entry of its row with the seeds of the seed
    table, and the address in front of its bucket. *)
Lemma Query_present ndb a r :
  ndb_inv ndb -> healthy (conn ndb) -> find_address (addr_str a) (conn ndb) = Some r ->
  exists e ndb' i, Query a ndb = (ndb', Ok (Some e, r_id r)) /\
    stored_as r e /\ map encoded (Seeds e) = seed_texts (conn ndb) (r_id r) /\
    map encoded (Seeding e) = seeding_texts (conn ndb) (r_id r) /\
    EAddress e = raw_address (Raw (EAddress e)) /\
    bucket_index (ndb_addr ndb) (EAddress e) = Ok (Z.of_nat i) /\
    insertIntoTable (EAddress e) ndb = (ndb', Ok tt) /\
    buckets ndb' = alter (touch (EAddress e)) i (buckets ndb) /\
    conn ndb' = conn ndb /\ ndb_addr ndb' = ndb_addr ndb /\ ndb_inv ndb'.
Proof.
  intros Hinv Hh Hf. pose proof Hinv as (Ht & Hfile & Hd).
  destruct (find_address_Some _ _ _ Hf) as [Hin _].
  destruct (row_good _ _ _ Hd Hin) as (raw & Hl & Hr).
  destruct (addSeedToEntry_run (conn ndb) (set_EAddress (raw_address raw) (entry_of_row r)) (r_id r) Hd Hh)
    as (e & Ee & He & Hs1 & Hs2).
  assert (EAddress e = raw_address raw) as Hea by exact (f_equal EAddress He).
  destruct (insertIntoTable_run ndb (EAddress e) Ht ltac:(by rewrite Hea))
    as (ndb' & i & Ei & Hi & Hb & Hinv' & Ho & Hc & Hf' & _).
  exists e, ndb', i.
  assert (Forall (fun a0 => length a0 = AddressBinarySize) (Seeds e ++ Seeding e)) as Hlens.
  { destruct (spec_addSeedToEntry (entries (conn ndb)) (set_EAddress (raw_address raw) (entry_of_row r))
      (r_id r) (conn ndb)) as [_ HQ]; [by split|]. rewrite Ee in HQ. apply HQ. }
  split_and!; try done.
  - unfold Query. erewrite run_try.
    2:{ apply dbop_run. rewrite QueryAddress_run, Hf by done. done. }
    rewrite set_conn_same. cbv beta iota.
    rewrite (run_lift _ _ _ (raw_address raw)) by (rewrite Hr; apply DecodeAddress_encode).
    cbn [Raw raw_address].
    rewrite (run_bind _ _ _ ndb e) by (by rewrite (dbop_run _ _ _ _ Ee), set_conn_same).
    by rewrite (run_bind _ _ _ ndb' tt).
  - unfold stored_as. rewrite Hea, addr_str_raw. by split_and!.
  - by rewrite Hea.
  - unfold ndb_inv, file_ok. rewrite Hf', Hc. split_and!; try done. apply Hinv'.
Qed.
(** ** [Insert] *)

Lemma find_map (f : entry_row -> entry_row) (P : entry_row -> bool) l :
  (forall r, P (f r) = P r) -> List.find P (map f l) = f <$> List.find P l.
Proof.
  intros Hf. induction l as [|r l IH]; [done|]. cbn. rewrite Hf, IH. by destruct (P r).
Qed.

Lemma find_app {A} (P : A -> bool) l k :
  List.find P (l ++ k) = match List.find P l with Some x => Some x | None => List.find P k end.
Proof. induction l as [|x l IH]; [done|]. cbn. by destruct (P x). Qed.

(** A healthy database with the entries [E]. *)
Definition healthy_at (E : list entry_row) (d : Db) : Prop := at_entries E d /\ healthy d.

Lemma spec_stmt_healthy {A} (P : Db -> Prop) (f : Db -> Db * outcome A) Q :
  (forall d, P d -> healthy d) -> (forall d, P d -> P (f d).1 /\ returns (f d).2 Q) ->
  spec P (sql_stmt f) Q.
Proof. intros Hh Hf d Hd. rewrite sql_stmt_healthy by (by apply Hh). by apply Hf. Qed.

Lemma spec_query_id E a : spec (healthy_at E) (sqlQueryIdByAddress a) (fun id => id ∈ map r_id E).
Proof.
  apply spec_stmt_healthy; [by intros d []|]. intros d [[Hd HE] Hh]. split; [done|]. cbn [snd].
  destruct (find_address a d) eqn:Ef; [|done]. apply find_address_Some in Ef as [Hin Ha].
  rewrite <-HE. cbn. apply elem_of_map. eauto.
Qed.

Lemma keeps_insertEntrySeeds_healthy E e : keeps (healthy_at E) (insertEntrySeeds e).
Proof.
  assert (forall a b, keeps (healthy_at E) (InsertSeed a b)) as Hs.
  { intros a b. unfold InsertSeed. eapply spec_bind; [apply spec_try, spec_query_id|]. intros r1 H1.
    eapply spec_bind; [apply spec_try, spec_query_id|]. intros r2 H2.
    destruct r1, r2; try apply keeps_fail.
    apply spec_stmt_healthy; [by intros d []|]. intros d [[Hd <-] Hh].
    case_bool_decide; split; try done. cbn [fst]. split; [|done]. split; [|done]. by apply db_wf_seed. }
  unfold insertEntrySeeds. keeps_tac; apply Hs.
Qed.

(** The update statement on a stored address. *)
Lemma UpdateEntry_run d a e :
  healthy d -> Updated e < 2 ^ 63 ->
  exists d', sqlUpdateEntry a e d =
      (d', Ok (Z.of_nat (length (List.filter (has_address a) (entries d))))) /\
    healthy d' /\ seeds d' = seeds d /\
    find_address a d' = (fun r => row_of (r_id r) a e) <$> find_address a d /\
    (find_address a d = None -> d' = d).
Proof.
  intros Hh Hu. unfold sqlUpdateEntry, bind_uint64. rewrite (proj2 (Z.ltb_lt _ _)) by done.
  rewrite sql_stmt_healthy by done. eexists. split; [done|]. cbn [db_faults seeds entries].
  split_and!; [done|done| |].
  - unfold find_address. cbn [entries]. rewrite find_map.
    2:{ intros r. destruct (has_address a r) eqn:Eh; [|done]. unfold has_address in *. by cbn. }
    destruct (List.find _ _) as [r|] eqn:Ef; [|done]. cbn [fmap option_fmap option_map].
    apply find_some in Ef as [_ Ha]. rewrite Ha. unfold row_of. unfold has_address in Ha.
    apply String.eqb_eq in Ha. by rewrite Ha.
  - intros Hn. unfold find_address in Hn. destruct d as [es sd ft fs]. cbn in *. f_equal.
    rewrite <-(map_id es) at 2. apply map_ext_in. intros r Hr. by rewrite (find_none _ _ Hn r Hr).
Qed.

Lemma count_address d a :
  wf d -> length (List.filter (has_address a) (entries d)) =
          match find_address a d with Some _ => 1%nat | None => 0%nat end.
Proof.
  intros (_ & Hnd & _). unfold find_address. clear -Hnd. induction (entries d) as [|r l IH]; [done|].
  cbn in *. apply list.NoDup_cons in Hnd as [Hr Hnd]. destruct (has_address a r) eqn:Eh; [|auto].
  cbn. f_equal. rewrite IH by done. destruct (List.find _ l) as [r'|] eqn:Ef; [|done].
  exfalso. apply Hr. apply find_some in Ef as [Hin Ha]. apply elem_of_map. exists r'.
  split; [|by apply list_elem_of_In]. unfold has_address in *. apply String.eqb_eq in Eh, Ha. congruence.
Qed.

(** The insert statements on a new address. *)
Lemma insertIntoDB_run d e :
  wf d -> healthy d -> Updated e < 2 ^ 63 -> find_address (addr_str (EAddress e)) d = None ->
  exists d', insertIntoDB e d = (d', Ok 1) /\ healthy d' /\ seeds d' = seeds d /\
    entries d' = entries d ++
      [row_of (Z.of_nat (S (length (entries d)))) (addr_str (EAddress e)) e].
Proof.
  intros Hd Hh Hu Hf. unfold insertIntoDB, sqlInsertEntry, bind_uint64.
  rewrite (proj2 (Z.ltb_lt _ _)) by done.
  erewrite run_bind; [|rewrite sql_stmt_healthy by done; rewrite Hf; reflexivity].
  cbn [Z.eqb]. unfold sqlInsertFtsEntry. rewrite (next_id_wf address_text) by done.
  set (d1 := mkDb _ _ _ _).
  destruct (bool_decide (Z.of_nat (S (length (entries d))) ∈ map fst (ftsEntry d1))) eqn:Eb.
  - erewrite run_bind; [|rewrite sql_stmt_healthy by done; rewrite Eb; reflexivity].
    by exists d1.
  - erewrite run_bind; [|rewrite sql_stmt_healthy by done; rewrite Eb; reflexivity].
    eexists. done.
Qed.
(** [Insert] once the entry is verified and in the table. *)
Definition insert_body (entry : Entry) : M NetDB (Z * option error) :=
  u ← try (dbop (Update entry));
  match u with
  | inr e => mret (0, Some e)
  | inl affected =>
      if 0 <? affected then mret (affected, None)
      else
        i ← try (dbop (insertIntoDB entry));
        match i with
        | inr e => mret (0, Some e)
        | inl affected =>
            s ← try (dbop (insertEntrySeeds entry));
            mret (affected, match s with inl _ => None | inr e => Some e end)
        end
  end.

Lemma Insert_verified e ndb ndb1 :
  Entry_Verify (Some e) = Ok tt -> insertIntoTable (EAddress e) ndb = (ndb1, Ok tt) ->
  Insert e ndb = insert_body e ndb1.
Proof.
  intros Hv Ht. unfold Insert. rewrite (run_try _ _ _ ndb tt) by (unfold lift; by rewrite Hv).
  by rewrite (run_bind _ _ _ ndb1 tt).
Qed.

Lemma Update_run d e :
  Entry_Verify (Some e) = Ok tt -> healthy d -> Updated e < 2 ^ 63 -> wf d ->
  exists d', Update e d =
      (d', Ok (match find_address (addr_str (EAddress e)) d with Some _ => 1 | None => 0 end)) /\
    healthy d' /\ seeds d' = seeds d /\
    find_address (addr_str (EAddress e)) d' =
      (fun r => row_of (r_id r) (addr_str (EAddress e)) e) <$> find_address (addr_str (EAddress e)) d /\
    (find_address (addr_str (EAddress e)) d = None -> d' = d).
Proof.
  intros Hv Hh Hu Hd. destruct (UpdateEntry_run d (addr_str (EAddress e)) e Hh Hu) as (d' & E & Hrest).
  rewrite count_address in E by done.
  exists d'. split; [|done]. unfold Update. rewrite (run_lift _ _ _ tt) by done.
  erewrite run_try by exact E. by destruct (find_address _ d).
Qed.

(** [Insert] of an accepted entry on a healthy database: the row of its address
    holds what it says. A stored address is updated and its seeds are not looked
    at; a new one gets a row, then its seeds. *)
Lemma Insert_run ndb e :
  ndb_inv ndb -> healthy (conn ndb) -> Entry_Verify (Some e) = Ok tt ->
  addr_fresh (EAddress e) -> Updated e < 2 ^ 63 ->
  exists ndb' err id, Insert e ndb = (ndb', Ok (1, err)) /\
    ndb_inv ndb' /\ healthy (conn ndb') /\
    find_address (addr_str (EAddress e)) (conn ndb') = Some (row_of id (addr_str (EAddress e)) e) /\
    (Seeds e = [] -> Seeding e = [] -> err = None /\ seeds (conn ndb') = seeds (conn ndb)) /\
    (find_address (addr_str (EAddress e)) (conn ndb) = None -> id = Z.of_nat (S (length (entries (conn ndb))))) /\
    (forall r, find_address (addr_str (EAddress e)) (conn ndb) = Some r ->
       err = None /\ id = r_id r /\ seeds (conn ndb') = seeds (conn ndb)).
Proof.
  intros Hinv Hh Hv Hfr Hu. pose proof Hinv as (Ht & _ & Hd).
  assert (length (Raw (EAddress e)) = AddressBinarySize) as Hl by (by apply Verify_iff in Hv as [[H _] _]).
  assert (ndb_inv (Insert e ndb).1) as Hinv'.
  { apply keeps_Insert; [by rewrite Hv|done|done]. }
  destruct (insertIntoTable_run ndb (EAddress e) Ht Hl) as (ndb1 & i & Ei & _ & _ & _ & _ & Hc & _).
  rewrite (Insert_verified e ndb ndb1 Hv Ei) in Hinv' |- *. rewrite <-Hc in *.
  destruct (Update_run (conn ndb1) e Hv Hh Hu Hd) as (d2 & E2 & Hh2 & Hs2 & Hf2 & Hsame).
  unfold insert_body in *.
  erewrite run_try in Hinv' |- * by (apply dbop_run; exact E2).
  destruct (find_address (addr_str (EAddress e)) (conn ndb1)) as [r|] eqn:Ef.
  - cbn [Z.ltb Z.compare] in *. eexists _, None, (r_id r). split; [reflexivity|].
    split_and!; try done. by intros ? [= <-].
  - cbn [Z.ltb Z.compare] in *. rewrite (Hsame eq_refl) in *.
    destruct (insertIntoDB_run (conn ndb1) e Hd Hh2 Hu Ef) as (d3 & E3 & Hh3 & Hs3 & He3).
    erewrite run_try in Hinv' |- * by (apply dbop_run; exact E3).
    assert (wf d3) as Hd3.
    { destruct (keeps_insertIntoDB e Hfr Hl (conn ndb1) Hd) as [Hw _]. by rewrite E3 in Hw. }
    destruct (keeps_insertEntrySeeds_healthy (entries d3) e d3) as [[[_ HE] Hh4] HQ]; [done|].
    destruct (insertEntrySeeds e d3) as [d4 o] eqn:E4. cbn [fst snd] in *.
    assert (find_address (addr_str (EAddress e)) d4 =
      Some (row_of (Z.of_nat (S (length (entries (conn ndb1))))) (addr_str (EAddress e)) e)) as Hfind.
    { unfold find_address in *. rewrite HE, He3, find_app, Ef. cbn [List.find].
      unfold has_address at 1. cbn [r_address row_of]. by rewrite String.eqb_refl. }
    assert (Seeds e = [] -> Seeding e = [] -> (d4, o) = (d3, Ok tt)) as Hnone.
    { intros H1 H2. unfold insertEntrySeeds in E4. rewrite H1, H2 in E4. by rewrite <-E4. }
    destruct o as [[]|err|]; [| |done].
    + erewrite run_try in Hinv' |- * by (apply dbop_run; exact E4).
      eexists _, None, _. split; [reflexivity|]. split_and!; try done.
      intros H1 H2. cbn [conn set_conn]. by injection (Hnone H1 H2) as ->.
    + erewrite run_try_Err in Hinv' |- * by (apply dbop_run; exact E4).
      eexists _, (Some err), _. split; [reflexivity|]. split_and!; try done.
      intros H1 H2. by specialize (Hnone H1 H2).
Qed.
End Run.
