(* ===== verification/NetClosest.v ===== *)
(** [queryAddresses] and the loops of [FindClosest] ([dht/netdb.go]) range over a
    bucket while [Query] reorders the table. The first query moves the rest of the
    bucket down by one in the array that the loop reads; afterwards the table has
    a copy and the array stays as it is. *)

From S2P Require Import Prelude GoLib Base58Check Crypto Address Entry Sqlite NetStore NetDB NetTable NetInv NetRun.

(** ** Arrays that the table no longer uses *)

Definition unused (ndb : NetDB) (n : nat) : Prop :=
  (n < length (heap ndb))%nat /\ n ∉ map s_arr (table ndb).

Lemma elem_of_insert_arr t i (s : slice_header) n :
  n ∈ map s_arr (<[i := s]> t) -> n = s_arr s \/ exists j s', j <> i /\ t !! j = Some s' /\ n = s_arr s'.
Proof.
  intros Hn. apply elem_of_map in Hn as (s' & -> & Hs). apply list_elem_of_lookup in Hs as [j Hj].
  destruct (decide (i = j)) as [<-|Hne].
  - left. apply list_lookup_insert_Some in Hj as [(_ & <- & _)|[? _]]; done.
  - right. rewrite list_lookup_insert_ne in Hj by done. eauto.
Qed.

(** The arrays after [insertIntoTable]: unused ones are untouched, and the array
    of the bucket becomes unused. *)
Lemma insertIntoTable_arrays ndb a i s ndb' :
  table_inv ndb -> length (Raw a) = AddressBinarySize ->
  bucket_index (ndb_addr ndb) a = Ok (Z.of_nat i) -> table ndb !! i = Some s ->
  insertIntoTable a ndb = (ndb', Ok tt) ->
  (forall n, unused ndb n -> array ndb' n = array ndb n /\ unused ndb' n) /\
  unused ndb' (s_arr s) /\
  (forall x rest, contents ndb s = x :: rest -> Raw x = Raw a ->
     array ndb' (s_arr s) = rest ++ drop (s_len s - 1) (array ndb (s_arr s))).
Proof.
  intros Hinv Ha Hi Hs. pose proof (rest_of_touch ndb s a i Hinv Hs) as Hrest. cbn zeta in Hrest.
  pose proof Hinv as (_ & [Hnd HF] & _). rewrite List.Forall_forall in HF.
  assert (forall j s', table ndb !! j = Some s' -> (s_arr s' < length (heap ndb))%nat) as Hin.
  { intros j s' Hj. apply HF, list_elem_of_In. by eapply list_elem_of_lookup_2. }
  unfold bucket_index in Hi. apply obind_Ok in Hi as (d & Hd & Hd'). injection Hd' as Hd'.
  unfold insertIntoTable. rewrite run_get, (run_lift _ _ _ d) by done. cbn zeta. rewrite Hd', Nat2Z.id.
  rewrite (run_lift _ _ _ s) by (by apply table_get_Ok). cbn zeta.
  assert (forall x rest, contents ndb s = x :: rest -> Raw x = Raw a ->
    list_find (fun y => Address_Equals y a = true) (contents ndb s) = Some (0%nat, x)) as Hfound.
  { intros x rest -> Hx. cbn. unfold Address_Equals. rewrite Hx, bool_decide_true by done.
    by rewrite decide_True. }
  destruct (match list_find _ _ with Some _ => _ | None => _ end) as [h1 rest] eqn:Em.
  destruct Hrest as (_ & Hl & _ & Hother). rewrite run_put.
  assert (forall n, unused ndb n -> h1 !! n = heap ndb !! n) as Hun.
  { intros n [Hn1 Hn2]. assert (n <> s_arr s) as Hne.
    { intros ->. apply Hn2, elem_of_map. exists s. split; [done|]. by eapply list_elem_of_lookup_2. }
    destruct (list_find _ _) as [[found y]|]; [|by case_match; simplify_eq].
    injection Em as <- _. by rewrite list_lookup_insert_ne. }
  intros [= <-]. cbn [heap table].
  assert (forall n, (n < length (heap ndb))%nat -> (forall j s', j <> i -> table ndb !! j = Some s' -> n <> s_arr s') ->
    unused (mkNetDB (h1 ++ [a :: rest]) (<[i := mkSlice (length h1) (S (length rest))]> (table ndb))
      (ndb_addr ndb) (conn ndb) (Some (buckets (mkNetDB (h1 ++ [a :: rest])
        (<[i := mkSlice (length h1) (S (length rest))]> (table ndb)) (ndb_addr ndb) (conn ndb) (table_file ndb))))) n) as Hunused.
  { intros n Hn Hno. split; cbn [heap table]; [rewrite length_app; lia|].
    intros Hm. apply elem_of_insert_arr in Hm as [->|(j & s' & Hne & Hj & ->)]; [cbn in Hn; lia|].
    by apply (Hno j s'). }
  split_and!.
  - intros n Hn. split.
    + unfold array. cbn [heap]. rewrite lookup_app_l by (destruct Hn; lia). by rewrite Hun.
    + apply Hunused; [apply Hn|]. intros j s' _ Hj ->. destruct Hn as [_ Hn]. apply Hn, elem_of_map.
      exists s'. split; [done|]. by eapply list_elem_of_lookup_2.
  - apply Hunused; [by eapply Hin|]. intros j s' Hne Hj E. apply Hne.
    eapply (list.NoDup_lookup (map s_arr (table ndb))); [done| |].
    + by rewrite lookup_map, Hj.
    + rewrite lookup_map, Hs. cbn. by rewrite E.
  - intros x r0 Hc Hx. rewrite (Hfound x r0 Hc Hx), Hc in Em. cbn [take drop app] in Em.
    injection Em as <- _. unfold array. cbn [heap]. pose proof (Hin _ _ Hs) as Hlt.
    rewrite lookup_app_l by (rewrite length_insert; lia).
    rewrite list_lookup_insert_eq by lia. cbn. by rewrite drop_0.
Qed.

Section Closest.
Context {C : Crypto} {D : Sqlite} {L : SqliteLaws D}.

(** An address with a row in the database. *)
Definition known (d : Db) (a : Address) : Prop :=
  addr_fresh a /\ length (Raw a) = AddressBinarySize /\ find_address (addr_str a) d <> None.

Lemma Query_known ndb a :
  ndb_inv ndb -> healthy (conn ndb) -> known (conn ndb) a ->
  exists e id ndb', Query a ndb = (ndb', Ok (Some e, id)) /\ Raw (EAddress e) = Raw a /\
    insertIntoTable (EAddress e) ndb = (ndb', Ok tt) /\
    conn ndb' = conn ndb /\ ndb_addr ndb' = ndb_addr ndb /\ ndb_inv ndb'.
Proof.
  intros Hinv Hh (Hfr & Hl & Hk).
  destruct (find_address (addr_str a) (conn ndb)) as [r|] eqn:Ef; [|done].
  destruct (Query_present ndb a r Hinv Hh Ef) as
    (e & ndb' & i & Eq & Hst & _ & _ & He & _ & Hins & _ & Hc & Ho & Hinv').
  exists e, (r_id r), ndb'. split_and!; try done.
  destruct (find_address_Some _ _ _ Ef) as [_ Ha]. destruct Hst as (Hst & _).
  rewrite col_text_address in Ha by (by apply addr_str_text).
  apply encode_inj. rewrite <-addr_str_fresh, <-(addr_str_fresh a); [congruence|done|].
  left. by rewrite He.
Qed.

Lemma known_conn ndb ndb' a : conn ndb' = conn ndb -> known (conn ndb) a -> known (conn ndb') a.
Proof. by intros ->. Qed.

(** The rest of a range over an array that the table does not use. *)
Lemma range_unused arr n : forall ndb k ret,
  ndb_inv ndb -> healthy (conn ndb) -> unused ndb arr ->
  (k + n <= length (array ndb arr))%nat ->
  Forall (known (conn ndb)) (take n (drop k (array ndb arr))) ->
  exists ndb' l, range_query None arr n k ret ndb = (ndb', Ok (ret ++ map Some l)) /\
    map (fun e => Raw (EAddress e)) l = map Raw (take n (drop k (array ndb arr))) /\
    conn ndb' = conn ndb.
Proof.
  induction n as [|n IH]; intros ndb k ret Hinv Hh Hun Hlen Hk.
  { exists ndb, []. cbn [range_query map]. by rewrite app_nil_r. }
  destruct (lookup_lt_is_Some_2 (array ndb arr) k) as [a Ha]; [lia|].
  rewrite (drop_S _ _ _ Ha) in Hk |- *. cbn [take] in Hk |- *. apply Forall_cons_1 in Hk as [Hka Hk].
  destruct (Query_known ndb a Hinv Hh Hka) as (e & id & ndb1 & Eq & Hr & Hins & Hc & Ho & Hinv1).
  assert (array ndb1 arr = array ndb arr /\ unused ndb1 arr) as [Harr Hun1].
  { destruct Hka as (_ & Hl & _). destruct Hinv as (Ht & _).
    assert (length (Raw (EAddress e)) = AddressBinarySize) as Hle by congruence.
    destruct (bucket_index_Ok (ndb_addr ndb) (EAddress e) (proj1 Ht) Hle) as (i & Hi & Hlt).
    destruct (lookup_lt_is_Some_2 (table ndb) i) as [s Hs].
    { destruct Ht as (_ & _ & Hb & _). unfold buckets in Hb. rewrite length_map in Hb. lia. }
    by apply (insertIntoTable_arrays ndb (EAddress e) i s ndb1). }
  destruct (IH ndb1 (S k) (ret ++ [Some e])) as (ndb2 & l & E2 & Hm & Hc2).
  { done. } { by rewrite Hc. } { done. } { rewrite Harr. lia. } { by rewrite Harr, Hc. }
  exists ndb2, (e :: l). cbn [range_query]. rewrite run_get, Ha, (run_try _ _ _ ndb1 (Some e, id)) by done.
  rewrite E2. split_and!; [|  |congruence].
  - by rewrite <-(assoc_L (++)).
  - cbn [map]. rewrite Hm, Harr. by f_equal.
Qed.

Lemma lookup_last {A} (y : A) rest : (y :: rest) !! length rest = Some (List.last rest y).
Proof.
  revert y. induction rest as [|z rest IH]; intros y; [done|].
  transitivity ((z :: rest) !! length rest); [done|]. rewrite IH. f_equal.
  clear IH. revert y z. induction rest as [|w rest IH]; intros y z; [done|].
  change (List.last (w :: rest) z = List.last (w :: rest) y). by rewrite <-(IH z w), <-(IH y w).
Qed.

(** The range over a bucket of the table: the address after the first is skipped
    and the last one is asked for twice. *)
Lemma queryAddresses_run ndb i s x y rest :
  ndb_inv ndb -> healthy (conn ndb) -> table ndb !! i = Some s ->
  contents ndb s = x :: y :: rest -> Forall (known (conn ndb)) (contents ndb s) ->
  exists ndb' l, queryAddresses s ndb = (ndb', Ok (map Some l)) /\
    map (fun e => Raw (EAddress e)) l = map Raw (x :: rest ++ [List.last rest y]).
Proof.
  intros Hinv Hh Hs Hc Hk. pose proof Hinv as (Ht & _).
  assert (length (contents ndb s) = s_len s) as Hlen.
  { eapply contents_length; [done|done|apply Ht|by eapply list_elem_of_lookup_2]. }
  assert (bucket_ok (ndb_addr ndb) i (contents ndb s)) as (_ & _ & Hix).
  { apply Ht. unfold buckets. by rewrite lookup_map, Hs. }
  rewrite Hc in Hlen, Hk, Hix. apply Forall_cons_1 in Hix as [[Hlx Hix] _].
  apply Forall_cons_1 in Hk as [Hkx Hk]. cbn [length] in Hlen.
  destruct (Query_known ndb x Hinv Hh Hkx) as (e & id & ndb1 & Eq & Hr & Hins & Hc1 & Ho & Hinv1).
  assert (bucket_index (ndb_addr ndb) (EAddress e) = Ok (Z.of_nat i)) as Hie.
  { unfold bucket_index, Address_Xor in *. by rewrite Hr. }
  destruct (insertIntoTable_arrays ndb (EAddress e) i s ndb1) as (_ & Hun & Harr);
    [done|by rewrite Hr|done|done|done|]. specialize (Harr x (y :: rest) Hc (eq_sym Hr)).
  set (A := array ndb (s_arr s)) in *.
  assert (drop (s_len s - 1) A !! 0%nat = Some (List.last rest y)) as Hlast.
  { rewrite lookup_drop, Nat.add_0_r. unfold contents in Hc. fold A in Hc.
    rewrite <-(lookup_take_lt A (s_len s)) by lia. rewrite Hc, <-Hlen.
    replace (S (S (length rest)) - 1)%nat with (S (length rest)) by lia. apply lookup_last. }
  assert (take (s_len s - 1) (drop 1 (array ndb1 (s_arr s))) = rest ++ [List.last rest y]) as Htake.
  { rewrite Harr. destruct (drop (s_len s - 1) A) as [|w ws]; [done|]. injection Hlast as ->.
    change (drop 1 ((y :: rest) ++ List.last rest y :: ws)) with (rest ++ ([List.last rest y] ++ ws)).
    rewrite (assoc_L (++)), take_app_le, take_ge by (rewrite length_app; cbn; lia). done. }
  destruct (range_unused (s_arr s) (s_len s - 1) ndb1 1 [Some e]) as (ndb2 & l & E2 & Hm & _).
  { done. } { by rewrite Hc1. } { done. }
  { rewrite Harr, length_app. destruct (drop (s_len s - 1) A); [done|]. cbn [length]. lia. }
  { rewrite Htake, Hc1. pose proof (Forall_lookup_1 _ _ _ _ Hk (lookup_last y rest)) as Hl.
    apply Forall_cons_1 in Hk as [_ Hk]. apply Forall_app. split; [done|]. by constructor. }
  exists ndb2, (e :: l). split.
  - unfold queryAddresses. replace (s_len s) with (S (s_len s - 1)) by lia. cbn [range_query].
    rewrite run_get. fold A. assert (A !! 0%nat = Some x) as ->.
    { unfold contents in Hc. fold A in Hc. rewrite <-(lookup_take_lt A (s_len s)) by lia. by rewrite Hc. }
    rewrite (run_try _ _ _ ndb1 (Some e, id)) by done. cbn [app].
    rewrite E2. done.
  - cbn [map]. rewrite Hm, Htake. by f_equal.
Qed.
End Closest.

(** ** The search finds something *)

Section Found.
Context {C : Crypto} {D : Sqlite} {L : SqliteLaws D}.

Lemma range_query_grows limit arr n : forall k ret ndb ndb' l,
  range_query limit arr n k ret ndb = (ndb', Ok l) -> (length ret <= length l)%nat.
Proof.
  induction n as [|n IH]; intros k ret ndb ndb' l; cbn [range_query]; [by intros [= _ <-]|].
  destruct (match limit with Some m => _ | None => false end); [by intros [= _ <-]|]. rewrite run_get.
  destruct (array ndb arr !! k) as [i|]; [|done]. intros (ndb1 & [[kv id]|e] & _ & H)%bind_Ok; apply IH in H; [|done].
  rewrite length_app in H. lia.
Qed.

Lemma scan_bucket_grows index ret ndb ndb' l : scan_bucket index ret ndb = (ndb', Ok l) -> (length ret <= length l)%nat.
Proof. unfold scan_bucket. rewrite run_get. intros (ndb1 & s & _ & H)%bind_Ok. by eapply range_query_grows. Qed.

Lemma FindClosest_loop_grows fuel bits index : forall i ret ndb ndb' l,
  FindClosest_loop fuel bits index i ret ndb = (ndb', Ok l) -> (length ret <= length l)%nat.
Proof.
  induction fuel as [|f IH]; intros i ret ndb ndb' l; cbn [FindClosest_loop]; [by intros [= _ <-]|].
  destruct (_ && _); [|by intros [= _ <-]]. intros (ndb1 & r1 & H1 & (ndb2 & r2 & H2 & H3)%bind_Ok)%bind_Ok.
  apply IH in H3. assert (length ret <= length r1)%nat by (destruct (0 <=? _); [by eapply scan_bucket_grows|by injection H1 as _ <-]).
  assert (length r1 <= length r2)%nat by (destruct (_ <? bits); [by eapply scan_bucket_grows|by injection H2 as _ <-]). lia.
Qed.

Lemma Query_succeeds ndb a : ndb_inv ndb -> healthy (conn ndb) -> exists ndb' q, Query a ndb = (ndb', Ok q).
Proof.
  intros Hi Hh. destruct (find_address (addr_str a) (conn ndb)) as [r|] eqn:E.
  - destruct (Query_present ndb a r Hi Hh E) as (e & ndb' & i & Eq & _). eauto.
  - rewrite (Query_absent ndb a Hh E). eauto.
Qed.

(** With an address in the bucket where the search starts the result is not empty. *)
Lemma FindClosest_some ndb a i x b ndb' l :
  ndb_inv ndb -> healthy (conn ndb) -> bucket_index (ndb_addr ndb) a = Ok (Z.of_nat i) -> buckets ndb !! i = Some (x :: b) ->
  (0 < length (Raw a))%nat -> FindClosest a ndb = (ndb', Ok l) -> (1 <= length l)%nat.
Proof.
  intros Hinv Hh Hi Hb Ha. unfold buckets in Hb. rewrite lookup_map in Hb. destruct (table ndb !! i) as [s|] eqn:Es; [|done].
  injection Hb as Hc. destruct (s_len s) as [|n] eqn:El; [unfold contents in Hc; by rewrite El in Hc|].
  assert (array ndb (s_arr s) !! 0%nat = Some x) as Hx.
  { unfold contents in Hc. rewrite El in Hc. by destruct (array ndb (s_arr s)); [|injection Hc as ->]. }
  assert (forall lim ndb1 r, lim <> Some 0%nat -> range_query lim (s_arr s) (s_len s) 0 [] ndb = (ndb1, Ok r) -> (1 <= length r)%nat) as Hrange.
  { intros lim ndb1 r Hlim. rewrite El. cbn [range_query length].
    assert (match lim with Some m => (m <=? 0)%nat | None => false end = false) as -> by (destruct lim as [[|m]|]; done).
    rewrite run_get, Hx. destruct (Query_succeeds ndb x Hinv Hh) as (ndb2 & [kv id] & Eq). rewrite (run_try _ _ _ _ _ Eq).
    intros H. by apply range_query_grows in H. }
  unfold FindClosest. rewrite run_get. unfold bucket_index in Hi. apply obind_Ok in Hi as (d & Hd & Hd'). injection Hd' as Hd'.
  rewrite (run_lift _ _ _ _ Hd), Hd', (run_lift _ _ _ s) by (by apply table_get_Ok).
  destruct (s_len s =? BucketSize)%nat; [by apply Hrange|]. cbv zeta.
  set (bits := Z.of_nat (length (Raw a)) * 8). destruct (Z.to_nat (bits + 2)) as [|f] eqn:Ef; [unfold bits in Ef; lia|].
  cbn [FindClosest_loop length]. rewrite Z.sub_0_r, (proj2 (Z.leb_le 0 (Z.of_nat i))) by lia. cbn [orb andb Nat.ltb Nat.leb BucketSize].
  intros (ndb1 & r1 & H1 & (ndb2 & r2 & H2 & H3)%bind_Ok)%bind_Ok. apply FindClosest_loop_grows in H3.
  assert (length r1 <= length r2)%nat by (destruct (_ <? bits); [by eapply scan_bucket_grows|by injection H2 as _ <-]).
  unfold scan_bucket in H1. rewrite run_get, (run_lift _ _ _ s) in H1 by (by apply table_get_Ok).
  apply Hrange in H1; [lia|done].
Qed.
End Found.
