(* ===== verification/DHT.v ===== *)
(** The DHT of a peer ([dht/dht.go]): a [NetDB] that is filled at start, and the
    calls the rest of the program makes; the states these calls reach and the
    correctness theorems of the routing table and the peer database. *)

From S2P Require Import Prelude GoLib Base58Check Crypto Address Entry Sqlite NetStore NetDB.
From S2P Require Import NetTable NetInv NetRun NetClosest.

Section DHT.
Context {C : Crypto} {D : Sqlite}.

(** [NewDHT(addr, path)]: an error of [NewNetDB] is a panic; without the latest
    entries (an error of [QueryLatest]) nothing is inserted. *)
Definition NewDHT (addr : Address) (d : Db) (file : option (list (list Address))) : outcome NetDB :=
  match NewNetDB addr d file with
  | Ok db =>
      match dbop QueryLatest db with
      | (db1, Ok es) =>
          match for_each es (fun i => _ ← Insert i; mret tt) db1 with
          | (db2, Ok _) => Ok db2
          | (_, Err e) => Err e
          | (_, Panic) => Panic
          end
      | (db1, Err _) => Ok db1
      | (_, Panic) => Panic
      end
  | _ => Panic
  end.

Definition DHT_Address (dht : NetDB) : Address := ndb_addr dht.
Definition DHT_Insert (entry : Entry) : M NetDB (Z * option error) := Insert entry.
Definition DHT_Query (addr : Address) : M NetDB (option Entry) := q ← Query addr; mret q.1.
Definition DHT_FindClosest (addr : Address) : M NetDB (list (option Entry)) := FindClosest addr.
Definition DHT_SaveTable : M NetDB unit := SaveTable.
Definition DHT_LoadTable : M NetDB unit := LoadTable.
Definition DHT_SearchEntries (name desc : string) (page : Z) : M NetDB (list Address) :=
  dbop (SearchPeer name desc page).

(** ** The states a running peer reaches *)

Inductive call :=
| CallInsert (e : Entry)
| CallQuery (a : Address)
| CallFindClosest (a : Address)
| CallSearch (name desc : string) (page : Z)
| CallQuerySeeds (a : Address)
| CallQuerySeeding (a : Address)
| CallInsertSeed (entry seed : Address)
| CallSaveTable
| CallLoadTable.

Definition run_call (c : call) : M NetDB unit :=
  match c with
  | CallInsert e => _ ← DHT_Insert e; mret tt
  | CallQuery a => _ ← DHT_Query a; mret tt
  | CallFindClosest a => _ ← DHT_FindClosest a; mret tt
  | CallSearch n ds p => _ ← DHT_SearchEntries n ds p; mret tt
  | CallQuerySeeds a => _ ← QuerySeeds a; mret tt
  | CallQuerySeeding a => _ ← QuerySeeding a; mret tt
  | CallInsertSeed e s => dbop (InsertSeed e s)
  | CallSaveTable => DHT_SaveTable
  | CallLoadTable => DHT_LoadTable
  end.

(** The calls that go well: an inserted entry does not make [Verify] panic and carries no
    other text for its address; the address of [FindClosest] has 1 to 20 bytes. *)
Definition allowed (c : call) : Prop :=
  match c with
  | CallInsert e => Entry_Verify (Some e) <> Panic /\ addr_fresh (EAddress e)
  | CallFindClosest a => (1 <= length (Raw a) <= AddressBinarySize)%nat
  | _ => True
  end.

Inductive reachable (own : Address) (d : Db) : NetDB -> Prop :=
| reach_new ndb : NewDHT own d None = Ok ndb -> reachable own d ndb
| reach_call ndb c : reachable own d ndb -> allowed c -> reachable own d (run_call c ndb).1.

Section Laws.
Context {L : SqliteLaws D}.

Lemma run_statements_frame n d : exists fs,
  (run_statements n d).1 = mkDb (entries d) (seeds d) (ftsEntry d) fs /\ (run_statements n d).2 <> Panic.
Proof.
  revert d. induction n as [|n IH]; intros d; cbn [run_statements].
  { exists (db_faults d). by destruct d. }
  unfold mbind, M_bind, sql_stmt. cbn [faults Db_faulty].
  destruct (db_faults d) as [|[] fs]; cbn beta iota.
  - apply IH.
  - by exists fs.
  - destruct (IH (set_faults fs d)) as (fs' & H1 & H2). by exists fs'.
Qed.

Lemma empty_buckets own d file :
  buckets (mkNetDB (replicate (AddressBinarySize * 8) [])
    (map (fun n => mkSlice n 0) (seq 0 (AddressBinarySize * 8))) own d file) =
  replicate (AddressBinarySize * 8) [].
Proof. reflexivity. Qed.

Lemma new_layout :
  layout (replicate (AddressBinarySize * 8) [])
    (map (fun n => mkSlice n 0) (seq 0 (AddressBinarySize * 8))).
Proof.
  split.
  - rewrite map_map. cbn [s_arr]. rewrite map_id. apply NoDup_seq.
  - apply List.Forall_forall. intros s Hs. apply in_map_iff in Hs as (n & <- & Hn).
    apply in_seq in Hn. cbn [s_arr s_len]. rewrite length_replicate. lia.
Qed.

Lemma NewNetDB_inv own d file ndb :
  length (Raw own) = AddressBinarySize -> db_wf address_text d ->
  match file with Some t => buckets_ok own t | None => True end ->
  NewNetDB own d file = Ok ndb ->
  ndb_inv ndb /\ ndb_addr ndb = own /\ entries (conn ndb) = entries d /\ seeds (conn ndb) = seeds d /\
  buckets ndb = replicate (AddressBinarySize * 8) [].
Proof.
  intros Ho Hd Hfile. unfold NewNetDB. destruct (run_statements_frame 15 d) as (fs & H1 & H2).
  destruct (run_statements 15 d) as [d' [u|e|]]; [|done|done]. cbn [fst] in H1. subst d'.
  intros [= <-]. split_and!; try done. unfold ndb_inv, table_inv. rewrite empty_buckets.
  cbn [ndb_addr heap table conn]. split_and!; try done.
  - exact new_layout.
  - split; [done|]. intros i b Hb. apply lookup_replicate in Hb as [-> _]. split_and!; [cbn; lia|constructor|constructor].
Qed.

(** An entry that [QueryLatest] returns has no address. *)
Lemma latest_rejected r e :
  e = set_Seeding (Seeding e) (set_Seeds (Seeds e) (entry_of_row r)) ->
  Entry_Verify (Some e) = Err (ErrText "Address size invalid").
Proof. by intros ->. Qed.

Lemma insert_rejected e ndb err : Entry_Verify (Some e) = Err err -> Insert e ndb = (ndb, Ok (0, Some err)).
Proof. intros Hv. unfold Insert. erewrite run_try_Err; [done|]. unfold lift. by rewrite Hv. Qed.

Lemma insert_latest rows es ndb :
  Forall2 (fun r e => e = set_Seeding (Seeding e) (set_Seeds (Seeds e) (entry_of_row r))) rows es ->
  for_each es (fun i => _ ← Insert i; mret tt) ndb = (ndb, Ok tt).
Proof.
  induction 1 as [|r e rows es He Hes IH]; [done|]. cbn [for_each].
  erewrite run_bind; [exact IH|]. erewrite run_bind; [reflexivity|].
  by eapply insert_rejected, latest_rejected.
Qed.

Lemma NewDHT_run own d file ndb :
  length (Raw own) = AddressBinarySize -> db_wf address_text d ->
  match file with Some t => buckets_ok own t | None => True end ->
  NewDHT own d file = Ok ndb ->
  ndb_inv ndb /\ ndb_addr ndb = own /\ entries (conn ndb) = entries d /\
  buckets ndb = replicate (AddressBinarySize * 8) [].
Proof.
  intros Ho Hd Hfile. unfold NewDHT.
  destruct (NewNetDB own d file) as [db| |] eqn:E; [|done|done].
  destruct (NewNetDB_inv own d file db Ho Hd Hfile E) as (Hinv & Hown & He & _ & Hb).
  destruct (spec_dbop_reading db QueryLatest _ (spec_QueryLatest _) db (reading_refl db Hinv))
    as [([Ht Hf] & [Hd1 He1] & _ & Ho1) HQ].
  assert (buckets (dbop QueryLatest db).1 = buckets db) as Hb1.
  { unfold dbop, zoom. by destruct (QueryLatest (conn db)). }
  destruct (dbop QueryLatest db) as [db1 [es|e|]]; cbn [fst snd returns] in *; [| |done].
  - rewrite (insert_latest _ _ db1 HQ). intros [= <-]. split_and!; [by split_and!| | |]; congruence.
  - intros [= <-]. split_and!; [by split_and!| | |]; congruence.
Qed.

(** ** The saved table *)

Lemma LoadTable_buckets ndb t :
  table_file ndb = Some t -> buckets (LoadTable ndb).1 = t /\
  layout (heap (LoadTable ndb).1) (table (LoadTable ndb).1).
Proof.
  intros Hf. unfold LoadTable, modify. cbn [fst]. rewrite Hf. unfold buckets. cbn [table heap].
  assert (forall (i : nat) s, imap (fun i b => mkSlice (length (heap ndb) + i) (length b)) t !! i = Some s ->
    exists b, t !! i = Some b /\ s = mkSlice (length (heap ndb) + i) (length b)) as Hi.
  { intros i s. rewrite list_lookup_imap. destruct (t !! i) as [b|]; [|done]. intros [= <-]. eauto. }
  assert (forall i : nat, (heap ndb ++ t) !! (length (heap ndb) + i)%nat = t !! i) as Hh.
  { intros i. rewrite lookup_app_r by lia. f_equal. lia. }
  split.
  - apply list_eq. intros i. rewrite lookup_map, list_lookup_imap.
    destruct (t !! i) as [b|] eqn:E; [|done]. cbn. f_equal. unfold contents, array. cbn [s_len s_arr heap].
    rewrite Hh, E. cbn. apply take_ge. lia.
  - split.
    + apply list.NoDup_alt. intros i j x. rewrite !lookup_map.
      destruct (imap _ t !! i) as [s|] eqn:E1; [|done]. destruct (imap _ t !! j) as [s'|] eqn:E2; [|done].
      cbn. intros [= <-] [= H]. apply Hi in E1 as (b & _ & ->). apply Hi in E2 as (b' & _ & ->).
      cbn in H. lia.
    + apply List.Forall_forall. intros s Hs. apply list_elem_of_In, list_elem_of_lookup in Hs as [i E].
      apply Hi in E as (b & E & ->). cbn [s_arr s_len]. rewrite Hh, E, length_app. cbn.
      split; [|done]. apply lookup_lt_Some in E. lia.
Qed.

Lemma keeps_LoadTable : keeps ndb_inv LoadTable.
Proof.
  intros ndb (Ht & Hf & Hd). split; [|done]. unfold file_ok in Hf.
  destruct (table_file ndb) as [t|] eqn:E.
  - destruct (LoadTable_buckets ndb t E) as [Hb Hl]. unfold LoadTable, modify in *. cbn [fst] in *.
    rewrite E in *. unfold ndb_inv, table_inv, file_ok. rewrite Hb. cbn [ndb_addr conn table_file] in *.
    split_and!; try done. apply Ht.
  - unfold LoadTable, modify. cbn [fst]. rewrite E. unfold ndb_inv, file_ok. by rewrite E.
Qed.

Lemma keeps_SaveTable : keeps ndb_inv SaveTable.
Proof. intros ndb (Ht & Hf & Hd). split; [|done]. split_and!; [apply Ht|apply Ht|done]. Qed.

(** ** Every call keeps the invariant *)

Lemma keeps_Query a : keeps ndb_inv (Query a).
Proof. apply reading_keeps. intros ndb0. eapply spec_keeps, spec_Query. Qed.

Lemma keeps_seed_query (m : Z -> M Db (list Address)) a :
  (forall E id, keeps (at_entries E) (m id)) -> keeps ndb_inv (q ← Query a; dbop (m q.2)).
Proof.
  intros Hm. apply keeps_bind; [apply keeps_Query|]. intros q. apply spec_dbop, at_entries_keeps.
  intros E. apply Hm.
Qed.

Lemma keeps_then_tt {A} P (m : M NetDB A) : keeps P m -> keeps P (_ ← m; mret tt).
Proof. intros Hm. apply keeps_bind; [done|]. intros _. apply keeps_ret. Qed.

Lemma keeps_call c : allowed c -> keeps ndb_inv (run_call c).
Proof.
  destruct c; intros Hc; cbn [run_call]; try apply keeps_then_tt.
  - destruct Hc. by apply keeps_Insert.
  - apply keeps_bind; [apply keeps_Query|]. intros; apply keeps_ret.
  - apply reading_keeps. intros ndb0. by eapply spec_keeps, spec_FindClosest.
  - eapply spec_keeps, spec_dbop, spec_SearchPeer.
  - apply keeps_seed_query. intros E id. eapply spec_keeps, spec_querySeeds.
  - apply keeps_seed_query. intros E id. eapply spec_keeps, spec_querySeeding.
  - apply spec_dbop, at_entries_keeps. intros E. apply keeps_InsertSeed.
  - apply keeps_SaveTable.
  - apply keeps_LoadTable.
Qed.

Lemma reachable_inv own d ndb :
  length (Raw own) = AddressBinarySize -> db_wf address_text d ->
  reachable own d ndb -> ndb_inv ndb.
Proof.
  intros Ho Hd. induction 1 as [ndb E|ndb c _ IH Hc].
  - by apply (NewDHT_run own d None ndb Ho Hd I E).
  - by apply keeps_call.
Qed.
End Laws.
End DHT.
