(* ===== verification/DHTProps.v ===== *)
(** The correctness theorems of the peer database and the routing table
    ([dht/netdb.go], [dht/dht.go]), with the concrete states of their witnesses. *)

From S2P Require Import Prelude GoLib Base58Check Crypto Address Entry Sqlite NetStore NetDB.
From S2P Require Import NetTable NetInv NetRun NetClosest DHT.

(** ** Searches return a value *)

(** Code that never returns an error. *)
Definition errorless {S A} (m : M S A) : Prop := forall s e, (m s).2 <> Err e.

Lemma errorless_bind {S A B} (m : M S A) (f : A -> M S B) :
  errorless m -> (forall a, errorless (f a)) -> errorless (m ≫= f).
Proof.
  intros Hm Hf s e. unfold mbind, M_bind. specialize (Hm s).
  destruct (m s) as [s' [a|e'|]]; [apply Hf|intros [= ->]; by apply (Hm e)|done].
Qed.

Lemma errorless_try {S A} (m : M S A) : errorless (try m).
Proof. intros s e. unfold try. by destruct (m s) as [s' [a|e'|]]. Qed.

Lemma errorless_ret {S A} (a : A) : errorless (mret a : M S A).
Proof. done. Qed.

Lemma errorless_get {S} : errorless (get : M S S).
Proof. done. Qed.

Lemma errorless_lift {S A} (o : outcome A) : (forall e, o <> Err e) -> errorless (lift o : M S A).
Proof. by intros Ho s. Qed.

Lemma Xor_no_Err a b e : Address_Xor a b <> Err e.
Proof.
  unfold Address_Xor. assert (forall x y e', Xor_loop x y <> Err e') as Hx.
  { induction x as [|c x IH]; intros [|c' y] e'; try done. cbn [Xor_loop]. specialize (IH y e').
    destruct (Xor_loop x y); [discriminate|exact IH|discriminate]. }
  specialize (Hx (Raw a) (Raw b) e). destruct (Xor_loop _ _); [discriminate| |discriminate].
  intros [= ->]. by apply Hx.
Qed.

Lemma table_get_no_Err ndb i e : table_get ndb i <> Err e.
Proof. unfold table_get. by repeat case_match. Qed.

#[local] Hint Resolve errorless_ret errorless_get errorless_try Xor_no_Err table_get_no_Err : core.
Ltac errorless_tac :=
  repeat match goal with
  | |- errorless (mbind _ _) => apply errorless_bind; [|intros ?]
  | |- errorless (lift _) => apply errorless_lift
  | |- errorless (match ?x with _ => _ end) => destruct x
  | |- errorless _ => solve [auto]
  | |- forall e, _ <> Err e => auto
  end.

Section Errorless.
Context {C : Crypto} {D : Sqlite}.

Lemma errorless_range_query limit arr n k ret : errorless (range_query limit arr n k ret).
Proof.
  revert k ret. induction n as [|n IH]; intros k ret; cbn [range_query]; errorless_tac.
Qed.

Lemma errorless_FindClosest a : errorless (FindClosest a).
Proof.
  assert (forall i ret, errorless (scan_bucket i ret)) as Hs.
  { intros i ret. unfold scan_bucket. errorless_tac. apply errorless_range_query. }
  assert (forall f bits index i ret, errorless (FindClosest_loop f bits index i ret)) as Hl.
  { induction f as [|f IH]; intros; cbn [FindClosest_loop]; errorless_tac. }
  unfold FindClosest. errorless_tac. apply errorless_range_query.
Qed.
End Errorless.

(** The rounds of [FindClosest_loop] are enough: a longer loop does the same. *)
Lemma FindClosest_loop_more {C : Crypto} {D : Sqlite} f more bits index i ret ndb :
  0 <= index <= bits -> 0 <= i -> (Z.to_nat (bits + 2 - i) <= f)%nat ->
  FindClosest_loop (f + more) bits index i ret ndb = FindClosest_loop f bits index i ret ndb.
Proof.
  intros Hx. revert i ret ndb. induction f as [|f IH]; intros i ret ndb Hi Hf.
  - cbn [Nat.add]. destruct more as [|more]; [done|]. cbn [FindClosest_loop].
    destruct (_ && _) eqn:E; [|done]. apply andb_prop in E as [E _].
    apply orb_prop in E as [E|E]; apply Z.leb_le in E; lia.
  - cbn [Nat.add FindClosest_loop]. destruct (_ && _); [|done]. unfold mbind, M_bind.
    destruct ((if 0 <=? index - i then scan_bucket (index - i) ret else mret ret) ndb) as [ndb1 [ret1|e|]];
      try done.
    destruct ((if index + i <? bits then scan_bucket (index + i) ret1 else mret ret1) ndb1)
      as [ndb2 [ret2|e|]]; try done.
    apply IH; lia.
Qed.

(** ** Concrete states for the witnesses *)

Definition toy_db : Db := mkDb [] [] [] [].
Definition toy_own : Address := raw_address (replicate 20 zero).

#[local] Existing Instance toy_crypto.
#[local] Existing Instance toy_sqlite.
#[local] Existing Instance toy_laws.
#[local] Existing Instance toy_sqlite_laws.

Definition Ok_or {A} (x : A) (o : outcome A) : A := match o with Ok a => a | _ => x end.

Definition toy_new : NetDB := Ok_or (mkNetDB [] [] toy_own toy_db None) (NewDHT toy_own toy_db None).

(** A signed entry for the address of twenty bytes [c], with the given seeding list. *)
Definition toy_at (c : byte) (seeding : list bytes) : Entry :=
  match SignEntry toy_sk 1500000000
    (set_Seeding seeding (set_EAddress (raw_address (replicate 20 c)) toy_entry)) with
  | Ok e => e | _ => toy_entry
  end.

Lemma toy_db_wf : db_wf address_text toy_db.
Proof. split_and!; [done|constructor|constructor|constructor]. Qed.

Lemma toy_new_reachable : reachable toy_own toy_db toy_new.
Proof. apply reach_new. vm_compute. reflexivity. Qed.

(** Three entries of one bucket inserted. *)
Definition toy_three : NetDB :=
  (Insert (toy_at "c" []) (Insert (toy_at "b" []) (Insert (toy_at "a" []) toy_new).1).1).1.

Lemma toy_insert_reachable ndb e :
  Entry_Verify (Some e) = Ok tt -> Encoded (EAddress e) = ""%string ->
  reachable toy_own toy_db ndb -> reachable toy_own toy_db (Insert e ndb).1.
Proof.
  intros Hv Hf Hr. assert (allowed (CallInsert e)) as Ha by (split; [by rewrite Hv|by left]).
  pose proof (reach_call _ _ _ _ Hr Ha) as H. cbn [run_call] in H. unfold DHT_Insert in H.
  unfold mbind, M_bind in H. by destruct (Insert _ ndb) as [ndb' []].
Qed.

Lemma toy_verified : Entry_Verify (Some (toy_at "a" [])) = Ok tt /\
  Entry_Verify (Some (toy_at "b" [])) = Ok tt /\ Entry_Verify (Some (toy_at "c" [])) = Ok tt.
Proof. vm_compute. by split_and!. Qed.

Lemma toy_texts : Encoded (EAddress (toy_at "a" [])) = ""%string /\
  Encoded (EAddress (toy_at "b" [])) = ""%string /\ Encoded (EAddress (toy_at "c" [])) = ""%string.
Proof. vm_compute. by split_and!. Qed.

Lemma toy_three_reachable : reachable toy_own toy_db toy_three.
Proof.
  destruct toy_verified as (Va & Vb & Vc), toy_texts as (Ta & Tb & Tc). unfold toy_three.
  exact (toy_insert_reachable _ _ Vc Tc (toy_insert_reachable _ _ Vb Tb
    (toy_insert_reachable _ _ Va Ta toy_new_reachable))).
Qed.

Lemma toy_inv ndb : reachable toy_own toy_db ndb -> ndb_inv ndb.
Proof. apply reachable_inv; [done|exact toy_db_wf]. Qed.

(** ** The routing table *)

Lemma then_panics {S A B} (m : M S A) (f : A -> M S B) s : (m s).2 = Panic -> ((a ← m; f a) s).2 = Panic.
Proof. unfold mbind, M_bind. by destruct (m s) as [s' [a|e|]]. Qed.

(** There is no bucket for an address that is empty or too long. *)
Lemma FindClosest_panics {C : Crypto} {D : Sqlite} (ndb : NetDB) (a : Address) :
  ndb_inv ndb -> length (Raw a) = 0%nat \/ (AddressBinarySize < length (Raw a))%nat -> (FindClosest a ndb).2 = Panic.
Proof.
  intros [(Ho & _) _] Ha. unfold FindClosest. rewrite run_get. unfold Address_Xor. destruct Ha as [Ha|Ha].
  - by rewrite (nil_length_inv _ Ha).
  - by rewrite Xor_loop_short by (by rewrite Ho).
Qed.

(** C7. From a fresh start, through any calls that insert entries on which [Verify] does not
    panic and that carry no forged text for their address, that look for the closest of an
    address of 1 to 20 bytes, or that query, search, save and load anything, and whatever
    statements fail in between: the routing table keeps 160 buckets of at most 20 distinct
    addresses, each in the bucket of its distance; the stored addresses are distinct; and
    no further such call panics. In each of these states an entry on which [Verify] panics
    and an address without bytes or with more than 20 do panic. *)
Theorem DHT_reachable_safe {C : Crypto} {D : Sqlite} {L : SqliteLaws D} (own : Address) (d : Db) (ndb : NetDB) :
  length (Raw own) = AddressBinarySize -> db_wf address_text d -> reachable own d ndb ->
  buckets_ok (ndb_addr ndb) (buckets ndb) /\ NoDup (map r_address (entries (conn ndb))) /\
  (forall c, allowed c -> (run_call c ndb).2 <> Panic) /\
  (forall e, Entry_Verify (Some e) = Panic -> (run_call (CallInsert e) ndb).2 = Panic) /\
  (forall a, length (Raw a) = 0%nat \/ (AddressBinarySize < length (Raw a))%nat ->
     (run_call (CallFindClosest a) ndb).2 = Panic).
Proof.
  intros Ho Hd Hr. pose proof (reachable_inv own d ndb Ho Hd Hr) as Hinv.
  split_and!; [apply Hinv|apply Hinv| | |].
  - intros c Hc. destruct (keeps_call c Hc ndb Hinv) as [_ HQ]. by destruct ((run_call c ndb).2).
  - intros e He. cbn [run_call]. unfold DHT_Insert, Insert, mbind, M_bind, try, lift. by rewrite He.
  - intros a Ha. cbn [run_call]. unfold DHT_FindClosest. by apply then_panics, FindClosest_panics.
Qed.

Lemma DHT_reachable_safe_witness :
  buckets_ok (ndb_addr toy_three) (buckets toy_three) /\
  NoDup (map r_address (entries (conn toy_three))) /\
  (forall c, allowed c -> (run_call c toy_three).2 <> Panic) /\
  (forall e, Entry_Verify (Some e) = Panic -> (run_call (CallInsert e) toy_three).2 = Panic) /\
  (forall a, length (Raw a) = 0%nat \/ (AddressBinarySize < length (Raw a))%nat ->
     (run_call (CallFindClosest a) toy_three).2 = Panic).
Proof.
  exact (DHT_reachable_safe toy_own toy_db toy_three eq_refl toy_db_wf toy_three_reachable).
Defined.

(** C14. [insertIntoTable] implements the least-recently-used bucket: it changes
    only the bucket of the address, where the address comes first, its old
    position is gone, and the last address falls out only if a new one finds the
    bucket full. The file gets the new table; the database is not touched. *)
Theorem insertIntoTable_refines (ndb : NetDB) (a : Address) :
  table_inv ndb -> length (Raw a) = AddressBinarySize ->
  exists ndb' i, insertIntoTable a ndb = (ndb', Ok tt) /\
    bucket_index (ndb_addr ndb) a = Ok (Z.of_nat i) /\
    buckets ndb' = alter (touch a) i (buckets ndb) /\ table_inv ndb' /\
    conn ndb' = conn ndb /\ table_file ndb' = Some (buckets ndb').
Proof.
  intros Ht Ha. destruct (insertIntoTable_run ndb a Ht Ha) as (ndb' & i & ?&?&?&?&?&?&?&?).
  exists ndb', i. by split_and!.
Qed.

Lemma insertIntoTable_refines_witness :
  exists ndb' i, insertIntoTable (raw_address (replicate 20 "b"%char)) toy_three = (ndb', Ok tt) /\
    bucket_index (ndb_addr toy_three) (raw_address (replicate 20 "b"%char)) = Ok (Z.of_nat i) /\
    buckets ndb' = alter (touch (raw_address (replicate 20 "b"%char))) i (buckets toy_three) /\
    table_inv ndb' /\ conn ndb' = conn toy_three /\ table_file ndb' = Some (buckets ndb').
Proof.
  exact (insertIntoTable_refines toy_three (raw_address (replicate 20 "b"%char))
    (proj1 (toy_inv _ toy_three_reachable)) eq_refl).
Defined.

(** Loading the table that was saved last gives the buckets back, in a state
    that again satisfies the invariant. *)
Theorem SaveTable_LoadTable (ndb : NetDB) :
  table_inv ndb ->
  exists ndb1 ndb2, SaveTable ndb = (ndb1, Ok tt) /\ LoadTable ndb1 = (ndb2, Ok tt) /\
    buckets ndb2 = buckets ndb /\ table_inv ndb2.
Proof.
  intros (Ho & Hl & Hb). exists (SaveTable ndb).1, (LoadTable (SaveTable ndb).1).1.
  destruct (LoadTable_buckets (SaveTable ndb).1 (buckets ndb) eq_refl) as [Hbk Hlay].
  unfold table_inv. rewrite Hbk. by split_and!.
Qed.

Lemma SaveTable_LoadTable_witness :
  exists ndb1 ndb2, SaveTable toy_three = (ndb1, Ok tt) /\ LoadTable ndb1 = (ndb2, Ok tt) /\
    buckets ndb2 = buckets toy_three /\ table_inv ndb2.
Proof. exact (SaveTable_LoadTable toy_three (proj1 (toy_inv _ toy_three_reachable))). Defined.

(** ** Inserting and querying *)



(** Inserting an entry whose address is stored leaves the seed table as it
    was, whatever seeds the new entry lists: only the first insert of an address
    registers its seeds. Adding a peer as a seed and the merge of seed lists
    insert the entry again to store the longer list. *)
Theorem Insert_known_keeps_seeds {C : Crypto} {D : Sqlite} {L : SqliteLaws D} (ndb : NetDB) (e : Entry) :
  ndb_inv ndb -> healthy (conn ndb) -> Entry_Verify (Some e) = Ok tt ->
  addr_fresh (EAddress e) -> Updated e < 2 ^ 63 ->
  find_address (addr_str (EAddress e)) (conn ndb) <> None ->
  exists ndb', Insert e ndb = (ndb', Ok (1, None)) /\ seeds (conn ndb') = seeds (conn ndb).
Proof.
  intros Hinv Hh Hv Hfr Hu Hk.
  destruct (Insert_run ndb e Hinv Hh Hv Hfr Hu) as (ndb1 & err & id & E1 & _ & _ & _ & _ & _ & Hold).
  destruct (find_address _ (conn ndb)) as [r|]; [|done].
  destruct (Hold r eq_refl) as (-> & _ & Hs). eauto.
Qed.

Lemma Insert_known_keeps_seeds_witness :
  exists ndb', Insert (set_Seeds [replicate 20 "a"%char] (toy_at "b" [])) toy_three = (ndb', Ok (1, None)) /\
    seeds (conn ndb') = seeds (conn toy_three).
Proof.
  apply (Insert_known_keeps_seeds toy_three (set_Seeds [replicate 20 "a"%char] (toy_at "b" []))).
  - exact (toy_inv _ toy_three_reachable).
  - vm_compute. reflexivity.
  - vm_compute. reflexivity.
  - left. vm_compute. reflexivity.
  - vm_compute. reflexivity.
  - vm_compute. discriminate.
Defined.

(** C18. [FindClosest] of an address of 1 to 20 bytes always returns, whatever statements
    fail: at most 20 results, of which each is nil -- an address of the table that is not
    stored -- or a stored row with its own 20-byte address; the entries of the database are
    not changed. The loop ends within the rounds that it is given: one that may go on longer
    does the same. Of an address without bytes or with more than 20 it panics. *)
Theorem FindClosest_sound {C : Crypto} {D : Sqlite} {L : SqliteLaws D} (ndb : NetDB) (a : Address) :
  ndb_inv ndb ->
  ((1 <= length (Raw a) <= AddressBinarySize)%nat ->
   exists ndb' l, FindClosest a ndb = (ndb', Ok l) /\ (length l <= BucketSize)%nat /\
    (forall e, Some e ∈ l -> exists r, r ∈ entries (conn ndb) /\ stored_as r e) /\
    ndb_inv ndb' /\ entries (conn ndb') = entries (conn ndb) /\
    (let bits := Z.of_nat (length (Raw a)) * 8 in
     forall more index ndb1, 0 <= index < bits ->
       FindClosest_loop (Z.to_nat (bits + 2) + more) bits index 0 [] ndb1 =
       FindClosest_loop (Z.to_nat (bits + 2)) bits index 0 [] ndb1)) /\
  (length (Raw a) = 0%nat \/ (AddressBinarySize < length (Raw a))%nat -> (FindClosest a ndb).2 = Panic).
Proof.
  intros Hinv. split; [intros Ha|by apply FindClosest_panics].
  pose proof (spec_FindClosest ndb a Ha ndb (reading_refl ndb Hinv)) as [HR HQ].
  pose proof (errorless_FindClosest a ndb) as He.
  destruct (FindClosest a ndb) as [ndb' [l|e|]]; cbn [fst snd returns] in *; [|by destruct (He e)|done].
  destruct HR as ([Ht Hf] & [Hd HE] & _). destruct HQ as [Hst Hlen].
  exists ndb', l. split; [done|]. split; [done|]. split; [|split; [done|split; [done|]]].
  - intros e He'. unfold all_stored in Hst. rewrite List.Forall_forall in Hst.
    by apply (Hst (Some e)), list_elem_of_In.
  - intros more index ndb1 Hi. apply FindClosest_loop_more; lia.
Qed.

Lemma FindClosest_sound_witness :
  (exists ndb' l, FindClosest (raw_address (replicate 20 "a"%char)) toy_three = (ndb', Ok l) /\
    (length l <= BucketSize)%nat /\
    (forall e, Some e ∈ l -> exists r, r ∈ entries (conn toy_three) /\ stored_as r e) /\
    ndb_inv ndb' /\ entries (conn ndb') = entries (conn toy_three)) /\
  (FindClosest (raw_address []) toy_three).2 = Panic.
Proof.
  split.
  - destruct (proj1 (FindClosest_sound toy_three (raw_address (replicate 20 "a"%char)) (toy_inv _ toy_three_reachable)))
      as (ndb' & l & H1 & H2 & H3 & H4 & H5 & _); [cbn; unfold AddressBinarySize; lia|].
    exists ndb', l. exact (conj H1 (conj H2 (conj H3 (conj H4 H5)))).
  - apply (FindClosest_sound toy_three (raw_address []) (toy_inv _ toy_three_reachable)). left. reflexivity.
Defined.

(** [queryAddresses] on a bucket of the table with at least two stored
    addresses returns the first one, then skips the second, and returns the last
    one twice: the query of the first address moves the others down in the array
    that the loop reads. [FindClosest] returns this for a full bucket. *)
Theorem queryAddresses_skips_second {C : Crypto} {D : Sqlite} {L : SqliteLaws D}
    (ndb : NetDB) (i : nat) (s : slice_header) (x y : Address) (rest : list Address) :
  ndb_inv ndb -> healthy (conn ndb) -> table ndb !! i = Some s ->
  contents ndb s = x :: y :: rest -> Forall (known (conn ndb)) (contents ndb s) ->
  exists ndb' l, queryAddresses s ndb = (ndb', Ok (map Some l)) /\
    map (fun e => Raw (EAddress e)) l = map Raw (x :: rest ++ [List.last rest y]).
Proof. apply queryAddresses_run. Qed.

Definition toy_slice : slice_header :=
  default (mkSlice 0 0) (list_find (fun s => s_len s = 3%nat) (table toy_three) ≫= fun p => Some p.2).

Lemma queryAddresses_skips_second_witness :
  exists ndb' l, queryAddresses toy_slice toy_three = (ndb', Ok (map Some l)) /\
    map (fun e => Raw (EAddress e)) l =
    [replicate 20 "c"%char; replicate 20 "a"%char; replicate 20 "a"%char].
Proof.
  apply (queryAddresses_skips_second toy_three 1 toy_slice (raw_address (replicate 20 "c"%char))
    (raw_address (replicate 20 "b"%char)) [raw_address (replicate 20 "a"%char)]).
  - exact (toy_inv _ toy_three_reachable).
  - vm_compute. reflexivity.
  - vm_compute. reflexivity.
  - vm_compute. reflexivity.
  - replace (contents toy_three toy_slice) with (map (fun c => raw_address (replicate 20 c)) ["c"; "b"; "a"]%char)
      by (vm_compute; reflexivity).
    repeat constructor; try (vm_compute; discriminate); by left.
Defined.

(** A DHT that is opened on a database starts with an empty table: the latest
    entries are read without their address, so each one is refused by [Verify].
    The comment says that they are inserted. *)
Theorem NewDHT_loads_nothing {C : Crypto} {D : Sqlite} {L : SqliteLaws D}
    (own : Address) (d : Db) (file : option (list (list Address))) (ndb : NetDB) :
  length (Raw own) = AddressBinarySize -> db_wf address_text d ->
  match file with Some t => buckets_ok own t | None => True end ->
  NewDHT own d file = Ok ndb ->
  buckets ndb = replicate 160 [] /\ entries (conn ndb) = entries d.
Proof.
  intros Ho Hd Hf E. by destruct (NewDHT_run own d file ndb Ho Hd Hf E) as (_ & _ & He & Hb).
Qed.

Definition toy_restarted : NetDB := Ok_or toy_new (NewDHT toy_own (conn toy_three) None).

Lemma NewDHT_loads_nothing_witness :
  buckets toy_restarted = replicate 160 [] /\ entries (conn toy_restarted) = entries (conn toy_three).
Proof.
  apply (NewDHT_loads_nothing toy_own (conn toy_three) None toy_restarted).
  - reflexivity.
  - exact (proj2 (proj2 (toy_inv _ toy_three_reachable))).
  - exact I.
  - vm_compute. reflexivity.
Defined.

(** A search for peers returns one address at most, and none on any page after
    the first, whatever is stored: the statement compares the id with the first
    row of its subquery, and the page number is used as a row offset. *)
Theorem SearchEntries_one_result {C : Crypto} {D : Sqlite} {L : SqliteLaws D}
    (name desc : string) (page : Z) (ndb ndb' : NetDB) (l : list Address) :
  ndb_inv ndb -> DHT_SearchEntries name desc page ndb = (ndb', Ok l) ->
  (length l <= 1)%nat /\ (1 <= page -> l = []).
Proof.
  intros Hinv E. destruct (spec_dbop _ _ (spec_SearchPeer name desc page) ndb Hinv) as [_ HQ].
  unfold DHT_SearchEntries in E. rewrite E in HQ. exact HQ.
Qed.

Lemma SearchEntries_one_result_witness :
  (length [raw_address (replicate 20 "a"%char)] <= 1)%nat /\
  (1 <= 0 -> [raw_address (replicate 20 "a"%char)] = []).
Proof.
  apply (SearchEntries_one_result "alice" "" 0 toy_three toy_three).
  - exact (toy_inv _ toy_three_reachable).
  - vm_compute. reflexivity.
Defined.
