(* ===== verification/Post.v ===== *)
(** Posts ([data/post.go]) and pieces ([data/piece.go]): the text a post is
    written as, its validity, the pieces of a thousand posts and their hashes; the
    reader of delimited fields ([data/errors.go]). *)

From S2P Require Import Prelude GoLib Crypto.

Definition TitleMax : Z := 144.
Definition TagsMax : Z := 256.
Definition MaxPostSize : Z := TitleMax + TagsMax + 1024.

Record Post := mkPost {
  Id : Z;
  InfoHash : string;
  Title : string;
  Size : Z;
  FileCount : Z;
  Seeders : Z;
  Leechers : Z;
  UploadDate : Z;
  Tags : string;
  Meta : string;
}.

#[global] Instance Post_eq_dec : EqDecision Post.
Proof. solve_decision. Defined.

(** The zero value [Post{}], and [Post{Id: id}]. *)
Definition Post_zero (id : Z) : Post := mkPost id "" "" 0 0 0 0 0 "" "".

(** [(p *Post) Write(sep, term, seedLeech, w)]: the bytes written, in order. *)
Definition Post_Write (sep term : string) (seedLeech : bool) (p : Post) : bytes :=
  to_bytes (Itoa (Id p)) ++ to_bytes sep ++
  to_bytes (InfoHash p) ++ to_bytes sep ++
  to_bytes (Title p) ++ to_bytes sep ++
  to_bytes (Itoa (Size p)) ++ to_bytes sep ++
  to_bytes (Itoa (FileCount p)) ++
  (if seedLeech then
     to_bytes sep ++ to_bytes (Itoa (Seeders p)) ++
     to_bytes sep ++ to_bytes (Itoa (Leechers p)) else []) ++
  to_bytes sep ++ to_bytes (Itoa (UploadDate p)) ++
  to_bytes sep ++ to_bytes (Tags p) ++
  to_bytes sep ++ to_bytes (Meta p) ++
  to_bytes sep ++ to_bytes term.

(** [(p *Post) Bytes(sep, term, seedLeech)] and [String]. *)
Definition Post_Bytes (sep term : bytes) (seedLeech : bool) (p : Post) : bytes :=
  Post_Write (to_string sep) (to_string term) seedLeech p.
Definition Post_String (sep term : string) (seedLeech : bool) (p : Post) : string :=
  to_string (Post_Bytes (to_bytes sep) (to_bytes term) seedLeech p).

(** [(p *Post) Valid()] at the Unix time [now]. *)
Definition Post_Valid (now : Z) (p : Post) : outcome unit :=
  if (140 <? slen (Title p))%nat then Err (ErrText "Title too long")
  else if now <? UploadDate p then Err (ErrText "Upload data cannot be in the future")
  else Ok tt.

(** ** Reading delimited fields *)

(** The bytes up to a delimiter and those after it. *)
Fixpoint split_at (delim : byte) (l : bytes) : option (bytes * bytes) :=
  match l with
  | [] => None
  | c :: l' =>
      if bool_decide (c = delim) then Some ([], l')
      else match split_at delim l' with Some (a, b) => Some (c :: a, b) | None => None end
  end.

(** The bytes still to come from the underlying reader, which ends after them,
    and the error of the last read. *)
Record ErrorReader := mkErrorReader { er_input : bytes; er_Err : option error }.

Definition NewErrorReader (r : bytes) : ErrorReader := mkErrorReader r None.

(** [(er *ErrorReader) ReadString(delim)]. *)
Definition ErrorReader_ReadString (delim : byte) (er : ErrorReader) : string * ErrorReader :=
  match split_at delim (er_input er) with
  | Some (s, rest) => (to_string s, mkErrorReader rest None)
  | None => (""%string, mkErrorReader [] (Some ErrEOF))
  end.

(** [(er *ErrorReader) ReadByte()]. *)
Definition ErrorReader_ReadByte (er : ErrorReader) : outcome byte * ErrorReader :=
  match er_input er with
  | c :: rest => (Ok c, mkErrorReader rest None)
  | [] => (Err ErrEOF, mkErrorReader [] (Some ErrEOF))
  end.

Lemma split_at_app delim s rest :
  delim ∉ s -> split_at delim (s ++ delim :: rest) = Some (s, rest).
Proof.
  induction s as [|c s IH]; intros Hs; cbn.
  - by rewrite bool_decide_true.
  - rewrite bool_decide_false by set_solver. by rewrite IH by set_solver.
Qed.

Lemma ReadString_field delim (s : string) rest err :
  delim ∉ to_bytes s ->
  ErrorReader_ReadString delim (mkErrorReader (to_bytes s ++ delim :: rest) err) =
  (s, mkErrorReader rest None).
Proof.
  intros Hs. unfold ErrorReader_ReadString. cbn [er_input]. rewrite split_at_app by done.
  by rewrite string_of_list_ascii_of_string.
Qed.

(** ** Pieces *)

Definition PieceSize : nat := 1000.

(** [hash] is the SHA3 state, by the bytes written to it; [None] before [Setup]. *)
Record Piece := mkPiece { P_Id : Z; Posts : list Post; P_hash : option bytes }.

Definition Piece_zero : Piece := mkPiece 0 [] None.

Definition Piece_Setup (p : Piece) : Piece := mkPiece (P_Id p) (Posts p) (Some []).

(** The bytes of a post that its piece hashes. *)
Definition post_data (post : Post) : bytes := to_bytes (Post_String "|" "" false post).

(** [(p *Piece) Add(post, store)]: the piece and the outcome; writing to a hash
    that was not set up panics. *)
Definition Piece_Add (post : Post) (store : bool) (p : Piece) : Piece * outcome unit :=
  if (PieceSize <? length (Posts p))%nat then (p, Err (ErrText "Piece full"))
  else
    let p1 := if store then mkPiece (P_Id p) (Posts p ++ [post]) (P_hash p) else p in
    match P_hash p1 with
    | None => (p1, Panic)
    | Some h => (mkPiece (P_Id p1) (Posts p1) (Some (h ++ post_data post)), Ok tt)
    end.

Section Hashes.
Context `{Crypto}.

(** [(p *Piece) Hash()]. *)
Definition Piece_Hash (p : Piece) : outcome bytes :=
  match P_hash p with None => Panic | Some h => Ok (sha3_Sum256 h) end.

(** [(p *Piece) Rehash()]. *)
Definition Piece_Rehash (p : Piece) : Piece * outcome bytes :=
  let h := flat_map (fun i => Post_Bytes (to_bytes "|") (to_bytes "") false i) (Posts p) in
  (mkPiece (P_Id p) (Posts p) (Some h), Ok (sha3_Sum256 h)).
End Hashes.

(** A loop that adds posts and ignores the errors, as the callers do. *)
Fixpoint Piece_add_all (posts : list Post) (store : bool) (p : Piece) : Piece :=
  match posts with
  | [] => p
  | i :: posts' => Piece_add_all posts' store (Piece_Add i store p).1
  end.

Definition new_piece (id : Z) : Piece := mkPiece id [] (Some []).

Lemma Post_Bytes_data i : Post_Bytes (to_bytes "|") (to_bytes "") false i = post_data i.
Proof. unfold post_data, Post_String. by rewrite list_ascii_of_string_of_list_ascii. Qed.

(** Posts that fit are all hashed, and stored if asked. *)
Lemma add_all_fits posts store : forall p h,
  P_hash p = Some h -> (length (Posts p) + length posts <= S PieceSize)%nat ->
  Piece_add_all posts store p =
  mkPiece (P_Id p) (if store then Posts p ++ posts else Posts p) (Some (h ++ flat_map post_data posts)).
Proof.
  induction posts as [|i posts IH]; intros p h Hh Hlen.
  - destruct p as [id ps hh]. cbn in *. subst. rewrite !app_nil_r. by destruct store.
  - cbn [Piece_add_all]. unfold Piece_Add. cbn [length] in Hlen.
    destruct (Nat.ltb_spec PieceSize (length (Posts p))); [lia|].
    destruct store; cbn [P_hash P_Id Posts]; rewrite Hh; cbn [fst].
    + rewrite (IH _ (h ++ post_data i)); [|done|cbn [Posts]; rewrite length_app; cbn; lia].
      cbn [P_Id Posts flat_map]. by rewrite <-!(assoc_L (++)).
    + rewrite (IH _ (h ++ post_data i)); [|done|cbn [Posts]; lia].
      cbn [P_Id Posts flat_map]. by rewrite <-!(assoc_L (++)).
Qed.
