(* ===== verification/PieceStream.v ===== *)
(** Pieces on the wire: what [LocalPeer.HandlePiece] writes
    ([localpeerhandlers.go]) and [Client.Pieces] reads ([proto/client.go]). The
    gzip layer between them passes the bytes through. *)

From S2P Require Import Prelude GoLib Crypto Post.

(** The body of [HandlePiece] after the posts are found: the posts, then one with
    the id -1 as a terminator. *)
Definition HandlePiece_write (posts : list Post) : bytes :=
  flat_map (Post_Write "|" "" true) posts ++ Post_Write "|" "" true (Post_zero (-1)).

(** [convert]: a field that is no number is 0. *)
Definition convert (val : string) : Z := match Atoi val with Some v => v | None => 0 end.

Definition read_field (er : ErrorReader) : string * ErrorReader := ErrorReader_ReadString "|"%char er.

(** The nine fields after the id. *)
Definition read_post (id : Z) (er : ErrorReader) : Post * ErrorReader :=
  let '(ih, er) := read_field er in
  let '(title, er) := read_field er in
  let '(size, er) := read_field er in
  let '(filecount, er) := read_field er in
  let '(seeders, er) := read_field er in
  let '(leechers, er) := read_field er in
  let '(uploaddate, er) := read_field er in
  let '(tags, er) := read_field er in
  let '(meta, er) := read_field er in
  (mkPost id ih title (convert size) (convert filecount) (convert seeders) (convert leechers)
     (convert uploaddate) tags meta, er).

(** The loop that fills one piece, [n] being [PieceSize - count]. *)
Fixpoint piece_loop (n : nat) (piece : Piece) (er : ErrorReader) : Piece * ErrorReader :=
  match n with
  | O => (piece, er)
  | S n' =>
      let '(id_s, er) := read_field er in
      let id := convert id_s in
      if id =? -1 then (piece, er)
      else
        let '(post, er) := read_post id er in
        match er_Err er with
        | Some _ => (piece, er)
        | None => piece_loop n' (Piece_Add post true piece).1 er
        end
  end.

(** The pieces [Client.Pieces] sends on its channel, from the bytes it receives. *)
Fixpoint pieces_loop (length : nat) (er : ErrorReader) : list Piece :=
  match length with
  | O => []
  | S l =>
      let '(piece, er) := piece_loop PieceSize (Piece_Setup Piece_zero) er in
      piece :: pieces_loop l er
  end.
Definition Client_Pieces (received : bytes) (length : Z) : list Piece :=
  pieces_loop (Z.to_nat length) (NewErrorReader received).

(** ** Fields come back *)

Definition sep_free (s : string) : Prop := "|"%char ∉ to_bytes s.

Definition int64 (z : Z) : Prop := - 2 ^ 63 <= z < 2 ^ 63.

(** Posts the format can carry: no separator in a text, integers of the machine,
    an id that is not the terminator's. *)
Definition wire_ok (p : Post) : Prop :=
  sep_free (InfoHash p) /\ sep_free (Title p) /\ sep_free (Tags p) /\ sep_free (Meta p) /\
  int64 (Id p) /\ int64 (Size p) /\ int64 (FileCount p) /\ int64 (Seeders p) /\
  int64 (Leechers p) /\ int64 (UploadDate p) /\ Id p <> -1.

Lemma Itoa_sep_free z : sep_free (Itoa z).
Proof.
  intros Hin. apply Itoa_chars in Hin as [Hc|Hc]; [done|].
  assert (bval "|"%char = 124) by done. lia.
Qed.

Lemma convert_Itoa z : int64 z -> convert (Itoa z) = z.
Proof. intros Hz. unfold convert. by rewrite Atoi_Itoa. Qed.

Lemma read_field_app s rest err :
  sep_free s ->
  read_field (mkErrorReader (to_bytes s ++ "|"%char :: rest) err) = (s, mkErrorReader rest None).
Proof. apply ReadString_field. Qed.

(** The text of a post with its separators, as a list of fields. *)
Definition fields_after_id (p : Post) : list string :=
  [InfoHash p; Title p; Itoa (Size p); Itoa (FileCount p); Itoa (Seeders p); Itoa (Leechers p);
   Itoa (UploadDate p); Tags p; Meta p].

Definition join_fields (l : list string) : bytes := flat_map (fun s => to_bytes s ++ ["|"%char]) l.

Lemma Write_fields p : Post_Write "|" "" true p = join_fields (Itoa (Id p) :: fields_after_id p).
Proof.
  unfold Post_Write, join_fields, fields_after_id. cbn [flat_map to_bytes list_ascii_of_string].
  rewrite <-!(assoc_L (++)). cbn [app]. by rewrite ?app_nil_r.
Qed.

Lemma read_field_join s l rest err :
  sep_free s ->
  read_field (mkErrorReader (join_fields (s :: l) ++ rest) err) =
  (s, mkErrorReader (join_fields l ++ rest) None).
Proof.
  intros Hs. unfold join_fields. cbn [flat_map]. rewrite <-!(assoc_L (++)). cbn [app].
  by rewrite read_field_app.
Qed.

Lemma read_post_join p rest err :
  wire_ok p ->
  read_post (Id p) (mkErrorReader (join_fields (fields_after_id p) ++ rest) err) =
  (p, mkErrorReader rest None).
Proof.
  intros (H1 & H2 & H3 & H4 & I1 & I2 & I3 & I4 & I5 & I6 & _).
  unfold read_post, fields_after_id.
  do 9 (rewrite read_field_join by first [done | apply Itoa_sep_free]).
  cbn [join_fields flat_map app]. rewrite !convert_Itoa by done. by destruct p.
Qed.

(** ** Whole pieces come back *)

Lemma piece_loop_posts posts : forall n piece rest,
  Forall wire_ok posts -> (length posts <= n)%nat ->
  piece_loop n piece (mkErrorReader (flat_map (Post_Write "|" "" true) posts ++ rest) None) =
  piece_loop (n - length posts) (Piece_add_all posts true piece) (mkErrorReader rest None).
Proof.
  induction posts as [|p posts IH]; intros n piece rest Hok Hn.
  { cbn. by rewrite Nat.sub_0_r. }
  apply Forall_cons_1 in Hok as [Hp Hok]. destruct n as [|n]; cbn [length] in Hn; [lia|].
  cbn [piece_loop flat_map Nat.sub]. rewrite Write_fields, <-(assoc_L (++)).
  rewrite read_field_join by apply Itoa_sep_free.
  rewrite convert_Itoa by apply Hp. rewrite (proj2 (Z.eqb_neq _ _)) by apply Hp.
  rewrite read_post_join by done. cbn [er_Err Piece_add_all]. apply IH; [done|lia].
Qed.

Lemma piece_loop_terminator n piece :
  (0 < n)%nat -> exists er,
  piece_loop n piece (mkErrorReader (Post_Write "|" "" true (Post_zero (-1))) None) = (piece, er).
Proof.
  intros Hn. destruct n as [|n]; [lia|]. cbn [piece_loop]. rewrite Write_fields.
  rewrite <-(app_nil_r (join_fields _)). rewrite read_field_join by apply Itoa_sep_free.
  rewrite convert_Itoa by (cbn; unfold int64; lia). cbn [Id Post_zero]. eauto.
Qed.

(** The piece with the given posts, as the receiver builds it. *)
Definition received_piece (posts : list Post) : Piece :=
  mkPiece 0 posts (Some (flat_map post_data posts)).

Lemma add_all_received posts :
  (length posts <= PieceSize)%nat -> Piece_add_all posts true (Piece_Setup Piece_zero) = received_piece posts.
Proof. intros Hl. rewrite (add_all_fits posts true _ []); [done|done|cbn [Posts length Piece_Setup Piece_zero]; lia]. Qed.

(** The [i]-th thousand of a list of posts. *)
Definition chunk (posts : list Post) (i : nat) : list Post := take PieceSize (drop (PieceSize * i) posts).

Lemma pieces_loop_all l : forall posts,
  Forall wire_ok posts -> (PieceSize * l <= length posts <= PieceSize * S l)%nat ->
  pieces_loop (S l) (mkErrorReader (HandlePiece_write posts) None) =
  map (fun i => received_piece (chunk posts i)) (seq 0 (S l)).
Proof.
  remember PieceSize as K eqn:EK. assert (0 < K)%nat as HK by (rewrite EK; unfold PieceSize; lia).
  induction l as [|l IH]; intros posts Hok Hlen.
  - unfold HandlePiece_write. cbn [pieces_loop seq map]. rewrite <-EK.
    rewrite piece_loop_posts by (done || lia). rewrite add_all_received by (rewrite <-EK; lia).
    assert (chunk posts 0 = posts) as ->.
    { unfold chunk. rewrite <-EK. rewrite Nat.mul_0_r, drop_0. apply take_ge. lia. }
    destruct (K - length posts)%nat as [|n] eqn:En; [done|].
    destruct (piece_loop_terminator (S n) (received_piece posts)) as [er ->]; [lia|]. done.
  - replace (HandlePiece_write posts) with
      (flat_map (Post_Write "|" "" true) (take K posts) ++ HandlePiece_write (drop K posts)).
    2:{ unfold HandlePiece_write. by rewrite (assoc_L (++)), <-flat_map_app, take_drop. }
    assert (length (take K posts) = K) as Ht by (rewrite length_take; nia).
    set (e := mkErrorReader _ _). change (pieces_loop (S (S l)) e) with
      (let '(piece, er) := piece_loop PieceSize (Piece_Setup Piece_zero) e in piece :: pieces_loop (S l) er).
    unfold e. clear e. rewrite <-EK.
    rewrite piece_loop_posts by (first [by apply Forall_take | lia]).
    rewrite Ht, Nat.sub_diag. cbn [piece_loop]. rewrite add_all_received by (rewrite <-EK; lia).
    rewrite IH; [|by apply Forall_drop|rewrite length_drop; nia].
    change (seq 0 (S (S l))) with (0%nat :: seq 1 (S l)). rewrite <-seq_shift, map_cons, map_map.
    f_equal.
    + unfold chunk. rewrite <-EK. by rewrite Nat.mul_0_r, drop_0.
    + apply map_ext. intros i. unfold chunk. rewrite <-EK. rewrite drop_drop. do 3 f_equal. lia.
Qed.
