(* ===== verification/PostDB.v ===== *)
(** The post database ([data/database.go], [data/sql.go]) and the searches on it
    ([data/search.go]). One connection is modelled, whose last inserted row id is
    part of the state. *)

From stdpp Require Import sorting.
From S2P Require Import Prelude GoLib Crypto Sqlite Post.

Record PostDb := mkPostDb {
  rows : list Post;                  (* in the order of their ids *)
  fts_post : list (Z * string);      (* docid, title *)
  last_rowid : Z;
  pd_faults : list bool;
}.

#[global] Instance PostDb_faulty : Faulty PostDb := {|
  faults := pd_faults;
  set_faults fs d := mkPostDb (rows d) (fts_post d) (last_rowid d) fs;
|}.

Definition set_rows (l : list Post) (d : PostDb) : PostDb :=
  mkPostDb l (fts_post d) (last_rowid d) (pd_faults d).

(** ORDER BY key DESC, the order of equal keys being the engine's. *)
Class SqlOrder := { order_desc : (Post -> Z) -> list Post -> list Post }.
Class SqlOrderLaws (O : SqlOrder) : Prop := {
  order_desc_perm key l : Permutation (order_desc key l) l;
  order_desc_sorted key l : Sorted (fun a b => key b <= key a) (order_desc key l);
}.

(** LIMIT offset,count: a negative offset is 0, a negative count no limit. *)
Definition limit {A} (offset count : Z) (l : list A) : list A :=
  let l' := drop (Z.to_nat offset) l in if count <? 0 then l' else take (Z.to_nat count) l'.

(** ** Statements *)

Definition max_post_id (l : list Post) : Z := fold_right Z.max 0 (map Id l).

Section Statements.
Context {D : Sqlite} {O : SqlOrder}.

(** The row a post is stored as. *)
Definition post_row (id : Z) (p : Post) : Post :=
  mkPost id (col_text (InfoHash p)) (col_text (Title p)) (Size p) (FileCount p) (Seeders p)
    (Leechers p) (UploadDate p) (col_text (Tags p)) (col_text (Meta p)).

(** [sql_insert_post], INSERT OR IGNORE on the unique info_hash; the result is
    the last inserted row id of the connection. *)
Definition insert_row (p : Post) (d : PostDb) : PostDb :=
  if bool_decide (col_text (InfoHash p) ∈ map InfoHash (rows d)) then d
  else
    let id := max_post_id (rows d) + 1 in
    mkPostDb (rows d ++ [post_row id p]) (fts_post d) id (pd_faults d).

Definition sql_insert_post (p : Post) : M PostDb Z :=
  sql_stmt (fun d => (insert_row p d, Ok (last_rowid (insert_row p d)))).

(** The driver refuses a statement that has more placeholders than arguments. *)
Definition sql_insert_post_8_args (p : Post) : M PostDb Z := fail ErrDriver.

(** UPDATE post SET ... WHERE id=?. *)
Definition update_id (id : Z) (f : Post -> Post) : M PostDb unit :=
  sql_stmt (fun d => (set_rows (map (fun p => if Id p =? id then f p else p) (rows d)) d, Ok tt)).

(** [sql_generate_fts]: INSERT OR IGNORE, the docid being the key. *)
Definition fts_insert (index : list (Z * string)) (p : Post) : list (Z * string) :=
  if bool_decide (Id p ∈ map fst index) then index else index ++ [(Id p, Title p)].
Definition sql_generate_fts (since : Z) : M PostDb unit :=
  sql_stmt (fun d =>
    (mkPostDb (rows d)
       (fold_left fts_insert (List.filter (fun p => since <=? Id p) (rows d)) (fts_post d))
       (last_rowid d) (pd_faults d), Ok tt)).

Definition sql_query_recent_post (offset count : Z) : M PostDb (list Post) :=
  sql_query (fun d => Ok (limit offset count (order_desc UploadDate (rows d)))).
Definition sql_query_popular_post (offset count : Z) : M PostDb (list Post) :=
  sql_query (fun d => Ok (limit offset count (order_desc (fun p => Seeders p + Leechers p)
    (take (Z.to_nat 10000) (order_desc UploadDate (rows d)))))).
Definition sql_query_post_id (id : Z) : M PostDb (list Post) :=
  sql_query (fun d => Ok (List.filter (fun p => Id p =? id) (rows d))).
(** WHERE id > ? LIMIT 0,?: a scan of the table, in the order of the ids. *)
Definition sql_query_paged_post (above count : Z) : M PostDb (list Post) :=
  sql_query (fun d => Ok (limit 0 count (List.filter (fun p => above <? Id p) (rows d)))).

(** [(seeders * 1.1) + leechers], times ten. *)
Definition popularity (p : Post) : Z := 11 * Seeders p + 10 * Leechers p.

(** [sql_search_post]: the index has the post table as its content. *)
Definition sql_search_post (query : string) (offset count : Z) : M PostDb (list Z) :=
  sql_query (fun d =>
    let docids := fts_docids query (fts_post d) in
    Ok (limit offset count (map Id (order_desc popularity
      (List.filter (fun p => bool_decide (Id p ∈ docids)) (rows d)))))).

(** [sql_suggest_posts], with LIKE as the engine computes it. *)
Definition sql_suggest_posts (like : string -> string -> bool) (query : string) (count : Z) :
  M PostDb (list string) :=
  sql_query (fun d => Ok (map Title (limit 0 count (order_desc popularity
    (List.filter (fun p => like (Title p) query) (take (Z.to_nat 100000) (order_desc UploadDate (rows d)))))))).

(** [sql_count_post], MAX(id): NULL on an empty table, which does not scan. *)
Definition sql_count_post : M PostDb Z :=
  sql_query (fun d => match rows d with [] => Err ErrDriver | _ => Ok (max_post_id (rows d)) end).
End Statements.

(** ** Methods *)

Section Methods.
Context {D : Sqlite} {O : SqlOrder}.

(** A statement that is prepared or run for its effect outside the model. *)
Definition sql_nop : M PostDb unit := sql_stmt (fun d => (d, Ok tt)).

(** [Connect()]: the result of the pragma is ignored. *)
Definition Database_Connect : M PostDb unit :=
  _ ← try sql_nop; _ ← sql_nop; _ ← sql_nop; sql_nop.

(** Back to the rows and the index of [snap]. *)
Definition rollback (snap d : PostDb) : PostDb :=
  mkPostDb (rows snap) (fts_post snap) (last_rowid d) (pd_faults d).

(** [InsertPiece(piece)]: on an error the transaction is rolled back. A [Begin]
    that fails leaves a nil transaction, and the first use of it panics. *)
Definition Database_InsertPiece (piece : Piece) : M PostDb unit :=
  snap ← get;
  b ← try sql_nop;
  match b with
  | inr e => lift Panic
  | inl _ =>
      r ← try (for_each (Posts piece) (fun i => _ ← sql_insert_post_8_args i; mret tt));
      match r with
      | inr e => _ ← modify (rollback snap); fail e
      | inl _ =>
          c ← try sql_nop;
          match c with
          | inl _ => mret tt
          | inr e => _ ← modify (rollback snap); fail e
          end
      end
  end.

(** [InsertPost(post)]: the id, -1 on an error. *)
Definition Database_InsertPost (post : Post) : M PostDb Z :=
  _ ← sql_nop; sql_insert_post post.

(** [GenerateFts(since)]: an error of the statement itself is dropped. *)
Definition Database_GenerateFts (since : Z) : M PostDb unit :=
  _ ← sql_nop; _ ← try (sql_generate_fts since); mret tt.

(** [PostCount()]: 0 on an error. *)
Definition Database_PostCount : M PostDb Z :=
  r ← try sql_count_post; mret (match r with inl n => n | inr _ => 0 end).

(** The loop of [InsertPieces] over the channel ([None] is nil): [n] pieces are in
    the open transaction, which started from [snap]. The result is the start of
    the last transaction and whether it was already ended by a failed commit. *)
Fixpoint insert_pieces_loop (pieces : list (option Piece)) (n : nat) (snap : PostDb) :
  M PostDb (PostDb * bool) :=
  match pieces with
  | [] | None :: _ => mret (snap, false)
  | Some piece :: pieces' =>
      let insert n snap :=
        r ← try (for_each (Posts piece) (fun i => _ ← sql_insert_post i; mret tt));
        match r with
        | inr _ => mret (snap, false)
        | inl _ => insert_pieces_loop pieces' (S n) snap
        end in
      if (n =? 99)%nat then
        c ← try sql_nop;
        match c with
        | inr _ => _ ← modify (rollback snap); mret (snap, true)
        | inl _ =>
            snap' ← get;
            b ← try sql_nop;
            match b with inr _ => lift Panic | inl _ => insert 0%nat snap' end
        end
      else insert n snap
  end.

(** The deferred commit; a transaction that is done already is left alone. *)
Definition finish_tx (snap : PostDb) (is_done : bool) : M PostDb unit :=
  if is_done then mret tt
  else
    c ← try sql_nop;
    match c with inl _ => mret tt | inr _ => modify (rollback snap) end.

(** [InsertPieces(pieces, fts)]: the deferred function commits what was inserted
    before an error too, and the error it leaves is that of [GenerateFts]. *)
Definition Database_InsertPieces (pieces : list (option Piece)) : M PostDb unit :=
  snap ← get;
  b ← try sql_nop;
  startPosts ← Database_PostCount;
  match b with
  | inr e => fail e
  | inl _ =>
      r ← insert_pieces_loop pieces 0 snap;
      _ ← finish_tx r.1 r.2;
      Database_GenerateFts startPosts
  end.

Definition page_size : Z := 25.

(** [PaginatedQuery(query, page)]: the product is an [int]; a negative offset is none. *)
Definition Database_PaginatedQuery (query : Z -> Z -> M PostDb (list Post)) (page : Z) :
  M PostDb (list Post) := query (to_int64 (page_size * page)) page_size.
Definition Database_QueryRecent (page : Z) : M PostDb (list Post) :=
  Database_PaginatedQuery sql_query_recent_post page.
Definition Database_QueryPopular (page : Z) : M PostDb (list Post) :=
  Database_PaginatedQuery sql_query_popular_post page.

(** [QueryPostId(id)]: the last of the rows, the zero post if there is none. *)
Definition Database_QueryPostId (id : Z) : M PostDb Post :=
  l ← sql_query_post_id id; mret (List.last l (Post_zero 0)).

(** [Search(query, page, pageSize)]. *)
Fixpoint query_each (ids : list Z) : M PostDb (list Post) :=
  match ids with
  | [] => mret []
  | id :: ids' => p ← Database_QueryPostId id; l ← query_each ids'; mret (p :: l)
  end.
Definition Database_Search (query : string) (page pageSize : Z) : M PostDb (list Post) :=
  ids ← sql_search_post query (to_int64 (page * pageSize)) pageSize; query_each ids.

(** [QueryPiece(id, store)]: an unsigned argument above the signed range is
    refused; errors of [Add] are dropped. *)
Definition Database_QueryPiece (id : Z) (store : bool) : M PostDb Piece :=
  let above := wrap64 (id * Z.of_nat PieceSize) in
  if above <? 2 ^ 63 then
    l ← sql_query_paged_post above (Z.of_nat PieceSize);
    mret (Piece_add_all l store (mkPiece id [] (Some [])))
  else fail ErrDriver.

(** [QueryPiecePosts(start, length, store)]: the posts sent on the channel, none
    on an error. *)
Definition Database_QueryPiecePosts (start length : Z) : M PostDb (list Post) :=
  r ← try (sql_query_paged_post (to_int64 (start * Z.of_nat PieceSize))
             (to_int64 (start + Z.of_nat PieceSize * length)));
  mret (match r with inl l => l | inr _ => [] end).

(** [AddMeta(pid, value)]. *)
Definition Database_AddMeta (pid : Z) (value : string) : M PostDb unit :=
  _ ← sql_nop;
  update_id pid (fun p => mkPost (Id p) (InfoHash p) (Title p) (Size p) (FileCount p) (Seeders p)
    (Leechers p) (UploadDate p) (Tags p) (col_text value)).

(** [SetSeeders(id, seeders)] and [SetLeechers(id, leechers)], of unsigned
    arguments. *)
Definition Database_SetSeeders (id seeders : Z) : M PostDb unit :=
  _ ← sql_nop;
  if (id <? 2 ^ 63) && (seeders <? 2 ^ 63) then
    update_id id (fun p => mkPost (Id p) (InfoHash p) (Title p) (Size p) (FileCount p) seeders
      (Leechers p) (UploadDate p) (Tags p) (Meta p))
  else fail ErrDriver.
Definition Database_SetLeechers (id leechers : Z) : M PostDb unit :=
  _ ← sql_nop;
  if (id <? 2 ^ 63) && (leechers <? 2 ^ 63) then
    update_id id (fun p => mkPost (Id p) (InfoHash p) (Title p) (Size p) (FileCount p) (Seeders p)
      leechers (UploadDate p) (Tags p) (Meta p))
  else fail ErrDriver.

(** [Suggest(query)]. *)
Definition Database_Suggest (like : string -> string -> bool) (query : string) : M PostDb (list string) :=
  sql_suggest_posts like query 5.
End Methods.
