(* ===== verification/PostDBProps.v ===== *)
(** The post database against its contract: ids count the posts, pieces are the
    consecutive thousands of posts, pages partition an ordered result, and a
    mirror of the whole collection receives the pieces its owner hashed. *)

From stdpp Require Import sorting.
From S2P Require Import Prelude GoLib Crypto Sqlite Post PieceStream PostDB.

(** ** The invariant *)

(** The ids are 1, 2, ... in table order, info hashes are distinct. *)
Definition pdb_wf (d : PostDb) : Prop :=
  map Id (rows d) = map Z.of_nat (seq 1 (length (rows d))) /\ NoDup (map InfoHash (rows d)).

Definition pdb_healthy (d : PostDb) : Prop := pd_faults d = [].

Lemma max_post_id_wf d : pdb_wf d -> max_post_id (rows d) = Z.of_nat (length (rows d)).
Proof.
  intros [Hid _]. unfold max_post_id. rewrite Hid. generalize (length (rows d)) as n. intros n.
  enough (forall k, (1 <= k)%nat -> fold_right Z.max 0 (map Z.of_nat (seq k n)) =
            if (n =? 0)%nat then 0 else Z.of_nat (k + n - 1)) as Hk.
  { rewrite Hk by lia. destruct (Nat.eqb_spec n 0); lia. }
  induction n as [|n IH]; intros k Hk; [done|]. cbn [seq map fold_right]. rewrite IH by lia.
  destruct (Nat.eqb_spec n 0); cbn [Nat.eqb]; lia.
Qed.

Section Invariant.
Context {D : Sqlite} {O : SqlOrder}.

Lemma pdb_wf_insert p d : pdb_wf d -> pdb_wf (insert_row p d).
Proof.
  intros Hd. unfold insert_row. case_bool_decide as Hin; [done|].
  rewrite max_post_id_wf by done. destruct Hd as [Hid Hnd]. unfold pdb_wf. cbn [rows].
  rewrite !map_app, length_app. cbn [map length post_row Id InfoHash]. split.
  - rewrite Hid, Nat.add_1_r, seq_S, map_app. cbn [map]. do 2 f_equal. lia.
  - apply list.NoDup_app. split_and!; [done| |apply NoDup_singleton].
    intros x Hx Hx'. apply list_elem_of_singleton in Hx' as ->. done.
Qed.

Lemma pdb_wf_update id f d :
  (forall p, Id (f p) = Id p /\ InfoHash (f p) = InfoHash p) ->
  pdb_wf d -> pdb_wf (set_rows (map (fun p => if Id p =? id then f p else p) (rows d)) d).
Proof.
  intros Hf [Hid Hnd]. unfold pdb_wf. cbn [set_rows rows]. rewrite length_map, !map_map.
  rewrite <-Hid. split.
  - apply map_ext. intros p. case_match; [apply Hf|done].
  - erewrite map_ext; [exact Hnd|]. intros p. cbn. case_match; [apply Hf|done].
Qed.

(** A statement keeps the invariant if its effect does, whatever fails. *)
Lemma keeps_stmt {A} (f : PostDb -> PostDb * outcome A) :
  (forall d, pdb_wf d -> pdb_wf (f d).1 /\ (f d).2 <> Panic) -> keeps pdb_wf (sql_stmt f).
Proof.
  intros Hf. apply spec_sql_stmt; [done|]. intros d Hd. destruct (Hf d Hd) as [H1 H2].
  split; [done|]. destruct ((f d).2); done.
Qed.

Lemma keeps_pquery {A} (f : PostDb -> outcome A) :
  (forall d, f d <> Panic) -> keeps pdb_wf (sql_query f).
Proof. intros Hf. apply keeps_stmt. intros d Hd. split; [done|apply Hf]. Qed.

Lemma keeps_nop : keeps pdb_wf sql_nop.
Proof. by apply keeps_stmt. Qed.

Lemma keeps_insert_post p : keeps pdb_wf (sql_insert_post p).
Proof. apply keeps_stmt. intros d Hd. split; [by apply pdb_wf_insert|done]. Qed.

Lemma keeps_update_id id f :
  (forall p, Id (f p) = Id p /\ InfoHash (f p) = InfoHash p) -> keeps pdb_wf (update_id id f).
Proof. intros Hf. apply keeps_stmt. intros d Hd. split; [by apply pdb_wf_update|done]. Qed.

Lemma keeps_generate_fts since : keeps pdb_wf (sql_generate_fts since).
Proof. by apply keeps_stmt. Qed.

Lemma keeps_PostCount : keeps pdb_wf Database_PostCount.
Proof.
  unfold Database_PostCount. keeps_tac. apply keeps_try, keeps_pquery. intros d. by destruct (rows d).
Qed.

Lemma keeps_GenerateFts since : keeps pdb_wf (Database_GenerateFts since).
Proof.
  unfold Database_GenerateFts. keeps_tac; [apply keeps_nop|apply keeps_try, keeps_generate_fts].
Qed.

Lemma rollback_wf snap d : pdb_wf snap -> pdb_wf (rollback snap d).
Proof. done. Qed.

Lemma preserves_nop : preserves pdb_wf sql_nop.
Proof. apply keeps_preserves, keeps_nop. Qed.

Lemma preserves_insert_posts l :
  preserves pdb_wf (for_each l (fun i => _ ← sql_insert_post i; mret tt)).
Proof. preserves_tac. apply keeps_preserves, keeps_insert_post. Qed.

Lemma InsertPiece_wf piece : preserves pdb_wf (Database_InsertPiece piece).
Proof.
  unfold Database_InsertPiece. apply preserves_bind_get. intros snap Hsnap.
  preserves_tac; try apply preserves_nop; by apply preserves_modify; intros d Hd; apply rollback_wf.
Qed.

(** Under the loop both the database and the start of the open transaction are
    well-formed. *)
Lemma insert_pieces_loop_wf pieces : forall n snap d,
  pdb_wf snap -> pdb_wf d ->
  pdb_wf (insert_pieces_loop pieces n snap d).1 /\
  forall r, (insert_pieces_loop pieces n snap d).2 = Ok r -> pdb_wf r.1.
Proof.
  induction pieces as [|[piece|] pieces IH]; intros n snap d Hs Hd; cbn [insert_pieces_loop].
  1,3: by split; [|intros r [= <-]].
  assert (forall n snap d, pdb_wf snap -> pdb_wf d ->
    let m := (r ← try (for_each (Posts piece) (fun i => _ ← sql_insert_post i; mret tt));
              match r with
              | inr _ => mret (snap, false)
              | inl _ => insert_pieces_loop pieces (S n) snap
              end) : M PostDb (PostDb * bool) in
    pdb_wf (m d).1 /\ forall r, (m d).2 = Ok r -> pdb_wf r.1) as Hins.
  { clear n snap d Hs Hd. intros n snap d Hs Hd. cbn zeta. unfold mbind at 1 3, M_bind at 1 3, try.
    pose proof (preserves_insert_posts (Posts piece) d Hd) as Hp.
    destruct (for_each _ _ d) as [d' [u|e|]]; cbn [fst] in Hp; [by apply IH| |].
    - by split; [|intros r [= <-]].
    - by split. }
  destruct (n =? 99)%nat; [|by apply Hins].
  unfold mbind, M_bind, try, modify, get, lift, mret, M_ret. pose proof (preserves_nop d Hd) as H1.
  destruct (sql_nop d) as [d1 [u|e|]]; cbn [fst] in H1.
  - pose proof (preserves_nop d1 H1) as H2. destruct (sql_nop d1) as [d2 [u'|e|]]; cbn [fst] in H2.
    + apply (Hins 0%nat d1 d2 H1 H2).
    + by split.
    + by split.
  - split; [by apply rollback_wf|]. by intros r [= <-].
  - by split.
Qed.

Lemma finish_tx_wf snap b : pdb_wf snap -> preserves pdb_wf (finish_tx snap b).
Proof.
  intros Hs. unfold finish_tx. preserves_tac; [apply preserves_nop|].
  apply preserves_modify. intros d Hd. by apply rollback_wf.
Qed.

Lemma InsertPieces_wf pieces : preserves pdb_wf (Database_InsertPieces pieces).
Proof.
  unfold Database_InsertPieces. apply preserves_bind_get. intros snap Hsnap.
  apply preserves_bind; [apply preserves_try, preserves_nop|]. intros b.
  apply preserves_bind; [apply keeps_preserves, keeps_PostCount|]. intros start.
  destruct b; [|apply preserves_fail]. intros d Hd.
  destruct (insert_pieces_loop_wf pieces 0 snap d Hsnap Hd) as [H1 H2].
  unfold mbind at 1, M_bind at 1.
  destruct (insert_pieces_loop pieces 0 snap d) as [d' [r|e|]]; cbn [fst snd] in *; [|done|done].
  apply (preserves_bind pdb_wf); [apply finish_tx_wf; by apply H2| |done].
  intros _. apply keeps_preserves, keeps_GenerateFts.
Qed.
End Invariant.

(** ** Pieces are the consecutive thousands *)

Lemma filter_above_seq z l : forall k,
  0 <= z -> map Id l = map Z.of_nat (seq (S k) (length l)) ->
  List.filter (fun p => z <? Id p) l = drop (Z.to_nat z - k) l.
Proof.
  induction l as [|p l IH]; intros k Hz Hid; [by rewrite drop_nil|].
  cbn [length seq map] in Hid. injection Hid as Hp Hid. cbn [List.filter].
  rewrite (IH (S k) Hz Hid), Hp. destruct (Z.ltb_spec z (Z.of_nat (S k))).
  - replace (Z.to_nat z - k)%nat with 0%nat by lia.
    replace (Z.to_nat z - S k)%nat with 0%nat by lia. by rewrite !drop_0.
  - replace (Z.to_nat z - k)%nat with (S (Z.to_nat z - S k)) by lia. done.
Qed.

Lemma filter_above d z :
  pdb_wf d -> 0 <= z -> List.filter (fun p => z <? Id p) (rows d) = drop (Z.to_nat z) (rows d).
Proof.
  intros [Hid _] Hz. rewrite (filter_above_seq z _ 0 Hz Hid). by rewrite Nat.sub_0_r.
Qed.

Lemma pquery_healthy {A} (f : PostDb -> outcome A) d : pdb_healthy d -> sql_query f d = (d, f d).
Proof. intros Hd. unfold sql_query. by rewrite sql_stmt_healthy. Qed.

Lemma paged_run d above count :
  pdb_wf d -> pdb_healthy d -> 0 <= above -> 0 <= count ->
  sql_query_paged_post above count d =
  (d, Ok (take (Z.to_nat count) (drop (Z.to_nat above) (rows d)))).
Proof.
  intros Hd Hh Ha Hc. unfold sql_query_paged_post. rewrite pquery_healthy by done.
  rewrite filter_above by done. unfold limit. rewrite (proj2 (Z.ltb_ge _ _)) by done.
  by rewrite drop_0.
Qed.

(** What [QueryPiece] returns for the piece [k]. *)
Definition owned_piece (k : nat) (store : bool) (posts : list Post) : Piece :=
  mkPiece (Z.of_nat k) (if store then chunk posts k else [])
    (Some (flat_map post_data (chunk posts k))).

Lemma length_chunk posts k : (length (chunk posts k) <= PieceSize)%nat.
Proof. unfold chunk. rewrite length_take. lia. Qed.

Lemma QueryPiece_run d k store :
  pdb_wf d -> pdb_healthy d -> 1000 * Z.of_nat k < 2 ^ 63 ->
  Database_QueryPiece (Z.of_nat k) store d = (d, Ok (owned_piece k store (rows d))).
Proof.
  intros Hd Hh Hk. unfold Database_QueryPiece, wrap64.
  rewrite Z.mod_small by (unfold PieceSize; lia).
  rewrite (proj2 (Z.ltb_lt _ _)) by (unfold PieceSize; lia).
  rewrite (run_bind _ _ _ d (chunk (rows d) k)).
  2:{ rewrite paged_run by (done || lia). unfold chunk. rewrite Nat2Z.id. do 4 f_equal. lia. }
  unfold mret, M_ret, owned_piece. rewrite (add_all_fits _ store _ []) by
    (first [done | pose proof (length_chunk (rows d) k); cbn [Posts length]; lia]).
  cbn [P_Id Posts app]. done.
Qed.

(** The number of pieces, as [int(math.Ceil(float64(n) / 1000))]. *)
Definition piece_count (n : nat) : nat := ((n + PieceSize - 1) / PieceSize)%nat.

Lemma piece_count_bounds n : (0 < n)%nat ->
  exists l, piece_count n = S l /\ (PieceSize * l < n <= PieceSize * S l)%nat.
Proof.
  intros Hn. unfold piece_count. remember PieceSize as K eqn:EK.
  assert (0 < K)%nat as HK by (rewrite EK; unfold PieceSize; lia).
  pose proof (Nat.div_mod (n + K - 1) K ltac:(lia)) as Hdm.
  pose proof (Nat.mod_upper_bound (n + K - 1) K ltac:(lia)) as Hm.
  set (q := ((n + K - 1) / K)%nat) in *. destruct q as [|l]; [nia|]. exists l. split; [done|]. nia.
Qed.

Lemma QueryPiecePosts_run d len :
  pdb_wf d -> pdb_healthy d -> 0 <= len -> 1000 * len < 2 ^ 63 -> Z.of_nat (length (rows d)) <= 1000 * len ->
  Database_QueryPiecePosts 0 len d = (d, Ok (rows d)).
Proof.
  intros Hd Hh Hl Hb Hn. unfold Database_QueryPiecePosts. cbn [Z.mul Z.add].
  rewrite !to_int64_id by (unfold PieceSize; lia).
  rewrite (run_try _ _ _ d (rows d)); [done|]. rewrite paged_run by (done || unfold PieceSize; lia).
  rewrite drop_0, take_ge by (unfold PieceSize; lia). done.
Qed.

(** ** Pages *)

Lemma flat_map_pages {A} (l : list A) (s : nat) n :
  flat_map (fun k => take s (drop (s * k) l)) (seq 0 n) = take (s * n) l.
Proof.
  induction n as [|n IH]; [by rewrite Nat.mul_0_r|].
  rewrite seq_S, flat_map_app, IH. cbn [flat_map]. rewrite app_nil_r, Nat.add_0_l.
  replace (s * S n)%nat with (s * n + s)%nat by lia.
  rewrite <-(take_drop (s * n) l) at 3.
  destruct (Nat.le_gt_cases (s * n) (length l)).
  - rewrite take_app_ge by (rewrite length_take; lia). rewrite length_take.
    f_equal. f_equal. lia.
  - rewrite (drop_ge l) by lia. rewrite take_nil, !app_nil_r. symmetry. rewrite take_ge; [done|].
    rewrite length_take. lia.
Qed.

(** ** Inserting pieces *)

Section Inserting.
Context {D : Sqlite} {O : SqlOrder}.

Definition insert_rows (l : list Post) (d : PostDb) : PostDb := fold_left (fun d p => insert_row p d) l d.

Lemma insert_row_faults p d : pd_faults (insert_row p d) = pd_faults d.
Proof. unfold insert_row. by case_bool_decide. Qed.

Lemma insert_rows_healthy l d : pdb_healthy d -> pdb_healthy (insert_rows l d).
Proof.
  revert d. induction l as [|p l IH]; intros d Hd; [done|]. apply IH. unfold pdb_healthy.
  by rewrite insert_row_faults.
Qed.

Lemma nop_healthy d : pdb_healthy d -> sql_nop d = (d, Ok tt).
Proof. intros Hd. unfold sql_nop. by rewrite sql_stmt_healthy. Qed.

Lemma insert_posts_run l : forall d,
  pdb_healthy d ->
  for_each l (fun i => _ ← sql_insert_post i; mret tt) d = (insert_rows l d, Ok tt).
Proof.
  induction l as [|p l IH]; intros d Hd; [done|]. cbn [for_each].
  rewrite (run_bind _ _ _ (insert_row p d) tt).
  - apply IH. unfold pdb_healthy. by rewrite insert_row_faults.
  - unfold sql_insert_post. erewrite run_bind; [|by rewrite sql_stmt_healthy]. done.
Qed.

(** Without failures the batches of a hundred make no difference. *)
Lemma insert_pieces_loop_run pieces : forall n snap d,
  pdb_healthy d ->
  exists snap', insert_pieces_loop (map Some pieces ++ [None]) n snap d =
    (insert_rows (flat_map Posts pieces) d, Ok (snap', false)).
Proof.
  induction pieces as [|p pieces IH]; intros n snap d Hd; [by exists snap|].
  cbn [map app insert_pieces_loop flat_map]. unfold insert_rows. rewrite fold_left_app.
  fold (insert_rows (Posts p) d).
  destruct (n =? 99)%nat.
  - rewrite (run_try _ _ _ d tt) by (by apply nop_healthy). rewrite run_get.
    rewrite (run_try _ _ _ d tt) by (by apply nop_healthy).
    rewrite (run_try _ _ _ (insert_rows (Posts p) d) tt) by (by apply insert_posts_run).
    apply IH. by apply insert_rows_healthy.
  - rewrite (run_try _ _ _ (insert_rows (Posts p) d) tt) by (by apply insert_posts_run).
    apply IH. by apply insert_rows_healthy.
Qed.

Lemma PostCount_run d : pdb_wf d -> pdb_healthy d -> Database_PostCount d = (d, Ok (Z.of_nat (length (rows d)))).
Proof.
  intros Hd Hh. unfold Database_PostCount, sql_count_post.
  destruct (rows d) as [|p l] eqn:E.
  - erewrite run_try_Err; [|rewrite pquery_healthy, E by done; reflexivity]. done.
  - erewrite run_try; [|rewrite pquery_healthy, E by done; reflexivity]. rewrite <-E.
    by rewrite max_post_id_wf.
Qed.

Lemma GenerateFts_run d since :
  pdb_healthy d -> exists d', Database_GenerateFts since d = (d', Ok tt) /\ rows d' = rows d.
Proof.
  intros Hh. unfold Database_GenerateFts. rewrite (run_bind _ _ _ d tt) by (by apply nop_healthy).
  unfold sql_generate_fts. eexists. erewrite run_try; [|rewrite sql_stmt_healthy by done; reflexivity].
  done.
Qed.

Lemma InsertPieces_run pieces d :
  pdb_wf d -> pdb_healthy d ->
  exists d', Database_InsertPieces (map Some pieces ++ [None]) d = (d', Ok tt) /\
    rows d' = rows (insert_rows (flat_map Posts pieces) d).
Proof.
  intros Hd Hh. unfold Database_InsertPieces. rewrite run_get.
  rewrite (run_try _ _ _ d tt) by (by apply nop_healthy).
  rewrite (run_bind _ _ _ d (Z.of_nat (length (rows d)))) by (by apply PostCount_run).
  destruct (insert_pieces_loop_run pieces 0 d d Hh) as [snap' E].
  rewrite (run_bind _ _ _ _ _ E). cbn [fst snd].
  set (d1 := insert_rows (flat_map Posts pieces) d) in *.
  assert (pdb_healthy d1) as Hh1 by (by apply insert_rows_healthy).
  rewrite (run_bind _ _ _ d1 tt).
  - destruct (GenerateFts_run d1 (Z.of_nat (length (rows d))) Hh1) as (d' & Ed & Hr). eauto.
  - unfold finish_tx. by rewrite (run_try _ _ _ d1 tt) by (by apply nop_healthy).
Qed.

(** Inserting the rows of a database, in order, into one that holds the first
    ones makes it complete. *)
Lemma insert_rows_replay d : pdb_wf d -> Forall (fun p => p = post_row (Id p) p) (rows d) ->
  forall l k d0, rows d = k ++ l -> rows d0 = k -> rows (insert_rows l d0) = rows d.
Proof.
  intros [Hid Hnd] Hst. induction l as [|p l IH]; intros k d0 Hk H0.
  { cbn. by rewrite H0, Hk, app_nil_r. }
  cbn [insert_rows fold_left]. fold (insert_rows l (insert_row p d0)).
  apply (IH (k ++ [p])); [by rewrite <-(assoc_L (++))|].
  assert (p = post_row (Id p) p) as Hp.
  { rewrite List.Forall_forall in Hst. apply Hst. rewrite Hk. apply in_elt. }
  assert (InfoHash p ∉ map InfoHash k) as Hnin.
  { rewrite Hk, map_app in Hnd. apply list.NoDup_app in Hnd as (_ & Hdis & _). intros Hin.
    apply (Hdis _ Hin). cbn [map]. by left. }
  assert (Id p = max_post_id k + 1) as Hidp.
  { assert (pdb_wf (mkPostDb k [] 0 [])) as Hwk.
    { rewrite Hk, !map_app, length_app, seq_app, map_app in Hid.
      apply app_inj_1 in Hid as [Hid _]; [|by rewrite !length_map, length_seq].
      rewrite Hk, map_app in Hnd. apply list.NoDup_app in Hnd as [Hnd _]. by split. }
    pose proof (max_post_id_wf _ Hwk) as Hmax. cbn [rows] in Hmax. rewrite Hmax.
    rewrite Hk in Hid. apply (f_equal (fun x => x !! length k)) in Hid.
    rewrite !lookup_map, lookup_app_r, Nat.sub_diag in Hid by lia.
    rewrite lookup_seq_lt in Hid by (rewrite length_app; cbn; lia). cbn in Hid.
    injection Hid as Hid. lia. }
  unfold insert_row. rewrite H0. pose proof (f_equal InfoHash Hp) as Hih. cbn [post_row InfoHash] in Hih.
  rewrite <-Hih, bool_decide_false by done. cbn [rows]. rewrite <-Hidp.
  f_equal. f_equal. symmetry. rewrite List.Forall_forall in Hst. apply Hst. rewrite Hk. apply in_elt.
Qed.
End Inserting.
