(* ===== verification/DataProps.v ===== *)
(** The correctness theorems of posts, pieces and the post database ([data/]),
    and of their transfer ([HandlePiece], [Client.Pieces]). *)

From stdpp Require Import sorting.
From S2P Require Import Prelude GoLib Crypto Sqlite Post PieceStream PostDB PostDBProps.

(** ** Concrete posts and databases for the witnesses *)

#[local] Existing Instance toy_crypto.
#[local] Existing Instance toy_sqlite.

Definition key_desc (key : Post -> Z) (a b : Post) : Prop := key b <= key a.
#[local] Instance key_desc_dec key a b : Decision (key_desc key a b).
Proof. unfold key_desc. apply _. Defined.
#[local] Instance key_desc_total key : Total (key_desc key).
Proof. intros a b. unfold key_desc. lia. Qed.

Definition toy_order : SqlOrder := {| order_desc key l := merge_sort (key_desc key) l |}.
#[local] Existing Instance toy_order.

Lemma toy_order_laws : SqlOrderLaws toy_order.
Proof.
  split; cbn; intros key l.
  - apply merge_sort_Permutation.
  - apply Sorted_merge_sort, _.
Qed.

Definition toy_post (ih title : string) (date : Z) : Post :=
  mkPost 0 ih title 700 1 5 2 date "linux iso" "".
Definition toy_empty : PostDb := mkPostDb [] [] 0 [].
Definition toy_posts : PostDb :=
  insert_rows [toy_post "abc" "first" 10; toy_post "def" "second" 30; toy_post "ghi" "third" 20] toy_empty.

Lemma toy_posts_wf : pdb_wf toy_posts.
Proof. split; [vm_compute; reflexivity|]. by apply (bool_decide_unpack _). Qed.

Lemma toy_posts_wire : Forall wire_ok (rows toy_posts).
Proof.
  unfold wire_ok, sep_free, int64.
  replace (rows toy_posts) with
    [mkPost 1 "abc" "first" 700 1 5 2 10 "linux iso" ""; mkPost 2 "def" "second" 700 1 5 2 30 "linux iso" "";
     mkPost 3 "ghi" "third" 700 1 5 2 20 "linux iso" ""] by (vm_compute; reflexivity).
  repeat constructor; cbn [InfoHash Title Tags Meta Id Size FileCount Seeders Leechers UploadDate];
    first [lia | by apply (bool_decide_unpack _)].
Qed.

(** ** Posts and pieces *)

(** Two posts that differ in nothing but the size of their swarm. *)
Definition same_immutable (a b : Post) : Prop :=
  Id a = Id b /\ InfoHash a = InfoHash b /\ Title a = Title b /\ Size a = Size b /\
  FileCount a = FileCount b /\ UploadDate a = UploadDate b /\ Tags a = Tags b /\ Meta a = Meta b.

Lemma post_data_immutable a b : same_immutable a b -> post_data a = post_data b.
Proof.
  intros (H1 & H2 & H3 & H4 & H5 & H6 & H7 & H8).
  unfold post_data, Post_String, Post_Bytes, Post_Write. by rewrite H1, H2, H3, H4, H5, H6, H7, H8.
Qed.

(** The hash of a piece that posts were added to is the SHA3 of their texts in
    order, whether the posts are stored or only hashed; [Rehash] of the stored
    posts gives the same; and it does not change with the seeder and leecher
    counts, the only fields of a post that may change. *)
Theorem Piece_Hash_spec {C : Crypto} (id : Z) (posts posts' : list Post) :
  (length posts <= PieceSize)%nat -> Forall2 same_immutable posts posts' ->
  let kept := Piece_add_all posts true (new_piece id) in
  Piece_Hash kept = Ok (sha3_Sum256 (flat_map post_data posts)) /\
  (Piece_Rehash kept).2 = Piece_Hash kept /\ Posts kept = posts /\
  Piece_Hash (Piece_add_all posts' false (new_piece id)) = Piece_Hash kept.
Proof.
  intros Hlen Hsame. cbn zeta. pose proof (Forall2_length Hsame) as Hl.
  rewrite (add_all_fits posts true (new_piece id) []) by (done || cbn [new_piece Posts length]; lia).
  rewrite (add_all_fits posts' false (new_piece id) []) by (done || cbn [new_piece Posts length]; lia).
  cbn [new_piece Posts P_Id app]. unfold Piece_Hash, Piece_Rehash. cbn [P_hash Posts snd].
  assert (flat_map post_data posts' = flat_map post_data posts) as ->.
  { symmetry. clear -Hsame. induction Hsame as [|a b l l' Hab _ IH]; [done|]. cbn.
    by rewrite (post_data_immutable a b Hab), IH. }
  split_and!; try done. f_equal. f_equal. apply flat_map_ext, Post_Bytes_data.
Qed.

Lemma Piece_Hash_spec_witness :
  let posts := [toy_post "abc" "first" 10] in
  let posts' := [mkPost 0 "abc" "first" 700 1 99 42 10 "linux iso" ""] in
  let kept := Piece_add_all posts true (new_piece 4) in
  Piece_Hash kept = Ok (sha3_Sum256 (flat_map post_data posts)) /\
  (Piece_Rehash kept).2 = Piece_Hash kept /\ Posts kept = posts /\
  Piece_Hash (Piece_add_all posts' false (new_piece 4)) = Piece_Hash kept.
Proof.
  apply (@Piece_Hash_spec toy_crypto 4).
  - cbn [length]. unfold PieceSize. lia.
  - by repeat constructor.
Defined.

(** ** The database *)

(** C37. The database keeps its contract under every method, whatever statements
    fail and even if the call panics: ids are 1, 2, ... without gaps, so that the
    largest id counts the posts, and no info hash is stored twice. *)
Theorem PostDb_invariant {D : Sqlite} {O : SqlOrder} (d : PostDb) :
  pdb_wf d ->
  (forall p, pdb_wf (Database_InsertPost p d).1) /\
  (forall piece, pdb_wf (Database_InsertPiece piece d).1) /\
  (forall pieces, pdb_wf (Database_InsertPieces pieces d).1) /\
  (forall id v, pdb_wf (Database_AddMeta id v d).1) /\
  (forall id n, pdb_wf (Database_SetSeeders id n d).1 /\ pdb_wf (Database_SetLeechers id n d).1) /\
  (forall since, pdb_wf (Database_GenerateFts since d).1) /\
  (pdb_healthy d -> Database_PostCount d = (d, Ok (Z.of_nat (length (rows d))))).
Proof.
  intros Hd. assert (forall id f, (forall p, Id (f p) = Id p /\ InfoHash (f p) = InfoHash p) ->
    preserves pdb_wf (update_id id f)) as Hu by (intros; by apply keeps_preserves, keeps_update_id).
  split_and!.
  - intros p. revert d Hd. apply (preserves_bind pdb_wf); [apply preserves_nop|].
    intros _. apply keeps_preserves, keeps_insert_post.
  - intros piece. by apply InsertPiece_wf.
  - intros pieces. by apply InsertPieces_wf.
  - intros id v. revert d Hd. apply (preserves_bind pdb_wf); [apply preserves_nop|]. intros _. by apply Hu.
  - intros id n. split; revert d Hd; (apply (preserves_bind pdb_wf); [apply preserves_nop|]); intros _;
      case_match; first [by apply Hu | apply preserves_fail].
  - intros since. apply (keeps_preserves pdb_wf); [apply keeps_GenerateFts|done].
  - by apply PostCount_run.
Qed.

Lemma PostDb_invariant_witness :
  (forall p, pdb_wf (Database_InsertPost p toy_posts).1) /\
  (forall piece, pdb_wf (Database_InsertPiece piece toy_posts).1) /\
  (forall pieces, pdb_wf (Database_InsertPieces pieces toy_posts).1) /\
  (forall id v, pdb_wf (Database_AddMeta id v toy_posts).1) /\
  (forall id n, pdb_wf (Database_SetSeeders id n toy_posts).1 /\ pdb_wf (Database_SetLeechers id n toy_posts).1) /\
  (forall since, pdb_wf (Database_GenerateFts since toy_posts).1) /\
  (pdb_healthy toy_posts -> Database_PostCount toy_posts = (toy_posts, Ok (Z.of_nat (length (rows toy_posts))))).
Proof. exact (PostDb_invariant toy_posts toy_posts_wf). Defined.

(** [InsertPost] of a new info hash appends one row, whose id is the new
    number of posts, and [QueryPostId] of that id returns it; a known info hash
    leaves the table as it is, and the id returned is that of an older insert. *)
Theorem InsertPost_spec {D : Sqlite} {O : SqlOrder} (d : PostDb) (p : Post) :
  pdb_wf d -> pdb_healthy d ->
  exists d' id, Database_InsertPost p d = (d', Ok id) /\
    if bool_decide (col_text (InfoHash p) ∈ map InfoHash (rows d))
    then d' = d /\ id = last_rowid d
    else id = Z.of_nat (S (length (rows d))) /\ rows d' = rows d ++ [post_row id p] /\
         Database_QueryPostId id d' = (d', Ok (post_row id p)).
Proof.
  intros Hd Hh. unfold Database_InsertPost, sql_insert_post.
  rewrite (run_bind _ _ _ d tt) by (by apply nop_healthy). rewrite sql_stmt_healthy by done.
  pose proof (pdb_wf_insert p d Hd) as Hd'. eexists _, _. split; [reflexivity|].
  unfold insert_row in *. case_bool_decide; [done|]. rewrite max_post_id_wf in * by done.
  cbn [last_rowid rows]. split_and!; [lia|done|].
  unfold Database_QueryPostId, sql_query_post_id. erewrite run_bind; [|by rewrite pquery_healthy].
  cbn [rows]. rewrite List.filter_app. cbn [List.filter post_row Id]. rewrite Z.eqb_refl.
  unfold mret, M_ret. by rewrite last_last.
Qed.

Lemma InsertPost_spec_witness :
  exists d' id, Database_InsertPost (toy_post "jkl" "fourth" 40) toy_posts = (d', Ok id) /\
    if bool_decide (col_text "jkl" ∈ map InfoHash (rows toy_posts))
    then d' = toy_posts /\ id = last_rowid toy_posts
    else id = Z.of_nat (S (length (rows toy_posts))) /\
         rows d' = rows toy_posts ++ [post_row id (toy_post "jkl" "fourth" 40)] /\
         Database_QueryPostId id d' = (d', Ok (post_row id (toy_post "jkl" "fourth" 40))).
Proof.
  exact (InsertPost_spec toy_posts (toy_post "jkl" "fourth" 40) toy_posts_wf eq_refl).
Defined.

(** [InsertPiece] stores nothing: its statement has nine placeholders and
    gets eight arguments, so a piece with a post always ends in an error and the
    transaction is rolled back. *)
Theorem InsertPiece_fails {D : Sqlite} {O : SqlOrder} (d : PostDb) (piece : Piece) :
  pdb_healthy d -> Posts piece <> [] ->
  exists d', Database_InsertPiece piece d = (d', Err ErrDriver) /\ rows d' = rows d.
Proof.
  intros Hh Hne. unfold Database_InsertPiece. rewrite run_get.
  rewrite (run_try _ _ _ d tt) by (by apply nop_healthy).
  destruct (Posts piece) as [|p l]; [done|].
  rewrite (run_try_Err _ _ _ d ErrDriver) by done. by exists (rollback d d).
Qed.

Lemma InsertPiece_fails_witness :
  exists d', Database_InsertPiece (mkPiece 0 [toy_post "abc" "first" 10] (Some [])) toy_empty =
    (d', Err ErrDriver) /\ rows d' = rows toy_empty.
Proof.
  apply (InsertPiece_fails toy_empty (mkPiece 0 [toy_post "abc" "first" 10] (Some []))).
  - reflexivity.
  - discriminate.
Defined.

(** C39. The pages of [QueryRecent] partition the posts: each page whose offset fits in 64
    bits is the 25 posts of the newest-first order from 25 times its number on, and enough
    pages in sequence are all posts, each once, newest first. *)
Theorem QueryRecent_pages {D : Sqlite} {O : SqlOrder} {L : SqlOrderLaws O} (d : PostDb) :
  pdb_healthy d ->
  let page k := take 25 (drop (25 * k) (order_desc UploadDate (rows d))) in
  (forall k, 25 * Z.of_nat k < 2 ^ 63 -> Database_QueryRecent (Z.of_nat k) d = (d, Ok (page k))) /\
  forall n, (length (rows d) <= 25 * n)%nat ->
    Permutation (flat_map page (seq 0 n)) (rows d) /\
    Sorted (fun a b => UploadDate b <= UploadDate a) (flat_map page (seq 0 n)).
Proof.
  intros Hh page. split.
  - intros k Hk. unfold Database_QueryRecent, Database_PaginatedQuery, sql_query_recent_post.
    rewrite pquery_healthy by done. unfold page_size at 1. rewrite to_int64_id by lia. unfold limit, page_size, page. cbn [Z.ltb Z.compare].
    do 3 f_equal. f_equal. lia.
  - intros n Hn. unfold page. rewrite flat_map_pages.
    pose proof (order_desc_perm UploadDate (rows d)) as Hp.
    rewrite take_ge by (rewrite Hp; lia). split; [done|apply order_desc_sorted].
Qed.

Lemma QueryRecent_pages_witness :
  let page k := take 25 (drop (25 * k) (order_desc UploadDate (rows toy_posts))) in
  (forall k, 25 * Z.of_nat k < 2 ^ 63 -> Database_QueryRecent (Z.of_nat k) toy_posts = (toy_posts, Ok (page k))) /\
  forall n, (length (rows toy_posts) <= 25 * n)%nat ->
    Permutation (flat_map page (seq 0 n)) (rows toy_posts) /\
    Sorted (fun a b => UploadDate b <= UploadDate a) (flat_map page (seq 0 n)).
Proof. exact (@QueryRecent_pages toy_sqlite toy_order toy_order_laws toy_posts eq_refl). Defined.

(** The offset of a page is a product of 64 bits: page 2^59, far behind the last post, is
    the first one again. *)
Theorem QueryRecent_wraps {D : Sqlite} {O : SqlOrder} (d : PostDb) :
  pdb_healthy d -> Database_QueryRecent (2 ^ 59) d = Database_QueryRecent 0 d /\ Database_QueryPopular (2 ^ 59) d = Database_QueryPopular 0 d.
Proof.
  intros Hh. unfold Database_QueryRecent, Database_QueryPopular, Database_PaginatedQuery, sql_query_recent_post, sql_query_popular_post.
  by rewrite !pquery_healthy.
Qed.

Lemma QueryRecent_wraps_witness :
  Database_QueryRecent (O := toy_order) (2 ^ 59) toy_posts = Database_QueryRecent (O := toy_order) 0 toy_posts.
Proof. exact (proj1 (@QueryRecent_wraps toy_sqlite toy_order toy_posts eq_refl)). Defined.

(** ** Mirroring *)

(** The piece [k] of a database is its [k]-th thousand of posts, hashed in
    order: pieces are disjoint and together hold every post. *)
Theorem QueryPiece_spec {D : Sqlite} {O : SqlOrder} (d : PostDb) :
  pdb_wf d -> pdb_healthy d -> Z.of_nat (length (rows d)) < 2 ^ 62 ->
  (forall k store, (k < piece_count (length (rows d)))%nat ->
     Database_QueryPiece (Z.of_nat k) store d = (d, Ok (owned_piece k store (rows d)))) /\
  flat_map (chunk (rows d)) (seq 0 (piece_count (length (rows d)))) = rows d.
Proof.
  intros Hd Hh Hn. split.
  - intros k store Hk. apply QueryPiece_run; [done|done|].
    destruct (length (rows d)) as [|n] eqn:E; [change (piece_count 0) with 0%nat in Hk; lia|].
    destruct (piece_count_bounds (S n)) as (l & El & Hl); [lia|]. rewrite El in Hk.
    unfold PieceSize in Hl. lia.
  - unfold chunk. rewrite flat_map_pages. destruct (length (rows d)) as [|n] eqn:E.
    { by destruct (rows d). }
    destruct (piece_count_bounds (S n)) as (l & El & Hl); [lia|]. rewrite El. apply take_ge. lia.
Qed.

Lemma QueryPiece_spec_witness :
  (forall k store, (k < piece_count (length (rows toy_posts)))%nat ->
     Database_QueryPiece (Z.of_nat k) store toy_posts =
     (toy_posts, Ok (owned_piece k store (rows toy_posts)))) /\
  flat_map (chunk (rows toy_posts)) (seq 0 (piece_count (length (rows toy_posts)))) = rows toy_posts.
Proof.
  apply (QueryPiece_spec toy_posts toy_posts_wf).
  - reflexivity.
  - vm_compute. reflexivity.
Defined.

(** C16. Mirroring a whole collection end to end: the pieces a client reads from
    the stream of all pieces are as many as were asked for, each has the hash the
    owner computes for the piece of that number, and inserting them into an empty
    database makes it equal to the owner's, ids included. Texts must not contain
    the separator; the owner's rows were read back from the database before. *)
Theorem Mirror_roundtrip {C : Crypto} {D : Sqlite} {O : SqlOrder} (d : PostDb) :
  pdb_wf d -> pdb_healthy d -> (0 < length (rows d))%nat -> Z.of_nat (length (rows d)) < 2 ^ 62 ->
  Forall wire_ok (rows d) -> Forall (fun p => p = post_row (Id p) p) (rows d) ->
  let size := piece_count (length (rows d)) in
  exists posts d',
    Database_QueryPiecePosts 0 (Z.of_nat size) d = (d, Ok posts) /\
    let pieces := Client_Pieces (HandlePiece_write posts) (Z.of_nat size) in
    length pieces = size /\
    (forall k piece, pieces !! k = Some piece ->
       exists own, Database_QueryPiece (Z.of_nat k) false d = (d, Ok own) /\ Piece_Hash own = Piece_Hash piece) /\
    Database_InsertPieces (map Some pieces ++ [None]) (mkPostDb [] [] 0 []) = (d', Ok tt) /\
    rows d' = rows d.
Proof.
  intros Hd Hh Hpos Hn Hw Hst size. destruct (piece_count_bounds (length (rows d)) Hpos) as (l & El & Hl).
  fold size in El. assert (1000 * Z.of_nat size < 2 ^ 63) as Hsz by (rewrite El; unfold PieceSize in Hl; lia).
  assert (Client_Pieces (HandlePiece_write (rows d)) (Z.of_nat size) =
          map (fun i => received_piece (chunk (rows d) i)) (seq 0 size)) as Hrecv.
  { unfold Client_Pieces, NewErrorReader. rewrite Nat2Z.id, El. apply pieces_loop_all; [done|lia]. }
  assert (flat_map Posts (map (fun i => received_piece (chunk (rows d) i)) (seq 0 size)) = rows d) as Hall.
  { rewrite flat_map_concat_map, map_map, <-flat_map_concat_map. cbn [received_piece Posts].
    unfold chunk. rewrite flat_map_pages. apply take_ge. rewrite El. lia. }
  destruct (InsertPieces_run (map (fun i => received_piece (chunk (rows d) i)) (seq 0 size))
    (mkPostDb [] [] 0 [])) as (d' & Ed & Hr); [by split; [|constructor]|done|].
  exists (rows d), d'. split.
  { apply QueryPiecePosts_run; [done|done|lia|done|]. rewrite El. unfold PieceSize in Hl. lia. }
  cbn zeta. rewrite Hrecv. split_and!.
  - by rewrite length_map, length_seq.
  - intros k piece Hk. rewrite lookup_map in Hk.
    destruct (seq 0 size !! k) as [i|] eqn:Es; [|done]. apply lookup_seq in Es as [-> Hlt].
    injection Hk as <-. exists (owned_piece k false (rows d)).
    split; [apply QueryPiece_run; [done|done|lia]|done].
  - done.
  - rewrite Hr, Hall. by apply (insert_rows_replay d Hd Hst (rows d) []).
Qed.

Lemma Mirror_roundtrip_witness :
  let size := piece_count (length (rows toy_posts)) in
  exists posts d',
    Database_QueryPiecePosts 0 (Z.of_nat size) toy_posts = (toy_posts, Ok posts) /\
    let pieces := Client_Pieces (HandlePiece_write posts) (Z.of_nat size) in
    length pieces = size /\
    (forall k piece, pieces !! k = Some piece ->
       exists own, Database_QueryPiece (Z.of_nat k) false toy_posts = (toy_posts, Ok own) /\
         Piece_Hash own = Piece_Hash piece) /\
    Database_InsertPieces (map Some pieces ++ [None]) (mkPostDb [] [] 0 []) = (d', Ok tt) /\
    rows d' = rows toy_posts.
Proof.
  apply (Mirror_roundtrip toy_posts toy_posts_wf).
  - reflexivity.
  - vm_compute. lia.
  - vm_compute. reflexivity.
  - exact toy_posts_wire.
  - vm_compute. by repeat constructor.
Defined.

(** ** The separator in a text *)

Definition texts_sep_free (p : Post) : Prop :=
  sep_free (InfoHash p) /\ sep_free (Title p) /\ sep_free (Tags p) /\ sep_free (Meta p).

Lemma split_at_free delim l a b : split_at delim l = Some (a, b) -> delim ∉ a.
Proof.
  revert a b. induction l as [|c l IH]; intros a b; cbn [split_at]; [done|]. case_bool_decide as Hc.
  - intros [= <- <-]. apply not_elem_of_nil.
  - destruct (split_at delim l) as [[a' b']|] eqn:E; [|done]. intros [= <- <-]. apply not_elem_of_cons. split; [congruence|]. by eapply IH.
Qed.
Lemma read_field_free er : sep_free (read_field er).1.
Proof.
  unfold read_field, ErrorReader_ReadString, sep_free. destruct (split_at _ _) as [[a b]|] eqn:E; cbn [fst].
  - rewrite list_ascii_of_string_of_list_ascii. by eapply split_at_free.
  - apply not_elem_of_nil.
Qed.
Lemma read_post_free id er : texts_sep_free (read_post id er).1.
Proof.
  unfold read_post. repeat match goal with |- context [read_field ?r] =>
    pose proof (read_field_free r); destruct (read_field r) end. by split_and!.
Qed.

Lemma piece_loop_free n piece er : Forall texts_sep_free (Posts piece) -> Forall texts_sep_free (Posts (piece_loop n piece er).1).
Proof.
  revert piece er. induction n as [|n IH]; intros piece er H; [done|]. cbn [piece_loop].
  destruct (read_field er) as [id_s er1]. destruct (_ =? -1); [done|].
  pose proof (read_post_free (convert id_s) er1) as Hp. destruct (read_post _ er1) as [post er2].
  destruct (er_Err er2); [done|]. apply IH. unfold Piece_Add. repeat case_match; cbn [fst Posts] in *; try done;
    by apply Forall_app; split; [|constructor].
Qed.
Lemma pieces_loop_free n er : Forall (fun piece => Forall texts_sep_free (Posts piece)) (pieces_loop n er).
Proof.
  revert er. induction n as [|n IH]; intros er; cbn [pieces_loop]; [constructor|].
  pose proof (piece_loop_free PieceSize (Piece_Setup Piece_zero) er ltac:(constructor)) as H.
  destruct (piece_loop _ _ er) as [piece er']. by constructor.
Qed.

(** [Valid] accepts a post with a separator in its title or in another text, but the fields
    of a piece are cut at every separator: whatever a peer sends, such a post is in no piece
    that a client reads, so that the collection it belongs to cannot be mirrored. *)
Theorem separator_lost (p : Post) (received : bytes) (n : Z) (piece : Piece) :
  ~ texts_sep_free p -> piece ∈ Client_Pieces received n -> p ∉ Posts piece.
Proof.
  intros Hp Hin Hpost. pose proof (pieces_loop_free (Z.to_nat n) (NewErrorReader received)) as H.
  rewrite List.Forall_forall in H. specialize (H piece). rewrite List.Forall_forall in H.
  apply Hp, H; by apply list_elem_of_In.
Qed.

Definition toy_piped : Post := toy_post "abc" "first|second" 10.

Lemma separator_lost_witness :
  Post_Valid 1500000000 toy_piped = Ok tt /\
  exists piece, piece ∈ Client_Pieces (HandlePiece_write [toy_piped]) 1 /\ toy_piped ∉ Posts piece.
Proof.
  split; [reflexivity|]. eexists. split; [left|].
  apply (separator_lost toy_piped (HandlePiece_write [toy_piped]) 1); [|left].
  intros (_ & H & _). revert H. unfold sep_free. by apply (bool_decide_unpack _).
Defined.
