(* ===== verification/Collection.v ===== *)
(** Collections ([data/collection.go]): the list of the piece hashes of a peer
    and its root hash; and the message that carries the list
    ([MessageCollection], [proto/messages.go]). *)

From S2P Require Import Prelude GoLib Crypto Sqlite Post PieceStream PostDB.

(** ** Byte slices with their capacity *)

(** The backing array from the start of the slice on, and the length. *)
Record gobytes := mkGo { g_array : bytes; g_len : nat }.
Definition g_contents (s : gobytes) : bytes := take (g_len s) (g_array s).
Definition g_cap (s : gobytes) : nat := length (g_array s).

(** A slice over exactly these bytes, with [spare] cells behind them. *)
Definition g_make (l : bytes) (spare : nat) : gobytes := mkGo (l ++ replicate spare zero) (length l).

(** [append(s, x...)]: in place if the capacity suffices, else a copy in a new
    array, to which the runtime adds [grow n] cells for a length of [n]. *)
Definition g_append (grow : nat -> nat) (s : gobytes) (x : bytes) : gobytes :=
  let n := (g_len s + length x)%nat in
  if (n <=? g_cap s)%nat
  then mkGo (g_contents s ++ x ++ drop n (g_array s)) n
  else g_make (g_contents s ++ x) (grow n).

(** [copy(s[lo:hi], x)]: the bounds are those of the capacity. *)
Definition g_copy_at (s : gobytes) (lo hi : Z) (x : bytes) : outcome gobytes :=
  if (lo <=? hi) && (hi <=? Z.of_nat (g_cap s)) then
    let n := Nat.min (Z.to_nat (hi - lo)) (length x) in
    Ok (mkGo (take (Z.to_nat lo) (g_array s) ++ take n x ++ drop (Z.to_nat lo + n) (g_array s)) (g_len s))
  else Panic.

(** ** Collections *)

(** [RootHash] is the SHA3 state, by the bytes written; [Pieces] is never used. *)
Record Collection := mkCollection { HashList : gobytes; RootHash : bytes }.

Definition NewCollection : Collection := mkCollection (mkGo [] 0) [].

Section Collections.
Context {C : Crypto} (grow : nat -> nat).

(** [(c *Collection) Add(piece)], in unsigned 64-bit arithmetic. *)
Definition Collection_Add (piece : Piece) (c : Collection) : outcome Collection :=
  hash ← Piece_Hash piece;
  let id := P_Id piece in
  hl ← (if Z.of_nat (g_len (HashList c)) <? wrap64 (id + 1)
        then Ok (g_append grow (HashList c) hash)
        else g_copy_at (HashList c) (wrap64 (id * 32)) (wrap64 (id * 32 + 32)) hash);
  mret (mkCollection hl (RootHash c ++ hash)).

(** [(c *Collection) Hash()]. *)
Definition Collection_Hash (c : Collection) : bytes := sha3_Sum256 (RootHash c).

(** [(c *Collection) Rehash()]. *)
Definition Collection_Rehash (c : Collection) : Collection :=
  let hl := g_contents (HashList c) in
  mkCollection (HashList c)
    (flat_map (fun i => take 32 (drop (32 * i) hl)) (seq 0 (length hl / 32))).

(** [(c *Collection) Save(path)]: the contents of the file. *)
Definition Collection_Save (c : Collection) : bytes := g_contents (HashList c).

(** [LoadCollection(path)]: [None] is a file that cannot be read; [spare] is the
    capacity that reading a file leaves. *)
Definition LoadCollection (file : option bytes) (spare : nat) : outcome Collection :=
  match file with
  | None => Err ErrEOF
  | Some data =>
      if negb (Z.of_nat (length data) mod 32 =? 0)
      then Err (ErrText "Invalid collection data file")
      else Ok (Collection_Rehash (mkCollection (g_make data spare) []))
  end.

(** [CreateCollection(db, start, pieceSize)], for a positive piece size. *)
Fixpoint create_loop {D : Sqlite} {O : SqlOrder} (n : nat) (i : Z) (col : Collection) : M PostDb Collection :=
  match n with
  | O => mret col
  | S n' =>
      piece ← Database_QueryPiece i false;
      col' ← lift (Collection_Add piece col);
      create_loop n' (i + 1) col'
  end.
Definition CreateCollection {D : Sqlite} {O : SqlOrder} (start pieceSize : Z) : M PostDb Collection :=
  postCount ← Database_PostCount;
  let pieceCount := (postCount + pieceSize - 1) / pieceSize in
  create_loop (Z.to_nat pieceCount) 0 NewCollection.

(** ** The message *)

Record MessageCollection := mkMessageCollection { MC_HashList : gobytes; MC_Size : Z }.

(** The answer of [HandleHashList] for the local peer. *)
Definition HandleHashList_message (c : Collection) : MessageCollection :=
  mkMessageCollection (HashList c) (Z.of_nat (g_len (HashList c)) / 32).

(** [MessagePiece.Hash()]: the loop over the posts is commented out. *)
Definition MessagePiece_Hash {P : Type} (posts : P) : bytes := sha3_Sum256 [].

(** [(mhl *MessageCollection) Verify(root)], with [n] rounds left. *)
Fixpoint verify_loop (n : nat) (i : Z) (hl : gobytes) (hash : bytes) : outcome bytes :=
  match n with
  | O => Ok hash
  | S n' =>
      if 32 * i + 32 <=? Z.of_nat (g_cap hl)
      then verify_loop n' (i + 1) hl (hash ++ take 32 (drop (Z.to_nat (32 * i)) (g_array hl)))
      else Panic
  end.
Definition MessageCollection_Verify (root : bytes) (mhl : MessageCollection) : outcome unit :=
  hash ← verify_loop (Z.to_nat (MC_Size mhl)) 0 (MC_HashList mhl) [];
  if bool_decide (sha3_Sum256 hash = root) then Ok tt else Err (ErrText "Invalid hash list").

(** ** Lemmas *)

Lemma verify_loop_spec hl n : forall k hash,
  verify_loop n (Z.of_nat k) hl hash =
  if (32 * (k + n) <=? g_cap hl)%nat || (n =? 0)%nat
  then Ok (hash ++ take (32 * n) (drop (32 * k) (g_array hl))) else Panic.
Proof.
  induction n as [|n IH]; intros k hash.
  { cbn [verify_loop]. by rewrite Nat.eqb_refl, orb_true_r, Nat.mul_0_r, app_nil_r. }
  cbn [verify_loop Nat.eqb]. rewrite orb_false_r.
  destruct (Z.leb_spec (32 * Z.of_nat k + 32) (Z.of_nat (g_cap hl))).
  - replace (Z.of_nat k + 1) with (Z.of_nat (S k)) by lia. rewrite IH.
    replace (S k + n)%nat with (k + S n)%nat by lia.
    destruct (Nat.eqb_spec n 0) as [E0|Hn].
    + rewrite orb_true_r, E0. rewrite (proj2 (Nat.leb_le _ _)) by lia. f_equal.
      rewrite Nat.mul_0_r, app_nil_r, Nat.mul_1_r. do 3 f_equal. lia.
    + rewrite orb_false_r. destruct (Nat.leb_spec (32 * (k + S n)) (g_cap hl)); [|done].
      f_equal. rewrite <-(assoc_L (++)). f_equal.
      replace (Z.to_nat (32 * Z.of_nat k)) with (32 * k)%nat by lia.
      replace (32 * S k)%nat with (32 * k + 32)%nat by lia. rewrite <-drop_drop.
      replace (32 * S n)%nat with (32 + 32 * n)%nat by lia.
      set (l := drop (32 * k) (g_array hl)). rewrite <-(take_drop 32 l) at 3.
      assert (32 <= length l)%nat by (unfold l; rewrite length_drop; unfold g_cap in *; lia).
      rewrite take_app_add' by (rewrite length_take; lia). done.
  - rewrite (proj2 (Nat.leb_gt _ _)) by lia. done.
Qed.
End Collections.
