(* ===== verification/CollectionProps.v ===== *)
(** The correctness theorems of collections and of the hash list message. *)

From S2P Require Import Prelude GoLib Crypto Sqlite Post PieceStream PostDB PostDBProps DataProps Collection.

#[local] Existing Instance toy_crypto.
#[local] Existing Instance toy_sqlite.
#[local] Existing Instance toy_order.

Definition g_wf (s : gobytes) : Prop := (g_len s <= g_cap s)%nat.

Lemma length_g_contents s : g_wf s -> length (g_contents s) = g_len s.
Proof. unfold g_wf, g_contents, g_cap. intros H. rewrite length_take. lia. Qed.

Lemma g_contents_make l spare : g_contents (g_make l spare) = l.
Proof. unfold g_contents, g_make. cbn. by rewrite take_app_le, take_ge by lia. Qed.

Lemma g_make_wf l spare : g_wf (g_make l spare).
Proof. unfold g_wf, g_cap, g_make. cbn. rewrite length_app. lia. Qed.

Lemma Rehash_root {C : Crypto} c :
  RootHash (Collection_Rehash c) =
  take (32 * (length (g_contents (HashList c)) / 32)) (g_contents (HashList c)).
Proof. unfold Collection_Rehash. cbn [RootHash]. apply flat_map_pages. Qed.

Lemma Verify_run {C : Crypto} root hl (size : nat) :
  MessageCollection_Verify root (mkMessageCollection hl (Z.of_nat size)) =
  if (32 * size <=? g_cap hl)%nat then
    (if bool_decide (sha3_Sum256 (take (32 * size) (g_array hl)) = root) then Ok tt
     else Err (ErrText "Invalid hash list"))
  else Panic.
Proof.
  unfold MessageCollection_Verify. cbn [MC_Size MC_HashList]. rewrite Nat2Z.id.
  rewrite (verify_loop_spec hl size 0). rewrite Nat.add_0_l, Nat.mul_0_r, drop_0.
  destruct (Nat.leb_spec (32 * size) (g_cap hl)); [done|].
  destruct (Nat.eqb_spec size 0); [lia|done].
Qed.

(** A saved collection loads back with the same hash list, and its root hash
    is the SHA3 of the whole list; a file whose length is no multiple of 32 is
    refused. *)
Theorem Collection_Save_Load {C : Crypto} (c : Collection) (spare : nat) :
  match LoadCollection (Some (Collection_Save c)) spare with
  | Ok c' => g_contents (HashList c') = g_contents (HashList c) /\
      Collection_Hash c' = sha3_Sum256 (g_contents (HashList c))
  | Err e => e = ErrText "Invalid collection data file" /\
      Z.of_nat (length (g_contents (HashList c))) mod 32 <> 0
  | Panic => False
  end.
Proof.
  unfold LoadCollection, Collection_Save. set (l := g_contents (HashList c)).
  destruct (Z.eqb_spec (Z.of_nat (length l) mod 32) 0) as [E|E]; cbn [negb]; [|done].
  split; [apply g_contents_make|]. unfold Collection_Hash. rewrite Rehash_root.
  cbn [HashList]. rewrite g_contents_make. f_equal. apply take_ge.
  assert (length l mod 32 = 0)%nat as Hm by (apply Nat2Z.inj; rewrite Nat2Z.inj_mod; exact E).
  pose proof (Nat.div_mod (length l) 32). lia.
Qed.

(** [Verify] of a hash list message accepts exactly when the SHA3 of the first
    [Size] hashes is the root hash; a size that reaches past the received bytes
    makes it panic. *)
Theorem MessageCollection_Verify_spec {C : Crypto} (root : bytes) (hl : gobytes) (size : nat) :
  MessageCollection_Verify root (mkMessageCollection hl (Z.of_nat size)) =
  if (32 * size <=? g_cap hl)%nat then
    (if bool_decide (sha3_Sum256 (take (32 * size) (g_array hl)) = root) then Ok tt
     else Err (ErrText "Invalid hash list"))
  else Panic.
Proof. apply Verify_run. Qed.

(** The hash list a peer publishes is accepted under the root hash it signs:
    after [Rehash], [Verify] of the answer of [HandleHashList] succeeds, whatever
    capacity the receiver's slice has. *)
Theorem published_collection_accepted {C : Crypto} (c : Collection) (spare : nat) :
  g_wf (HashList c) ->
  let c' := Collection_Rehash c in
  let msg := HandleHashList_message c' in
  MessageCollection_Verify (Collection_Hash c')
    (mkMessageCollection (g_make (g_contents (MC_HashList msg)) spare) (MC_Size msg)) = Ok tt.
Proof.
  intros Hwf. cbn zeta. unfold HandleHashList_message. cbn [MC_HashList MC_Size Collection_Rehash HashList].
  set (l := g_contents (HashList c)). assert (length l = g_len (HashList c)) as Hl by by apply length_g_contents.
  rewrite <-Hl. change 32 with (Z.of_nat 32) at 1. rewrite <-Nat2Z.inj_div, Verify_run.
  pose proof (Nat.div_mod (length l) 32 ltac:(lia)).
  unfold g_make, g_cap. cbn [g_array]. rewrite length_app.
  rewrite (proj2 (Nat.leb_le _ _)) by lia.
  unfold Collection_Hash. rewrite Rehash_root. fold l.
  rewrite take_app_le by lia. by rewrite bool_decide_true.
Qed.

Definition toy_collection : Collection := mkCollection (g_make (replicate 64 "h"%char) 5) [].

Lemma published_collection_accepted_witness :
  let c' := Collection_Rehash toy_collection in
  let msg := HandleHashList_message c' in
  MessageCollection_Verify (Collection_Hash c')
    (mkMessageCollection (g_make (g_contents (MC_HashList msg)) 7) (MC_Size msg)) = Ok tt.
Proof. apply (published_collection_accepted toy_collection 7). apply g_make_wf. Defined.

(** ** Building a collection *)

Section Create.
Context {C : Crypto} {L : CryptoLaws C} {D : Sqlite} {O : SqlOrder} (grow : nat -> nat).

(** The hash the owner computes for the piece [k]. *)
Definition piece_hash (posts : list Post) (k : nat) : bytes := sha3_Sum256 (flat_map post_data (chunk posts k)).

Lemma Add_first posts :
  Collection_Add grow (owned_piece 0 false posts) NewCollection =
  Ok (mkCollection (g_make (piece_hash posts 0) (grow 32%nat)) (piece_hash posts 0)).
Proof.
  unfold Collection_Add, Piece_Hash. cbn [owned_piece P_hash P_Id mbind outcome_bind].
  fold (piece_hash posts 0). unfold NewCollection. cbn [HashList g_len RootHash app Z.of_nat].
  change (0 <? wrap64 (0 + 1)) with true. cbv iota. unfold g_append, g_cap, g_contents. cbn [g_len g_array length take app].
  pose proof (sha3_length (flat_map post_data (chunk posts 0))) as Hl. fold (piece_hash posts 0) in Hl.
  rewrite Hl. done.
Qed.

(** The second piece is written past the only hash, which needs spare capacity. *)
Lemma Add_second posts h spare root :
  length h = 32%nat -> (spare < 32)%nat ->
  Collection_Add grow (owned_piece 1 false posts) (mkCollection (g_make h spare) root) = Panic.
Proof.
  intros Hh Hs. unfold Collection_Add, Piece_Hash. cbn [owned_piece P_hash P_Id mbind outcome_bind].
  cbn [HashList g_len g_make]. rewrite Hh. change (Z.of_nat 32 <? wrap64 (Z.of_nat 1 + 1)) with false.
  cbv iota. unfold g_copy_at, g_cap. cbn [g_array g_make]. rewrite length_app, length_replicate, Hh.
  change (wrap64 (Z.of_nat 1 * 32)) with 32. change (wrap64 (Z.of_nat 1 * 32 + 32)) with 64.
  rewrite (proj2 (Z.leb_gt 64 _)) by lia. done.
Qed.

Lemma create_count d : pdb_wf d -> pdb_healthy d ->
  CreateCollection grow 0 (Z.of_nat PieceSize) d =
  create_loop grow (piece_count (length (rows d))) 0 NewCollection d.
Proof.
  intros Hd Hh. unfold CreateCollection.
  rewrite (run_bind _ _ _ d (Z.of_nat (length (rows d)))) by (by apply PostCount_run).
  cbn zeta. assert (Z.to_nat ((Z.of_nat (length (rows d)) + Z.of_nat PieceSize - 1) / Z.of_nat PieceSize) =
    piece_count (length (rows d))) as ->; [|done].
  unfold piece_count. remember PieceSize as K eqn:EK.
  assert (0 < K)%nat as HK by (rewrite EK; unfold PieceSize; lia).
  replace (Z.of_nat (length (rows d)) + Z.of_nat K - 1) with (Z.of_nat (length (rows d) + K - 1)) by lia.
  by rewrite <-Nat2Z.inj_div, Nat2Z.id.
Qed.

Lemma create_first d n :
  pdb_wf d -> pdb_healthy d ->
  create_loop grow (S n) 0 NewCollection d =
  create_loop grow n 1 (mkCollection (g_make (piece_hash (rows d) 0) (grow 32%nat)) (piece_hash (rows d) 0)) d.
Proof.
  intros Hd Hh. cbn [create_loop].
  rewrite (run_bind _ _ _ d (owned_piece 0 false (rows d))) by (by apply (QueryPiece_run d 0)).
  by rewrite (run_lift _ _ _ _ (Add_first (rows d))).
Qed.
End Create.

(** The collection of a database with at most a thousand posts holds the hash
    of its one piece, which is also what the root hash covers. *)
Theorem CreateCollection_one_piece {C : Crypto} {L : CryptoLaws C} {D : Sqlite} {O : SqlOrder}
    (grow : nat -> nat) (d : PostDb) :
  pdb_wf d -> pdb_healthy d -> (0 < length (rows d) <= PieceSize)%nat ->
  exists c, CreateCollection grow 0 (Z.of_nat PieceSize) d = (d, Ok c) /\
    g_contents (HashList c) = sha3_Sum256 (flat_map post_data (rows d)) /\
    Collection_Hash c = sha3_Sum256 (g_contents (HashList c)).
Proof.
  intros Hd Hh Hn. rewrite create_count by done.
  destruct (piece_count_bounds (length (rows d))) as (l & El & Hl); [lia|].
  assert (l = 0%nat) as -> by (unfold PieceSize in *; lia). rewrite El, create_first by done.
  eexists. split; [reflexivity|]. unfold Collection_Hash. cbn [HashList RootHash].
  rewrite g_contents_make. split; [|done]. unfold piece_hash. do 3 f_equal.
  unfold chunk. rewrite Nat.mul_0_r, drop_0. apply take_ge. lia.
Qed.

Lemma CreateCollection_one_piece_witness :
  exists c, CreateCollection (fun _ => 0%nat) 0 (Z.of_nat PieceSize) toy_posts = (toy_posts, Ok c) /\
    g_contents (HashList c) = sha3_Sum256 (flat_map post_data (rows toy_posts)) /\
    Collection_Hash c = sha3_Sum256 (g_contents (HashList c)).
Proof.
  apply (@CreateCollection_one_piece toy_crypto toy_laws toy_sqlite toy_order (fun _ => 0%nat) toy_posts toy_posts_wf).
  - reflexivity.
  - vm_compute. lia.
Defined.

(** With more than a thousand posts the collection cannot be built: [Add]
    compares the length of the hash list in bytes with the piece number, so the
    hash of the second piece is copied past the end of the list instead of being
    appended, and the slice expression panics unless the runtime happens to have
    given the 32-byte list twice the room. *)
Theorem CreateCollection_second_piece {C : Crypto} {L : CryptoLaws C} {D : Sqlite} {O : SqlOrder}
    (grow : nat -> nat) (d : PostDb) :
  pdb_wf d -> pdb_healthy d -> (PieceSize < length (rows d))%nat -> (grow 32 < 32)%nat ->
  CreateCollection grow 0 (Z.of_nat PieceSize) d = (d, Panic).
Proof.
  intros Hd Hh Hn Hg. rewrite create_count by done.
  destruct (piece_count_bounds (length (rows d))) as (l & El & Hl); [lia|].
  destruct l as [|l]; [lia|]. rewrite El, create_first by done. cbn [create_loop].
  rewrite (run_bind _ _ _ d (owned_piece 1 false (rows d))) by (by apply (QueryPiece_run d 1)).
  unfold lift, mbind, M_bind. rewrite Add_second; [done|apply sha3_length|done].
Qed.

(** A database with a thousand and one posts. *)
Definition toy_many : PostDb :=
  mkPostDb (map (fun i => mkPost (Z.of_nat i) (Itoa (Z.of_nat i)) "t" 1 1 0 0 0 "" "") (seq 1 1001)) [] 0 [].

Lemma toy_many_wf : pdb_wf toy_many.
Proof.
  unfold pdb_wf, toy_many. cbn [rows]. rewrite length_map, length_seq, !map_map. cbn [Id InfoHash].
  split; [done|]. apply NoDup_fmap_2_strong; [|apply NoDup_seq].
  intros x y Hx Hy E. apply elem_of_seq in Hx, Hy. apply (f_equal Atoi) in E.
  rewrite !Atoi_Itoa in E by lia. injection E as E. lia.
Qed.

Lemma CreateCollection_second_piece_witness :
  CreateCollection (fun _ => 0%nat) 0 (Z.of_nat PieceSize) toy_many = (toy_many, Panic).
Proof.
  apply (@CreateCollection_second_piece toy_crypto toy_laws toy_sqlite toy_order (fun _ => 0%nat) toy_many toy_many_wf).
  - reflexivity.
  - unfold toy_many. cbn [rows]. rewrite length_map, length_seq. unfold PieceSize. lia.
  - lia.
Defined.
