(* ===== verification/Proto.v ===== *)
(** The wire protocol ([proto/]): message headers ([protocolinfo.go]), messages
    and their contents ([message.go], [messages.go]), the choice of a compression
    ([capabilities.go]), and processes that exchange messages over a connection. *)

From S2P Require Import Prelude GoLib Crypto Address Entry Post.

(** ** Headers *)

Definition ProtoZif : Z := 0x7a66.
Definition ProtoVersion : Z := 0.
Definition ProtoHeader : string := "header".
Definition ProtoCap : string := ":ap".
Definition ProtoOk : string := "ok".
Definition ProtoNo : string := "no".
Definition ProtoTerminate : string := "term".
Definition ProtoCookie : string := "cookie".
Definition ProtoSig : string := "sig".
Definition ProtoDone : string := "done".
Definition ProtoSearch : string := "search".
Definition ProtoRecent : string := "recent".
Definition ProtoPopular : string := "popular".
Definition ProtoRequestHashList : string := "req.hashlist".
Definition ProtoRequestPiece : string := "req.piece".
Definition ProtoRequestAddPeer : string := "req.addpeer".
Definition ProtoPosts : string := "posts".
Definition ProtoHashList : string := "hashlist".
Definition ProtoDhtEntry : string := "dht.entry".
Definition ProtoDhtEntries : string := "dht.entries".
Definition ProtoDhtQuery : string := "dht.query".
Definition ProtoDhtAnnounce : string := "dht.announce".
Definition ProtoDhtFindClosest : string := "dht.findclosest".

(** ** Contents *)

Record MessageCapabilities := mkCaps { Compression : list string }.
Record MessageSearchQuery := mkSearchQuery { SQ_Query : string; SQ_Page : Z }.
Record MessageRequestPiece := mkRequestPiece { RP_Address : string; RP_Id : Z; RP_Length : Z }.

(** The Go values that messages carry. *)
Inductive value :=
| VEntry (e : Entry)
| VEntries (l : list (option Entry))
| VAddress (a : Address)
| VCaps (c : MessageCapabilities)
| VBytes (b : bytes)
| VString (s : string)
| VInt (z : Z)
| VSearch (q : MessageSearchQuery)
| VPiece (r : MessageRequestPiece)
| VPosts (l : list Post)
| VHashList (hashList : bytes) (size : Z)
| VNil.   (* a nil pointer *)

Inductive kind := KEntry | KEntries | KAddress | KCaps | KBytes | KString | KInt | KSearch | KPiece | KPosts | KHashList | KNil.

Definition kind_of (v : value) : kind :=
  match v with
  | VEntry _ => KEntry | VEntries _ => KEntries | VAddress _ => KAddress | VCaps _ => KCaps
  | VBytes _ => KBytes | VString _ => KString | VInt _ => KInt | VSearch _ => KSearch
  | VPiece _ => KPiece | VPosts _ => KPosts | VHashList _ _ => KHashList | VNil => KNil
  end.

(** The MessagePack library: encoded values, what decoding them within a limit of
    bytes as a value of a Go type gives, and what it leaves in a zeroed array of
    [n] bytes or in zero capabilities when its error is ignored. *)
Class Msgpack := {
  content : Type;
  content_size : content -> Z;
  content_text : content -> string;
  encode : value -> content;
  decode : Z -> kind -> content -> option value;
  decode_array : nat -> content -> bytes;
  decode_caps : content -> MessageCapabilities;
}.

(** Documented: decoding inverts encoding, yields a value of the type asked for,
    and an array keeps its length. *)
Class MsgpackLaws (K : Msgpack) : Prop := {
  decode_encode limit v : content_size (encode v) <= limit -> decode limit (kind_of v) (encode v) = Some v;
  decode_kind limit k c v : decode limit k c = Some v -> kind_of v = k;
  decode_array_length n c : length (decode_array n c) = n;
  decode_array_encode b : decode_array (length b) (encode (VBytes b)) = b;
  decode_caps_encode c : decode_caps (encode (VCaps c)) = c;
}.

(** A concrete instance: contents are the values, every one a byte long. *)
Definition same_kind (k k' : kind) : bool :=
  match k, k' with
  | KEntry, KEntry | KEntries, KEntries | KAddress, KAddress | KCaps, KCaps | KBytes, KBytes
  | KString, KString | KInt, KInt | KSearch, KSearch | KPiece, KPiece | KPosts, KPosts
  | KHashList, KHashList | KNil, KNil => true
  | _, _ => false
  end.
Definition toy_msgpack : Msgpack := {|
  content := value;
  content_size _ := 1;
  content_text c := match c with VString s => s | _ => ""%string end;
  encode v := v;
  decode limit k v := if (1 <=? limit) && same_kind (kind_of v) k then Some v else None;
  decode_array n v := match v with VBytes b => take n b ++ replicate (n - length b) zero | _ => replicate n zero end;
  decode_caps v := match v with VCaps c => c | _ => mkCaps [] end;
|}.

Lemma toy_msgpack_laws : MsgpackLaws toy_msgpack.
Proof.
  split; cbn.
  - intros limit v Hl. rewrite (proj2 (Z.leb_le _ _)) by lia. by destruct v.
  - intros limit k c v. destruct (1 <=? limit); [|done]. cbn.
    destruct (same_kind (kind_of c) k) eqn:E; [|done]. intros [= <-].
    by destruct (kind_of c), k.
  - intros n v. destruct v; rewrite ?length_replicate; try done.
    rewrite length_app, length_take, length_replicate. lia.
  - intros b. rewrite Nat.sub_diag, take_ge by lia. apply app_nil_r.
  - done.
Qed.

Definition MaxEntrySize : Z := 1024 * 1024 * 4.
Definition MaxMessageContentSize : Z := MaxEntrySize.

Section Messages.
Context {K : Msgpack}.

Record Message := mkMessage { Header : string; Content : option content }.

(** [(m *Message) Write(iface)]: the encoder has no error on these values. *)
Definition Message_Write (v : value) (m : Message) : Message := mkMessage (Header m) (Some (encode v)).

(** [(m *Message) Read(&x)] for an [x] of the type [k]. *)
Definition Message_Read (k : kind) (m : Message) : outcome value :=
  match Content m with
  | None => Err (ErrText "Message has no content")
  | Some c =>
      match decode MaxMessageContentSize k c with
      | Some v => Ok v
      | None => Err (ErrText "msgpack")
      end
  end.

(** [m.Read(&a)] for an array [a] of [n] bytes, its error ignored. *)
Definition Message_ReadArray (n : nat) (m : Message) : bytes :=
  match Content m with None => replicate n zero | Some c => decode_array n c end.

(** [m.Read(caps)] for zero capabilities, its error ignored. *)
Definition Message_ReadCaps (m : Message) : MessageCapabilities :=
  match Content m with None => mkCaps [] | Some c => decode_caps c end.

(** [(m *Message) ReadInt()]. *)
Definition Message_ReadInt (m : Message) : outcome Z :=
  v ← Message_Read KInt m;
  match v with VInt z => Ok z | _ => Err (ErrText "msgpack") end.

(** [(m *Message) Ok()]. *)
Definition Message_Ok (m : Message) : bool := bool_decide (Header m = ProtoOk).

(** [Message{Header: h}]. *)
Definition bare (h : string) : Message := mkMessage h None.

(** ** Processes *)

(** What one end of a connection does: it ends, writes a message and learns
    whether the write succeeded, reads a message ([None] is an error), or closes
    the connection. *)
Inductive Proc (A : Type) :=
| Ret (o : outcome A)
| Send (m : Message) (k : bool -> Proc A)
| Recv (k : option Message -> Proc A)
| Close (k : Proc A).
Arguments Ret {A} _.
Arguments Send {A} _ _.
Arguments Recv {A} _.
Arguments Close {A} _.

Fixpoint Proc_bind {A B} (f : A -> Proc B) (p : Proc A) : Proc B :=
  match p with
  | Ret (Ok a) => f a
  | Ret (Err e) => Ret (Err e)
  | Ret Panic => Ret Panic
  | Send m k => Send m (fun b => Proc_bind f (k b))
  | Recv k => Recv (fun m => Proc_bind f (k m))
  | Close k => Close (Proc_bind f k)
  end.
#[global] Instance Proc_ret : MRet Proc := fun A a => Ret (Ok a).
#[global] Instance Proc_mbind : MBind Proc := @Proc_bind.

(** The error value is handed to the caller. *)
Fixpoint Proc_try {A} (p : Proc A) : Proc (A + error) :=
  match p with
  | Ret (Ok a) => Ret (Ok (inl a))
  | Ret (Err e) => Ret (Ok (inr e))
  | Ret Panic => Ret Panic
  | Send m k => Send m (fun b => Proc_try (k b))
  | Recv k => Recv (fun m => Proc_try (k m))
  | Close k => Close (Proc_try k)
  end.

Definition lift_out {A} (o : outcome A) : Proc A := Ret o.

(** [cl.WriteMessage(m)] and [cl.ReadMessage()]. *)
Definition WriteMessage (m : Message) : Proc unit :=
  Send m (fun ok => Ret (if ok then Ok tt else Err ErrEOF)).
Definition ReadMessage : Proc Message :=
  Recv (fun m => Ret (match m with Some m => Ok m | None => Err ErrEOF end)).
(** A write whose error is not looked at. *)
Definition WriteMessage_ (m : Message) : Proc unit := Send m (fun _ => Ret (Ok tt)).
Definition CloseConn : Proc unit := Close (Ret (Ok tt)).

(** [cl.WriteErr(err)], its own error not looked at. *)
Definition WriteErr (text : string) : Proc unit :=
  WriteMessage_ (Message_Write (VString text) (bare ProtoNo)).

(** The process alone, against any peer: the messages the peer sends (then the
    connection ends) and which writes succeed. After [Close] everything fails.
    The result is what was written and the outcome. *)
Fixpoint play {A} (p : Proc A) (incoming : list Message) (writes : list bool) (closed : bool) :
  list Message * outcome A :=
  match p with
  | Ret o => ([], o)
  | Send m k =>
      match (if closed then [] else writes) with
      | true :: w => let '(out, o) := play (k true) incoming w closed in (m :: out, o)
      | _ => play (k false) incoming [] closed
      end
  | Recv k =>
      match (if closed then [] else incoming) with
      | m :: rest => play (k (Some m)) rest writes closed
      | [] => play (k None) [] writes closed
      end
  | Close k => play k incoming writes true
  end.

(** Two processes on one connection with reliable queues in both directions;
    [fuel] bounds the number of steps. A process that waits for the other one
    yields. *)
Fixpoint duet {A B} (fuel : nat) (p : Proc A) (q : Proc B) (to_p to_q : list Message) :
  option (outcome A * outcome B) :=
  match fuel with
  | O => None
  | S f =>
      match p with
      | Send m k => duet f (k true) q to_p (to_q ++ [m])
      | Close k => duet f k q to_p to_q
      | Ret o =>
          match q with
          | Ret o' => Some (o, o')
          | Send m k => duet f p (k true) (to_p ++ [m]) to_q
          | Close k => duet f p k to_p to_q
          | Recv k => match to_q with m :: r => duet f p (k (Some m)) to_p r | [] => duet f p (k None) to_p [] end
          end
      | Recv k =>
          match to_p with
          | m :: r => duet f (k (Some m)) q r to_q
          | [] =>
              match q with
              | Ret o' => duet f (k None) q [] to_q
              | Send m k' => duet f p (k' true) (to_p ++ [m]) to_q
              | Close k' => duet f p k' to_p to_q
              | Recv k' => match to_q with m :: r => duet f p (k' (Some m)) to_p r | [] => None end
              end
          end
      end
  end.
End Messages.
Arguments Message : clear implicits.
Arguments Message {K}.
Arguments Proc {K} A.
Arguments Ret {K A} _.
Arguments Send {K A} _ _.
Arguments Recv {K A} _.
Arguments Close {K A} _.

(** ** Compression *)

(** [ChooseCompression(client, server)]. *)
Definition ChooseCompression (client server : MessageCapabilities) : string :=
  fold_left (fun compression i =>
    if negb (bool_decide (compression = ""%string)) then compression
    else fold_left (fun c j => if bool_decide (i = j) then i else c) (Compression client) compression)
    (Compression server) ""%string.
