(* ===== verification/Handshake.v ===== *)
(** The handshake ([proto/handshake.go]): each end sends its entry, and proves
    that it holds the private key by signing a random cookie of the other end; the
    client's side of it in [proto/streammanager.go]. *)

From S2P Require Import Prelude GoLib Crypto Address Entry Util Post Collection Proto.

(** [common.Signer] with the capabilities of the [ProtocolHandler]. *)
Record Signer := mkSigner { sg_Sign : bytes -> outcome bytes; sg_caps : MessageCapabilities }.

Section Handshake.
Context {C : Crypto} {K : Msgpack}.

(** [LocalPeer.Sign]. *)
Definition LocalPeer_Sign (privateKey msg : bytes) : outcome bytes := ed25519_Sign privateKey msg.

(** [check(e)] closes the connection; the refusal after it is still written. *)
Definition refuse {A} (e : error) : Proc A :=
  _ ← CloseConn; _ ← WriteMessage_ (bare ProtoNo); Ret (Err e).
Definition close_with {A} (e : error) : Proc A := _ ← CloseConn; Ret (Err e).

(** [handshake_recieve(cl)], with the source of the random cookie. *)
Definition handshake_recieve (rand : nat -> option bytes) : Proc (Entry * MessageCapabilities) :=
  header ← Proc_try ReadMessage;
  match header with
  | inr e => refuse e
  | inl header =>
  match Message_Read KEntry header with
  | Err e => refuse e
  | Panic => Ret Panic
  | Ok v =>
  match v with
  | VEntry entry =>
  match Entry_Verify (Some entry) with
  | Err e => refuse e
  | Panic => Ret Panic
  | Ok _ =>
      w ← Proc_try (WriteMessage (bare ProtoOk));
      match w with
      | inr e => close_with e
      | inl _ =>
      caps ← Proc_try ReadMessage;
      match caps with
      | inr e => close_with e
      | inl peerCapsMsg =>
      let peerCaps := Message_ReadCaps peerCapsMsg in
      match CryptoRandBytes rand 20 with
      | Err e => close_with e
      | Panic => Ret Panic
      | Ok cookie =>
      w ← Proc_try (WriteMessage (Message_Write (VBytes cookie) (bare ProtoCookie)));
      match w with
      | inr e => close_with e
      | inl _ =>
      sig ← Proc_try ReadMessage;
      match sig with
      | inr e => close_with e
      | inl sig =>
      let signature := Message_ReadArray SignatureSize sig in
      verified ← lift_out (ed25519_Verify (PublicKey entry) cookie signature);
      if negb verified then
        _ ← WriteMessage_ (bare ProtoNo); _ ← CloseConn;
        Ret (Err (ErrText "Signature not verified"))
      else
        _ ← WriteMessage_ (bare ProtoOk); mret (entry, peerCaps)
      end end end end end end
  | _ => refuse (ErrText "msgpack")
  end end end.

(** [handshake_send(cl, lp, data)], the data being the local entry. *)
Definition handshake_send (lp : Signer) (data : Entry) : Proc unit :=
  _ ← WriteMessage (Message_Write (VEntry data) (bare ProtoHeader));
  msg ← ReadMessage;
  if negb (Message_Ok msg) then Ret (Err (ErrText "Peer refused header"))
  else
    _ ← WriteMessage (Message_Write (VCaps (sg_caps lp)) (bare ProtoCap));
    msg ← ReadMessage;
    let cookie := Message_ReadArray 20 msg in
    sig ← lift_out (sg_Sign lp cookie);
    _ ← WriteMessage (Message_Write (VBytes sig) (bare ProtoSig));
    msg ← ReadMessage;
    if negb (Message_Ok msg) then Ret (Err (ErrText "Peer refused signature")) else mret tt.

Definition error_text (e : error) : string :=
  match e with
  | ErrText s => s
  | ErrNoRows => "sql: no rows in result set"
  | ErrEOF => "EOF"
  | ErrDriver => "driver"
  end.

(** [handshake(cl, lp, data)], the server's side. *)
Definition handshake (rand : nat -> option bytes) (lp : option Signer) (data : Entry) :
  Proc (Entry * MessageCapabilities) :=
  r ← Proc_try (handshake_recieve rand);
  match r with
  | inr e => _ ← WriteErr (error_text e); Ret (Err e)
  | inl (header, caps) =>
      match lp with
      | None =>
          _ ← WriteErr "Nil localpeer"; Ret (Err (ErrText "Handshake passed nil LocalPeer"))
      | Some lp =>
          _ ← WriteMessage_ (bare ProtoOk);
          _ ← handshake_send lp data;
          mret (header, caps)
      end
  end.

(** [StreamManager.Handshake], the client's side: the error of [handshake_send]
    is overwritten, and a failing read gives no entry and no error. *)
Definition StreamManager_Handshake (rand : nat -> option bytes) (lp : Signer) (data : Entry) :
  Proc (option (Entry * MessageCapabilities)) :=
  _ ← Proc_try (handshake_send lp data);
  r ← Proc_try ReadMessage;
  match r with
  | inr _ => mret None
  | inl msg =>
      if negb (Message_Ok msg)
      then Ret (Err (ErrText (match Content msg with Some c => content_text c | None => "" end)))
      else
        r ← handshake_recieve rand;
        mret (Some r)
  end.

(** [StreamManager.handleConnection] after the magic numbers are sent: the
    connection is stored with the header of the peer. *)
Definition handleConnection (rand : nat -> option bytes) (lp : Signer) (data : Entry) :
  Proc (Entry * MessageCapabilities) :=
  r ← StreamManager_Handshake rand lp data;
  match r with
  | None => Ret (Err (ErrText "Failed to handshake, nil entry"))
  | Some h => mret h
  end.
End Handshake.

(** ** Properties *)

Section Properties.
Context {C : Crypto} {K : Msgpack}.

(** A branch that closes or refuses does not return a value. *)
Lemma play_refuse {A} e incoming writes closed out (a : A) :
  play (refuse e) incoming writes closed <> (out, Ok a).
Proof. unfold refuse. cbn. by destruct writes as [|[] ?], closed. Qed.

Lemma play_give_up {A} e incoming writes closed out (a : A) :
  play (close_with e) incoming writes closed <> (out, Ok a).
Proof. done. Qed.

(** What a successful run of [handshake_recieve] saw: header, capabilities and
    signature in this order, and the signature of the cookie it sent. *)
Lemma handshake_recieve_trace rand incoming writes out entry caps :
  play (handshake_recieve rand) incoming writes false = (out, Ok (entry, caps)) ->
  exists header capsMsg sig rest cookie,
    incoming = header :: capsMsg :: sig :: rest /\
    Message_Read KEntry header = Ok (VEntry entry) /\ Entry_Verify (Some entry) = Ok tt /\
    caps = Message_ReadCaps capsMsg /\ CryptoRandBytes rand 20 = Ok cookie /\
    Message_Write (VBytes cookie) (bare ProtoCookie) ∈ out /\
    ed25519_Verify (PublicKey entry) cookie (Message_ReadArray SignatureSize sig) = Ok true.
Proof.
  intros H. destruct incoming as [|header incoming]; [by apply play_refuse in H|].
  unfold handshake_recieve in H. cbn [mbind Proc_mbind Proc_bind Proc_try ReadMessage play] in H.
  destruct (Message_Read KEntry header) as [v|e|] eqn:Eh; [|by apply play_refuse in H|done].
  destruct v as [en| | | | | | | | | | |]; try by apply play_refuse in H.
  destruct (Entry_Verify (Some en)) as [[]|e|] eqn:Ev; [|by apply play_refuse in H|done].
  cbn [mbind Proc_mbind Proc_bind Proc_try WriteMessage play] in H.
  destruct writes as [|[] writes]; [by apply play_give_up in H| |by apply play_give_up in H].
  destruct incoming as [|capsMsg incoming]; [done|].
  cbn [mbind Proc_mbind Proc_bind Proc_try ReadMessage play] in H.
  destruct (CryptoRandBytes rand 20) as [cookie|e|] eqn:Ec; [|done|done].
  cbn [mbind Proc_mbind Proc_bind Proc_try WriteMessage ReadMessage play] in H.
  destruct writes as [|[] writes]; [done| |done].
  destruct incoming as [|sig incoming]; [done|].
  cbn [mbind Proc_mbind Proc_bind Proc_try WriteMessage ReadMessage play lift_out] in H.
  destruct (ed25519_Verify (PublicKey en) cookie (Message_ReadArray SignatureSize sig)) as [[]|e|] eqn:Es.
  - cbn in H. exists header, capsMsg, sig, incoming, cookie.
    destruct writes as [|[] writes]; cbn in H; injection H as <- <- <-; split_and!; try done; set_solver.
  - cbn in H. by destruct writes as [|[] writes].
  - done.
  - done.
Qed.

(** C11. Whoever is at the other end and whatever is sent, [handshake_recieve]
    returns an entry only if [Verify] accepts the entry and a received message
    holds a signature, valid under the key of that entry, of the cookie that was
    drawn and sent in this run. *)
Theorem handshake_authentic (rand : nat -> option bytes) (incoming : list Message) (writes : list bool)
    (out : list Message) (entry : Entry) (caps : MessageCapabilities) :
  play (handshake_recieve rand) incoming writes false = (out, Ok (entry, caps)) ->
  Entry_Verify (Some entry) = Ok tt /\
  exists cookie sig, CryptoRandBytes rand 20 = Ok cookie /\
    Message_Write (VBytes cookie) (bare ProtoCookie) ∈ out /\ sig ∈ incoming /\
    ed25519_Verify (PublicKey entry) cookie (Message_ReadArray SignatureSize sig) = Ok true.
Proof.
  intros H. apply handshake_recieve_trace in H as (h & cm & sig & rest & cookie & -> & _ & Hv & _ & Hc & Ho & Hs).
  split; [done|]. exists cookie, sig. split_and!; try done. set_solver.
Qed.
End Properties.

Section Honest.
Context {C : Crypto} {L : CryptoLaws C} {K : Msgpack} {KL : MsgpackLaws K}.

(** An end with an accepted entry and the private key of that entry. *)
Record honest (sk : bytes) (e : Entry) : Prop := {
  h_key : length sk = PrivateKeySize;
  h_public : PublicKey e = ed25519_Public sk;
  h_verify : Entry_Verify (Some e) = Ok tt;
  h_size : content_size (encode (VEntry e)) <= MaxMessageContentSize;
}.

Definition signer_of (sk : bytes) (caps : MessageCapabilities) : Signer := mkSigner (LocalPeer_Sign sk) caps.

Lemma read_entry sk e h : honest sk e ->
  Message_Read KEntry (Message_Write (VEntry e) (bare h)) = Ok (VEntry e).
Proof.
  intros He. unfold Message_Read, Message_Write. cbn [Content].
  by rewrite (decode_encode _ (VEntry e)) by apply He.
Qed.

Lemma read_array b h : Message_ReadArray (length b) (Message_Write (VBytes b) (bare h)) = b.
Proof. apply decode_array_encode. Qed.

Lemma read_caps c h : Message_ReadCaps (Message_Write (VCaps c) (bare h)) = c.
Proof. apply decode_caps_encode. Qed.

Lemma sign_ok sk e m : honest sk e ->
  LocalPeer_Sign sk m = Ok (curve_sign sk m) /\
  ed25519_Verify (PublicKey e) m (curve_sign sk m) = Ok true /\ length (curve_sign sk m) = SignatureSize.
Proof.
  intros [Hk Hp _ _]. unfold LocalPeer_Sign, ed25519_Sign. rewrite Hk, Hp. cbn [Nat.eqb PrivateKeySize negb].
  split_and!; [done|by apply Verify_Sign|by apply sign_length].
Qed.

(** One step of a duet, the processes in head normal form. *)
Lemma duet_Send {A B} f m (k : bool -> Proc A) (q : Proc B) tp tq :
  duet (S f) (Send m k) q tp tq = duet f (k true) q tp (tq ++ [m]).
Proof. done. Qed.
Lemma duet_Recv {A B} f m (k : option Message -> Proc A) (q : Proc B) tp tq :
  duet (S f) (Recv k) q (m :: tp) tq = duet f (k (Some m)) q tp tq.
Proof. done. Qed.
Lemma duet_Recv_Send {A B} f m (k : option Message -> Proc A) (k' : bool -> Proc B) tq :
  duet (S f) (Recv k) (Send m k') [] tq = duet f (Recv k) (k' true) [m] tq.
Proof. done. Qed.
Lemma duet_Recv_Recv {A B} f m (k : option Message -> Proc A) (k' : option Message -> Proc B) tq :
  duet (S f) (Recv k) (Recv k') [] (m :: tq) = duet f (Recv k) (k' (Some m)) [] tq.
Proof. done. Qed.
Lemma duet_Ret_Send {A B} f m (o : outcome A) (k' : bool -> Proc B) tp tq :
  duet (S f) (Ret o) (Send m k') tp tq = duet f (Ret o) (k' true) (tp ++ [m]) tq.
Proof. done. Qed.
Lemma duet_Ret_Recv {A B} f m (o : outcome A) (k' : option Message -> Proc B) tp tq :
  duet (S f) (Ret o) (Recv k') tp (m :: tq) = duet f (Ret o) (k' (Some m)) tp tq.
Proof. done. Qed.

#[local] Opaque Message_Read Message_ReadArray Message_ReadCaps Message_Write Entry_Verify CryptoRandBytes
  LocalPeer_Sign ed25519_Verify.

Ltac duet_hnf :=
  unfold mret, Proc_ret; cbn [app mbind Proc_mbind Proc_bind Proc_try WriteMessage ReadMessage WriteMessage_ CloseConn lift_out
       sg_Sign sg_caps signer_of negb].
Ltac duet_step facts :=
  duet_hnf; repeat (progress facts; duet_hnf);
  first [rewrite duet_Send | rewrite duet_Recv | rewrite duet_Recv_Send | rewrite duet_Recv_Recv |
         rewrite duet_Ret_Send | rewrite duet_Ret_Recv].

(** C15. Two honest ends complete the handshake: each returns the entry and the
    capabilities of the other. *)
Theorem handshake_honest (skC skS cookieC cookieS : bytes) (eC eS : Entry) (capsC capsS : MessageCapabilities)
    (randC randS : nat -> option bytes) :
  honest skC eC -> honest skS eS ->
  CryptoRandBytes randC 20 = Ok cookieC -> CryptoRandBytes randS 20 = Ok cookieS ->
  length cookieC = 20%nat -> length cookieS = 20%nat ->
  duet 64 (StreamManager_Handshake randC (signer_of skC capsC) eC)
          (handshake randS (Some (signer_of skS capsS)) eS) [] [] =
  Some (Ok (Some (eS, capsS)), Ok (eC, capsC)).
Proof.
  intros HC HS RC RS LC LS.
  destruct (sign_ok skC eC cookieS HC) as (S1 & V1 & N1).
  destruct (sign_ok skS eS cookieC HS) as (S2 & V2 & N2).
  assert (Message_Read KEntry (Message_Write (VEntry eC) (bare ProtoHeader)) = Ok (VEntry eC)) as R1
    by (by eapply read_entry).
  assert (Message_Read KEntry (Message_Write (VEntry eS) (bare ProtoHeader)) = Ok (VEntry eS)) as R2
    by (by eapply read_entry).
  pose proof (read_array cookieC ProtoCookie) as A1. rewrite LC in A1.
  pose proof (read_array cookieS ProtoCookie) as A2. rewrite LS in A2.
  pose proof (read_array (curve_sign skC cookieS) ProtoSig) as A3. rewrite N1 in A3.
  pose proof (read_array (curve_sign skS cookieC) ProtoSig) as A4. rewrite N2 in A4.
  pose proof (h_verify _ _ HC) as W1. pose proof (h_verify _ _ HS) as W2.
  pose proof (read_caps capsC ProtoCap) as P1. pose proof (read_caps capsS ProtoCap) as P2.
  unfold StreamManager_Handshake, handshake, handshake_send, handshake_recieve.
  assert (Message_Ok (bare ProtoOk) = true) as O1 by done.
  repeat duet_step ltac:(rewrite ?O1, ?R1, ?R2, ?W1, ?W2, ?RC, ?RS, ?A1, ?A2, ?A3, ?A4, ?S1, ?S2, ?V1, ?V2).
  duet_hnf. rewrite P1, P2. reflexivity.
Qed.
End Honest.






(** ** Witnesses *)

#[local] Existing Instance toy_crypto.
#[local] Existing Instance toy_msgpack.

Definition toy_rand (n : nat) : option bytes := Some (replicate n "r"%char).
Definition toy_incoming : list Message :=
  [Message_Write (VEntry toy_signed) (bare ProtoHeader);
   Message_Write (VCaps (mkCaps ["gzip"%string])) (bare ProtoCap);
   Message_Write (VBytes (curve_sign toy_sk (replicate 20 "r"%char))) (bare ProtoSig)].

Lemma handshake_authentic_witness :
  Entry_Verify (Some toy_signed) = Ok tt /\
  exists cookie sig, CryptoRandBytes toy_rand 20 = Ok cookie /\
    Message_Write (VBytes cookie) (bare ProtoCookie) ∈
      [bare ProtoOk; Message_Write (VBytes (replicate 20 "r"%char)) (bare ProtoCookie); bare ProtoOk] /\
    sig ∈ toy_incoming /\
    ed25519_Verify (PublicKey toy_signed) cookie (Message_ReadArray SignatureSize sig) = Ok true.
Proof.
  apply (handshake_authentic toy_rand toy_incoming [true; true; true] _ _ (mkCaps ["gzip"%string])).
  vm_compute. reflexivity.
Defined.

Lemma toy_honest : honest toy_sk toy_signed.
Proof.
  split; [reflexivity|vm_compute; reflexivity|exact toy_signed_ok|vm_compute; discriminate].
Qed.

Lemma handshake_honest_witness :
  duet 64 (StreamManager_Handshake toy_rand (signer_of toy_sk (mkCaps ["gzip"%string])) toy_signed)
          (handshake toy_rand (Some (signer_of toy_sk (mkCaps []))) toy_signed) [] [] =
  Some (Ok (Some (toy_signed, mkCaps [])), Ok (toy_signed, mkCaps ["gzip"%string])).
Proof.
  apply (@handshake_honest toy_crypto toy_laws toy_msgpack toy_msgpack_laws toy_sk toy_sk
    (replicate 20 "r"%char) (replicate 20 "r"%char)); first [exact toy_honest | reflexivity].
Defined.
