(* ===== verification/StreamManager.v ===== *)
(** The connection to a peer ([proto/streammanager.go]): the TCP connection with the
    header of its handshake, the yamux session on top of it, the streams the peer
    opened. The network and the yamux library are the interface [Network]. *)

From S2P Require Import Prelude GoLib Crypto Address Entry Post Collection Proto Handshake.

(** ** The network *)

(** Connections, sessions and streams are handles; every call may fail, and the
    network may answer anything. [raw_write] and [raw_read] are the bytes outside
    of messages: the magic numbers, the piece streams. *)
Class Network {K : Msgpack} := {
  net : Type;
  net_dial : string -> net -> net * option Z;
  net_socks : Z -> string -> net -> net * option Z;
  net_write : Z -> Message -> net -> net * bool;
  net_read : Z -> net -> net * option Message;
  net_close : Z -> net -> net;
  raw_write : Z -> bytes -> net -> net * bool;
  raw_read : Z -> net -> net * bytes;
  yamux_Client : Z -> net -> net * option Z;
  yamux_Server : Z -> net -> net * option Z;
  session_IsClosed : Z -> net -> bool;
  session_Ping : Z -> net -> net * bool;
  session_Open : Z -> net -> net * option Z;
  session_Close : Z -> net -> net;
  net_SetDeadline : Z -> net -> net * bool;
}.
Arguments Network : clear implicits.
Arguments Network {K}.

Section Network.
Context {C : Crypto} {K : Msgpack} {W : Network}.

(** A call that may fail with an error of the library. *)
Definition net_call {A} (f : net -> net * option A) : M net A := fun n =>
  let '(n', r) := f n in (n', match r with Some a => Ok a | None => Err ErrDriver end).
Definition net_ok (f : net -> net * bool) : M net unit := fun n =>
  let '(n', b) := f n in (n', if b then Ok tt else Err ErrDriver).

(** A process of this end on the channel [c]. *)
Fixpoint converse {A} (c : Z) (p : Proc A) : M net A := fun n =>
  match p with
  | Ret o => (n, o)
  | Send m k => let '(n', ok) := net_write c m n in converse c (k ok) n'
  | Recv k => let '(n', m) := net_read c n in converse c (k m) n'
  | Close k => converse c k (net_close c n)
  end.

(** ** The manager *)

(** [ConnHeader]. *)
Record ConnHeader := mkConn { ch_conn : Z; ch_Entry : Entry; ch_Capabilities : MessageCapabilities }.

Record StreamManager := mkSM {
  sm_connection : option ConnHeader;   (* [None]: the zero header, its [conn] nil *)
  sm_server : option Z;
  sm_client : option Z;
  sm_clients : list Z;                 (* the ids of the streams *)
  sm_Socks : bool;
  sm_SocksPort : Z;
}.

Definition SM_zero : StreamManager := mkSM None None None [] false 0.
Definition SM_Setup (sm : StreamManager) : StreamManager :=
  mkSM (sm_connection sm) None None [] (sm_Socks sm) (sm_SocksPort sm).
Definition SM_SetConnection (c : ConnHeader) (sm : StreamManager) : StreamManager :=
  mkSM (Some c) (sm_server sm) (sm_client sm) (sm_clients sm) (sm_Socks sm) (sm_SocksPort sm).
Definition SM_SetSocks (on : bool) (port : Z) (sm : StreamManager) : StreamManager :=
  mkSM (sm_connection sm) (sm_server sm) (sm_client sm) (sm_clients sm) on port.
Definition set_client (s : Z) (sm : StreamManager) : StreamManager :=
  mkSM (sm_connection sm) (sm_server sm) (Some s) (sm_clients sm) (sm_Socks sm) (sm_SocksPort sm).
Definition set_server (s : Z) (sm : StreamManager) : StreamManager :=
  mkSM (sm_connection sm) (Some s) (sm_client sm) (sm_clients sm) (sm_Socks sm) (sm_SocksPort sm).
Definition set_clients (l : list Z) (sm : StreamManager) : StreamManager :=
  mkSM (sm_connection sm) (sm_server sm) (sm_client sm) l (sm_Socks sm) (sm_SocksPort sm).

(** The manager with the network. *)
Definition SMS : Type := StreamManager * net.
Definition on_net {A} (m : M net A) : M SMS A := zoom snd (fun n s => (s.1, n)) m.
Definition on_sm (f : StreamManager -> StreamManager) : M SMS unit := modify (fun s => (f s.1, s.2)).

(** [binary.Write(conn, binary.LittleEndian, x)] of a 16-bit integer. *)
Definition le16 (x : Z) : bytes := [byte_of x; byte_of (Z.shiftr x 8)].

(** [handleConnection]: the magic numbers, the handshake; the connection is stored
    with the header of the peer. *)
Definition SM_handleConnection (rand : nat -> option bytes) (conn : Z) (lp : Signer) (data : Entry) : M SMS ConnHeader :=
  _ ← on_net (net_ok (raw_write conn (le16 ProtoZif)));
  _ ← on_net (net_ok (raw_write conn (le16 ProtoVersion)));
  h ← on_net (converse conn (handleConnection rand lp data));
  let pair := mkConn conn h.1 h.2 in
  _ ← on_sm (SM_SetConnection pair);
  mret pair.

(** [OpenSocks] and [OpenTCP]: through a proxy every call dials again, otherwise an
    open connection is reused. *)
Definition SM_OpenSocks (rand : nat -> option bytes) (addr : string) (lp : Signer) (data : Entry) : M SMS ConnHeader :=
  s ← get;
  conn ← on_net (net_call (net_socks (sm_SocksPort s.1) addr));
  SM_handleConnection rand conn lp data.
Definition SM_OpenTCP (rand : nat -> option bytes) (addr : string) (lp : Signer) (data : Entry) : M SMS ConnHeader :=
  s ← get;
  if sm_Socks s.1 then SM_OpenSocks rand addr lp data
  else
    match sm_connection s.1 with
    | Some c => mret c
    | None =>
        conn ← on_net (net_call (net_dial addr));
        SM_handleConnection rand conn lp data
    end.

(** The [conn] of the stored header; yamux is handed a nil connection when there is
    none, which it dereferences. *)
Definition SM_conn (sm : StreamManager) : outcome Z :=
  match sm_connection sm with Some c => Ok (ch_conn c) | None => Panic end.

(** [ConnectClient] and [ConnectServer]. *)
Definition SM_ConnectClient : M SMS Z :=
  s ← get;
  match sm_client s.1, sm_server s.1 with
  | Some c, _ => mret c
  | None, Some _ => fail (ErrText "There is already a server connected to that socket")
  | None, None =>
      conn ← lift (SM_conn s.1);
      client ← on_net (net_call (yamux_Client conn));
      _ ← on_sm (set_client client);
      mret client
  end.
Definition SM_ConnectServer : M SMS Z :=
  s ← get;
  match sm_server s.1, sm_client s.1 with
  | Some c, _ => mret c
  | None, Some _ => fail (ErrText "There is already a client connected to that socket")
  | None, None =>
      conn ← lift (SM_conn s.1);
      server ← on_net (net_call (yamux_Server conn));
      _ ← on_sm (set_server server);
      mret server
  end.

(** [GetSession]. *)
Definition SM_GetSession (sm : StreamManager) : option Z :=
  match sm_server sm with Some s => Some s | None => sm_client sm end.

(** [Close]. *)
Definition SM_Close : M SMS unit :=
  s ← get;
  _ ← (match SM_GetSession s.1 with
       | Some x => on_net (modify (session_Close x))
       | None => mret tt
       end);
  match sm_connection s.1 with
  | Some c => on_net (modify (net_close (ch_conn c)))
  | None => mret tt
  end.

(** [OpenStream]. *)
Definition SM_OpenStream : M SMS Z :=
  s ← get;
  match SM_GetSession s.1 with
  | None => fail (ErrText "Cannot open stream, no session")
  | Some session =>
      stream ← on_net (net_call (session_Open session));
      _ ← on_net (net_ok (net_SetDeadline stream));
      mret stream
  end.

(** [AddStream], [GetStream] and [RemoveStream]. The last one ranges over the slice
    as it was, whose array [arr] the removal shifts under it; [len] is the length of
    [sm.clients] at that moment. *)
Definition SM_AddStream (id : Z) (sm : StreamManager) : StreamManager := set_clients (sm_clients sm ++ [id]) sm.
Definition SM_GetStream (id : Z) (sm : StreamManager) : option Z := find (Z.eqb id) (sm_clients sm).
Fixpoint remove_loop (n i : nat) (id : Z) (arr : list Z) (len : nat) : outcome (list Z * nat) :=
  match n with
  | O => Ok (arr, len)
  | S n' =>
      match arr !! i with
      | None => Panic
      | Some c =>
          if c =? id then
            if (S i <=? len)%nat then
              remove_loop n' (S i) id (take i arr ++ take (len - S i) (drop (S i) arr) ++ drop (len - 1) arr) (len - 1)
            else Panic
          else remove_loop n' (S i) id arr len
      end
  end.
Definition SM_RemoveStream (id : Z) (sm : StreamManager) : outcome StreamManager :=
  r ← remove_loop (length (sm_clients sm)) 0 id (sm_clients sm) (length (sm_clients sm));
  mret (set_clients (take r.2 r.1) sm).

(** ** Properties *)

(** The calls on a manager. *)
Inductive sm_call :=
| SCOpen (rand : nat -> option bytes) (addr : string) (lp : Signer) (data : Entry)
| SCConnectClient | SCConnectServer | SCOpenStream | SCClose
| SCSetConnection (c : ConnHeader) | SCAddStream (id : Z) | SCRemoveStream (id : Z).

Definition sm_run (c : sm_call) : M SMS unit :=
  match c with
  | SCOpen rand addr lp data => _ ← SM_OpenTCP rand addr lp data; mret tt
  | SCConnectClient => _ ← SM_ConnectClient; mret tt
  | SCConnectServer => _ ← SM_ConnectServer; mret tt
  | SCOpenStream => _ ← SM_OpenStream; mret tt
  | SCClose => SM_Close
  | SCSetConnection c => on_sm (SM_SetConnection c)
  | SCAddStream id => on_sm (SM_AddStream id)
  | SCRemoveStream id => s ← get; sm ← lift (SM_RemoveStream id s.1); on_sm (fun _ => sm)
  end.

(** The calls one after the other, each whatever became of the one before. *)
Definition sm_runs (cs : list sm_call) (s : SMS) : SMS := fold_left (fun s c => (sm_run c s).1) cs s.

(** One session at most, and only on a connection. *)
Definition sm_exclusive (s : SMS) : Prop :=
  (sm_client s.1 = None \/ sm_server s.1 = None) /\
  (is_Some (SM_GetSession s.1) -> is_Some (sm_connection s.1)).

Lemma exclusive_net {A} (m : M net A) : preserves sm_exclusive (on_net m).
Proof.
  intros [sm n] [H1 H2]. unfold on_net, zoom. cbn [fst snd] in *.
  by destruct (m n).
Qed.

Lemma exclusive_Connection c : preserves sm_exclusive (on_sm (SM_SetConnection c)).
Proof. intros [sm n] [H1 H2]. by split. Qed.

Lemma exclusive_handle rand conn lp data : preserves sm_exclusive (SM_handleConnection rand conn lp data).
Proof.
  unfold SM_handleConnection. preserves_tac; first [apply exclusive_net | apply exclusive_Connection].
Qed.

Lemma exclusive_Open rand addr lp data : preserves sm_exclusive (SM_OpenTCP rand addr lp data).
Proof.
  unfold SM_OpenTCP, SM_OpenSocks. preserves_tac; first [apply exclusive_net | apply exclusive_handle].
Qed.

(** A new session is stored when there was none. *)
Lemma exclusive_new (set : Z -> StreamManager -> StreamManager) conn (mk : Z -> net -> net * option Z) sm n :
  set = set_client \/ set = set_server ->
  sm_connection sm = Some conn -> sm_client sm = None -> sm_server sm = None ->
  sm_exclusive ((x ← on_net (net_call (mk (ch_conn conn))); _ ← on_sm (set x); mret x) (sm, n)).1.
Proof.
  intros Hs Hc Hn1 Hn2. unfold mbind, M_bind, on_net, zoom, net_call. cbn [fst snd].
  destruct (mk (ch_conn conn) n) as [n' [x|]]; cbn [fst snd].
  - destruct Hs as [-> | ->]; (split; [first [by left|by right]|]); cbn; by rewrite Hc.
  - split; [by left|]. cbn [fst]. unfold SM_GetSession. rewrite Hn1, Hn2. by intros [].
Qed.

Lemma exclusive_ConnectClient : preserves sm_exclusive SM_ConnectClient.
Proof.
  intros [sm n] H. unfold SM_ConnectClient. rewrite run_get. cbn [fst].
  destruct (sm_client sm) eqn:Ec; [done|]. destruct (sm_server sm) eqn:Es; [done|].
  unfold SM_conn. destruct (sm_connection sm) as [c|] eqn:E; [|done].
  rewrite (run_lift _ _ _ (ch_conn c) eq_refl). by apply (exclusive_new set_client c yamux_Client); [left| | |].
Qed.

Lemma exclusive_ConnectServer : preserves sm_exclusive SM_ConnectServer.
Proof.
  intros [sm n] H. unfold SM_ConnectServer. rewrite run_get. cbn [fst].
  destruct (sm_server sm) eqn:Es; [done|]. destruct (sm_client sm) eqn:Ec; [done|].
  unfold SM_conn. destruct (sm_connection sm) as [c|] eqn:E; [|done].
  rewrite (run_lift _ _ _ (ch_conn c) eq_refl). by apply (exclusive_new set_server c yamux_Server); [right| | |].
Qed.

Lemma exclusive_run c : preserves sm_exclusive (sm_run c).
Proof.
  destruct c; cbn [sm_run].
  - apply preserves_bind; [apply exclusive_Open|intros; apply preserves_ret].
  - apply preserves_bind; [apply exclusive_ConnectClient|intros; apply preserves_ret].
  - apply preserves_bind; [apply exclusive_ConnectServer|intros; apply preserves_ret].
  - unfold SM_OpenStream. preserves_tac; apply exclusive_net.
  - unfold SM_Close. preserves_tac; apply exclusive_net.
  - apply exclusive_Connection.
  - intros [sm n] [H1 H2]. by split.
  - intros [sm n] [H1 H2]. rewrite run_get. cbn [fst]. unfold SM_RemoveStream, mbind, outcome_bind, M_bind, lift.
    destruct (remove_loop _ _ _ _ _); by split.
Qed.

(** Removing a stream: after the position of the id the loop finds nothing more. *)
Lemma remove_loop_absent n i id arr len :
  (i + n <= length arr)%nat -> (forall j, (i <= j < i + n)%nat -> arr !! j <> Some id) ->
  remove_loop n i id arr len = Ok (arr, len).
Proof.
  revert i. induction n as [|n IH]; intros i Hl Hn; [done|]. cbn [remove_loop].
  destruct (arr !! i) as [c|] eqn:E; [|apply lookup_ge_None in E; lia].
  destruct (Z.eqb_spec c id) as [->|]; [by destruct (Hn i); [lia|]|].
  apply IH; [lia|]. intros j Hj. apply Hn. lia.
Qed.

Lemma remove_loop_split pre id post :
  id ∉ pre -> id ∉ post ->
  exists arr, remove_loop (length (pre ++ id :: post)) 0 id (pre ++ id :: post) (length (pre ++ id :: post)) =
    Ok (arr, length (pre ++ post)) /\ take (length (pre ++ post)) arr = pre ++ post.
Proof.
  intros Hpre Hpost.
  assert (forall k, (k <= length pre)%nat ->
    remove_loop (length (pre ++ id :: post)) 0 id (pre ++ id :: post) (length (pre ++ id :: post)) =
    remove_loop (length (pre ++ id :: post) - k) k id (pre ++ id :: post) (length (pre ++ id :: post))) as Hskip.
  { induction k as [|k IH]; intros Hk; [by rewrite Nat.sub_0_r|]. rewrite IH by lia.
    replace (length (pre ++ id :: post) - k)%nat with (S (length (pre ++ id :: post) - S k))
      by (rewrite length_app; cbn [length]; lia).
    cbn [remove_loop]. rewrite lookup_app_l by lia.
    destruct (pre !! k) as [c|] eqn:E; [|apply lookup_ge_None in E; lia].
    destruct (Z.eqb_spec c id) as [->|]; [|done].
    by apply list_elem_of_lookup_2 in E. }
  rewrite (Hskip (length pre)) by lia.
  replace (length (pre ++ id :: post) - length pre)%nat with (S (length post)) by (rewrite length_app; cbn; lia).
  cbn [remove_loop]. rewrite list_lookup_middle by done. rewrite Z.eqb_refl.
  assert (length (pre ++ id :: post) = S (length (pre ++ post))) as HL by (rewrite !length_app; cbn; lia).
  rewrite HL. cbn [Nat.leb Nat.sub]. rewrite Nat.sub_0_r.
  destruct (length pre <=? length (pre ++ post))%nat eqn:E.
  2: { apply Nat.leb_gt in E. rewrite length_app in E. lia. }
  set (arr := take _ _ ++ _ ++ _).
  assert (arr = pre ++ post ++ drop (length (pre ++ post)) (pre ++ id :: post)) as Harr.
  { unfold arr. rewrite take_app_length. f_equal. f_equal.
    rewrite drop_app_ge by lia. replace (S (length pre) - length pre)%nat with 1%nat by lia. cbn [drop].
    rewrite drop_0, take_ge; [done|]. rewrite length_app. lia. }
  exists arr. split; [|by rewrite Harr, app_assoc, take_app_length].
  apply remove_loop_absent.
  - rewrite Harr, !length_app, length_drop, HL, length_app. lia.
  - intros j Hj Hj'. rewrite Harr, app_assoc in Hj'.
    destruct (decide (j < length (pre ++ post))%nat) as [Hlt|Hge].
    + rewrite lookup_app_l in Hj' by done. rewrite lookup_app_r in Hj' by lia.
      by apply list_elem_of_lookup_2 in Hj'.
    + rewrite lookup_app_r, lookup_drop in Hj' by lia.
      rewrite length_app in Hge. assert (j = length pre + length post)%nat as -> by lia.
      replace (length (pre ++ post) + (length pre + length post - length (pre ++ post)))%nat
        with (length pre + length post)%nat in Hj' by (rewrite length_app; lia).
      rewrite lookup_app_r in Hj' by lia. destruct post as [|x post]; [cbn in *; lia|].
      replace (length pre + length (x :: post) - length pre)%nat with (S (length post)) in Hj' by (cbn; lia).
      cbn in Hj'. by apply list_elem_of_lookup_2 in Hj'.
Qed.
End Network.

(** C33. Whatever calls are made on a new manager, in any order, and whatever the
    network answers or refuses, there is never a yamux client and a server on the
    same socket, and a session only on a connection that was made. *)
Theorem SM_one_session {C : Crypto} {K : Msgpack} {W : Network} (calls : list sm_call) (n : net) :
  sm_exclusive (sm_runs calls (SM_zero, n)).
Proof.
  unfold sm_runs. assert (sm_exclusive (SM_zero, n)) as H by (split; [by left|by intros []]).
  revert H. generalize (SM_zero, n). induction calls as [|c cs IH]; intros s H; [done|].
  cbn [fold_left]. apply IH. by apply exclusive_run.
Qed.

(** With distinct stream ids, removing a stream leaves exactly the others, in
    their order; removing an unknown one changes nothing. *)
Theorem SM_RemoveStream_spec (id : Z) (sm : StreamManager) :
  NoDup (sm_clients sm) ->
  SM_RemoveStream id sm = Ok (set_clients (List.filter (fun c => negb (c =? id)) (sm_clients sm)) sm).
Proof.
  intros Hnd. unfold SM_RemoveStream.
  assert (forall l, id ∉ l -> List.filter (fun c => negb (c =? id)) l = l) as Hf.
  { induction l as [|x l IH]; intros Hx; [done|]. apply not_elem_of_cons in Hx as [Hx Hl]. cbn [List.filter].
    destruct (Z.eqb_spec x id); [by subst|]. cbn. by rewrite IH. }
  destruct (decide (id ∈ sm_clients sm)) as [Hin|Hout].
  - apply list_elem_of_split in Hin as (pre & post & E). rewrite E in *.
    apply list.NoDup_app in Hnd as (_ & Hd & Hnd). apply list.NoDup_cons in Hnd as [Hpost _].
    assert (id ∉ pre) as Hpre by (intros H; apply (Hd id H); by left).
    destruct (remove_loop_split pre id post Hpre Hpost) as (arr & Er & Et). rewrite Er. cbn [mbind outcome_bind fst snd].
    rewrite Et, List.filter_app. cbn [List.filter]. rewrite Z.eqb_refl. cbn [negb]. by rewrite !Hf.
  - rewrite remove_loop_absent; [|lia|].
    + cbn [mbind outcome_bind fst snd]. by rewrite take_ge, Hf by done.
    + intros j _ Hj. apply Hout. by apply list_elem_of_lookup_2 in Hj.
Qed.

Lemma SM_RemoveStream_spec_witness :
  SM_RemoveStream 7 (set_clients [5; 7; 9] SM_zero) =
  Ok (set_clients (List.filter (fun c => negb (c =? 7)) [5; 7; 9]) (set_clients [5; 7; 9] SM_zero)).
Proof. apply (SM_RemoveStream_spec 7 (set_clients [5; 7; 9] SM_zero)). cbn. apply (bool_decide_unpack _). vm_compute. exact I. Defined.
