(* ===== verification/LocalPeer.v ===== *)
(** The local peer ([localpeer.go]) and its message handlers
    ([localpeerhandlers.go]): the entry and the key, the DHT, the post database and
    the collection, the mirrored databases, the files with the faults of their writes, and
    what the handlers write to the client that asked. *)

From stdpp Require Import sorting.
From S2P Require Import Prelude GoLib Crypto Address Entry Util Sqlite NetStore NetDB DHT.
From S2P Require Import Post PieceStream PostDB Collection Proto.

Section LocalPeer.
Context {C : Crypto} {D : Sqlite} {O : SqlOrder} {K : Msgpack} (grow : nat -> nat).

(** What keeps [ioutil.WriteFile] from writing a file: it cannot be opened, or only part
    of it gets written. *)
Inductive file_fault :=
| NotOpened
| Cut (n : nat).

Record LocalPeer := mkLP {
  lp_Entry : Entry;
  lp_address : Address;
  lp_privateKey : bytes;
  lp_DHT : NetDB;
  lp_Database : PostDb;
  lp_Collection : Collection;
  lp_Databases : gmap string PostDb;            (* mirrored, by address *)
  lp_collection_file : option bytes;            (* ./data/collection.dat *)
  lp_collection_files : gmap string bytes;      (* ./data/<address>/collection.dat *)
  lp_entry_file : option Entry;                 (* ./data/entry.json; None: missing or cut *)
  lp_clock : Z;                                 (* time.Now().Unix() *)
  lp_written : list Message;                    (* to the client of the message *)
  lp_stream : bytes;                            (* the raw bytes of a piece stream *)
  lp_writable : bool;                           (* the connection takes writes *)
  lp_file_faults : list (option file_fault);    (* of the coming file writes; then none *)
}.

Definition set_Entry (e : Entry) (lp : LocalPeer) : LocalPeer :=
  mkLP e (lp_address lp) (lp_privateKey lp) (lp_DHT lp) (lp_Database lp) (lp_Collection lp)
    (lp_Databases lp) (lp_collection_file lp) (lp_collection_files lp) (lp_entry_file lp) (lp_clock lp)
    (lp_written lp) (lp_stream lp) (lp_writable lp) (lp_file_faults lp).
Definition set_DHT (d : NetDB) (lp : LocalPeer) : LocalPeer :=
  mkLP (lp_Entry lp) (lp_address lp) (lp_privateKey lp) d (lp_Database lp) (lp_Collection lp)
    (lp_Databases lp) (lp_collection_file lp) (lp_collection_files lp) (lp_entry_file lp) (lp_clock lp)
    (lp_written lp) (lp_stream lp) (lp_writable lp) (lp_file_faults lp).
Definition set_Database (d : PostDb) (lp : LocalPeer) : LocalPeer :=
  mkLP (lp_Entry lp) (lp_address lp) (lp_privateKey lp) (lp_DHT lp) d (lp_Collection lp)
    (lp_Databases lp) (lp_collection_file lp) (lp_collection_files lp) (lp_entry_file lp) (lp_clock lp)
    (lp_written lp) (lp_stream lp) (lp_writable lp) (lp_file_faults lp).
Definition set_Collection (c : Collection) (f : option bytes) (lp : LocalPeer) : LocalPeer :=
  mkLP (lp_Entry lp) (lp_address lp) (lp_privateKey lp) (lp_DHT lp) (lp_Database lp) c
    (lp_Databases lp) f (lp_collection_files lp) (lp_entry_file lp) (lp_clock lp)
    (lp_written lp) (lp_stream lp) (lp_writable lp) (lp_file_faults lp).
Definition set_Databases (dbs : gmap string PostDb) (lp : LocalPeer) : LocalPeer :=
  mkLP (lp_Entry lp) (lp_address lp) (lp_privateKey lp) (lp_DHT lp) (lp_Database lp) (lp_Collection lp)
    dbs (lp_collection_file lp) (lp_collection_files lp) (lp_entry_file lp) (lp_clock lp)
    (lp_written lp) (lp_stream lp) (lp_writable lp) (lp_file_faults lp).
Definition set_entry_file (f : option Entry) (lp : LocalPeer) : LocalPeer :=
  mkLP (lp_Entry lp) (lp_address lp) (lp_privateKey lp) (lp_DHT lp) (lp_Database lp) (lp_Collection lp)
    (lp_Databases lp) (lp_collection_file lp) (lp_collection_files lp) f (lp_clock lp)
    (lp_written lp) (lp_stream lp) (lp_writable lp) (lp_file_faults lp).
Definition set_written (w : list Message) (b : bytes) (lp : LocalPeer) : LocalPeer :=
  mkLP (lp_Entry lp) (lp_address lp) (lp_privateKey lp) (lp_DHT lp) (lp_Database lp) (lp_Collection lp)
    (lp_Databases lp) (lp_collection_file lp) (lp_collection_files lp) (lp_entry_file lp) (lp_clock lp)
    w b (lp_writable lp) (lp_file_faults lp).

Definition set_file_faults (fs : list (option file_fault)) (lp : LocalPeer) : LocalPeer :=
  mkLP (lp_Entry lp) (lp_address lp) (lp_privateKey lp) (lp_DHT lp) (lp_Database lp) (lp_Collection lp)
    (lp_Databases lp) (lp_collection_file lp) (lp_collection_files lp) (lp_entry_file lp) (lp_clock lp)
    (lp_written lp) (lp_stream lp) (lp_writable lp) fs.

Definition on_DHT {A} (m : M NetDB A) : M LocalPeer A := zoom lp_DHT set_DHT m.
Definition on_Database {A} (m : M PostDb A) : M LocalPeer A := zoom lp_Database set_Database m.

(** [cl.WriteMessage(m)] to the client. *)
Definition reply (m : Message) : M LocalPeer unit := fun lp =>
  if lp_writable lp then (set_written (lp_written lp ++ [m]) (lp_stream lp) lp, Ok tt)
  else (lp, Err ErrEOF).
Definition reply_ (m : Message) : M LocalPeer unit := _ ← try (reply m); mret tt.

(** [msg.Read(&address)]. *)
Definition read_address (msg : Message) : M LocalPeer Address :=
  v ← lift (Message_Read KAddress msg);
  match v with VAddress a => mret a | _ => fail (ErrText "msgpack") end.

(** [ioutil.WriteFile]: [file None] holds all of the content, [file (Some n)] its first
    [n] bytes. *)
Definition WriteFile (file : option nat -> LocalPeer -> LocalPeer) : M LocalPeer unit := fun lp =>
  match lp_file_faults lp with
  | [] => (file None lp, Ok tt)
  | None :: fs => (file None (set_file_faults fs lp), Ok tt)
  | Some NotOpened :: fs => (set_file_faults fs lp, Err (ErrText "open"))
  | Some (Cut n) :: fs => (file (Some n) (set_file_faults fs lp), Err (ErrText "write"))
  end.

(** ./data/entry.json: a cut JSON text cannot be decoded. *)
Definition entry_json (e : Entry) (cut : option nat) : LocalPeer -> LocalPeer :=
  set_entry_file (match cut with None => Some e | Some _ => None end).

(** [Collection.Save(path)] of the own collection. *)
Definition collection_dat (c : Collection) (cut : option nat) (lp : LocalPeer) : LocalPeer :=
  set_Collection (lp_Collection lp)
    (Some (match cut with None => Collection_Save c | Some n => take n (Collection_Save c) end)) lp.

(** ** The local entry *)

(** [SignEntry()]. *)
Definition LocalPeer_SignEntry : M LocalPeer unit :=
  lp ← get;
  e ← lift (SignEntry (lp_privateKey lp) (lp_clock lp) (lp_Entry lp));
  modify (set_Entry e).

(** [SaveEntry()]: the encoded entry is written only if the insert succeeds; the error of
    the write is returned. *)
Definition LocalPeer_SaveEntry : M LocalPeer unit :=
  _ ← LocalPeer_SignEntry;
  lp ← get;
  r ← on_DHT (DHT_Insert (lp_Entry lp));
  match r.2 with
  | Some e => fail e
  | None => WriteFile (entry_json (lp_Entry lp))
  end.

(** [LoadEntry()]. *)
Definition LocalPeer_LoadEntry : M LocalPeer unit :=
  lp ← get;
  match lp_entry_file lp with
  | None => fail ErrEOF
  | Some e => modify (set_Entry (json_Entry e))
  end.

(** [AddEntry(entry)]. *)
Definition LocalPeer_AddEntry (entry : Entry) : M LocalPeer unit :=
  r ← on_DHT (DHT_Insert entry);
  match r.2 with Some e => fail e | None => mret tt end.

(** [AddSeeding(entry)]. *)
Definition LocalPeer_AddSeeding (entry : Entry) : M LocalPeer unit :=
  lp ← get;
  _ ← modify (set_Entry (set_Seeding (Seeding (lp_Entry lp) ++ [Raw (EAddress entry)]) (lp_Entry lp)));
  let entry' := set_Seeds (Seeds entry ++ [Raw (lp_address lp)]) entry in
  _ ← LocalPeer_SignEntry;
  _ ← LocalPeer_AddEntry entry';
  LocalPeer_SaveEntry.

(** [QueryEntry(addr)]. *)
Definition LocalPeer_QueryEntry (addr : Address) : M LocalPeer Entry :=
  lp ← get;
  if Address_Equals addr (lp_address lp) then mret (lp_Entry lp)
  else
    kv ← on_DHT (DHT_Query addr);
    match kv with None => fail (ErrText "No entry with address") | Some e => mret e end.

(** [AddPost(p, store)]: the error of [InsertPost] is overwritten by that of
    [QueryPiece], which comes with a nil piece; that of [Save] is dropped. The quotient is exact in floating
    point for the ids of a database. *)
Definition set_PostCount (n : Z) (e : Entry) : Entry :=
  mkEntry (EAddress e) (Name e) (Desc e) (PublicAddress e) (PublicKey e) n (Updated e)
    (Signature e) (CollectionHash e) (Port e) (Seeds e) (Seeding e) (Seen e) (distance e).
Definition set_CollectionHash (h : bytes) (e : Entry) : Entry :=
  mkEntry (EAddress e) (Name e) (Desc e) (PublicAddress e) (PublicKey e) (PostCount e) (Updated e)
    (Signature e) h (Port e) (Seeds e) (Seeding e) (Seen e) (distance e).

Definition LocalPeer_AddPost (p : Post) : M LocalPeer (Z * option error) :=
  lp ← get;
  match Post_Valid (lp_clock lp) p with
  | Err e => mret (-1, Some e)
  | Panic => lift Panic
  | Ok _ =>
      _ ← modify (set_Entry (set_PostCount (PostCount (lp_Entry lp) + 1) (lp_Entry lp)));
      r ← try (on_Database (Database_InsertPost p));
      let id := match r with inl id => id | inr _ => -1 end in
      let pieceIndex := id / Z.of_nat PieceSize in
      q ← try (on_Database (Database_QueryPiece (wrap64 pieceIndex) false));
      match q with
      | inr _ => lift Panic
      | inl piece =>
          lp ← get;
          col ← lift (Collection_Add grow piece (lp_Collection lp));
          let col' := Collection_Rehash col in
          _ ← modify (fun lp => set_Collection col' (lp_collection_file lp) lp);
          _ ← try (WriteFile (collection_dat col'));
          _ ← modify (fun lp => set_Entry (set_CollectionHash (Collection_Hash col') (lp_Entry lp)) lp);
          _ ← LocalPeer_SignEntry;
          s ← try LocalPeer_SaveEntry;
          mret (id, match s with inl _ => None | inr e => Some e end)
      end
  end.

(** ** Handlers *)

(** [HandleQuery]: for an unknown address the refusal is followed by an entry
    message with a nil entry; the error of that write is dropped. *)
Definition HandleQuery (msg : Message) : M LocalPeer unit :=
  address ← read_address msg;
  lp ← get;
  if Address_Equals address (lp_address lp) then
    reply (Message_Write (VEntry (lp_Entry lp)) (bare ProtoDhtQuery))
  else
    kv ← on_DHT (DHT_Query address);
    _ ← (match kv with None => reply_ (bare ProtoNo) | Some _ => mret tt end);
    reply_ (Message_Write (match kv with Some e => VEntry e | None => VNil end) (bare ProtoDhtQuery)).

(** [HandleFindClosest]. *)
Definition HandleFindClosest (msg : Message) : M LocalPeer unit :=
  address ← read_address msg;
  pairs ← on_DHT (DHT_FindClosest address);
  reply (Message_Write (VEntries pairs) (bare ProtoDhtEntries)).

(** [HandleAnnounce]. *)
Definition HandleAnnounce (msg : Message) : M LocalPeer unit :=
  v ← lift (Message_Read KEntry msg);
  match v with
  | VEntry entry =>
      r ← on_DHT (DHT_Insert entry);
      match r with
      | (affected, None) =>
          if 0 <? affected then reply_ (bare ProtoOk)
          else _ ← reply_ (bare ProtoNo); fail (ErrText "Failed to save entry")
      | (_, Some _) => _ ← reply_ (bare ProtoNo); fail (ErrText "Failed to save entry")
      end
  | _ => fail (ErrText "msgpack")
  end.

(** [HandleSearch], [HandleRecent] and [HandlePopular]. *)
Definition HandleSearch (msg : Message) : M LocalPeer unit :=
  v ← lift (Message_Read KSearch msg);
  match v with
  | VSearch sq =>
      posts ← on_Database (Database_Search (SQ_Query sq) (SQ_Page sq) 25);
      reply (Message_Write (VPosts posts) (bare ProtoPosts))
  | _ => fail (ErrText "msgpack")
  end.
Definition HandleRecent (msg : Message) : M LocalPeer unit :=
  page ← lift (Message_ReadInt msg);
  recent ← on_Database (Database_QueryRecent page);
  reply (Message_Write (VPosts recent) (bare ProtoPosts)).
Definition HandlePopular (msg : Message) : M LocalPeer unit :=
  page ← lift (Message_ReadInt msg);
  popular ← on_Database (Database_QueryPopular page);
  reply (Message_Write (VPosts popular) (bare ProtoPosts)).

(** [HandleHashList]; [address.StringOr] never falls back. *)
Definition HandleHashList (msg : Message) : M LocalPeer unit :=
  address ← read_address msg;
  r ← try (on_DHT (DHT_Query address));
  entry ← (match r with
           | inl e => mret e
           | inr ErrNoRows => mret None
           | inr e => fail e
           end);
  lp ← get;
  hashList ← (if Address_Equals address (lp_address lp) then mret (g_contents (HashList (lp_Collection lp)))
              else match entry with
                   | Some _ =>
                       match lp_collection_files lp !! addr_str address with
                       | Some hl => mret hl
                       | None => fail ErrEOF
                       end
                   | None => fail (ErrText "Cannot return collection hash list")
                   end);
  reply_ (Message_Write (VHashList hashList (Z.of_nat (length hashList) / 32)) (bare ProtoHashList)).

(** [HandlePiece]: the posts of the own or of a mirrored database. *)
Definition HandlePiece (msg : Message) : M LocalPeer unit :=
  v ← lift (Message_Read KPiece msg);
  match v with
  | VPiece mrp =>
      lp ← get;
      posts ← (if bool_decide (RP_Address mrp = addr_str (lp_address lp)) then
                 on_Database (Database_QueryPiecePosts (RP_Id mrp) (RP_Length mrp))
               else match lp_Databases lp !! RP_Address mrp with
                    | Some db =>
                        let '(db', o) := Database_QueryPiecePosts (RP_Id mrp) (RP_Length mrp) db in
                        _ ← modify (set_Databases (<[RP_Address mrp := db']> (lp_Databases lp)));
                        lift o
                    | None => fail (ErrText "Piece not found")
                    end);
      modify (fun lp => if lp_writable lp
        then set_written (lp_written lp) (lp_stream lp ++ HandlePiece_write posts) lp else lp)
  | _ => fail (ErrText "msgpack")
  end.

(** [HandleAddPeer] of a message from [from]. *)
Definition HandleAddPeer (from : Address) (msg : Message) : M LocalPeer unit :=
  address ← read_address msg;
  lp ← get;
  _ ← (if Address_Equals address (lp_address lp) then
         _ ← (if forallb (fun i => negb (Address_Equals from (raw_address i))) (Seeds (lp_Entry lp))
              then modify (set_Entry (set_Seeds (Seeds (lp_Entry lp) ++ [Raw from]) (lp_Entry lp)))
              else mret tt);
         LocalPeer_SaveEntry
       else
         entry ← on_DHT (DHT_Query address);
         match entry with
         | None => fail (ErrText "Cannot add peer, do not have entry")
         | Some entry =>
             _ ← on_DHT (DHT_Insert (set_Seeds (Seeds entry ++ [Raw from]) entry));
             mret tt
         end);
  reply_ (bare ProtoOk).
End LocalPeer.

(** A write without a fault, and what every write keeps. *)
Lemma run_WriteFile {K : Msgpack} file lp : lp_file_faults lp = [] -> WriteFile file lp = (file None lp, Ok tt).
Proof. intros H. unfold WriteFile. by rewrite H. Qed.
Lemma preserves_WriteFile {K : Msgpack} (P : LocalPeer -> Prop) file :
  (forall fs lp, P lp -> P (set_file_faults fs lp)) -> (forall n lp, P lp -> P (file n lp)) -> preserves P (WriteFile file).
Proof.
  intros Hf Hw lp H. unfold WriteFile. destruct (lp_file_faults lp) as [|[[|n]|] fs]; cbn; auto.
Qed.
