(* ===== verification/Client.v ===== *)
(** The requests of a client ([proto/client.go]) as processes on a stream, and
    the server's routing of a received message ([proto/server.go]). *)

From stdpp Require Import sorting.
From S2P Require Import Prelude GoLib Crypto Address Entry Util Sqlite NetStore NetDB DHT.
From S2P Require Import Post PieceStream PostDB Collection Proto LocalPeer.

Section Client.
Context {C : Crypto} {K : Msgpack}.

Definition unexpected {A} : Proc A := Ret (Err (ErrText "msgpack")).

(** [Announce(e)]. *)
Definition Client_Announce (e : Entry) : Proc unit :=
  _ ← WriteMessage (Message_Write (VEntry e) (bare ProtoDhtAnnounce));
  ok ← ReadMessage;
  if negb (Message_Ok ok) then Ret (Err (ErrText "Peer did not respond with ok")) else mret tt.

(** [SendStruct(e)]: the error of the write is not looked at. *)
Definition Client_SendStruct (v : value) : Proc unit :=
  _ ← WriteMessage_ (Message_Write v (bare ProtoDhtEntry)); mret tt.

(** [FindClosest(address)]. *)
Definition Client_FindClosest (address : Address) : Proc (list (option Entry)) :=
  _ ← WriteMessage (Message_Write (VAddress address) (bare ProtoDhtFindClosest));
  closest ← ReadMessage;
  v ← lift_out (Message_Read KEntries closest);
  match v with VEntries ret => mret ret | _ => unexpected end.

(** [Query(address)]. *)
Definition Client_Query (address : Address) : Proc Entry :=
  _ ← WriteMessage (Message_Write (VAddress address) (bare ProtoDhtQuery));
  er ← ReadMessage;
  if bool_decide (Header er = ProtoNo) then Ret (Err (ErrText "Peer returned no"))
  else
    v ← lift_out (Message_Read KEntry er);
    match v with
    | VEntry entry => _ ← lift_out (Entry_Verify (Some entry)); mret entry
    | _ => unexpected
    end.

(** [Search(search, page)], whose write is not checked, [Recent(page)] and
    [Popular(page)]. *)
Definition read_posts : Proc (list Post) :=
  recv ← ReadMessage;
  v ← lift_out (Message_Read KPosts recv);
  match v with VPosts posts => mret posts | _ => unexpected end.
Definition Client_Search (search : string) (page : Z) : Proc (list Post) :=
  _ ← WriteMessage_ (Message_Write (VSearch (mkSearchQuery search page)) (bare ProtoSearch));
  read_posts.
Definition Client_Recent (page : Z) : Proc (list Post) :=
  _ ← WriteMessage (Message_Write (VInt page) (bare ProtoRecent)); read_posts.
Definition Client_Popular (page : Z) : Proc (list Post) :=
  _ ← WriteMessage (Message_Write (VInt page) (bare ProtoPopular)); read_posts.

(** [Collection(address, entry)]; [spare] is the capacity the decoder leaves. *)
Definition Client_Collection (spare : nat) (address : Address) (entry : Entry) : Proc MessageCollection :=
  _ ← WriteMessage (Message_Write (VAddress address) (bare ProtoRequestHashList));
  hl ← ReadMessage;
  v ← lift_out (Message_Read KHashList hl);
  match v with
  | VHashList hashList size =>
      let mhl := mkMessageCollection (g_make hashList spare) size in
      _ ← lift_out (MessageCollection_Verify (CollectionHash entry) mhl);
      mret mhl
  | _ => unexpected
  end.

(** The request of [Pieces(address, id, length)]; what comes back is a stream of
    bytes, read by [Client_Pieces]. *)
Definition Client_Pieces_request (address : Address) (id length : Z) : Proc unit :=
  WriteMessage (Message_Write (VPiece (mkRequestPiece (addr_str address) id length)) (bare ProtoRequestPiece)).

(** [RequestAddPeer(addr)]. *)
Definition Client_RequestAddPeer (addr : Address) : Proc unit :=
  _ ← WriteMessage (Message_Write (VAddress addr) (bare ProtoRequestAddPeer));
  rep ← ReadMessage;
  if negb (Message_Ok rep) then Ret (Err (ErrText "Peer add request failed")) else mret tt.

(** [Bootstrap(d, address)] once [FindClosest] has answered: the address of an
    entry is compared before it is checked for nil. *)
Fixpoint bootstrap_loop {D : Sqlite} (address : Address) (peers : list (option Entry)) : M NetDB unit :=
  match peers with
  | [] => mret tt
  | None :: _ => lift Panic
  | Some i :: peers' =>
      if Address_Equals (EAddress i) address then bootstrap_loop address peers'
      else
        v ← try (lift (Entry_Verify (Some i)));
        match v with
        | inr _ => bootstrap_loop address peers'
        | inl _ =>
            r ← DHT_Insert i;
            match r.2 with
            | Some e => fail e
            | None => bootstrap_loop address peers'
            end
        end
  end.
Definition Client_Bootstrap {D : Sqlite} (received : outcome (list (option Entry))) (address : Address) :
  M NetDB unit := peers ← lift received; bootstrap_loop address peers.
End Client.

(** ** The server *)

Section Server.
Context {K : Msgpack} {S : Type}.

(** [ProtocolHandler], the part that [RouteMessage] calls. *)
Record ProtocolHandler := mkHandler {
  h_Announce : Message -> M S unit;
  h_Query : Message -> M S unit;
  h_FindClosest : Message -> M S unit;
  h_Search : Message -> M S unit;
  h_Recent : Message -> M S unit;
  h_Popular : Message -> M S unit;
  h_HashList : Message -> M S unit;
  h_Piece : Message -> M S unit;
  h_AddPeer : Message -> M S unit;
}.

Definition route (header : string) (h : ProtocolHandler) : option (Message -> M S unit) :=
  if bool_decide (header = ProtoDhtAnnounce) then Some (h_Announce h)
  else if bool_decide (header = ProtoDhtQuery) then Some (h_Query h)
  else if bool_decide (header = ProtoDhtFindClosest) then Some (h_FindClosest h)
  else if bool_decide (header = ProtoSearch) then Some (h_Search h)
  else if bool_decide (header = ProtoRecent) then Some (h_Recent h)
  else if bool_decide (header = ProtoPopular) then Some (h_Popular h)
  else if bool_decide (header = ProtoRequestHashList) then Some (h_HashList h)
  else if bool_decide (header = ProtoRequestPiece) then Some (h_Piece h)
  else if bool_decide (header = ProtoRequestAddPeer) then Some (h_AddPeer h)
  else None.

(** [RouteMessage(msg, handler)]: errors are logged. *)
Definition RouteMessage (msg : Message) (h : ProtocolHandler) : M S unit :=
  match route (Header msg) h with
  | Some f => _ ← try (f msg); mret tt
  | None => mret tt
  end.

(** [HandleStream] on the messages of a stream: [RouteMessage] closes the stream
    when it returns, so that the next read fails. *)
Fixpoint HandleStream (incoming : list Message) (is_open : bool) (h : ProtocolHandler) : M S unit :=
  match incoming with
  | msg :: rest =>
      if is_open then _ ← RouteMessage msg h; HandleStream rest false h else mret tt
  | [] => mret tt
  end.

(** The gate of [Listen]: two little-endian 16-bit integers; a read that fails
    leaves the zero value. *)
Definition read_int16 (l : bytes) : Z * bytes :=
  match l with
  | a :: b :: rest =>
      let u := bval a + 256 * bval b in (if u <? 2 ^ 15 then u else u - 2 ^ 16, rest)
  | _ => (0, [])
  end.
Definition Listen_accepts (first : bytes) : bool :=
  let '(zif, rest) := read_int16 first in
  if negb (zif =? ProtoZif) then false
  else let '(version, _) := read_int16 rest in version =? ProtoVersion.
End Server.
Arguments ProtocolHandler {K} S.

(** The local peer as the handler of the messages of [from]. *)
Definition LocalPeer_handler {C : Crypto} {D : Sqlite} {O : SqlOrder} {K : Msgpack} (from : Address) :
  ProtocolHandler LocalPeer :=
  mkHandler HandleAnnounce HandleQuery HandleFindClosest HandleSearch HandleRecent HandlePopular
    HandleHashList HandlePiece (HandleAddPeer from).
