(* ===== verification/PeerProps.v ===== *)
(** The correctness theorems of the message handlers together with the client
    requests: what one peer announces, another one gets. *)

From stdpp Require Import sorting.
From S2P Require Import Prelude GoLib Base58Check Crypto Address Entry Util Sqlite NetStore NetDB.
From S2P Require Import NetTable NetInv NetRun DHT DHTProps.
From S2P Require Import Post PieceStream PostDB PostDBProps DataProps Collection CollectionProps Proto LocalPeer Client.

Section Serving.
Context {C : Crypto} {D : Sqlite} {L : SqliteLaws D} {O : SqlOrder} {K : Msgpack} {KL : MsgpackLaws K}.

(** A message with a value that fits. *)
Definition fits (v : value) : Prop := content_size (encode v) <= MaxMessageContentSize.

Lemma read_fits v h : fits v -> Message_Read (kind_of v) (Message_Write v (bare h)) = Ok v.
Proof. intros Hf. unfold Message_Read, Message_Write. cbn [Content]. by rewrite decode_encode. Qed.

Lemma lift_out_bind {A B} (a : A) (f : A -> Proc B) : (lift_out (Ok a) ≫= f) = f a.
Proof. done. Qed.

Lemma on_DHT_run {A} (m : M NetDB A) lp d o : m (lp_DHT lp) = (d, o) -> on_DHT m lp = (set_DHT d lp, o).
Proof. intros E. unfold on_DHT, zoom. by rewrite E. Qed.

Lemma reply_run m lp : lp_writable lp = true ->
  reply_ m lp = (set_written (lp_written lp ++ [m]) (lp_stream lp) lp, Ok tt).
Proof. intros Hw. unfold reply_, reply, try, mbind, M_bind. by rewrite Hw. Qed.

Lemma read_address_run a h lp :
  fits (VAddress a) -> read_address (Message_Write (VAddress a) (bare h)) lp = (lp, Ok a).
Proof.
  intros Hf. unfold read_address. by rewrite (run_lift _ _ _ _ (read_fits (VAddress a) h Hf)).
Qed.

(** Nobody seeds for, or is seeded by, an id that no entry has yet. *)
Lemma new_id_no_seeds d id :
  db_wf address_text d -> id = Z.of_nat (S (length (entries d))) ->
  List.filter (fun s => s_for s =? id) (seeds d) = [] /\ List.filter (fun s => s_seed s =? id) (seeds d) = [].
Proof.
  intros (Hid & _ & _ & Hs) ->.
  assert (Z.of_nat (S (length (entries d))) ∉ map r_id (entries d)) as Hnew.
  { rewrite Hid. intros Hin. apply elem_of_map in Hin as (n & E & Hn). apply elem_of_seq in Hn. lia. }
  split; induction Hs as [|s l [H1 H2] Hs IH]; try done; cbn [List.filter];
    match goal with |- (if ?x =? ?y then _ else _) = _ => destruct (Z.eqb_spec x y) as [E|]; [|done] end;
    by rewrite E in *.
Qed.

(** Announcing a new entry without seeds, then querying: the same entry. *)
Lemma Insert_Query_new ndb e :
  ndb_inv ndb -> healthy (conn ndb) -> Entry_Verify (Some e) = Ok tt ->
  addr_fresh (EAddress e) -> Updated e < 2 ^ 63 ->
  looks_textual (Name e) = true -> looks_textual (Desc e) = true -> looks_textual (PublicAddress e) = true ->
  Seeds e = [] -> Seeding e = [] -> find_address (addr_str (EAddress e)) (conn ndb) = None ->
  exists ndb1 ndb2 id,
    Insert e ndb = (ndb1, Ok (1, None)) /\
    Query (EAddress e) ndb1 = (ndb2, Ok (Some (mkEntry (raw_address (Raw (EAddress e))) (Name e) (Desc e)
      (PublicAddress e) (PublicKey e) (PostCount e) (Updated e) (Signature e) (CollectionHash e) (Port e)
      [] [] (Seen e) (raw_address [])), id)).
Proof.
  intros Hinv Hh Hv Hfr Hu Hn Hds Hpa Hs1 Hs2 Hnew.
  destruct (Insert_run ndb e Hinv Hh Hv Hfr Hu)
    as (ndb1 & err & id & E1 & Hinv1 & Hh1 & Hf & Hseeds & Hid & _).
  destruct (Hseeds Hs1 Hs2) as [-> Hsame]. specialize (Hid Hnew).
  destruct (Query_present ndb1 _ _ Hinv1 Hh1 Hf)
    as (e' & ndb2 & i & E2 & (Ha & _ & He & _) & Hm1 & Hm2 & Hr & _).
  exists ndb1, ndb2, (r_id (row_of id (addr_str (EAddress e)) e)). split; [done|]. rewrite E2. do 4 f_equal.
  assert (length (Raw (EAddress e)) = AddressBinarySize) as Hl by (by apply Verify_iff in Hv as [[H _] _]).
  cbn [row_of r_address r_id] in *. rewrite col_text_address in Ha by (by apply addr_str_text).
  assert (Raw (EAddress e') = Raw (EAddress e)) as Hraw.
  { apply encode_inj. rewrite <-(addr_str_fresh (EAddress e)), <-(addr_str_fresh (EAddress e')); [done| |done].
    left. by rewrite Hr. }
  destruct (new_id_no_seeds (conn ndb) id (proj2 (proj2 Hinv)) Hid) as [F1 F2].
  unfold seed_texts, seeding_texts in Hm1, Hm2. rewrite Hsame in Hm1, Hm2. rewrite F1 in Hm1. rewrite F2 in Hm2.
  destruct (Seeds e') as [|]; [|done]. destruct (Seeding e') as [|]; [|done].
  rewrite He, Hr, Hraw. unfold entry_of_row. cbn [row_of r_name r_desc r_publicAddress r_publicKey r_postCount
    r_updated r_signature r_collectionHash r_port r_seen]. by rewrite !col_text_textual.
Qed.
(** What is served for an entry without seeds. *)
Definition served (e : Entry) : Entry :=
  mkEntry (raw_address (Raw (EAddress e))) (Name e) (Desc e) (PublicAddress e) (PublicKey e) (PostCount e)
    (Updated e) (Signature e) (CollectionHash e) (Port e) [] [] (Seen e) (raw_address []).

Lemma served_verifies e :
  Entry_Verify (Some e) = Ok tt -> addr_fresh (EAddress e) -> Seeding e = [] -> Entry_Verify (Some (served e)) = Ok tt.
Proof.
  rewrite !Verify_iff. unfold entry_sizes, entry_signed. intros [(?&?&?&?&?&?) Hs] Hf Hsd.
  cbn [served EAddress Raw raw_address Name Desc Seeds PublicAddress Port PublicKey Signature length].
  split; [split_and!; try done; lia|].
  assert (Entry_Bytes (served e) = Entry_Bytes e) as ->; [|exact Hs].
  unfold Entry_Bytes, Entry_String. rewrite Hsd. cbn [served EAddress Name Desc PublicAddress PublicKey Port
    PostCount Updated CollectionHash Seeding]. by rewrite addr_str_raw, addr_str_fresh.
Qed.
End Serving.

(** What a peer announces, any other peer gets on a query: the announcement of
    an accepted new entry without seeds is stored and answered with ok; a later
    query for its address is answered with one message, from which the querying
    client returns the announced entry, its signature still valid. *)
Theorem announce_then_query {C : Crypto} {D : Sqlite} {L : SqliteLaws D} {O : SqlOrder} {K : Msgpack}
    {KL : MsgpackLaws K} (lp : LocalPeer) (e : Entry) :
  ndb_inv (lp_DHT lp) -> healthy (conn (lp_DHT lp)) -> lp_writable lp = true ->
  Entry_Verify (Some e) = Ok tt -> addr_fresh (EAddress e) -> Updated e < 2 ^ 63 ->
  looks_textual (Name e) = true -> looks_textual (Desc e) = true -> looks_textual (PublicAddress e) = true ->
  Seeds e = [] -> Seeding e = [] -> find_address (addr_str (EAddress e)) (conn (lp_DHT lp)) = None ->
  Address_Equals (EAddress e) (lp_address lp) = false ->
  fits (VEntry e) -> fits (VEntry (served e)) -> fits (VAddress (EAddress e)) ->
  exists lp1 lp2 answer,
    HandleAnnounce (Message_Write (VEntry e) (bare ProtoDhtAnnounce)) lp = (lp1, Ok tt) /\
    lp_written lp1 = lp_written lp ++ [bare ProtoOk] /\
    HandleQuery (Message_Write (VAddress (EAddress e)) (bare ProtoDhtQuery)) lp1 = (lp2, Ok tt) /\
    lp_written lp2 = lp_written lp1 ++ [answer] /\
    (play (Client_Query (EAddress e)) [answer] [true] false).2 = Ok (served e) /\
    Entry_Verify (Some (served e)) = Ok tt.
Proof.
  intros Hinv Hh Hw Hv Hfr Hu Hn Hds Hpa Hs1 Hs2 Hnew Hown F1 F2 F3.
  pose proof (served_verifies e Hv Hfr Hs2) as Hv2.
  destruct (Insert_Query_new (lp_DHT lp) e) as (d1 & d2 & id & E1 & E2); try done.
  eexists _, _, (Message_Write (VEntry (served e)) (bare ProtoDhtQuery)). split_and!.
  - unfold HandleAnnounce. rewrite (run_lift _ _ _ _ (read_fits (VEntry e) ProtoDhtAnnounce F1)).
    unfold DHT_Insert. cbv beta iota. erewrite run_bind by (apply on_DHT_run; exact E1). cbn [Z.ltb Z.compare]. by apply reply_run.
  - done.
  - unfold HandleQuery. rewrite (run_bind _ _ _ _ _ (read_address_run _ ProtoDhtQuery _ F3)), run_get.
    cbn [lp_address set_written set_DHT]. rewrite Hown.
    assert (DHT_Query (EAddress e) d1 = (d2, Ok (Some (served e)))) as E3.
    { unfold DHT_Query. by rewrite (run_bind _ _ _ _ _ E2). }
    cbv beta iota. erewrite run_bind by (apply on_DHT_run; exact E3). cbv beta iota. rewrite run_ret. by apply reply_run.
  - done.
  - unfold Client_Query. cbn [mbind Proc_mbind Proc_bind WriteMessage ReadMessage play].
    change (bool_decide (Header (Message_Write (VEntry (served e)) (bare ProtoDhtQuery)) = ProtoNo)) with false.
    cbv iota. cbn [lift_out Proc_bind]. pose proof (read_fits (VEntry (served e)) ProtoDhtQuery F2) as HR.
    cbn [kind_of] in HR. rewrite HR, lift_out_bind.
    cbv beta iota. rewrite Hv2, lift_out_bind. done.
  - done.
Qed.

(** A query for an unknown address is refused, and then answered with a message that
    carries a nil entry. *)
Theorem HandleQuery_unknown {C : Crypto} {D : Sqlite} {L : SqliteLaws D} {K : Msgpack} {KL : MsgpackLaws K}
    (lp : LocalPeer) (a : Address) :
  healthy (conn (lp_DHT lp)) -> lp_writable lp = true -> fits (VAddress a) ->
  Address_Equals a (lp_address lp) = false -> find_address (addr_str a) (conn (lp_DHT lp)) = None ->
  exists lp', HandleQuery (Message_Write (VAddress a) (bare ProtoDhtQuery)) lp = (lp', Ok tt) /\
    lp_written lp' = lp_written lp ++ [bare ProtoNo; Message_Write VNil (bare ProtoDhtQuery)].
Proof.
  intros Hh Hw Hf Ho Hn. eexists. unfold HandleQuery.
  rewrite (run_bind _ _ _ _ _ (read_address_run _ ProtoDhtQuery _ Hf)), run_get, Ho.
  assert (DHT_Query a (lp_DHT lp) = (lp_DHT lp, Ok None)) as E.
  { unfold DHT_Query. by rewrite (run_bind _ _ _ _ _ (Query_absent _ _ Hh Hn)). }
  erewrite run_bind by (apply on_DHT_run; exact E). cbv beta iota.
  erewrite run_bind by (by apply reply_run). split; [by apply reply_run|].
  cbn [lp_written set_written set_DHT]. by rewrite <-app_assoc.
Qed.

(** ** Witnesses *)

#[local] Existing Instance toy_crypto.
#[local] Existing Instance toy_laws.
#[local] Existing Instance toy_sqlite.
#[local] Existing Instance toy_sqlite_laws.
#[local] Existing Instance toy_order.
#[local] Existing Instance toy_msgpack.
#[local] Existing Instance toy_msgpack_laws.

(** A local peer that knows three others. *)
Definition toy_peer : LocalPeer :=
  mkLP toy_signed toy_own toy_sk toy_three toy_posts NewCollection ∅ None ∅ None 1500000000 [] [] true [].

Lemma toy_fits v : fits v.
Proof. unfold fits, MaxMessageContentSize, MaxEntrySize. cbn [content_size toy_msgpack]. lia. Qed.

Lemma announce_then_query_witness :
  exists lp1 lp2 answer,
    HandleAnnounce (Message_Write (VEntry (toy_at "d" [])) (bare ProtoDhtAnnounce)) toy_peer = (lp1, Ok tt) /\
    lp_written lp1 = lp_written toy_peer ++ [bare ProtoOk] /\
    HandleQuery (Message_Write (VAddress (EAddress (toy_at "d" []))) (bare ProtoDhtQuery)) lp1 = (lp2, Ok tt) /\
    lp_written lp2 = lp_written lp1 ++ [answer] /\
    (play (Client_Query (EAddress (toy_at "d" []))) [answer] [true] false).2 = Ok (served (toy_at "d" [])) /\
    Entry_Verify (Some (served (toy_at "d" []))) = Ok tt.
Proof.
  apply (announce_then_query toy_peer (toy_at "d" [])); try exact (toy_fits _).
  - exact (toy_inv _ toy_three_reachable).
  - vm_compute. reflexivity.
  - reflexivity.
  - vm_compute. reflexivity.
  - left. vm_compute. reflexivity.
  - vm_compute. reflexivity.
  - vm_compute. reflexivity.
  - vm_compute. reflexivity.
  - vm_compute. reflexivity.
  - vm_compute. reflexivity.
  - vm_compute. reflexivity.
  - vm_compute. reflexivity.
  - vm_compute. reflexivity.
Defined.
