(* ===== verification/Typing.v ===== *)
(** The types of the protocol: which messages a handler may write for a request, and that
    the client of that request reads them as what they are. *)

From stdpp Require Import sorting.
From S2P Require Import Prelude GoLib Base58Check Crypto Address Entry Util Sqlite NetStore NetDB NetTable NetInv NetRun DHT DHTProps.
From S2P Require Import Post PieceStream PostDB PostDBProps DataProps Collection CollectionProps Proto LocalPeer Client PeerProps.

Section Typing.
Context {K : Msgpack}.

(** The answers to a request, by the header of the request: a handler that fails
    early writes nothing. *)
Inductive answers : string -> list Message -> Prop :=
| an_nothing h : answers h []
| an_stored : answers ProtoDhtAnnounce [bare ProtoOk]
| an_refused : answers ProtoDhtAnnounce [bare ProtoNo]
| an_entry e : answers ProtoDhtQuery [Message_Write (VEntry e) (bare ProtoDhtQuery)]
| an_unknown : answers ProtoDhtQuery [bare ProtoNo; Message_Write VNil (bare ProtoDhtQuery)]
| an_entries l : answers ProtoDhtFindClosest [Message_Write (VEntries l) (bare ProtoDhtEntries)]
| an_found l : answers ProtoSearch [Message_Write (VPosts l) (bare ProtoPosts)]
| an_recent l : answers ProtoRecent [Message_Write (VPosts l) (bare ProtoPosts)]
| an_popular l : answers ProtoPopular [Message_Write (VPosts l) (bare ProtoPosts)]
| an_hashlist b n : answers ProtoRequestHashList [Message_Write (VHashList b n) (bare ProtoHashList)]
| an_added : answers ProtoRequestAddPeer [bare ProtoOk].

(** What code writes to the client. *)
Definition writes {A} (m : M LocalPeer A) (Q : list Message -> Prop) : Prop :=
  forall lp, exists new, lp_written (m lp).1 = lp_written lp ++ new /\ Q new.
Definition quiet {A} (m : M LocalPeer A) : Prop := forall lp, lp_written (m lp).1 = lp_written lp.

Lemma writes_quiet {A} (m : M LocalPeer A) (Q : list Message -> Prop) : quiet m -> Q [] -> writes m Q.
Proof. intros Hm HQ lp. exists []. by rewrite Hm, app_nil_r. Qed.

Lemma writes_bind {A B} (m : M LocalPeer A) (f : A -> M LocalPeer B) (Q : list Message -> Prop) :
  quiet m -> Q [] -> (forall a, writes (f a) Q) -> writes (m ≫= f) Q.
Proof.
  intros Hm HQ Hf lp. specialize (Hm lp). unfold mbind, M_bind. destruct (m lp) as [lp' [a|e|]]; cbn [fst] in Hm.
  - destruct (Hf a lp') as (new & E & H). exists new. by rewrite E, Hm.
  - exists []. cbn [fst]. by rewrite Hm, app_nil_r.
  - exists []. cbn [fst]. by rewrite Hm, app_nil_r.
Qed.

(** A write that may fail, and then what follows; the error is not looked at. *)
Lemma writes_reply m (Q : list Message -> Prop) : Q [] -> Q [m] -> writes (reply m) Q.
Proof.
  intros H0 H1 lp. unfold reply. case_match; [by exists [m]|]. exists []. by rewrite app_nil_r.
Qed.
Lemma writes_reply_ m (Q : list Message -> Prop) : Q [] -> Q [m] -> writes (reply_ m) Q.
Proof.
  intros H0 H1 lp. unfold reply_, reply, try, mbind, M_bind. destruct (lp_writable lp); [by exists [m]|]. exists []. by rewrite app_nil_r.
Qed.
Lemma writes_reply_fail {A} m e (Q : list Message -> Prop) : Q [] -> Q [m] -> writes (_ ← reply_ m; fail e : M LocalPeer A) Q.
Proof.
  intros H0 H1 lp. unfold reply_, reply, try, mbind, M_bind. destruct (lp_writable lp); [by exists [m]|]. exists []. by rewrite app_nil_r.
Qed.

Lemma quiet_ret {A} (a : A) : quiet (mret a).
Proof. done. Qed.
Lemma quiet_fail {A} e : quiet (fail e : M LocalPeer A).
Proof. done. Qed.
Lemma quiet_lift {A} (o : outcome A) : quiet (lift o).
Proof. done. Qed.
Lemma quiet_get : quiet get.
Proof. done. Qed.
Lemma quiet_try {A} (m : M LocalPeer A) : quiet m -> quiet (try m).
Proof. intros Hm lp. unfold try. specialize (Hm lp). by destruct (m lp) as [lp' [a|e|]]. Qed.
Lemma quiet_bind {A B} (m : M LocalPeer A) (f : A -> M LocalPeer B) : quiet m -> (forall a, quiet (f a)) -> quiet (m ≫= f).
Proof.
  intros Hm Hf lp. unfold mbind, M_bind. specialize (Hm lp). destruct (m lp) as [lp' [a|e|]]; cbn [fst] in Hm; [|done|done].
  by rewrite Hf.
Qed.
Lemma quiet_modify f : (forall lp, lp_written (f lp) = lp_written lp) -> quiet (modify f).
Proof. done. Qed.
Lemma quiet_WriteFile file : (forall n lp, lp_written (file n lp) = lp_written lp) -> quiet (WriteFile file).
Proof. intros H lp. unfold WriteFile. destruct (lp_file_faults lp) as [|[[|n]|] fs]; cbn [fst]; by rewrite ?H. Qed.
Lemma quiet_DHT {A} (m : M NetDB A) : quiet (on_DHT m).
Proof. intros lp. unfold on_DHT, zoom. by destruct (m _). Qed.
Lemma quiet_Database {A} (m : M PostDb A) : quiet (on_Database m).
Proof. intros lp. unfold on_Database, zoom. by destruct (m _). Qed.
End Typing.

#[export] Hint Resolve quiet_ret quiet_fail quiet_lift quiet_get quiet_try quiet_bind quiet_DHT quiet_Database : zif.
#[export] Hint Extern 3 (quiet (modify _)) => by apply quiet_modify : zif.
#[export] Hint Extern 3 (quiet (WriteFile _)) => by apply quiet_WriteFile : zif.
#[export] Hint Constructors answers : zif.

Ltac quiet_step :=
  match goal with
  | |- quiet (mbind _ _) => apply quiet_bind; [|intros ?]
  | |- quiet (match ?x with _ => _ end) => destruct x
  | |- quiet _ => solve [eauto with zif]
  end.
Ltac quiet_tac := repeat quiet_step.

(** Splits along the code up to the writes. *)
Ltac writes_step :=
  match goal with
  | |- writes (reply _) _ => apply writes_reply; [constructor|constructor]
  | |- writes (reply_ _) _ => apply writes_reply_; [constructor|constructor]
  | |- writes (mbind _ (reply_ _)) _ => apply writes_reply_fail; [constructor|constructor]
  | |- writes (mbind _ _) _ => apply writes_bind; [solve [quiet_tac]|constructor|intros ?]
  | |- writes (match ?x with _ => _ end) _ => destruct x
  | |- writes _ _ => apply writes_quiet; [solve [quiet_tac]|constructor]
  end.
Ltac writes_tac := repeat writes_step.

Section Handlers.
Context {C : Crypto} {D : Sqlite} {O : SqlOrder} {K : Msgpack}.

Lemma quiet_read_address m : quiet (read_address m).
Proof. unfold read_address. quiet_tac. Qed.
Lemma quiet_SignEntry : quiet LocalPeer_SignEntry.
Proof. unfold LocalPeer_SignEntry. quiet_tac. Qed.
#[local] Hint Resolve quiet_read_address quiet_SignEntry : zif.
Lemma quiet_SaveEntry : quiet LocalPeer_SaveEntry.
Proof. unfold LocalPeer_SaveEntry. quiet_tac. Qed.
#[local] Hint Resolve quiet_SaveEntry : zif.

Lemma HandleAnnounce_answers m : writes (HandleAnnounce m) (answers ProtoDhtAnnounce).
Proof. unfold HandleAnnounce. writes_tac. Qed.
Lemma HandleFindClosest_answers m : writes (HandleFindClosest m) (answers ProtoDhtFindClosest).
Proof. unfold HandleFindClosest. writes_tac. Qed.
Lemma HandleSearch_answers m : writes (HandleSearch m) (answers ProtoSearch).
Proof. unfold HandleSearch. writes_tac. Qed.
Lemma HandleRecent_answers m : writes (HandleRecent m) (answers ProtoRecent).
Proof. unfold HandleRecent. writes_tac. Qed.
Lemma HandlePopular_answers m : writes (HandlePopular m) (answers ProtoPopular).
Proof. unfold HandlePopular. writes_tac. Qed.
Lemma HandleHashList_answers m : writes (HandleHashList m) (answers ProtoRequestHashList).
Proof. unfold HandleHashList. writes_tac. Qed.
Lemma HandleAddPeer_answers from m : writes (HandleAddPeer from m) (answers ProtoRequestAddPeer).
Proof. unfold HandleAddPeer. writes_tac. Qed.
Lemma HandlePiece_quiet m : quiet (HandlePiece m).
Proof. unfold HandlePiece. quiet_tac. apply quiet_modify. intros lp. by case_match. Qed.

(** For an unknown address the refusal comes first, and both go out or none. *)
Lemma HandleQuery_answers m : writes (HandleQuery m) (answers ProtoDhtQuery).
Proof.
  unfold HandleQuery. apply writes_bind; [auto with zif|constructor|]. intros a.
  apply writes_bind; [auto with zif|constructor|]. intros lp1. destruct (Address_Equals a (lp_address lp1)); [writes_tac|].
  apply writes_bind; [auto with zif|constructor|]. intros [e|]; [apply writes_bind; [auto with zif|constructor|intros _; writes_tac]|].
  intros lp. unfold reply_, reply, try, mbind, M_bind. destruct (lp_writable lp) eqn:Hw; cbn.
  - rewrite Hw. eexists. cbn. rewrite <-(assoc_L (++)). split; [reflexivity|constructor].
  - rewrite Hw. exists []. rewrite app_nil_r. split; [done|constructor].
Qed.

Lemma RouteMessage_answers from msg : writes (RouteMessage msg (LocalPeer_handler from)) (answers (Header msg)).
Proof.
  assert (forall (m : M LocalPeer unit) Q, writes m Q -> writes (_ ← try m; mret tt) Q) as Htry.
  { intros m Q Hm lp. destruct (Hm lp) as (new & E & H). exists new. unfold mbind, M_bind, try. by destruct (m lp) as [lp' [a|e|]]. }
  unfold RouteMessage. destruct (route (Header msg) (LocalPeer_handler from)) as [f|] eqn:E;
    [|apply writes_quiet; [apply quiet_ret|constructor]]. apply Htry. revert E. unfold route.
  repeat case_bool_decide; try discriminate; intros [= <-];
    match goal with H : Header msg = _ |- _ => rewrite H end;
    cbn [h_Announce h_Query h_FindClosest h_Search h_Recent h_Popular h_HashList h_Piece h_AddPeer LocalPeer_handler];
    auto using HandleAnnounce_answers, HandleQuery_answers, HandleFindClosest_answers, HandleSearch_answers, HandleRecent_answers,
      HandlePopular_answers, HandleHashList_answers, HandleAddPeer_answers.
  apply writes_quiet; [apply HandlePiece_quiet|constructor].
Qed.
End Handlers.

(** ** The client's side *)

(** Every value in the answer fits into a message. *)
Definition all_fit {K : Msgpack} (l : list Message) : Prop :=
  Forall (fun m => match Content m with Some c => content_size c <= MaxMessageContentSize | None => True end) l.

Section Clients.
Context {C : Crypto} {K : Msgpack} {KL : MsgpackLaws K}.

(** The error of a content that is not what was asked for. *)
Definition not_decoded {A} (o : outcome A) : Prop := o = Err (ErrText "msgpack").

Lemma Verify_text e : ~ not_decoded (Entry_Verify (Some e)).
Proof.
  unfold not_decoded, Entry_Verify. destruct (ed25519_Verify _ _ _) as [[]| |] eqn:E; cbn [mbind outcome_bind negb];
    repeat case_match; try done. unfold ed25519_Verify in E. repeat case_match; done.
Qed.

Lemma fit_read v h l : all_fit (Message_Write v (bare h) :: l) -> Message_Read (kind_of v) (Message_Write v (bare h)) = Ok v.
Proof. intros Hf. apply read_fits. by apply Forall_cons_1 in Hf as [? _]. Qed.

Lemma query_decodes a l : answers ProtoDhtQuery l -> all_fit l -> ~ not_decoded (play (Client_Query a) l [true] false).2.
Proof.
  intros Ha Hf. unfold Client_Query. cbn [mbind Proc_mbind Proc_bind WriteMessage ReadMessage play].
  inversion Ha; subst; [done| |done]. cbn [play].
  change (bool_decide (Header (Message_Write (VEntry e) (bare ProtoDhtQuery)) = ProtoNo)) with false. cbv iota.
  rewrite (fit_read _ _ _ Hf : Message_Read KEntry _ = _), lift_out_bind. cbv iota.
  pose proof (Verify_text e) as Hv. unfold lift_out, not_decoded in *.
  destruct (Entry_Verify (Some e)) as [[]|x|]; cbn; [done| |done]. intros [= ->]. done.
Qed.

Lemma find_decodes a l : answers ProtoDhtFindClosest l -> all_fit l -> ~ not_decoded (play (Client_FindClosest a) l [true] false).2.
Proof.
  intros Ha Hf. unfold Client_FindClosest. cbn [mbind Proc_mbind Proc_bind WriteMessage ReadMessage play].
  inversion Ha; subst; [done|]. cbn [play]. rewrite (fit_read _ _ _ Hf : Message_Read KEntries _ = _), lift_out_bind. done.
Qed.

Lemma posts_decode h l (proc : Proc (list Post)) m : h = ProtoSearch \/ h = ProtoRecent \/ h = ProtoPopular ->
  answers h l -> all_fit l ->
  (exists k, proc = Send m k /\ k true = read_posts) -> ~ not_decoded (play proc l [true] false).2.
Proof.
  intros Hh Ha Hf (k & -> & Hk). cbn [play]. rewrite Hk. unfold read_posts.
  cbn [mbind Proc_mbind Proc_bind ReadMessage play]. destruct Hh as [->|[->| ->]]; inversion Ha; subst; try done; cbn [play];
    rewrite (fit_read _ _ _ Hf : Message_Read KPosts _ = _), lift_out_bind; done.
Qed.

Lemma verify_loop_text hl n : forall k hash, ~ not_decoded (verify_loop n k hl hash).
Proof. unfold not_decoded. induction n as [|n IH]; intros k hash; cbn [verify_loop]; [done|]. by case_match. Qed.

Lemma Collection_text root c : ~ not_decoded (MessageCollection_Verify root c).
Proof.
  unfold not_decoded, MessageCollection_Verify. intros E.
  destruct (verify_loop _ _ _ _) as [h|x|] eqn:El; cbn [mbind outcome_bind] in E; [by case_bool_decide| |done].
  injection E as ->. by eapply verify_loop_text.
Qed.

Lemma collection_decodes spare a e l : answers ProtoRequestHashList l -> all_fit l ->
  ~ not_decoded (play (Client_Collection spare a e) l [true] false).2.
Proof.
  intros Ha Hf. unfold Client_Collection. cbn [mbind Proc_mbind Proc_bind WriteMessage ReadMessage play].
  inversion Ha; subst; [done|]. cbn [play]. rewrite (fit_read _ _ _ Hf : Message_Read KHashList _ = _), lift_out_bind. cbv iota zeta.
  pose proof (Collection_text (CollectionHash e) (mkMessageCollection (g_make b spare) n)) as Hv. unfold lift_out, not_decoded in *.
  destruct (MessageCollection_Verify _ _) as [[]|x|]; cbn; [done| |done]. intros [= ->]. done.
Qed.

(** The clients of a request read [l] as the values they asked for: whatever else they
    find wrong with it, it is never that a content is of another kind. *)
Definition understood (h : string) (l : list Message) : Prop :=
  (h = ProtoDhtQuery -> forall a, ~ not_decoded (play (Client_Query a) l [true] false).2) /\
  (h = ProtoDhtFindClosest -> forall a, ~ not_decoded (play (Client_FindClosest a) l [true] false).2) /\
  (h = ProtoSearch -> forall q page, ~ not_decoded (play (Client_Search q page) l [true] false).2) /\
  (h = ProtoRecent -> forall page, ~ not_decoded (play (Client_Recent page) l [true] false).2) /\
  (h = ProtoPopular -> forall page, ~ not_decoded (play (Client_Popular page) l [true] false).2) /\
  (h = ProtoRequestHashList -> forall spare a e, ~ not_decoded (play (Client_Collection spare a e) l [true] false).2).

Lemma answers_understood h l : answers h l -> all_fit l -> understood h l.
Proof.
  intros Ha Hf. unfold understood. split_and!; intros ->; intros;
    eauto using query_decodes, find_decodes, collection_decodes;
    (eapply posts_decode; [|exact Ha|exact Hf|eexists; split; [reflexivity|reflexivity]]); auto.
Qed.
End Clients.

(** C23. The protocol is typed by the header of the request. Whatever message arrives and in
    whatever state the node is, what [RouteMessage] makes the node write is one of the answers
    of that request -- and nothing at all for a header it does not know; and as long as the
    answer fits into a message, every client of that request reads it as the value it asked
    for: it may find an entry with a bad signature, a hash list that does not match, or an
    answer that says no, but never a content of another kind than it decodes. *)
Theorem protocol_typed {C : Crypto} {D : Sqlite} {O : SqlOrder} {K : Msgpack} {KL : MsgpackLaws K} from msg lp :
  exists new, lp_written (RouteMessage msg (LocalPeer_handler from) lp).1 = lp_written lp ++ new /\
    answers (Header msg) new /\ (all_fit new -> understood (Header msg) new).
Proof.
  destruct (RouteMessage_answers from msg lp) as (new & E & Ha). exists new. eauto using answers_understood.
Qed.

#[local] Existing Instance toy_crypto.
#[local] Existing Instance toy_sqlite.
#[local] Existing Instance toy_order.
#[local] Existing Instance toy_msgpack.
#[local] Existing Instance toy_msgpack_laws.

Lemma protocol_typed_witness :
  exists new, lp_written (RouteMessage (Message_Write (VInt 0) (bare ProtoRecent)) (LocalPeer_handler toy_own) toy_peer).1 =
      lp_written toy_peer ++ new /\ answers ProtoRecent new /\ (all_fit new -> understood ProtoRecent new).
Proof. exact (protocol_typed toy_own (Message_Write (VInt 0) (bare ProtoRecent)) toy_peer). Defined.
