(* ===== verification/Directory.v ===== *)
(** An abstract directory, and the message handlers of the local peer together with
    the requests of a client as an implementation of it: over any sequence of
    announcements and queries the client sees what the directory answers. *)

From stdpp Require Import sorting.
From S2P Require Import Prelude GoLib Base58Check Crypto Address Entry Util Sqlite NetStore NetDB.
From S2P Require Import NetTable NetInv NetRun DHT DHTProps.
From S2P Require Import Post PieceStream PostDB PostDBProps DataProps Collection CollectionProps Proto LocalPeer Client PeerProps.

(** ** The abstract directory *)

(** The own entry, and the announced ones by the bytes of their addresses. *)
Record directory := mkDir { dir_own : Entry; dir_map : gmap string Entry }.

Inductive request := DAnnounce (e : Entry) | DQuery (a : Address).
Inductive dreply := DStored | DRefused | DFound (e : Entry) | DUnknown.

Definition dir_key (a : Address) : string := to_string (Raw a).

(** The newest announcement of an address counts; what is not valid is refused. *)
Definition dir_step {C : Crypto} (q : request) (d : directory) : directory * dreply :=
  match q with
  | DAnnounce e =>
      match Entry_Verify (Some e) with
      | Ok _ => (mkDir (dir_own d) (<[dir_key (EAddress e) := served e]> (dir_map d)), DStored)
      | _ => (d, DRefused)
      end
  | DQuery a =>
      if Address_Equals a (EAddress (dir_own d)) then (d, DFound (dir_own d))
      else (d, match dir_map d !! dir_key a with Some e => DFound e | None => DUnknown end)
  end.
Fixpoint dir_run {C : Crypto} (qs : list request) (d : directory) : directory * list dreply :=
  match qs with
  | [] => (d, [])
  | q :: qs' => let '(d', r) := dir_step q d in let '(d'', rs) := dir_run qs' d' in (d'', r :: rs)
  end.

(** ** The implementation *)

Section Implementation.
Context {C : Crypto} {D : Sqlite} {K : Msgpack}.

(** What the handlers write for the message of a client; [None] if they panic. *)
Definition handle_request (q : request) (lp : LocalPeer) : LocalPeer * option (list Message) :=
  let lp0 := set_written [] (lp_stream lp) lp in
  let '(lp', o) :=
    match q with
    | DAnnounce e => HandleAnnounce (Message_Write (VEntry e) (bare ProtoDhtAnnounce)) lp0
    | DQuery a => HandleQuery (Message_Write (VAddress a) (bare ProtoDhtQuery)) lp0
    end in
  (lp', match o with Panic => None | _ => Some (lp_written lp') end).

(** What the client makes of it. *)
Definition client_view (q : request) (answers : list Message) : option dreply :=
  match q with
  | DAnnounce e =>
      match (play (Client_Announce e) answers [true] false).2 with
      | Ok _ => Some DStored | Err _ => Some DRefused | Panic => None end
  | DQuery a =>
      match (play (Client_Query a) answers [true] false).2 with
      | Ok e => Some (DFound e) | Err _ => Some DUnknown | Panic => None end
  end.
Fixpoint serve (qs : list request) (lp : LocalPeer) : LocalPeer * list (option dreply) :=
  match qs with
  | [] => (lp, [])
  | q :: qs' =>
      let '(lp', out) := handle_request q lp in
      let '(lp'', rs) := serve qs' lp' in
      (lp'', (out ≫= client_view q) :: rs)
  end.
End Implementation.

(** ** Other rows stay *)

Section Frame.
Context {C : Crypto} {D : Sqlite} {L : SqliteLaws D}.

Definition row_is (b : string) (x : option entry_row) (d : Db) : Prop := find_address b d = x.

Lemma preserves_stmt {A} b x (f : Db -> Db * outcome A) :
  (forall d, find_address b (f d).1 = find_address b d) -> preserves (row_is b x) (sql_stmt f).
Proof.
  intros Hf d Hd. unfold row_is in *. unfold sql_stmt. cbn [faults Db_faulty].
  destruct (db_faults d) as [|[] fs]; [by rewrite Hf|done|by rewrite Hf].
Qed.

Lemma preserves_query {A} b x (f : Db -> outcome A) : preserves (row_is b x) (sql_query f).
Proof. by apply preserves_stmt. Qed.

Lemma other_row a b r : address_text a -> address_text b -> a <> b -> has_address a r = true -> has_address b r = false.
Proof.
  intros Ha Hb Hne. unfold has_address. rewrite !col_text_address by done. intros <-%String.eqb_eq. by apply String.eqb_neq.
Qed.

Lemma preserves_update a b x e : address_text a -> address_text b -> a <> b -> preserves (row_is b x) (sqlUpdateEntry a e).
Proof.
  intros Ha Hb Hne. unfold sqlUpdateEntry. case_match; [|apply preserves_fail]. apply preserves_stmt. intros d.
  unfold find_address. cbn [fst entries]. rewrite find_map.
  2: { intros r. destruct (has_address a r) eqn:E; [|done]. done. }
  destruct (List.find (has_address b) (entries d)) as [r|] eqn:Ef; [|done]. cbn.
  apply find_some in Ef as [_ Er]. destruct (has_address a r) eqn:E; [|done]. by rewrite (other_row a b r) in Er.
Qed.

Lemma preserves_insert a b x e : address_text a -> address_text b -> a <> b -> preserves (row_is b x) (sqlInsertEntry a e).
Proof.
  intros Ha Hb Hne. unfold sqlInsertEntry. case_match; [|apply preserves_fail]. apply preserves_stmt. intros d.
  destruct (find_address a d); [done|]. unfold find_address. cbn [fst entries]. rewrite find_app.
  destruct (List.find _ (entries d)); [done|]. cbn [List.find]. unfold has_address. cbn [row_of r_address].
  rewrite !col_text_address by done. by rewrite (proj2 (String.eqb_neq b a)) by done.
Qed.

Lemma preserves_seed b x p q : preserves (row_is b x) (InsertSeed p q).
Proof.
  unfold InsertSeed. apply preserves_bind; [apply preserves_try, preserves_query|]. intros r1.
  apply preserves_bind; [apply preserves_try, preserves_query|]. intros r2.
  destruct r1, r2; try apply preserves_fail. apply preserves_stmt. intros d. by case_bool_decide.
Qed.

(** Everything that [Insert] runs on the database leaves the row of another address. *)
Lemma Insert_other ndb e b : table_inv ndb -> Entry_Verify (Some e) = Ok tt -> addr_fresh (EAddress e) ->
  address_text b -> b <> addr_str (EAddress e) ->
  find_address b (conn (Insert e ndb).1) = find_address b (conn ndb).
Proof.
  intros Ht Hv Hfr Hb Hne. assert (length (Raw (EAddress e)) = AddressBinarySize) as Hl by (by apply Verify_iff in Hv as [[H _] _]).
  pose proof (addr_str_text (EAddress e) Hfr Hl) as Ha.
  destruct (insertIntoTable_run ndb (EAddress e) Ht Hl) as (ndb1 & i & Ei & _ & _ & _ & _ & Hc & _).
  rewrite (Insert_verified e ndb ndb1 Hv Ei). rewrite <-Hc.
  set (x := find_address b (conn ndb1)).
  assert (preserves (fun n => row_is b x (conn n)) (insert_body e)) as Hp; [|by apply Hp].
  assert (forall A (m : M Db A), preserves (row_is b x) m -> preserves (fun n => row_is b x (conn n)) (dbop m)) as Hd.
  { intros A m Hm n Hn. unfold dbop, zoom. specialize (Hm (conn n) Hn). by destruct (m (conn n)). }
  unfold insert_body. apply preserves_bind.
  { apply preserves_try, Hd. unfold Update. apply preserves_bind; [apply preserves_pure|]. intros _.
    apply preserves_bind; [apply preserves_try; by apply preserves_update|].
    intros [n|[]]; first [apply preserves_ret | apply preserves_fail]. }
  intros [n|err]; [|apply preserves_ret]. case_match; [apply preserves_ret|]. apply preserves_bind.
  { apply preserves_try, Hd. unfold insertIntoDB. apply preserves_bind; [by apply preserves_insert|].
    intros [k id]. case_match; [apply preserves_ret|]. apply preserves_bind; [|intros; apply preserves_ret].
    apply preserves_stmt. intros d. by case_bool_decide. }
  intros [k|err]; [|apply preserves_ret]. apply preserves_bind; [|intros; apply preserves_ret].
  apply preserves_try, Hd. unfold insertEntrySeeds.
  apply preserves_bind; [|intros _]; apply preserves_for_each; intros; apply preserves_seed.
Qed.
End Frame.

(** ** The simulation *)

Section Simulation.
Context {C : Crypto} {D : Sqlite} {L : SqliteLaws D} {K : Msgpack} {KL : MsgpackLaws K}.

(** The entry that a row stands for. *)
Definition row_entry (raw : bytes) (r : entry_row) : Entry := set_EAddress (raw_address raw) (entry_of_row r).

(** The local peer implements the directory: a healthy database without seeds whose
    rows are the announced entries, all valid and small enough for a message. *)
Record implements (lp : LocalPeer) (d : directory) : Prop := {
  im_inv : ndb_inv (lp_DHT lp);
  im_healthy : healthy (conn (lp_DHT lp));
  im_seeds : seeds (conn (lp_DHT lp)) = [];
  im_writable : lp_writable lp = true;
  im_own : dir_own d = lp_Entry lp;
  im_address : Raw (EAddress (lp_Entry lp)) = Raw (lp_address lp);
  im_own_ok : Entry_Verify (Some (lp_Entry lp)) = Ok tt /\ fits (VEntry (lp_Entry lp));
  im_rows raw : length raw = AddressBinarySize ->
    dir_map d !! to_string raw = row_entry raw <$> find_address (encoded raw) (conn (lp_DHT lp));
  im_valid k e : dir_map d !! k = Some e -> Entry_Verify (Some e) = Ok tt /\ fits (VEntry e);
}.

(** Requests for which the peer is a directory: [Verify] does not panic on an announced
    entry, it has no forged text for its address, no seeds and no seeding, which the peer
    keeps apart, and its texts are no numeric literals; the messages fit. *)
Definition admissible (q : request) : Prop :=
  match q with
  | DAnnounce e =>
      Entry_Verify (Some e) <> Panic /\ addr_fresh (EAddress e) /\ Updated e < 2 ^ 63 /\
      looks_textual (Name e) = true /\ looks_textual (Desc e) = true /\ looks_textual (PublicAddress e) = true /\
      Seeds e = [] /\ Seeding e = [] /\ fits (VEntry e) /\ fits (VEntry (served e))
  | DQuery a => length (Raw a) = AddressBinarySize /\ addr_fresh a /\ fits (VAddress a)
  end.

Definition fresh_out (lp : LocalPeer) : LocalPeer := set_written [] (lp_stream lp) lp.

Lemma announce_view e m : client_view (DAnnounce e) [m] = Some (if Message_Ok m then DStored else DRefused).
Proof.
  unfold client_view, Client_Announce. cbn [mbind Proc_mbind Proc_bind WriteMessage ReadMessage play].
  by destruct (Message_Ok m).
Qed.

Lemma query_view_found a e : fits (VEntry e) -> Entry_Verify (Some e) = Ok tt ->
  client_view (DQuery a) [Message_Write (VEntry e) (bare ProtoDhtQuery)] = Some (DFound e).
Proof.
  intros Hf Hv. unfold client_view, Client_Query. cbn [mbind Proc_mbind Proc_bind WriteMessage ReadMessage play].
  change (bool_decide (Header (Message_Write (VEntry e) (bare ProtoDhtQuery)) = ProtoNo)) with false.
  cbv iota. cbn [lift_out Proc_bind]. pose proof (read_fits (VEntry e) ProtoDhtQuery Hf) as HR.
  cbn [kind_of] in HR. rewrite HR, lift_out_bind. cbv beta iota. by rewrite Hv, lift_out_bind.
Qed.

Lemma query_view_unknown a m : client_view (DQuery a) [bare ProtoNo; m] = Some DUnknown.
Proof. reflexivity. Qed.

(** A refused announcement changes nothing. *)
Lemma step_refused e x lp d :
  implements lp d -> admissible (DAnnounce e) -> Entry_Verify (Some e) = Err x ->
  exists lp', handle_request (DAnnounce e) lp = (lp', Some [bare ProtoNo]) /\ implements lp' d.
Proof.
  intros H (_ & _ & _ & _ & _ & _ & _ & _ & Hf & _) Hx.
  exists (set_written [bare ProtoNo] (lp_stream lp) (set_DHT (lp_DHT lp) lp)). split; [|by destruct H; split].
  unfold handle_request, HandleAnnounce. rewrite (run_lift _ _ _ _ (read_fits (VEntry e) ProtoDhtAnnounce Hf)). cbv beta iota.
  unfold DHT_Insert. erewrite run_bind by (apply on_DHT_run; cbn [lp_DHT set_written]; apply insert_rejected; exact Hx). cbv beta iota.
  erewrite run_bind by (apply reply_run; apply H). done.
Qed.

Lemma served_row id e : addr_fresh (EAddress e) ->
  looks_textual (Name e) = true -> looks_textual (Desc e) = true -> looks_textual (PublicAddress e) = true ->
  row_entry (Raw (EAddress e)) (row_of id (addr_str (EAddress e)) e) = served e.
Proof.
  intros Hfr Hn Hds Hpa. unfold row_entry, entry_of_row, served, set_EAddress. cbn. by rewrite !col_text_textual.
Qed.

(** An accepted announcement is the newest entry of its address. *)
Lemma step_stored e lp d :
  implements lp d -> admissible (DAnnounce e) -> Entry_Verify (Some e) = Ok tt ->
  exists lp', handle_request (DAnnounce e) lp = (lp', Some [bare ProtoOk]) /\
    implements lp' (mkDir (dir_own d) (<[dir_key (EAddress e) := served e]> (dir_map d))).
Proof.
  intros H (_ & Hfr & Hu & Hn & Hds & Hpa & Hs1 & Hs2 & Hf1 & Hf2) Hv.
  destruct (Insert_run (lp_DHT lp) e) as (n & err & id & E & Hinv & Hh & Hrow & Hs & _); try apply H; try done.
  destruct (Hs Hs1 Hs2) as [-> Hseeds].
  assert (length (Raw (EAddress e)) = AddressBinarySize) as Hl by (by apply Verify_iff in Hv as [[Hl _] _]).
  pose proof (fun b => Insert_other (lp_DHT lp) e b (proj1 (im_inv _ _ H)) Hv Hfr) as Hother. rewrite E in Hother. cbn [fst] in Hother.
  exists (set_written [bare ProtoOk] (lp_stream lp) (set_DHT n lp)). split.
  { unfold handle_request, HandleAnnounce. rewrite (run_lift _ _ _ _ (read_fits (VEntry e) ProtoDhtAnnounce Hf1)). cbv beta iota.
    unfold DHT_Insert. erewrite run_bind by (apply on_DHT_run; cbn [lp_DHT set_written]; exact E). cbn [Z.ltb Z.compare].
    rewrite reply_run by apply H. done. }
  destruct H as [Hi1 Hh1 Hse Hw Hown Hadr Hok Hrows Hvalid]. split; try done; cbn [lp_DHT set_written set_DHT dir_map].
  - by rewrite Hseeds.
  - intros raw Hraw. unfold dir_key. rewrite lookup_insert. case_decide as Ek.
    + apply to_string_inj in Ek as <-. assert (encoded (Raw (EAddress e)) = addr_str (EAddress e)) as -> by (symmetry; by apply addr_str_fresh).
      rewrite Hrow. cbn [fmap option_fmap option_map]. f_equal. symmetry. by apply served_row.
    + rewrite Hother; [by apply Hrows|by exists raw|]. rewrite addr_str_fresh by done. intros Eq.
      apply encode_inj in Eq. by subst.
  - intros k e'. rewrite lookup_insert. case_decide; [|by apply Hvalid]. intros [= <-]. split; [by apply served_verifies|done].
Qed.

(** A query changes nothing the directory sees. *)
Lemma step_query a lp d :
  implements lp d -> admissible (DQuery a) ->
  exists lp' out, handle_request (DQuery a) lp = (lp', Some out) /\ implements lp' d /\
    client_view (DQuery a) out = Some (dir_step (DQuery a) d).2.
Proof.
  intros H (Hl & Hfr & Hf). unfold handle_request, HandleQuery, dir_step.
  rewrite (run_bind _ _ _ _ _ (read_address_run _ ProtoDhtQuery _ Hf)), run_get. rewrite (im_own _ _ H).
  assert (Address_Equals a (EAddress (lp_Entry lp)) = Address_Equals a (lp_address lp)) as ->
    by (unfold Address_Equals; by rewrite (im_address _ _ H)).
  cbn [lp_address set_written]. destruct (Address_Equals a (lp_address lp)) eqn:Eown.
  { unfold reply. cbn [lp_writable set_written]. rewrite (im_writable _ _ H). eexists _, _. split; [reflexivity|].
    split; [by destruct H; split|]. cbn [lp_written set_written lp_Entry app snd]. apply query_view_found; apply H. }
  pose proof (im_rows _ _ H (Raw a) Hl) as Hrow. unfold dir_key. rewrite Hrow. clear Hrow.
  rewrite <-(addr_str_fresh a Hfr : _ = encoded (Raw a)).
  destruct (find_address (addr_str a) (conn (lp_DHT lp))) as [r|] eqn:Er.
  - destruct (Query_present (lp_DHT lp) a r (im_inv _ _ H) (im_healthy _ _ H) Er)
      as (e & n & i & E & (Ha & _ & He & _) & M1 & M2 & Hra & _ & _ & _ & Hc & Hn & Hi).
    unfold seed_texts, seeding_texts in M1, M2. rewrite (im_seeds _ _ H) in M1, M2. cbn in M1, M2.
    apply map_eq_nil in M1, M2.
    assert (Raw (EAddress e) = Raw a) as Hraw.
    { destruct (find_address_Some _ _ _ Er) as [_ Hra2]. apply encode_inj.
      rewrite <-(addr_str_fresh a Hfr), <-(addr_str_fresh (EAddress e)) by (left; by rewrite Hra).
      rewrite <-Ha. rewrite Hra2. apply col_text_address. by apply addr_str_text. }
    assert (e = row_entry (Raw a) r) as ->.
    { rewrite He, M1, M2, Hra, Hraw. reflexivity. }
    assert (DHT_Query a (lp_DHT lp) = (n, Ok (Some (row_entry (Raw a) r)))) as Eq
      by (unfold DHT_Query; by rewrite (run_bind _ _ _ _ _ E)).
    erewrite run_bind by (apply on_DHT_run; exact Eq). cbv beta iota. rewrite run_ret, reply_run by apply H.
    assert (dir_map d !! to_string (Raw a) = Some (row_entry (Raw a) r)) as Hd.
    { rewrite (im_rows _ _ H (Raw a) Hl). rewrite <-(addr_str_fresh a Hfr : _ = encoded (Raw a)), Er. done. }
    destruct (im_valid _ _ H _ _ Hd) as [Hv Hfit]. eexists _, _. split; [reflexivity|]. split; [|by apply query_view_found].
    destruct H. split; try done; cbn [lp_DHT set_written set_DHT]; by rewrite ?Hc.
  - assert (DHT_Query a (lp_DHT lp) = (lp_DHT lp, Ok None)) as Eq.
    { unfold DHT_Query. by rewrite (run_bind _ _ _ _ _ (Query_absent _ _ (im_healthy _ _ H) Er)). }
    erewrite run_bind by (apply on_DHT_run; exact Eq). cbv beta iota.
    erewrite run_bind by (apply reply_run; apply H). rewrite reply_run by apply H. eexists _, _. split; [reflexivity|].
    split; [by destruct H; split|]. apply query_view_unknown.
Qed.

Lemma step_simulated q lp d :
  implements lp d -> admissible q ->
  exists lp' out, handle_request q lp = (lp', Some out) /\ implements lp' (dir_step q d).1 /\
    client_view q out = Some (dir_step q d).2.
Proof.
  intros H Hq. destruct q as [e|a].
  - cbn [dir_step]. destruct (Entry_Verify (Some e)) as [[]|x|] eqn:Hv; [| |by destruct Hq].
    + destruct (step_stored e lp d H Hq Hv) as (lp' & E & H'). exists lp', [bare ProtoOk]. by rewrite announce_view.
    + destruct (step_refused e x lp d H Hq Hv) as (lp' & E & H'). exists lp', [bare ProtoNo]. by rewrite announce_view.
  - destruct (step_query a lp d H Hq) as (lp' & out & E & H' & Hv). exists lp', out.
    split; [done|]. split; [|done]. cbn [dir_step]. by destruct (Address_Equals _ _).
Qed.
End Simulation.

(** C8. The peer is a directory for entries without seeds and seeding, while the statements
    of its database succeed and the messages are within their size: whatever entries are
    announced -- accepted or refused ones, as long as their check does not panic, their
    texts are not numeric literals and no other text is put for their address -- and
    whatever 20-byte addresses are queried, in any order, the answers that the clients make
    of the messages of the handlers are those of the abstract directory, no handler panics,
    and the peer still implements the directory that the requests lead to. *)
Theorem peer_refines_directory {C : Crypto} {D : Sqlite} {L : SqliteLaws D} {K : Msgpack} {KL : MsgpackLaws K}
    (qs : list request) (lp : LocalPeer) (d : directory) :
  implements lp d -> Forall admissible qs ->
  exists lp', serve qs lp = (lp', map Some (dir_run qs d).2) /\ implements lp' (dir_run qs d).1.
Proof.
  intros H Hqs. revert lp d H. induction Hqs as [|q qs Hq Hqs IH]; intros lp d H; cbn [serve dir_run].
  - exists lp. done.
  - destruct (step_simulated q lp d H Hq) as (lp1 & out & E & H1 & Hv). rewrite E.
    destruct (dir_step q d) as [d1 r]. cbn [fst snd] in *. destruct (IH lp1 d1 H1) as (lp2 & E2 & H2). rewrite E2.
    destruct (dir_run qs d1) as [d2 rs]. cbn [fst snd map] in *. exists lp2. split; [|done]. cbn. by rewrite Hv.
Qed.

(** ** Witness *)

#[local] Existing Instance toy_crypto.
#[local] Existing Instance toy_laws.
#[local] Existing Instance toy_sqlite.
#[local] Existing Instance toy_sqlite_laws.
#[local] Existing Instance toy_msgpack.
#[local] Existing Instance toy_msgpack_laws.

(** A peer that knows nobody yet, and three requests. *)
Definition toy_lonely : LocalPeer :=
  mkLP toy_signed (EAddress toy_signed) toy_sk toy_new toy_posts NewCollection ∅ None ∅ None 1500000000 [] [] true [].
Definition toy_directory : directory := mkDir toy_signed ∅.
Definition toy_requests : list request :=
  [DQuery (EAddress (toy_at "d" [])); DAnnounce (toy_at "d" []); DQuery (EAddress (toy_at "d" []))].

Lemma toy_implements : implements toy_lonely toy_directory.
Proof. split; try done. exact (toy_inv _ toy_new_reachable). Qed.

Lemma toy_admissible : Forall admissible toy_requests.
Proof.
  assert (admissible (DQuery (EAddress (toy_at "d" [])))) as Hq by (split_and!; [reflexivity|by left|apply toy_fits]).
  assert (admissible (DAnnounce (toy_at "d" []))) as Ha.
  { split_and!; first [apply toy_fits | by left | vm_compute; first [reflexivity | discriminate]]. }
  exact (Forall_cons_2 _ _ _ Hq (Forall_cons_2 _ _ _ Ha (Forall_cons_2 _ _ _ Hq (Forall_nil_2 _)))).
Qed.

Lemma peer_refines_directory_witness :
  exists lp', serve toy_requests toy_lonely = (lp', [Some DUnknown; Some DStored; Some (DFound (served (toy_at "d" [])))]).
Proof.
  destruct (peer_refines_directory toy_requests toy_lonely toy_directory toy_implements toy_admissible) as (lp' & E & _).
  exists lp'. rewrite E. vm_compute. reflexivity.
Defined.
