(* ===== verification/Peer.v ===== *)
(** A connected peer ([peer.go]) inside the whole node: the local peer, the peers by
    pointer, the maps of the peer manager, the network. Every request pings the peer,
    opens a stream, talks on it and closes it. *)

From stdpp Require Import sorting.
From S2P Require Import Prelude GoLib Crypto Address Entry Util Sqlite NetStore NetDB DHT.
From S2P Require Import Post PieceStream PostDB Collection Proto Handshake StreamManager LocalPeer Client.

(** [PeerManager]: the maps from the bytes of an address, as strings; the peers are
    pointers. A seed manager is the flag whether its goroutine still runs. *)
Record PeerManager := mkPM {
  pm_peers : gmap string nat;
  pm_peerSeen : gmap string Z;
  pm_publicToZif : gmap string Address;
  pm_seedManagers : gmap string bool;
  pm_socks : bool;
  pm_socksPort : Z;
}.

(** [Peer]; the callbacks are set together by [SetPeer], nil before it. *)
Record Peer := mkPeer {
  p_address : Address;
  p_publicKey : bytes;
  p_streams : StreamManager;
  p_entry : option Entry;
  p_seed : bool;
  p_seedFor : option Entry;
  p_capabilities : MessageCapabilities;
  p_managed : bool;
}.

Section Peer.
Context {C : Crypto} {D : Sqlite} {R : SqlOrder} {K : Msgpack} {W : Network}.

(** The node. [nd_clock] are the coming readings of the clock in nanoseconds. *)
Record Node := mkNode {
  nd_lp : LocalPeer;
  nd_caps : MessageCapabilities;
  nd_heap : list Peer;
  nd_pm : PeerManager;
  nd_net : net;
  nd_clock : nat -> Z;
  nd_blocked : bool;
}.

Definition set_lp (x : LocalPeer) (s : Node) : Node :=
  mkNode x (nd_caps s) (nd_heap s) (nd_pm s) (nd_net s) (nd_clock s) (nd_blocked s).
Definition set_heap (x : list Peer) (s : Node) : Node :=
  mkNode (nd_lp s) (nd_caps s) x (nd_pm s) (nd_net s) (nd_clock s) (nd_blocked s).
Definition set_pm (x : PeerManager) (s : Node) : Node :=
  mkNode (nd_lp s) (nd_caps s) (nd_heap s) x (nd_net s) (nd_clock s) (nd_blocked s).
Definition set_net (x : net) (s : Node) : Node :=
  mkNode (nd_lp s) (nd_caps s) (nd_heap s) (nd_pm s) x (nd_clock s) (nd_blocked s).
Definition set_clock (x : nat -> Z) (s : Node) : Node :=
  mkNode (nd_lp s) (nd_caps s) (nd_heap s) (nd_pm s) (nd_net s) x (nd_blocked s).
Definition set_blocked (s : Node) : Node :=
  mkNode (nd_lp s) (nd_caps s) (nd_heap s) (nd_pm s) (nd_net s) (nd_clock s) true.

Definition on_lp {A} (m : M LocalPeer A) : M Node A := zoom nd_lp set_lp m.
Definition nd_DHT {A} (m : M NetDB A) : M Node A := on_lp (on_DHT m).
Definition nd_talk {A} (m : M net A) : M Node A := zoom nd_net set_net m.

(** A channel operation that never completes: nothing after it runs. *)
Definition block {A} : M Node A := _ ← modify set_blocked; lift Panic.

(** [time.Now().UnixNano()]. *)
Definition now : M Node Z :=
  s ← get;
  _ ← modify (set_clock (fun i => nd_clock s (S i)));
  mret (nd_clock s 0%nat).

(** ** Peers by pointer *)

Definition key (a : Address) : string := to_string (Raw a).

Definition deref (p : nat) : M Node Peer :=
  s ← get; match nd_heap s !! p with Some x => mret x | None => lift Panic end.
Definition store (p : nat) (x : Peer) : M Node unit := modify (fun s => set_heap (<[p := x]> (nd_heap s)) s).
Definition new_peer (x : Peer) : M Node nat :=
  s ← get; _ ← modify (set_heap (nd_heap s ++ [x])); mret (length (nd_heap s)).

Definition set_streams (sm : StreamManager) (p : Peer) : Peer :=
  mkPeer (p_address p) (p_publicKey p) sm (p_entry p) (p_seed p) (p_seedFor p) (p_capabilities p) (p_managed p).
Definition set_entry (e : option Entry) (p : Peer) : Peer :=
  mkPeer (p_address p) (p_publicKey p) (p_streams p) e (p_seed p) (p_seedFor p) (p_capabilities p) (p_managed p).
Definition set_seed (b : bool) (e : option Entry) (p : Peer) : Peer :=
  mkPeer (p_address p) (p_publicKey p) (p_streams p) (p_entry p) b e (p_capabilities p) (p_managed p).
Definition set_managed (p : Peer) : Peer :=
  mkPeer (p_address p) (p_publicKey p) (p_streams p) (p_entry p) (p_seed p) (p_seedFor p) (p_capabilities p) true.
Definition set_header (e : Entry) (caps : MessageCapabilities) (p : Peer) : Peer :=
  mkPeer (EAddress e) (PublicKey e) (p_streams p) (p_entry p) (p_seed p) (p_seedFor p) caps (p_managed p).

Definition Peer_zero : Peer := mkPeer (raw_address []) [] SM_zero None false None (mkCaps []) false.

(** Code on the streams of a peer. *)
Definition on_streams {A} (p : nat) (m : M SMS A) : M Node A :=
  x ← deref p;
  s ← get;
  let '((sm, n), o) := m (p_streams x, nd_net s) in
  _ ← modify (fun s => set_net n (set_heap (<[p := set_streams sm x]> (nd_heap s)) s));
  lift o.

(** [UpdateSeen]. *)
Definition set_peerSeen (m : gmap string Z) (pm : PeerManager) : PeerManager :=
  mkPM (pm_peers pm) m (pm_publicToZif pm) (pm_seedManagers pm) (pm_socks pm) (pm_socksPort pm).
Definition seen_now (a : Address) : M Node unit :=
  t ← now;
  modify (fun s => set_pm (set_peerSeen (<[key a := t]> (pm_peerSeen (nd_pm s))) (nd_pm s)) s).
Definition Peer_UpdateSeen (p : nat) : M Node unit :=
  x ← deref p;
  if p_managed x then seen_now (p_address x) else mret tt.

(** [Ping(timeOut)]; an answer that comes too late is an error of the session. *)
Definition Peer_Ping (p : nat) : M Node unit :=
  x ← deref p;
  match SM_GetSession (p_streams x) with
  | None => fail (ErrText "No session")
  | Some session =>
      s ← get;
      if session_IsClosed session (nd_net s) then fail (ErrText "Session closed")
      else nd_talk (net_ok (session_Ping session))
  end.

(** [OpenStream]. *)
Definition Peer_OpenStream (p : nat) : M Node Z :=
  _ ← Peer_Ping p;
  _ ← Peer_UpdateSeen p;
  on_streams p SM_OpenStream.

(** [defer stream.Close()] around the code that follows. *)
Definition closing {A} (stream : Z) (body : M Node A) : M Node A :=
  r ← try body;
  _ ← nd_talk (modify (net_close stream));
  match r with inl a => mret a | inr e => fail e end.

(** A request: ping, open a stream, talk, close the stream whatever comes out. *)
Definition request {A} (p : nat) (proc : Proc A) : M Node A :=
  _ ← Peer_Ping p;
  stream ← Peer_OpenStream p;
  closing stream (nd_talk (converse stream proc)).

(** A [common.Verifier]: nil, or a pointer to an entry that may itself be nil. An
    interface that holds a nil pointer is not nil. [as_entry] is [v.( *dht.Entry)]
    followed by a dereference. *)
Definition Verifier : Type := option (option Entry).
Definition as_entry (v : Verifier) : outcome Entry :=
  match v with Some (Some e) => Ok e | _ => Panic end.

(** [Query], [FindClosest], [Search] (with the address as the source), [Recent] and
    [Popular]. *)
Definition Peer_Query (p : nat) (address : Address) : M Node Verifier :=
  entry ← request p (Client_Query address); mret (Some (Some entry)).
Definition Peer_FindClosest (p : nat) (address : Address) : M Node (list (option Entry)) :=
  request p (Client_FindClosest address).
Record SearchResult := mkSearchResult { SR_Posts : list Post; SR_Source : string }.
Definition Peer_Search (p : nat) (search : string) (page : Z) : M Node SearchResult :=
  posts ← request p (Client_Search search page);
  x ← deref p;
  mret (mkSearchResult posts (addr_str (p_address x))).
Definition Peer_Recent (p : nat) (page : Z) : M Node (list Post) := request p (Client_Recent page).
Definition Peer_Popular (p : nat) (page : Z) : M Node (list Post) := request p (Client_Popular page).

(** [Announce(lp)]; [external_ip] is what [ExternalIp] fetches. *)
Definition set_PublicAddress (a : string) (e : Entry) : Entry :=
  mkEntry (EAddress e) (Name e) (Desc e) a (PublicKey e) (PostCount e) (Updated e)
    (Signature e) (CollectionHash e) (Port e) (Seeds e) (Seeding e) (Seen e) (distance e).
Definition Peer_Announce (external_ip : string) (p : nat) : M Node unit :=
  _ ← Peer_Ping p;
  s ← get;
  _ ← (if bool_decide (PublicAddress (lp_Entry (nd_lp s)) = ""%string)
       then on_lp (modify (fun lp => set_Entry (set_PublicAddress external_ip (lp_Entry lp)) lp)) else mret tt);
  _ ← on_lp LocalPeer_SignEntry;
  stream ← Peer_OpenStream p;
  s ← get;
  closing stream (nd_talk (converse stream (Client_Announce (lp_Entry (nd_lp s))))).

(** [Connect(addr, lp)]: the result of the insert is not looked at. *)
Definition nd_signer (s : Node) : Signer := mkSigner (LocalPeer_Sign (lp_privateKey (nd_lp s))) (nd_caps s).
Definition Peer_Connect (rand : nat -> option bytes) (p : nat) (addr : string) : M Node unit :=
  s ← get;
  pair ← on_streams p (SM_OpenTCP rand addr (nd_signer s) (lp_Entry (nd_lp s)));
  x ← deref p;
  _ ← store p (set_header (ch_Entry pair) (ch_Capabilities pair) x);
  _ ← nd_DHT (DHT_Insert (ch_Entry pair));
  mret tt.

(** [SetTCP(header)]: the capabilities are not taken over. *)
Definition Peer_SetTCP (p : nat) (header : ConnHeader) : M Node unit :=
  x ← deref p;
  store p (set_header (ch_Entry header) (p_capabilities x) (set_streams (SM_SetConnection header (p_streams x)) x)).

(** [ConnectServer] and [ConnectClient]; the latter also starts to listen. *)
Definition Peer_ConnectServer (p : nat) : M Node Z := on_streams p SM_ConnectServer.
Definition Peer_ConnectClient (p : nat) : M Node Z := on_streams p SM_ConnectClient.
Definition Peer_Terminate (p : nat) : M Node unit := on_streams p SM_Close.

(** [GetEntry] asks the peer, [Entry] answers from the cache. *)
Definition Peer_GetEntry (p : nat) : M Node Entry :=
  _ ← Peer_Ping p;
  x ← deref p;
  e ← Peer_Query p (p_address x);
  entry ← lift (as_entry e);
  x ← deref p;
  if negb (Address_Equals (EAddress entry) (p_address x)) then fail (ErrText "Failed to fetch entry")
  else _ ← store p (set_entry (Some entry) x); mret entry.
Definition Peer_Entry (p : nat) : M Node Entry :=
  x ← deref p;
  match p_entry x with Some e => mret e | None => Peer_GetEntry p end.

(** [Bootstrap(d)]. *)
Definition Peer_Bootstrap (p : nat) : M Node unit :=
  _ ← Peer_Ping p;
  stream ← Peer_OpenStream p;
  s ← get;
  let address := ndb_addr (lp_DHT (nd_lp s)) in
  closing stream
    (peers ← nd_talk (converse stream (Client_FindClosest address));
     nd_DHT (Client_Bootstrap (Ok peers) address)).

(** ** Seeding *)

(** [AddSeedManager(addr)]: a manager that is already there is left as it is. *)
Definition set_seedManagers (m : gmap string bool) (pm : PeerManager) : PeerManager :=
  mkPM (pm_peers pm) (pm_peerSeen pm) (pm_publicToZif pm) m (pm_socks pm) (pm_socksPort pm).
Definition PM_AddSeedManager (addr : Address) : M Node unit :=
  s ← get;
  if bool_decide (is_Some (pm_seedManagers (nd_pm s) !! key addr)) then mret tt
  else
    _ ← on_lp (LocalPeer_QueryEntry addr);
    modify (fun s => set_pm (set_seedManagers (<[key addr := true]> (pm_seedManagers (nd_pm s))) (nd_pm s)) s).

(** [RequestAddPeer(entry)]: the callbacks of a peer that is not managed are nil.
    The local peer registers itself as a seed unless the entry lists itself as one. *)
Definition Peer_RequestAddPeer (p : nat) (entry : Entry) : M Node unit :=
  _ ← request p (Client_RequestAddPeer (EAddress entry));
  x ← deref p;
  if negb (p_managed x) then lift Panic
  else
    _ ← PM_AddSeedManager (EAddress entry);
    if existsb (fun i => Address_Equals (raw_address i) (EAddress entry)) (Seeds entry) then mret tt
    else on_lp (LocalPeer_AddSeeding entry).

(** ** Mirroring *)

(** The pieces against the hash list, from the [i]-th hash on: what was sent to the
    database, and the error of the first mismatch. *)
Fixpoint mirror_loop (pieces : list Piece) (i : Z) (hl : gobytes) : outcome (list Piece * option error) :=
  match pieces with
  | [] => Ok ([], None)
  | piece :: rest =>
      hash ← Piece_Hash piece;
      if 32 * i + 32 <=? Z.of_nat (g_cap hl) then
        if bool_decide (take 32 (drop (Z.to_nat (32 * i)) (g_array hl)) = hash) then
          r ← mirror_loop rest (i + 1) hl; Ok (piece :: r.1, r.2)
        else Ok ([], Some (ErrText "Piece hash mismatch"))
      else Panic
  end.

(** [InsertPieces] of a channel that is never ended: it waits with its last
    transaction open, so that only the earlier ones stay. *)
Definition InsertPieces_unfinished (pieces : list Piece) : M PostDb unit :=
  snap ← get;
  b ← try sql_nop;
  match b with
  | inr e => fail e
  | inl _ => r ← insert_pieces_loop (map Some pieces) 0 snap; modify (rollback r.1)
  end.

(** Code on the mirrored database that is registered as [name]. *)
Definition on_mirror {A} (name : string) (m : M PostDb A) : M Node A :=
  s ← get;
  match lp_Databases (nd_lp s) !! name with
  | None => lift Panic
  | Some db =>
      let '(db', o) := m db in
      _ ← on_lp (modify (set_Databases (<[name := db']> (lp_Databases (nd_lp s)))));
      lift o
  end.

Definition set_collection_files (f : gmap string bytes) (lp : LocalPeer) : LocalPeer :=
  mkLP (lp_Entry lp) (lp_address lp) (lp_privateKey lp) (lp_DHT lp) (lp_Database lp) (lp_Collection lp)
    (lp_Databases lp) (lp_collection_file lp) f (lp_entry_file lp) (lp_clock lp)
    (lp_written lp) (lp_stream lp) (lp_writable lp) (lp_file_faults lp).

(** ./data/<address>/collection.dat. *)
Definition mirrored_dat (address : string) (hashList : bytes) (cut : option nat) (lp : LocalPeer) : LocalPeer :=
  set_collection_files
    (<[address := match cut with None => hashList | Some n => take n hashList end]> (lp_collection_files lp)) lp.

(** The owner's entry, which a seed is asked for too. *)
Definition mirror_entry (p : nat) : M Node Entry :=
  x ← deref p;
  if p_seed x then
    match p_seedFor x with
    | None => lift Panic
    | Some owner => e ← Peer_Query p (EAddress owner); lift (as_entry e)
    end
  else _ ← Peer_GetEntry p; Peer_Entry p.

(** What [Pieces] delivers on the stream; without one the loop waits on a nil
    channel. *)
Definition fetch_pieces (stream : Z) (address : Address) (since size : Z) : M Node (list Piece) :=
  r ← try (nd_talk (converse stream (Client_Pieces_request address since size)));
  match r with
  | inr _ => block
  | inl _ =>
      received ← nd_talk (fun n => let '(n', b) := raw_read stream n in (n', Ok b));
      mret (Client_Pieces received size)
  end.

(** The download into the database registered as [db]; the goroutine that inserts
    runs after the loop, as it only waits for pieces. *)
Definition mirror_pieces (db : string) (p : nat) (entry : Entry) (mcol : MessageCollection) (count : Z) : M Node unit :=
  let currentStore := (count + Z.of_nat PieceSize - 1) / Z.of_nat PieceSize in
  let since := if negb (currentStore =? 0) then currentStore - 1 else 0 in
  pieceStream ← Peer_OpenStream p;
  closing pieceStream
    (pieces ← fetch_pieces pieceStream (EAddress entry) since (MC_Size mcol);
     r ← lift (mirror_loop pieces 0 (MC_HashList mcol));
     match r.2 with
     | Some e => _ ← try (on_mirror db (InsertPieces_unfinished r.1)); fail e
     | None =>
         a ← try (Peer_RequestAddPeer p entry);
         x ← deref p;
         _ ← store p (set_seed false None x);
         _ ← try (on_mirror db (Database_InsertPieces (map Some r.1 ++ [None])));
         match a with inl _ => mret tt | inr e => fail e end
     end).

(** [Mirror(db, lp, onPiece)]. *)
Definition Peer_Mirror (spare : nat) (db : string) (p : nat) : M Node unit :=
  _ ← Peer_Ping p;
  entry ← mirror_entry p;
  x ← deref p;
  if negb (p_managed x) then lift Panic
  else
    _ ← try (on_lp (LocalPeer_AddEntry entry));
    stream ← Peer_OpenStream p;
    closing stream
      (mcol ← nd_talk (converse stream (Client_Collection spare (EAddress entry) entry));
       _ ← on_lp (WriteFile (mirrored_dat (addr_str (EAddress entry)) (g_contents (MC_HashList mcol))));
       count ← on_mirror db Database_PostCount;
       if count =? PostCount entry then mret tt else mirror_pieces db p entry mcol count).
End Peer.
