(* ===== verification/PeerManager.v ===== *)
(** The peer manager ([peermanager.go]): connecting to peers, keeping at most a
    number of them, resolving addresses over the network; the tracking of seeds
    ([seedmanager.go]). *)

From stdpp Require Import sorting.
From S2P Require Import Prelude GoLib Crypto Address Entry Util Sqlite NetStore NetDB DHT.
From S2P Require Import Post PieceStream PostDB Collection Proto Handshake StreamManager LocalPeer Client Peer.

Definition PeerUnreachable : error := ErrText "Peer could not be reached".
Definition PeerDisconnected : error := ErrText "Peer has disconnected".
Definition RecursionLimit : error := ErrText "Recursion limit reached, peer cannot be resolved".

Definition NewPeerManager : PeerManager := mkPM ∅ ∅ ∅ ∅ false 0.

Section PeerManager.
Context {C : Crypto} {D : Sqlite} {R : SqlOrder} {K : Msgpack} {W : Network}.

(** The random source of handshakes, the configured number of peers
    ([net.maxPeers]), and the order in which a concurrent map is iterated. *)
Context (rand : nat -> option bytes) (maxPeers : Z).
Context (iter : gmap string Z -> list (string * Z)).

Definition set_peers (m : gmap string nat) (pm : PeerManager) : PeerManager :=
  mkPM m (pm_peerSeen pm) (pm_publicToZif pm) (pm_seedManagers pm) (pm_socks pm) (pm_socksPort pm).
Definition set_publicToZif (m : gmap string Address) (pm : PeerManager) : PeerManager :=
  mkPM (pm_peers pm) (pm_peerSeen pm) m (pm_seedManagers pm) (pm_socks pm) (pm_socksPort pm).
Definition on_pm (f : PeerManager -> PeerManager) : M Node unit := modify (fun s => set_pm (f (nd_pm s)) s).

(** [Count], [GetPeer]. *)
Definition PM_Count (pm : PeerManager) : Z := Z.of_nat (size (pm_peers pm)).
Definition PM_GetPeer (addr : Address) (pm : PeerManager) : option nat := pm_peers pm !! key addr.

(** [HandleCloseConnection(addr)]: the seed manager of the address is told to stop;
    one that has stopped does not receive any more. *)
Definition PM_HandleCloseConnection (addr : Address) : M Node unit :=
  _ ← on_pm (fun pm => set_peers (delete (key addr) (pm_peers pm)) pm);
  _ ← on_pm (fun pm => set_peerSeen (delete (key addr) (pm_peerSeen pm)) pm);
  s ← get;
  match pm_seedManagers (nd_pm s) !! key addr with
  | None => mret tt
  | Some true => on_pm (fun pm => set_seedManagers (<[key addr := false]> (pm_seedManagers pm)) pm)
  | Some false => block
  end.

(** The search for the least recently seen peer: the last one of the iteration that
    was seen before [t]. *)
Definition oldest (t : Z) (seen : list (string * Z)) : string :=
  fold_left (fun k (i : string * Z) => if i.2 <? t then i.1 else k) seen ""%string.

(** The loop that makes room; [fuel] bounds its rounds, of which each removes a peer
    or is the last. *)
Fixpoint evict_loop (fuel : nat) : M Node unit :=
  s ← get;
  if maxPeers <? PM_Count (nd_pm s) then
    match fuel with
    | O => mret tt
    | S f =>
        t ← now;
        s ← get;
        match pm_peers (nd_pm s) !! oldest t (iter (pm_peerSeen (nd_pm s))) with
        | None => mret tt
        | Some peer =>
            _ ← Peer_Terminate peer;
            x ← deref peer;
            _ ← PM_HandleCloseConnection (p_address x);
            evict_loop f
        end
    end
  else mret tt.

(** [SetPeer(p)]; the heartbeat and the announcements are goroutines. *)
Definition PM_SetPeer (p : nat) : M Node unit :=
  x ← deref p;
  s ← get;
  if bool_decide (is_Some (pm_peers (nd_pm s) !! key (p_address x))) then mret tt
  else
    r ← try (Peer_Entry p);
    match r with
    | inr _ => mret tt
    | inl e =>
        x ← deref p;
        _ ← on_pm (fun pm => set_publicToZif (<[PublicAddress e := p_address x]> (pm_publicToZif pm)) pm);
        _ ← store p (set_managed x);
        _ ← on_pm (fun pm => set_peers (<[key (p_address x) := p]> (pm_peers pm)) pm);
        _ ← seen_now (p_address x);
        s ← get;
        evict_loop (size (pm_peers (nd_pm s)))
    end.

(** One tick of [heartbeatPeer]: whether the goroutine goes on. A peer without a
    heartbeat is closed twice, by the body and by the deferred call. *)
Definition heartbeat_tick (p : nat) : M Node bool :=
  x ← deref p;
  s ← get;
  if negb (bool_decide (is_Some (pm_peers (nd_pm s) !! key (p_address x)))) then
    _ ← PM_HandleCloseConnection (p_address x); mret false
  else
    r ← try (Peer_Ping p);
    match r with
    | inl _ => mret true
    | inr _ =>
        _ ← PM_HandleCloseConnection (p_address x);
        _ ← PM_HandleCloseConnection (p_address x);
        mret false
    end.

(** The [announce] of [announcePeer], run at once and on every tick. *)
Definition announce_tick (external_ip : string) (p : nat) : M Node unit :=
  x ← deref p;
  s ← get;
  if negb (bool_decide (is_Some (pm_peers (nd_pm s) !! key (p_address x)))) then fail PeerDisconnected
  else Peer_Announce external_ip p.

(** [LoadSeeds()] from the bytes of [seeding.dat]. *)
Fixpoint load_seeds (n : nat) (file : bytes) : M Node unit :=
  match n with
  | O => mret tt
  | S n' => _ ← try (PM_AddSeedManager (raw_address (take 20 file))); load_seeds n' (drop 20 file)
  end.
Definition PM_LoadSeeds (file : option bytes) : M Node unit :=
  match file with
  | None => fail ErrEOF
  | Some f => load_seeds (length f / 20) f
  end.

(** [ConnectPeerDirect(addr)]: a peer that is connected under this public address is
    reused. The errors of [ConnectClient] are not looked at. *)
Definition PM_ConnectPeerDirect (addr : string) : M Node nat :=
  s ← get;
  let known := match pm_publicToZif (nd_pm s) !! addr with
               | Some zifAddr => PM_GetPeer zifAddr (nd_pm s)
               | None => None
               end in
  match known with
  | Some peer => mret peer
  | None =>
      peer ← new_peer (set_streams (if pm_socks (nd_pm s)
               then SM_SetSocks true (pm_socksPort (nd_pm s)) SM_zero else SM_zero) Peer_zero);
      r ← try (Peer_Connect rand peer addr);
      match r with
      | inr _ => fail PeerUnreachable
      | inl _ =>
          _ ← try (Peer_ConnectClient peer);
          _ ← PM_SetPeer peer;
          mret peer
      end
  end.

(** ** Resolving *)

(** [resolveStep(e, addr, depth)]: the depth is shared by all calls. A nil [e] is
    dereferenced. [fuel] is for the nested calls, of which the depth allows six. *)
Fixpoint resolveStep (fuel : nat) (e : option Entry) (addr : Address) (depth : Z) : M Node (Z * (option Entry + error)) :=
  match fuel with
  | O => lift Panic
  | S f =>
      if depth =? 0 then mret (depth, inr RecursionLimit)
      else
        let depth := depth - 1 in
        match e with
        | None => lift Panic
        | Some e =>
            s ← get;
            peer ← (match PM_GetPeer (EAddress e) (nd_pm s) with
                    | Some p => mret (inl p)
                    | None => try (PM_ConnectPeerDirect (PublicAddress e +:+ ":" +:+ Itoa (Port e)))
                    end);
            match peer with
            | inr err => mret (depth, inr err)
            | inl peer =>
                kv ← try (Peer_Query peer addr);
                match kv with
                | inr err => mret (depth, inr err)
                | inl kv =>
                    match kv with
                    | Some entry => mret (depth, inl entry)
                    | None =>
                        closest ← try (Peer_FindClosest peer addr);
                        match closest with
                        | inr err => mret (depth, inr err)
                        | inl closest =>
                            (fix go (l : list (option Entry)) (depth : Z) : M Node (Z * (option Entry + error)) :=
                               match l with
                               | [] => mret (depth, inr (ErrText "No entries could be found"))
                               | i :: l' =>
                                   r ← resolveStep f i addr depth;
                                   match r.2 with
                                   | inr err => mret (r.1, inr err)
                                   | inl (Some result) => mret (r.1, inl (Some result))
                                   | inl None => go l' r.1
                                   end
                               end) closest depth
                        end
                    end
                end
            end
        end
  end.

(** The loop of [Resolve] over the closest known entries. *)
Fixpoint resolve_loop (fuel : nat) (closest : list (option Entry)) (addr : Address) (depth : Z) : M Node Entry :=
  match closest with
  | [] => fail (ErrText "Address could not be resolved")
  | i :: rest =>
      r ← resolveStep fuel i addr depth;
      match r.2 with
      | inr err => if bool_decide (err = RecursionLimit) then fail err else resolve_loop fuel rest addr r.1
      | inl None => resolve_loop fuel rest addr r.1
      | inl (Some entry) =>
          if Address_Equals (EAddress entry) addr then
            _ ← nd_DHT (DHT_Insert entry); mret entry
          else resolve_loop fuel rest addr r.1
      end
  end.

(** [Resolve(addr)]; the depth is 6. *)
Definition PM_Resolve (addr : Address) : M Node Entry :=
  s ← get;
  if Address_Equals addr (lp_address (nd_lp s)) then mret (lp_Entry (nd_lp s))
  else
    r ← try (nd_DHT (DHT_Query addr));
    kv ← (match r with
          | inl kv => mret kv
          | inr ErrNoRows => mret None
          | inr e => fail e
          end);
    match kv with
    | Some e => mret e
    | None =>
        closest ← nd_DHT (DHT_FindClosest addr);
        resolve_loop 7 closest addr 6
    end.

(** [ConnectPeer(addr)]: the entry comes with some of the errors. *)
Definition PM_ConnectPeer (addr : Address) : M Node (nat * Entry + error * option Entry) :=
  r ← try (PM_Resolve addr);
  match r with
  | inr e => mret (inr (e, None))
  | inl entry =>
      s ← get;
      if Address_Equals (EAddress entry) (lp_address (nd_lp s))
      then mret (inr (ErrText "Cannot connect to self", None))
      else
        match PM_GetPeer (EAddress entry) (nd_pm s) with
        | Some peer => mret (inl (peer, entry))
        | None =>
            c ← try (PM_ConnectPeerDirect (PublicAddress entry +:+ ":" +:+ Itoa (Port entry)));
            match c with
            | inr e => mret (inr (e, Some entry))
            | inl peer => mret (inl (peer, entry))
            end
        end
  end.
End PeerManager.
