(* ===== verification/PeerManagerProps.v ===== *)
(** The properties of the peer manager: what resolving an address returns on any
    network and how many peers it asks, and that the number of connected peers stays
    bounded. *)

From stdpp Require Import sorting.
From S2P Require Import Prelude GoLib Base58Check Crypto Address Entry Util Sqlite NetStore NetDB NetTable NetInv NetRun DHT DHTProps.
From S2P Require Import Post PieceStream PostDB DataProps Collection Proto Handshake StreamManager LocalPeer Client Peer PeerManager.

Section Resolve.
Context {C : Crypto} {D : Sqlite} {R : SqlOrder} {K : Msgpack} {W : Network}.
Context (rand : nat -> option bytes) (maxPeers : Z) (iter : gmap string Z -> list (string * Z)).

(** ** Talking *)

(** A query that a client accepts is a verified entry, whatever the network said. *)
Lemma converse_Query c a n n' e : converse c (Client_Query a) n = (n', Ok e) -> Entry_Verify (Some e) = Ok tt.
Proof.
  unfold Client_Query. cbn [mbind Proc_mbind Proc_bind WriteMessage ReadMessage converse].
  destruct (net_write _ _ _) as [n1 [|]]; [|by intros [=]]. cbn [converse].
  destruct (net_read c n1) as [n2 [m|]]; [|by intros [=]].
  case_bool_decide; [by intros [=]|]. cbn [lift_out].
  destruct (Message_Read KEntry m) as [v| |]; cbn [mbind Proc_mbind Proc_bind converse]; try by intros [=].
  destruct v; cbn [converse]; try by intros [=].
  intros Hq. cbn [mbind Proc_mbind Proc_bind lift_out] in Hq.
  destruct (Entry_Verify (Some e0)) as [[]|err|] eqn:E; cbn [converse mret Proc_ret] in Hq; by simplify_eq.
Qed.

Lemma request_Ok {A} p (proc : Proc A) s s' a :
  request p proc s = (s', Ok a) -> exists c n n', converse c proc n = (n', Ok a).
Proof.
  intros (s1 & [] & _ & H)%bind_Ok. apply bind_Ok in H as (s2 & st & _ & H). unfold closing in H.
  apply bind_Ok in H as (s3 & r & E & H). apply bind_Ok in H as (s4 & [] & _ & H).
  destruct r as [b|e]; [|done]. injection H as _ ->. unfold try, nd_talk, zoom in E.
  destruct (converse st proc (nd_net s2)) as [n' [x| |]] eqn:Ec; simplify_eq. eauto.
Qed.

Lemma Peer_Query_Ok p a s s' v : Peer_Query p a s = (s', Ok v) -> exists e, v = Some (Some e) /\ Entry_Verify (Some e) = Ok tt.
Proof.
  intros (s1 & e & E & H)%bind_Ok. injection H as _ <-. exists e. split; [done|].
  apply request_Ok in E as (c & n & n' & E). by eapply converse_Query.
Qed.

(** ** One step *)

(** What a step comes to: one question to the peer of the entry. *)
Definition ask_peer (e : Entry) (addr : Address) (depth : Z) : M Node (Z * (option Entry + error)) :=
  s ← get;
  peer ← (match PM_GetPeer (EAddress e) (nd_pm s) with
          | Some p => mret (inl p)
          | None => try (PM_ConnectPeerDirect rand maxPeers iter (PublicAddress e +:+ ":" +:+ Itoa (Port e)))
          end);
  match peer with
  | inr err => mret (depth, inr err)
  | inl peer =>
      r ← try (request peer (Client_Query addr));
      mret (depth, match r with inl e => inl (Some e) | inr err => inr err end)
  end.

Lemma resolveStep_ask fuel e addr depth s :
  depth <> 0 -> resolveStep rand maxPeers iter (S fuel) (Some e) addr depth s = ask_peer e addr (depth - 1) s.
Proof.
  intros Hd. cbn [resolveStep]. rewrite (proj2 (Z.eqb_neq _ _) Hd). unfold ask_peer. rewrite !run_get.
  match goal with |- (?m ≫= _) s = _ => generalize m end. intros m.
  unfold Peer_Query, try, mbind, M_bind. destruct (m s) as [s1 [[p|err]|e1|]]; try done.
  by destruct (request p (Client_Query addr) s1) as [s2 [a|e2|]].
Qed.

Lemma ask_peer_result e addr depth s s' d r :
  ask_peer e addr depth s = (s', Ok (d, r)) ->
  d = depth /\ (forall x, r = inl x -> exists entry, x = Some entry /\ Entry_Verify (Some entry) = Ok tt).
Proof.
  unfold ask_peer. rewrite run_get. intros (s1 & peer & _ & H)%bind_Ok. destruct peer as [p|err].
  - apply bind_Ok in H as (s2 & q & E & H). injection H as _ <- <-. split; [done|]. intros x Hx.
    destruct q as [entry|err]; [|done]. injection Hx as <-. exists entry. split; [done|].
    unfold try in E. destruct (request p (Client_Query addr) s1) as [s3 [b| |]] eqn:Er; simplify_eq.
    apply request_Ok in Er as (c & n & n' & Ec). by eapply converse_Query.
  - injection H as _ <- <-. by split.
Qed.

(** ** The loop *)

Lemma resolve_loop_Ok fuel closest addr depth s s' e :
  resolve_loop rand maxPeers iter (S fuel) closest addr depth s = (s', Ok e) ->
  Entry_Verify (Some e) = Ok tt /\ Raw (EAddress e) = Raw addr.
Proof.
  revert depth s. induction closest as [|i rest IH]; intros depth s; cbn [resolve_loop]; [done|].
  intros (s1 & [d r] & E & H)%bind_Ok. cbn [fst snd] in H.
  destruct (decide (depth = 0)) as [->|Hd].
  { cbn in E. injection E as <- <- <-. by rewrite bool_decide_true in H. }
  destruct i as [e1|]; [|cbn in E; by rewrite (proj2 (Z.eqb_neq _ _) Hd) in E].
  rewrite resolveStep_ask in E by done. apply ask_peer_result in E as [-> Hr].
  destruct r as [x|err].
  - destruct (Hr x eq_refl) as (entry & -> & Hv). destruct (Address_Equals _ _) eqn:Ea; [|by eapply IH].
    apply bind_Ok in H as (s2 & q & _ & H). injection H as _ <-. split; [done|].
    by apply bool_decide_eq_true in Ea.
  - destruct (bool_decide (err = RecursionLimit)); [done|]. by eapply IH.
Qed.

(** Six answers use up the depth: what comes after the seventh entry is not looked at. *)
Lemma resolve_loop_cut fuel n l more addr s :
  length l = S n ->
  resolve_loop rand maxPeers iter (S fuel) (l ++ more) addr (Z.of_nat n) s =
  resolve_loop rand maxPeers iter (S fuel) l addr (Z.of_nat n) s.
Proof.
  revert l s. induction n as [|n IH]; intros [|i l] s Hl; try done; cbn [app].
  cbn [resolve_loop]. assert (Z.of_nat (S n) <> 0) as Hd by lia.
    destruct i as [e|].
  - unfold mbind, M_bind. rewrite resolveStep_ask by done. replace (Z.of_nat (S n) - 1) with (Z.of_nat n) by lia.
      destruct (ask_peer e addr (Z.of_nat n) s) as [s1 [[d r]|e1|]] eqn:E; try done.
      apply ask_peer_result in E as [-> _]. cbn [fst snd].
      injection Hl as Hl. destruct r as [[entry|]|err]; [|by apply IH|].
    + destruct (Address_Equals _ _); [done|]. by apply IH.
    + destruct (bool_decide _); [done|]. by apply IH.
  - unfold mbind, M_bind. cbn [resolveStep]. by rewrite (proj2 (Z.eqb_neq _ _) Hd).
Qed.
End Resolve.

(** ** The number of peers *)

Section SetPeer.
Context {C : Crypto} {D : Sqlite} {K : Msgpack} {W : Network}.
Context (maxPeers : Z) (iter : gmap string Z -> list (string * Z)).
Context (iter_perm : forall m, iter m ≡ₚ map_to_list m) (max_nonneg : 0 <= maxPeers).

(** Connected peers are kept under their addresses and have a time at which they
    were seen, which is before every coming reading of the clock; no one else has
    one; and their seed managers are not stopped. *)
Record pm_inv (s : Node) : Prop := {
  pi_address : forall k p, pm_peers (nd_pm s) !! k = Some p ->
    exists x, nd_heap s !! p = Some x /\ key (p_address x) = k;
  pi_seen : forall k, is_Some (pm_peers (nd_pm s) !! k) <-> is_Some (pm_peerSeen (nd_pm s) !! k);
  pi_past : forall k v, pm_peerSeen (nd_pm s) !! k = Some v -> v < nd_clock s 0%nat;
  pi_clock : forall i, nd_clock s i < nd_clock s (S i);
  pi_managers : forall k, is_Some (pm_peers (nd_pm s) !! k) -> pm_seedManagers (nd_pm s) !! k <> Some false;
}.

Lemma oldest_last t (l : list (string * Z)) k0 :
  Forall (fun i => i.2 < t) l ->
  fold_left (fun k (i : string * Z) => if i.2 <? t then i.1 else k) l k0 =
  match list.last l with Some i => i.1 | None => k0 end.
Proof.
  revert k0. induction l as [|i l IH]; intros k0 Hl; [done|]. apply Forall_cons_1 in Hl as [Hi Hl].
  cbn [fold_left]. rewrite (proj2 (Z.ltb_lt _ _) Hi), IH by done. destruct l; [done|].
  change (list.last (i :: p :: l)) with (list.last (p :: l)). by destruct (list.last (p :: l)) eqn:E; [|apply last_None in E].
Qed.

Lemma SM_Close_run sm n : exists n', SM_Close (sm, n) = ((sm, n'), Ok tt).
Proof.
  unfold SM_Close. rewrite run_get. cbn [fst].
  destruct (SM_GetSession sm), (sm_connection sm); unfold on_net, zoom, modify, mbind, M_bind, mret, M_ret; cbn; eauto.
Qed.

Lemma deref_run p x s : nd_heap s !! p = Some x -> deref p s = (s, Ok x).
Proof. intros Hx. unfold deref. by rewrite run_get, Hx. Qed.

Lemma Terminate_run p x s : nd_heap s !! p = Some x ->
  exists n', Peer_Terminate p s = (set_net n' (set_heap (<[p := set_streams (p_streams x) x]> (nd_heap s)) s), Ok tt).
Proof.
  intros Hx. unfold Peer_Terminate, on_streams.
  destruct (SM_Close_run (p_streams x) (nd_net s)) as [n' E]. exists n'.
  rewrite (run_bind _ _ _ _ _ (deref_run _ _ _ Hx)). by rewrite run_get, E.
Qed.

Lemma oldest_peer s : pm_inv s -> maxPeers < PM_Count (nd_pm s) ->
  exists p, pm_peers (nd_pm s) !! oldest (nd_clock s 0%nat) (iter (pm_peerSeen (nd_pm s))) = Some p.
Proof.
  intros Hi Hc. set (m := pm_peerSeen (nd_pm s)).
  assert (Forall (fun i => i.2 < nd_clock s 0%nat) (iter m)) as Hall.
  { apply List.Forall_forall. intros [k v] Hkv. apply list_elem_of_In in Hkv. rewrite iter_perm in Hkv.
    apply elem_of_map_to_list in Hkv. by apply (pi_past s Hi k). }
  unfold oldest. rewrite oldest_last by done. destruct (list.last (iter m)) as [[k v]|] eqn:El.
  - apply last_Some in El as [l El]. cbn [fst].
    apply (pi_seen s Hi). exists v. apply elem_of_map_to_list. rewrite <-iter_perm. fold m. rewrite El. set_solver.
  - apply last_None in El. assert (map_to_list m = []) as Hm.
    { apply Permutation_nil. by rewrite <-El, iter_perm. }
    apply map_to_list_empty_iff in Hm. unfold PM_Count in Hc.
    assert (size (pm_peers (nd_pm s)) <> 0%nat) as Hs by lia. apply map_size_ne_0_lookup_1 in Hs as [k Hk].
    apply (pi_seen s Hi) in Hk. fold m in Hk. rewrite Hm in Hk. by apply lookup_empty_is_Some in Hk.
Qed.

(** Removing a connected peer. *)
Definition drop_peer (k : string) (s : Node) : Node :=
  set_pm (set_peerSeen (delete k (pm_peerSeen (nd_pm s))) (set_peers (delete k (pm_peers (nd_pm s))) (nd_pm s))) s.

Lemma Close_run a s : pm_seedManagers (nd_pm s) !! key a <> Some false ->
  exists sms, PM_HandleCloseConnection a s = (set_pm (set_seedManagers sms (nd_pm (drop_peer (key a) s))) s, Ok tt) /\
    forall k, k <> key a -> sms !! k = pm_seedManagers (nd_pm s) !! k.
Proof.
  intros Hm. unfold PM_HandleCloseConnection, on_pm. rewrite !run_modify, run_get. cbn.
  destruct (pm_seedManagers (nd_pm s) !! key a) as [[|]|] eqn:E; [|done|].
  - eexists. split; [done|]. intros k Hk. by rewrite lookup_insert_ne.
  - by exists (pm_seedManagers (nd_pm s)).
Qed.

Lemma evict_inv s p x n' sms k :
  pm_inv s -> nd_heap s !! p = Some x -> pm_peers (nd_pm s) !! k = Some p ->
  (forall k', k' <> k -> sms !! k' = pm_seedManagers (nd_pm s) !! k') ->
  let s1 := set_net n' (set_heap (<[p := set_streams (p_streams x) x]> (nd_heap s))
              (set_clock (fun i => nd_clock s (S i)) s)) in
  pm_inv (set_pm (set_seedManagers sms (nd_pm (drop_peer k s1))) s1).
Proof.
  intros [Ha Hse Hp Hc Hm] Hx Hk Hs. split; cbn.
  - intros k' p' [Hne Hk']%lookup_delete_Some. destruct (Ha k' p' Hk') as (x' & Hx' & Hkey).
    destruct (decide (p' = p)) as [->|Hpp].
    + rewrite list_lookup_insert_eq by (by eapply lookup_lt_Some). eexists. split; [done|].
      rewrite Hx in Hx'. by injection Hx' as <-.
    + rewrite list_lookup_insert_ne by done. eauto.
  - intros k'. destruct (decide (k = k')) as [->|Hne].
    + by rewrite !lookup_delete_eq.
    + by rewrite !lookup_delete_ne.
  - intros k' v [_ Hv]%lookup_delete_Some. specialize (Hp k' v Hv). specialize (Hc 0%nat). lia.
  - intros i. apply Hc.
  - intros k' [p' [Hne Hk']%lookup_delete_Some]. rewrite Hs by done. by apply Hm.
Qed.

Lemma evict_loop_run fuel s :
  pm_inv s -> (size (pm_peers (nd_pm s)) <= fuel)%nat ->
  exists s', evict_loop maxPeers iter fuel s = (s', Ok tt) /\ pm_inv s' /\ PM_Count (nd_pm s') <= maxPeers /\
    pm_peers (nd_pm s') ⊆ pm_peers (nd_pm s).
Proof.
  revert s. induction fuel as [|f IH]; intros s Hi Hsz; cbn [evict_loop]; rewrite run_get.
  all: destruct (Z.ltb_spec maxPeers (PM_Count (nd_pm s))) as [Hlt|Hge];
    [|exists s; split_and!; [done|done|lia|done]].
  { unfold PM_Count in Hlt. lia. }
  destruct (oldest_peer s Hi Hlt) as [p Hp]. destruct (pi_address s Hi _ _ Hp) as (x & Hx & Hk).
  unfold now. rewrite run_bind with (s' := set_clock (fun i => nd_clock s (S i)) s) (a := nd_clock s 0%nat) by done.
  rewrite run_get. cbn [nd_pm set_clock]. rewrite Hp.
  destruct (Terminate_run p x (set_clock (fun i => nd_clock s (S i)) s) Hx) as [n' Et].
  rewrite (run_bind _ _ _ _ _ Et). set (s1 := set_net _ _).
  assert (nd_heap s1 !! p = Some (set_streams (p_streams x) x)) as Hx1.
  { cbn. by rewrite list_lookup_insert_eq by (by eapply lookup_lt_Some). }
  rewrite (run_bind _ _ _ _ _ (deref_run _ _ _ Hx1)). cbn [p_address set_streams].
  destruct (Close_run (p_address x) s1) as (sms & Ec & Hs).
  { cbn. rewrite Hk. apply (pi_managers s Hi). by rewrite Hp. }
  rewrite (run_bind _ _ _ _ _ Ec). set (s2 := set_pm _ s1).
  assert (pm_inv s2) as Hi2.
  { apply (evict_inv s p x n' sms (key (p_address x))); [done|done|by rewrite Hk|exact Hs]. }
  assert (pm_peers (nd_pm s2) = delete (key (p_address x)) (pm_peers (nd_pm s))) as E2 by done.
  destruct (IH s2 Hi2) as (s' & E & Hi' & Hc & Hsub).
  { rewrite E2, map_size_delete, Hk, Hp. lia. }
  exists s'. split; [done|]. split; [done|]. split; [done|].
  etrans; [exact Hsub|]. rewrite E2. apply delete_subseteq.
Qed.

(** ** Requests to a peer that is not managed *)

(** Nothing but the network and the peer [p] changed, which keeps its address. *)
Definition about (p : nat) (s0 s : Node) : Prop :=
  nd_pm s = nd_pm s0 /\ nd_clock s = nd_clock s0 /\ (forall q, q <> p -> nd_heap s !! q = nd_heap s0 !! q) /\
  exists x x0, nd_heap s0 !! p = Some x0 /\ nd_heap s !! p = Some x /\
    p_address x = p_address x0 /\ p_managed x = false.

Lemma about_deref {A} p s0 (f : Peer -> M Node A) :
  (forall x s, about p s0 s -> nd_heap s !! p = Some x -> about p s0 (f x s).1) ->
  preserves (about p s0) (deref p ≫= f).
Proof.
  intros Hf s Hs. pose proof Hs as (_ & _ & _ & x & x0 & _ & Hx & _). 
  rewrite (run_bind _ _ _ _ _ (deref_run _ _ _ Hx)). by apply Hf.
Qed.

Lemma about_talk {A} p s0 (m : M net A) : preserves (about p s0) (nd_talk m).
Proof. intros s Hs. unfold nd_talk, zoom. by destruct (m (nd_net s)). Qed.

(** A write to the peer that keeps its address. *)
Lemma about_write p s0 s x y n :
  about p s0 s -> nd_heap s !! p = Some x -> p_address y = p_address x -> p_managed y = p_managed x ->
  about p s0 (set_net n (set_heap (<[p := y]> (nd_heap s)) s)).
Proof.
  intros (H1 & H2 & H3 & x' & x0 & H4 & H5 & H6 & H7) Hx Ha Hm. rewrite Hx in H5. injection H5 as <-.
  split_and!; [done|done| |].
  - intros q Hq. cbn. rewrite list_lookup_insert_ne by done. by apply H3.
  - exists y, x0. split_and!; [done| |congruence|congruence].
    cbn. by rewrite list_lookup_insert_eq by (by eapply lookup_lt_Some).
Qed.

Lemma about_streams {A} p s0 (m : M SMS A) : preserves (about p s0) (on_streams p m).
Proof.
  apply about_deref. intros x s Hs Hx. rewrite run_get.
  destruct (m (p_streams x, nd_net s)) as [[sm n] o]. cbn. by eapply about_write.
Qed.

Lemma about_Ping p s0 : preserves (about p s0) (Peer_Ping p).
Proof.
  apply about_deref. intros x s Hs Hx. destruct (SM_GetSession _); [|done]. rewrite run_get.
  destruct (session_IsClosed _ _); [done|]. by apply about_talk.
Qed.

Lemma about_UpdateSeen p s0 : preserves (about p s0) (Peer_UpdateSeen p).
Proof.
  apply about_deref. intros x s Hs Hx. pose proof Hs as (_ & _ & _ & x' & x0 & _ & Hx' & _ & Hm).
  rewrite Hx in Hx'. injection Hx' as <-. by rewrite Hm.
Qed.

Lemma about_request {A} p s0 (proc : Proc A) : preserves (about p s0) (request p proc).
Proof.
  unfold request, Peer_OpenStream, closing. preserves_tac;
    first [apply about_Ping | apply about_UpdateSeen | apply about_streams | apply about_talk].
Qed.

Lemma about_Entry p s0 : preserves (about p s0) (Peer_Entry p).
Proof.
  apply about_deref. intros x s Hs Hx. destruct (p_entry x); [done|]. revert s Hs Hx. intros s Hs _. revert s Hs.
  change (preserves (about p s0) (Peer_GetEntry p)). unfold Peer_GetEntry.
  apply preserves_bind; [apply about_Ping|]. intros _. apply about_deref. intros y s Hs Hy. revert s Hs Hy.
  intros s Hs _. revert s Hs. match goal with |- forall s, _ -> about p s0 (?m s).1 => change (preserves (about p s0) m) end.
  unfold Peer_Query. apply preserves_bind; [apply preserves_bind; [apply about_request|intros; apply preserves_ret]|].
  intros v. apply preserves_bind; [apply preserves_pure|]. intros e. apply about_deref. intros z s Hs Hz.
  destruct (negb _); [done|]. apply (about_write p s0 s z (set_entry (Some e) z) (nd_net s) Hs Hz eq_refl eq_refl).
Qed.

(** ** Adding a peer *)

Lemma about_inv p s0 s : pm_inv s0 -> about p s0 s -> pm_inv s.
Proof.
  intros [Ha Hse Hp Hc Hm] (H1 & H2 & H3 & x & x0 & H4 & H5 & H6 & _). rewrite <-H1 in *. rewrite <-H2 in *.
  split; try done. intros k q Hq. destruct (Ha k q Hq) as (y & Hy & Hk).
  destruct (decide (q = p)) as [->|Hne]; [|rewrite H3 by done; eauto].
  exists x. rewrite H4 in Hy. injection Hy as <-. by rewrite H6.
Qed.

Definition add_peer (p : nat) (x : Peer) (pub : gmap string Address) (s : Node) : Node :=
  set_pm (mkPM (<[key (p_address x) := p]> (pm_peers (nd_pm s)))
            (<[key (p_address x) := nd_clock s 0%nat]> (pm_peerSeen (nd_pm s))) pub
            (pm_seedManagers (nd_pm s)) (pm_socks (nd_pm s)) (pm_socksPort (nd_pm s)))
    (set_clock (fun i => nd_clock s (S i)) (set_heap (<[p := set_managed x]> (nd_heap s)) s)).

Lemma add_peer_inv p x pub s :
  pm_inv s -> nd_heap s !! p = Some x -> pm_seedManagers (nd_pm s) !! key (p_address x) <> Some false ->
  pm_inv (add_peer p x pub s).
Proof.
  intros [Ha Hse Hp Hc Hm] Hx Hsm. split; cbn.
  - intros k q [[<- <-]|[Hne Hq]]%lookup_insert_Some.
    + exists (set_managed x). by rewrite list_lookup_insert_eq by (by eapply lookup_lt_Some).
    + destruct (Ha k q Hq) as (y & Hy & Hk). destruct (decide (q = p)) as [->|].
      * exists (set_managed x). rewrite Hx in Hy. injection Hy as <-.
        by rewrite list_lookup_insert_eq by (by eapply lookup_lt_Some).
      * exists y. by rewrite list_lookup_insert_ne.
  - intros k. rewrite !lookup_insert_is_Some. specialize (Hse k). naive_solver.
  - intros k v [[<- <-]|[_ Hv]]%lookup_insert_Some; [apply Hc|]. specialize (Hp k v Hv). specialize (Hc 0%nat). lia.
  - intros i. apply Hc.
  - intros k [<-|[_ Hk]]%lookup_insert_is_Some; [done|]. by apply Hm.
Qed.

Lemma SetPeer_run p s0 s e x :
  pm_inv s0 -> nd_heap s0 !! p = Some x -> pm_seedManagers (nd_pm s0) !! key (p_address x) <> Some false ->
  pm_peers (nd_pm s0) !! key (p_address x) = None -> p_managed x = false ->
  Peer_Entry p s0 = (s, Ok e) ->
  exists s', PM_SetPeer maxPeers iter p s0 = (s', Ok tt) /\ pm_inv s' /\ PM_Count (nd_pm s') <= maxPeers /\
    pm_peers (nd_pm s') ⊆ <[key (p_address x) := p]> (pm_peers (nd_pm s0)).
Proof.
  intros Hi Hx Hsm Hnew Hun E.
  assert (about p s0 s) as Hab.
  { assert (about p s0 s0) as H0 by (split_and!; [done..|by exists x, x]).
    pose proof (about_Entry p s0 s0 H0) as H. by rewrite E in H. }
  pose proof (about_inv p s0 s Hi Hab) as Hi'. pose proof Hab as (H1 & H2 & _ & x' & x0 & Hx0 & Hx' & Ha & _).
  rewrite Hx in Hx0. injection Hx0 as <-.
  unfold PM_SetPeer. rewrite (run_bind _ _ _ _ _ (deref_run _ _ _ Hx)).
  rewrite run_get, Hnew. rewrite bool_decide_false by (by intros []). rewrite (run_try _ _ _ _ _ E). cbv beta iota.
  rewrite (run_bind _ _ _ _ _ (deref_run _ _ _ Hx')). unfold on_pm, store, seen_now, now.
  rewrite !run_modify.
  set (s2 := add_peer p x' (<[PublicAddress e := p_address x']> (pm_publicToZif (nd_pm s))) s).
  erewrite (run_bind _ _ _ s2); [|reflexivity]. rewrite run_get.
  destruct (evict_loop_run (size (pm_peers (nd_pm s2))) s2) as (s' & Ee & Hi2 & Hc & Hsub); [|lia|].
  { apply add_peer_inv; [done|done|]. by rewrite H1, Ha. }
  exists s'. split_and!; [done|done|done|]. cbn in Hsub. by rewrite H1, Ha in Hsub.
Qed.
End SetPeer.

(** What the database returns for an address has that address. *)
Lemma DHT_Query_address {C : Crypto} {D : Sqlite} {L : SqliteLaws D} ndb a ndb' e :
  ndb_inv ndb -> addr_fresh a -> length (Raw a) = AddressBinarySize ->
  DHT_Query a ndb = (ndb', Ok (Some e)) -> Raw (EAddress e) = Raw a.
Proof.
  intros Hinv Hf Hl (s1 & [o id] & E & H)%bind_Ok. injection H as -> ->.
  destruct (spec_Query ndb a ndb (reading_refl ndb Hinv)) as [_ HQ]. rewrite E in HQ. cbn in HQ.
  destruct HQ as (r & Hr & _ & Ha & Hst). rewrite col_text_address in Ha by (by apply addr_str_text).
  destruct Hst as (Hsa & _ & _ & _ & Hraw). apply encode_inj.
  rewrite <-(addr_str_fresh a Hf), <-(addr_str_fresh (EAddress e)) by (left; by rewrite Hraw). congruence.
Qed.

(** ** A network that answers from a list *)

#[local] Existing Instance toy_crypto.
#[local] Existing Instance toy_sqlite.
#[local] Existing Instance toy_laws.
#[local] Existing Instance toy_sqlite_laws.
#[local] Existing Instance toy_msgpack.

Definition toy_network : Network := {|
  net := list Message;
  net_dial _ n := (n, Some 1);
  net_socks _ _ n := (n, Some 1);
  net_write _ _ n := (n, true);
  net_read _ n := match n with m :: rest => (rest, Some m) | [] => ([], None) end;
  net_close _ n := n;
  raw_write _ _ n := (n, true);
  raw_read _ n := (n, []);
  yamux_Client c n := (n, Some c);
  yamux_Server c n := (n, Some c);
  session_IsClosed _ _ := false;
  session_Ping _ n := (n, true);
  session_Open _ n := (n, Some 2);
  session_Close _ n := n;
  net_SetDeadline _ n := (n, true);
|}.
#[local] Existing Instance toy_network.

(** A node that knows three peers, connected to all of them by one session. *)
Definition toy_lp : LocalPeer :=
  mkLP (set_EAddress toy_own toy_signed) toy_own toy_sk toy_three (mkPostDb [] [] 0 []) NewCollection ∅ None ∅ None 1500000000 [] [] true [].
Definition toy_connected (c : byte) : Peer :=
  mkPeer (raw_address (replicate 20 c)) (ed25519_Public toy_sk) (set_client 1 SM_zero) (Some (toy_at c [])) false None
    (mkCaps []) true.
Definition toy_pm : PeerManager :=
  mkPM (<[to_string (replicate 20 "a"%char) := 0%nat]> (<[to_string (replicate 20 "b"%char) := 1%nat]>
         (<[to_string (replicate 20 "c"%char) := 2%nat]> ∅)))
    (<[to_string (replicate 20 "a"%char) := 10]> (<[to_string (replicate 20 "b"%char) := 20]>
         (<[to_string (replicate 20 "c"%char) := 30]> ∅))) ∅ ∅ false 0.
Definition toy_node (answers : list Message) : Node :=
  mkNode toy_lp (mkCaps ["gzip"%string]) [toy_connected "a"; toy_connected "b"; toy_connected "c"] toy_pm answers
    (fun i => 100 + Z.of_nat i) false.

(** ** Theorems *)

(** C9. What [Resolve] returns on any network, however the peers lie: an entry of
    the address that was asked for, which is the local entry, or comes from the
    database, or was fetched and carries a valid signature. *)
Theorem Resolve_sound {C : Crypto} {D : Sqlite} {L : SqliteLaws D} {K : Msgpack} {W : Network}
    (rand : nat -> option bytes) (maxPeers : Z) (iter : gmap string Z -> list (string * Z))
    (addr : Address) (s : Node) (e : Entry) :
  ndb_inv (lp_DHT (nd_lp s)) -> Raw (EAddress (lp_Entry (nd_lp s))) = Raw (lp_address (nd_lp s)) ->
  addr_fresh addr -> length (Raw addr) = AddressBinarySize ->
  (PM_Resolve rand maxPeers iter addr s).2 = Ok e ->
  Raw (EAddress e) = Raw addr /\
  (e = lp_Entry (nd_lp s) \/ (DHT_Query addr (lp_DHT (nd_lp s))).2 = Ok (Some e) \/ Entry_Verify (Some e) = Ok tt).
Proof.
  intros Hinv Hown Hf Hl H. destruct (PM_Resolve rand maxPeers iter addr s) as [s' o] eqn:E. cbn [snd] in H. subst o.
  unfold PM_Resolve in E. rewrite run_get in E. destruct (Address_Equals addr _) eqn:Ea.
  { injection E as _ <-. apply bool_decide_eq_true in Ea. split; [congruence|by left]. }
  apply bind_Ok in E as (s1 & r & E1 & E). unfold try, nd_DHT, on_lp, on_DHT, zoom in E1.
  destruct (DHT_Query addr (lp_DHT (nd_lp s))) as [d' o] eqn:Eq.
  apply bind_Ok in E as (s2 & kv & E2 & E). destruct kv as [x|].
  - injection E as _ <-. assert (o = Ok (Some x)) as ->.
    { destruct r as [[y|]|err]; [| |destruct err]; try by injection E2. injection E2 as _ ->.
      destruct o as [q|err|]; [|done|done]. by injection E1 as _ ->. }
    split; [by eapply DHT_Query_address|]. right. by left.
  - apply bind_Ok in E as (s3 & closest & _ & E). apply resolve_loop_Ok in E as [Hv Hr].
    split; [done|]. by right; right.
Qed.

Definition toy_target : Address := raw_address (replicate 20 "d"%char).
Definition toy_d : Entry := toy_at "d" [].
Definition toy_asking : Node := toy_node [Message_Write (VEntry toy_d) (bare ProtoDhtQuery)].

Lemma toy_asking_resolves : (PM_Resolve (fun _ => None) 100 map_to_list toy_target toy_asking).2 = Ok toy_d.
Proof. vm_compute. reflexivity. Qed.

Lemma Resolve_sound_witness :
  Raw (EAddress toy_d) = Raw toy_target /\
  (toy_d = lp_Entry (nd_lp toy_asking) \/ (DHT_Query toy_target (lp_DHT (nd_lp toy_asking))).2 = Ok (Some toy_d) \/
   Entry_Verify (Some toy_d) = Ok tt).
Proof.
  refine (Resolve_sound (fun _ => None) 100 map_to_list toy_target toy_asking toy_d
    _ _ _ _ toy_asking_resolves).
  - exact (toy_inv _ toy_three_reachable).
  - vm_compute. reflexivity.
  - left. reflexivity.
  - reflexivity.
Defined.


(** [Resolve] asks at most six peers: the loop over the closest entries does the
    same when everything after the seventh is left out. *)
Theorem resolve_asks_six {C : Crypto} {D : Sqlite} {K : Msgpack} {W : Network}
    (rand : nat -> option bytes) (maxPeers : Z) (iter : gmap string Z -> list (string * Z))
    (closest more : list (option Entry)) (addr : Address) (s : Node) :
  length closest = 7%nat ->
  resolve_loop rand maxPeers iter 7 (closest ++ more) addr 6 s = resolve_loop rand maxPeers iter 7 closest addr 6 s.
Proof. intros Hl. exact (resolve_loop_cut rand maxPeers iter 6 6 closest more addr s Hl). Qed.

Lemma resolve_asks_six_witness :
  resolve_loop (fun _ => None) 100 map_to_list 7 (replicate 7 (Some toy_d) ++ [None]) toy_target 6 toy_asking =
  resolve_loop (fun _ => None) 100 map_to_list 7 (replicate 7 (Some toy_d)) toy_target 6 toy_asking.
Proof.
  apply (resolve_asks_six (fun _ => None) 100 map_to_list (replicate 7 (Some toy_d)) [None] toy_target toy_asking).
  reflexivity.
Defined.

(** C10. The number of connected peers stays within [net.maxPeers] as long as the two maps
    of the manager agree -- every connected peer has a time at which it was seen, and no
    one else has -- every reading of the clock is later than the one before, and the seed
    managers of the connected peers and of the new one have not been stopped: adding a peer that was not managed before, whatever
    the network does meanwhile and in whatever order the map of times is iterated, keeps
    these conditions and the bound; and if the peer tells its entry, the call returns. *)
Theorem SetPeer_bounded {C : Crypto} {D : Sqlite} {K : Msgpack} {W : Network}
    (maxPeers : Z) (iter : gmap string Z -> list (string * Z)) (p : nat) (x : Peer) (s : Node) :
  (forall m, iter m ≡ₚ map_to_list m) -> 0 <= maxPeers ->
  pm_inv s -> nd_heap s !! p = Some x -> p_managed x = false ->
  pm_seedManagers (nd_pm s) !! key (p_address x) <> Some false -> PM_Count (nd_pm s) <= maxPeers ->
  let r := PM_SetPeer maxPeers iter p s in
  pm_inv r.1 /\ PM_Count (nd_pm r.1) <= maxPeers /\
  (forall s1 e, Peer_Entry p s = (s1, Ok e) -> r.2 = Ok tt).
Proof.
  intros Hit Hmax Hi Hx Hun Hsm Hc. cbv zeta.
  destruct (pm_peers (nd_pm s) !! key (p_address x)) as [q|] eqn:Hk.
  { unfold PM_SetPeer. rewrite (run_bind _ _ _ _ _ (deref_run _ _ _ Hx)), run_get, Hk, bool_decide_true by done. done. }
  destruct (Peer_Entry p s) as [s1 [e|err|]] eqn:E.
  { destruct (SetPeer_run maxPeers iter Hit Hmax p s s1 e x) as (s' & -> & Hi' & Hc' & _); done. }
  all: assert (about p s s1) as Hab by
    (pose proof (about_Entry p s s) as H; rewrite E in H; apply H; split_and!; [done..|by exists x, x]).
  all: pose proof (about_inv p s s1 Hi Hab) as Hi'; pose proof Hab as (Hpm & _); rewrite <-Hpm in Hc.
  all: unfold PM_SetPeer; rewrite (run_bind _ _ _ _ _ (deref_run _ _ _ Hx)), run_get, Hk, bool_decide_false by (by intros []).
  - rewrite (run_try_Err _ _ _ _ _ E). done.
  - unfold mbind, M_bind, try. rewrite E. done.
Qed.

(** A fourth peer for the node, whose entry is known. *)
Definition toy_joining : Node :=
  set_heap (nd_heap (toy_node []) ++ [mkPeer toy_target (ed25519_Public toy_sk) (set_client 1 SM_zero) (Some toy_d)
    false None (mkCaps []) false]) (toy_node []).

Lemma toy_joining_inv : pm_inv toy_joining.
Proof.
  set (a := to_string (replicate 20 "a"%char)). set (b := to_string (replicate 20 "b"%char)).
  set (c := to_string (replicate 20 "c"%char)).
  assert (forall k n, pm_peers toy_pm !! k = Some n <-> (k = a /\ n = 0 \/ k = b /\ n = 1 \/ k = c /\ n = 2)%nat) as Hp.
  { intros k n. cbn [pm_peers toy_pm]. rewrite !lookup_insert_Some, lookup_empty.
    assert (a <> b /\ a <> c /\ b <> c) by (vm_compute; by split_and!). fold a b c. naive_solver. }
  assert (forall k v, pm_peerSeen toy_pm !! k = Some v <-> (k = a /\ v = 10 \/ k = b /\ v = 20 \/ k = c /\ v = 30)) as Hs.
  { intros k v. cbn [pm_peerSeen toy_pm]. rewrite !lookup_insert_Some, lookup_empty.
    assert (a <> b /\ a <> c /\ b <> c) by (vm_compute; by split_and!). fold a b c. naive_solver. }
  split; cbn [nd_pm toy_joining set_heap toy_node nd_heap nd_clock app].
  - intros k n [[-> ->]|[[-> ->]|[-> ->]]]%Hp; cbn [lookup list_lookup]; eexists; (split; [reflexivity|]); reflexivity.
  - intros k. unfold is_Some. setoid_rewrite Hp. setoid_rewrite Hs. naive_solver.
  - intros k v [[_ ->]|[[_ ->]|[_ ->]]]%Hs; lia.
  - intros i. lia.
  - by intros k _.
Qed.

Lemma SetPeer_bounded_witness :
  let r := PM_SetPeer 3 map_to_list 3 toy_joining in
  pm_inv r.1 /\ PM_Count (nd_pm r.1) <= 3 /\ (forall s1 e, Peer_Entry 3 toy_joining = (s1, Ok e) -> r.2 = Ok tt).
Proof.
  eapply (SetPeer_bounded 3 map_to_list 3 _ toy_joining).
  - reflexivity.
  - lia.
  - exact toy_joining_inv.
  - reflexivity.
  - reflexivity.
  - discriminate.
  - vm_compute. discriminate.
Defined.

(** A peer that was removed and is used once more gets a time again, which nothing takes
    away. When the search ends at such a left-over, the loop that makes room gives up: the
    new peer is added, no one is removed, whatever the bound is. *)
Theorem SetPeer_stale_key {C : Crypto} {D : Sqlite} {K : Msgpack} {W : Network}
    (maxPeers : Z) (iter : gmap string Z -> list (string * Z)) (p q : nat) (x y : Peer) (s0 s s1 : Node) (e : Entry) :
  nd_heap s0 !! q = Some y -> p_managed y = true -> pm_peers (nd_pm s0) !! key (p_address y) = None ->
  Peer_UpdateSeen q s0 = (s, Ok tt) ->
  nd_heap s !! p = Some x -> p_managed x = false -> pm_peers (nd_pm s) !! key (p_address x) = None ->
  key (p_address y) <> key (p_address x) -> Peer_Entry p s = (s1, Ok e) ->
  oldest (nd_clock s 1%nat) (iter (<[key (p_address x) := nd_clock s 0%nat]> (pm_peerSeen (nd_pm s)))) = key (p_address y) ->
  exists s', PM_SetPeer maxPeers iter p s = (s', Ok tt) /\ PM_Count (nd_pm s') = PM_Count (nd_pm s) + 1.
Proof.
  intros Hq Hm Hy Hu Hx Hun Hnew Hne E Hold.
  assert (pm_peers (nd_pm s) !! key (p_address y) = None) as Hys.
  { unfold Peer_UpdateSeen in Hu. rewrite (run_bind _ _ _ _ _ (deref_run _ _ _ Hq)), Hm in Hu. by injection Hu as <-. }
  assert (about p s s1) as Hab.
  { assert (about p s s) as H0 by (split_and!; [done..|by exists x, x]).
    pose proof (about_Entry p s s H0) as H. by rewrite E in H. }
  pose proof Hab as (H1 & H2 & _ & x' & x0 & Hx0 & Hx' & Ha & _). rewrite Hx in Hx0. injection Hx0 as <-.
  unfold PM_SetPeer. rewrite (run_bind _ _ _ _ _ (deref_run _ _ _ Hx)), run_get, Hnew, bool_decide_false by (by intros []).
  rewrite (run_try _ _ _ _ _ E). cbv beta iota. rewrite (run_bind _ _ _ _ _ (deref_run _ _ _ Hx')). unfold on_pm, store, seen_now, now.
  rewrite !run_modify. set (s2 := add_peer p x' (<[PublicAddress e := p_address x']> (pm_publicToZif (nd_pm s1))) s1).
  erewrite (run_bind _ _ _ s2); [|reflexivity]. rewrite run_get.
  assert (PM_Count (nd_pm s2) = PM_Count (nd_pm s) + 1) as Hc2.
  { unfold PM_Count. cbn. rewrite H1, Ha, map_size_insert_None by done. lia. }
  destruct (size (pm_peers (nd_pm s2))) as [|f] eqn:Es; [unfold PM_Count in Hc2; lia|]. cbn [evict_loop]. rewrite run_get.
  destruct (maxPeers <? PM_Count (nd_pm s2)); [|by exists s2].
  eexists (set_clock (fun i => nd_clock s2 (S i)) s2). split; [|done].
  unfold now. rewrite run_bind with (s' := set_clock (fun i => nd_clock s2 (S i)) s2) (a := nd_clock s2 0%nat) by done.
  rewrite run_get. cbn. rewrite H1, H2, Ha, Hold, lookup_insert_ne by done. by rewrite Hys.
Qed.

(** The peer that makes room is not the one seen least recently but the last one
    of the iteration, however recently it was seen: the search never lowers its
    bound. *)
Theorem oldest_takes_last (t : Z) (seen : list (string * Z)) (k : string) (v : Z) :
  Forall (fun i => i.2 < t) (seen ++ [(k, v)]) -> oldest t (seen ++ [(k, v)]) = k.
Proof. intros H. unfold oldest. by rewrite oldest_last, last_snoc. Qed.

Lemma oldest_takes_last_witness : oldest 9 ([("a"%string, 1)] ++ [("b"%string, 8)]) = "b"%string.
Proof. apply (oldest_takes_last 9 [("a"%string, 1)] "b" 8). repeat constructor. Defined.

(** The first of three peers leaves and is used again; a fourth one joins, with a bound of
    two. *)
Definition toy_gone : Node := set_pm (nd_pm (PM_HandleCloseConnection (raw_address (replicate 20 "a"%char)) toy_joining).1) toy_joining.
Definition toy_back : Node := (Peer_UpdateSeen 0 toy_gone).1.
Definition toy_a_last (m : gmap string Z) : list (string * Z) :=
  let a := to_string (replicate 20 "a"%char) in
  List.filter (fun i => negb (bool_decide (i.1 = a))) (map_to_list m) ++ List.filter (fun i => bool_decide (i.1 = a)) (map_to_list m).

Lemma SetPeer_stale_key_witness :
  exists s', PM_SetPeer 2 toy_a_last 3 toy_back = (s', Ok tt) /\ PM_Count (nd_pm s') = 3.
Proof.
  destruct (SetPeer_stale_key 2 toy_a_last 3 0 (mkPeer toy_target (ed25519_Public toy_sk) (set_client 1 SM_zero) (Some toy_d)
    false None (mkCaps []) false) (toy_connected "a") toy_gone toy_back toy_back toy_d) as (s' & E & Hc).
  - reflexivity.
  - reflexivity.
  - vm_compute. reflexivity.
  - reflexivity.
  - reflexivity.
  - reflexivity.
  - vm_compute. reflexivity.
  - vm_compute. discriminate.
  - reflexivity.
  - vm_compute. reflexivity.
  - exists s'. split; [exact E|]. rewrite Hc. vm_compute. reflexivity.
Defined.
