(* ===== verification/Explore.v ===== *)
(** What starts an exploration and what is done with an entry it found ([seedExplore] and
    the receiver of [LocalPeer.StartExploring]), and the arrival of a peer
    ([LocalPeer.HandleHandshake], [Server.Listen], [Server.Handshake],
    [Server.ListenStream]). The ticks of [jobs/explore.go] and the channels between the
    goroutines are in [ExploreJob]. *)

From stdpp Require Import sorting.
From S2P Require Import Prelude GoLib Crypto Address Entry Util Sqlite NetStore NetDB DHT.
From S2P Require Import Post PieceStream PostDB Collection Proto Handshake StreamManager LocalPeer Client Peer PeerManager.

Section Explore.
Context {C : Crypto} {D : Sqlite} {K : Msgpack} {W : Network}.
Context (rand : nat -> option bytes) (maxPeers : Z) (iter : gmap string Z -> list (string * Z)).

(** [RandomAddress()]. *)
Definition RandomAddress : outcome Address :=
  b ← CryptoRandBytes rand 32;
  let '(a, o) := Address_Generate (raw_address []) b in
  _ ← o; Ok a.

(** [seedExplore(in, seen)]: the closest entries to the local peer and to a random
    address, shuffled; three at most. [shuffle] are the random draws. *)
Definition seedExplore (shuffle : nat -> nat) : M Node (list Entry) :=
  s ← get;
  let me := lp_address (nd_lp s) in
  closest ← nd_DHT (DHT_FindClosest me);
  addr ← lift (match RandomAddress with Ok a => Ok a | _ => Panic end);
  r ← try (nd_DHT (DHT_FindClosest addr));
  all ← lift (ShuffleEntries shuffle (closest ++ match r with inl l => l | inr _ => [] end));
  if (length all =? 0)%nat then fail (ErrText "Failed to seed bootstrap, bootstrap first")
  else
    mret (List.filter (fun i => negb (Address_Equals (EAddress i) me))
            (flat_map (fun o : option Entry => match o with Some i => [i] | None => [] end) (take 3 all))).

(** The receiver of [StartExploring] for one entry: what it puts back on [in]. The
    merged seed list is computed for [current] and the entry that came is inserted. *)
Definition explore_found (order : list string -> list string) (i : Entry) : M Node (list Entry) :=
  q ← try (nd_DHT (DHT_Query (EAddress i)));
  match q with
  | inr _ => mret []
  | inl current =>
      s ← get;
      if Address_Equals (EAddress i) (lp_address (nd_lp s)) then mret []
      else
        match current with
        | None =>
            r ← nd_DHT (DHT_Insert i);
            mret (match r with
                  | (affected, None) => if 0 <? affected then [i] else []
                  | (_, Some _) => []
                  end)
        | Some current =>
            if Updated current <? Updated i then _ ← nd_DHT (DHT_Insert i); mret []
            else if (length (Seeds current) <? length (Seeds i))%nat then
              let current := set_Seeds (MergeSeeds order (Seeds current) (Seeds i)) current in
              _ ← nd_DHT (DHT_Insert i); mret []
            else mret []
        end
  end.

(** [StartExploring]: the first entries on [in]. *)
Definition StartExploring (shuffle : nat -> nat) : M Node (list Entry) := seedExplore shuffle.

(** [HandleHandshake(header)]. *)
Definition HandleHandshake (header : ConnHeader) : M Node nat :=
  peer ← new_peer Peer_zero;
  _ ← Peer_SetTCP peer header;
  _ ← Peer_ConnectServer peer;
  _ ← PM_SetPeer maxPeers iter peer;
  entry ← Peer_Entry peer;
  _ ← nd_DHT (DHT_Insert entry);
  mret peer.

(** [Server.Handshake(conn, lp, data)]: the capabilities of the peer become those of
    the local peer. The streams of the peer are then served. *)
Definition set_caps (caps : MessageCapabilities) (s : Node) : Node :=
  mkNode (nd_lp s) caps (nd_heap s) (nd_pm s) (nd_net s) (nd_clock s) (nd_blocked s).
Definition Server_Handshake (conn : Z) : M Node (option nat) :=
  s ← get;
  h ← try (nd_talk (converse conn (handshake rand (Some (nd_signer s)) (lp_Entry (nd_lp s)))));
  match h with
  | inr _ => mret None
  | inl (header, caps) =>
      p ← try (HandleHandshake (mkConn conn header caps));
      match p with
      | inr _ => mret None
      | inl peer =>
          _ ← modify (set_caps caps);
          _ ← PM_SetPeer maxPeers iter peer;
          mret (Some peer)
      end
  end.

(** One round of the loop of [Server.Listen]: a connection, with the first bytes it
    sends, or an error of [Accept]. A connection that is refused is not closed. *)
Inductive accepted := AcceptFails | Accepted (conn : Z) (first : bytes).
Definition Server_Listen_round (a : accepted) : M Node (option nat) :=
  match a with
  | AcceptFails => mret None
  | Accepted conn first => if Listen_accepts first then Server_Handshake conn else mret None
  end.

(** [Server.ListenStream(peer, handler)] over what [Accept] and [SetDeadline] give:
    the streams that are handed to [HandleStream], and whether the loop has ended. *)
Inductive stream_event := StreamFails | StreamOpened (id : Z) (deadline : bool).
Fixpoint listen_streams (p : nat) (events : list stream_event) : M Node (list Z * bool) :=
  match events with
  | [] => mret ([], false)
  | StreamFails :: _ | StreamOpened _ false :: _ => mret ([], true)
  | StreamOpened id true :: rest =>
      x ← deref p;
      _ ← store p (set_streams (SM_AddStream id (p_streams x)) x);
      _ ← Peer_UpdateSeen p;
      r ← listen_streams p rest;
      mret (id :: r.1, r.2)
  end.
Definition Server_ListenStream (p : nat) (events : list stream_event) : M Node (list Z) :=
  listen_streams p events ≫= fun r : list Z * bool =>
  if r.2 then (x ← deref p; _ ← PM_HandleCloseConnection (p_address x); mret r.1) else mret r.1.
End Explore.
