(* ===== verification/ExploreJob.v ===== *)
(** The exploration as concurrent goroutines ([jobs/explore.go], the receiver of
    [LocalPeer.StartExploring]): a ticker that starts a tick every two minutes, the ticks
    and the receiver, over two channels of a hundred entries. Steps interleave at the
    channel operations; the code between two of them runs on the node at once. *)

From stdpp Require Import sorting relations.
From S2P Require Import Prelude GoLib Crypto Address Entry Util Sqlite NetStore NetDB DHT.
From S2P Require Import Post PieceStream PostDB Collection Proto Handshake StreamManager LocalPeer Client Peer PeerManager Explore.

Definition ExploreBufferSize : nat := 100.

Section Job.
Context {C : Crypto} {D : Sqlite} {K : Msgpack} {W : Network}.
Context (rand : nat -> option bytes) (maxPeers : Z) (iter : gmap string Z -> list (string * Z)).
Context (shuffle : nat -> nat) (order : list string -> list string) (me : Address).

(** ** The code between the channel operations *)

(** [explorePeer] up to the first loop: the peer and the entries it answers with, or an
    error. *)
Definition explore_first (addr : Address) : M Node (nat * list (option Entry) + error) :=
  c ← PM_ConnectPeer rand maxPeers iter addr;
  match c with
  | inr (e, _) => mret (inr e)
  | inl (p, _) =>
      match RandomAddress rand with
      | Panic => lift Panic
      | Err e => mret (inr e)
      | Ok randAddr =>
          r ← try (Peer_FindClosest p randAddr);
          match r with
          | inr e => mret (inr e)
          | inl closest => mret (inl (p, closest))
          end
      end
  end.

(** From the end of the first loop to the second. *)
Definition explore_second (p : nat) : M Node (list (option Entry) + error) :=
  r ← try (Peer_FindClosest p me);
  mret r.

(** ** Goroutines *)

(** A tick: before it takes an entry; in the loop over the rest of the first and of the
    second answer; before it looks at the length of [in]; sending the entries of the
    seeding. *)
Inductive tick :=
| TStart | TFirst (p : nat) (l : list (option Entry)) | TSecond (l : list (option Entry)) | TCheck | TSeed (out : list Entry).

(** The receiver: before it takes an entry, or sending one back on [in]. *)
Inductive receiver := RTake | RSend (i : Entry).

Record Exploration := mkEx {
  ex_node : Node;
  ex_in : list Entry;
  ex_ret : list Entry;
  ex_ticks : list tick;
  ex_receiver : receiver;
  ex_crashed : bool;
}.

Definition room (ch : list Entry) : Prop := (length ch < ExploreBufferSize)%nat.

(** A panic of a goroutine ends the process. *)
Definition crash (s : Node) (x : Exploration) : Exploration :=
  mkEx s (ex_in x) (ex_ret x) (ex_ticks x) (ex_receiver x) true.
Definition with_tick (s : Node) (k : nat) (t : tick) (x : Exploration) : Exploration :=
  mkEx s (ex_in x) (ex_ret x) (<[k := t]> (ex_ticks x)) (ex_receiver x) false.
Definition end_tick (s : Node) (k : nat) (x : Exploration) : Exploration :=
  mkEx s (ex_in x) (ex_ret x) (delete k (ex_ticks x)) (ex_receiver x) false.
Definition with_in (ch : list Entry) (x : Exploration) : Exploration :=
  mkEx (ex_node x) ch (ex_ret x) (ex_ticks x) (ex_receiver x) (ex_crashed x).
Definition with_ret (ch : list Entry) (x : Exploration) : Exploration :=
  mkEx (ex_node x) (ex_in x) ch (ex_ticks x) (ex_receiver x) (ex_crashed x).
Definition with_receiver (s : Node) (r : receiver) (x : Exploration) : Exploration :=
  mkEx s (ex_in x) (ex_ret x) (ex_ticks x) r (ex_crashed x).

(** A tick that has taken [i] from [in]. *)
Definition tick_take (k : nat) (i : Entry) (x : Exploration) : Exploration :=
  if Address_Equals (EAddress i) me then end_tick (ex_node x) k x
  else
    match explore_first (EAddress i) (ex_node x) with
    | (s, Ok (inl (p, out))) => with_tick s k (TFirst p out) x
    | (s, Ok (inr _)) => with_tick s k TCheck x
    | (s, _) => crash s x
    end.

(** One round of the loop over an answer: the own entry is left out, a nil one is
    dereferenced. *)
Definition sends (o : option Entry) : Prop := exists i, o = Some i /\ Address_Equals (EAddress i) me = false.
Definition tick_send (k : nat) (t : tick) (o : option Entry) (x : Exploration) : Exploration :=
  match o with
  | None => crash (ex_node x) x
  | Some i =>
      with_tick (ex_node x) k t (if Address_Equals (EAddress i) me then x else with_ret (ex_ret x ++ [i]) x)
  end.

(** Between the two loops. *)
Definition tick_second (k p : nat) (x : Exploration) : Exploration :=
  match explore_second p (ex_node x) with
  | (s, Ok (inl out)) => with_tick s k (TSecond out) x
  | (s, Ok (inr _)) => with_tick s k TCheck x
  | (s, _) => crash s x
  end.

(** The end of a tick: with nothing left on [in] it is seeded, and the error is dropped. *)
Definition tick_check (k : nat) (x : Exploration) : Exploration :=
  if (length (ex_in x) =? 0)%nat then
    match try (seedExplore rand shuffle) (ex_node x) with
    | (s, Ok (inl l)) => with_tick s k (TSeed l) x
    | (s, Ok (inr _)) => end_tick s k x
    | (s, _) => crash s x
    end
  else end_tick (ex_node x) k x.

(** The receiver with the entry [i]. *)
Definition receive (i : Entry) (x : Exploration) : Exploration :=
  match explore_found order i (ex_node x) with
  | (s, Ok (j :: _)) => with_receiver s (RSend j) x
  | (s, Ok []) => with_receiver s RTake x
  | (s, _) => crash s x
  end.

(** ** Steps *)

Inductive step : Exploration -> Exploration -> Prop :=
| step_tick x : ex_crashed x = false ->
    step x (mkEx (ex_node x) (ex_in x) (ex_ret x) (ex_ticks x ++ [TStart]) (ex_receiver x) false)
| step_take x k i ch : ex_crashed x = false -> ex_ticks x !! k = Some TStart -> ex_in x = i :: ch ->
    step x (tick_take k i (with_in ch x))
| step_first x k p o l : ex_crashed x = false -> ex_ticks x !! k = Some (TFirst p (o :: l)) -> (sends o -> room (ex_ret x)) ->
    step x (tick_send k (TFirst p l) o x)
| step_between x k p : ex_crashed x = false -> ex_ticks x !! k = Some (TFirst p []) -> step x (tick_second k p x)
| step_second x k o l : ex_crashed x = false -> ex_ticks x !! k = Some (TSecond (o :: l)) -> (sends o -> room (ex_ret x)) ->
    step x (tick_send k (TSecond l) o x)
| step_explored x k : ex_crashed x = false -> ex_ticks x !! k = Some (TSecond []) ->
    step x (with_tick (ex_node x) k TCheck x)
| step_check x k : ex_crashed x = false -> ex_ticks x !! k = Some TCheck -> step x (tick_check k x)
| step_seed x k i out : ex_crashed x = false -> ex_ticks x !! k = Some (TSeed (i :: out)) -> room (ex_in x) ->
    step x (with_tick (ex_node x) k (TSeed out) (with_in (ex_in x ++ [i]) x))
| step_seeded x k : ex_crashed x = false -> ex_ticks x !! k = Some (TSeed []) -> step x (end_tick (ex_node x) k x)
| step_receive x i ch : ex_crashed x = false -> ex_receiver x = RTake -> ex_ret x = i :: ch ->
    step x (receive i (with_ret ch x))
| step_return x i : ex_crashed x = false -> ex_receiver x = RSend i -> room (ex_in x) ->
    step x (with_receiver (ex_node x) RTake (with_in (ex_in x ++ [i]) x)).

(** [StartExploring]: the seeded channel, the first tick, the receiver. *)
Definition ExploreJob (s : Node) : Exploration * option error :=
  match seedExplore rand shuffle s with
  | (s', Ok l) => (mkEx s' l [] [TStart] RTake false, None)
  | (s', Err e) => (mkEx s' [] [] [] RTake false, Some e)
  | (s', Panic) => (mkEx s' [] [] [] RTake true, None)
  end.
End Job.

(** ** Frame: networking changes nothing of the local peer but its DHT *)

Section Frame.
Context {C : Crypto} {D : Sqlite} {K : Msgpack} {W : Network}.
Context (rand : nat -> option bytes) (maxPeers : Z) (iter : gmap string Z -> list (string * Z)).

Definition only_DHT (lp : LocalPeer) (s : Node) : Prop := set_DHT (lp_DHT lp) (nd_lp s) = lp.

Context (lp : LocalPeer).

Lemma frame_modify f : (forall s, nd_lp (f s) = nd_lp s) -> preserves (only_DHT lp) (modify f).
Proof. intros Hf. apply preserves_modify. intros s. unfold only_DHT. by rewrite Hf. Qed.

Lemma frame_DHT {A} (m : M NetDB A) : preserves (only_DHT lp) (nd_DHT m).
Proof. intros s Hs. unfold nd_DHT, on_lp, on_DHT, zoom. destruct (m _) as [d o]. exact Hs. Qed.

Lemma frame_talk {A} (m : M net A) : preserves (only_DHT lp) (nd_talk m).
Proof. intros s Hs. unfold nd_talk, zoom. by destruct (m _). Qed.

Lemma frame_get {A} (f : Node -> M Node A) : (forall s, preserves (only_DHT lp) (f s)) -> preserves (only_DHT lp) (get ≫= f).
Proof. intros Hf s Hs. by apply Hf. Qed.

Lemma frame_deref p : preserves (only_DHT lp) (deref p).
Proof. apply frame_get. intros s. case_match; auto with zif. Qed.

Lemma frame_streams {A} p (m : M SMS A) : preserves (only_DHT lp) (on_streams p m).
Proof.
  unfold on_streams. apply preserves_bind; [apply frame_deref|]. intros x. apply frame_get. intros s.
  destruct (m _) as [[sm n] o]. apply preserves_bind; [by apply frame_modify|]. intros _. apply preserves_pure.
Qed.
End Frame.

#[export] Hint Resolve frame_DHT frame_talk frame_deref frame_streams : zif.
#[export] Hint Extern 3 (preserves (only_DHT _) (modify _)) => by apply frame_modify : zif.

Ltac frame_step :=
  match goal with
  | |- preserves (only_DHT _) (mbind _ get) => apply frame_get; intros ?
  | |- preserves (only_DHT _) (get ≫= _) => apply frame_get; intros ?
  | _ => preserves_step
  end.
Ltac frame_tac := repeat frame_step.

Section FrameOps.
Context {C : Crypto} {D : Sqlite} {K : Msgpack} {W : Network}.
Context (rand : nat -> option bytes) (maxPeers : Z) (iter : gmap string Z -> list (string * Z)) (lp : LocalPeer).

Lemma frame_now : preserves (only_DHT lp) now.
Proof. unfold now. frame_tac. Qed.

Lemma frame_seen a : preserves (only_DHT lp) (seen_now a).
Proof. unfold seen_now. apply preserves_bind; [apply frame_now|]. intros t. by apply frame_modify. Qed.
#[local] Hint Resolve frame_now frame_seen : zif.

Lemma frame_Ping p : preserves (only_DHT lp) (Peer_Ping p).
Proof. unfold Peer_Ping. frame_tac. Qed.
#[local] Hint Resolve frame_Ping : zif.

Lemma frame_OpenStream p : preserves (only_DHT lp) (Peer_OpenStream p).
Proof. unfold Peer_OpenStream, Peer_UpdateSeen. frame_tac. Qed.
#[local] Hint Resolve frame_OpenStream : zif.

Lemma frame_request {A} p (proc : Proc A) : preserves (only_DHT lp) (request p proc).
Proof. unfold request, closing. frame_tac. Qed.
#[local] Hint Resolve frame_request : zif.

Lemma frame_FindClosest p a : preserves (only_DHT lp) (Peer_FindClosest p a).
Proof. unfold Peer_FindClosest. frame_tac. Qed.
Lemma frame_Query p a : preserves (only_DHT lp) (Peer_Query p a).
Proof. unfold Peer_Query. frame_tac. Qed.
#[local] Hint Resolve frame_FindClosest frame_Query : zif.

Lemma frame_store p x : preserves (only_DHT lp) (store p x).
Proof. by apply frame_modify. Qed.
#[local] Hint Resolve frame_store : zif.

Lemma frame_Entry p : preserves (only_DHT lp) (Peer_Entry p).
Proof. unfold Peer_Entry, Peer_GetEntry. frame_tac. Qed.
#[local] Hint Resolve frame_Entry : zif.

Lemma frame_close a : preserves (only_DHT lp) (PM_HandleCloseConnection a).
Proof. unfold PM_HandleCloseConnection, on_pm, block. frame_tac. Qed.
#[local] Hint Resolve frame_close : zif.

Lemma frame_evict f : preserves (only_DHT lp) (evict_loop maxPeers iter f).
Proof. induction f as [|f IH]; cbn [evict_loop]; unfold Peer_Terminate; frame_tac. Qed.
#[local] Hint Resolve frame_evict : zif.

Lemma frame_SetPeer p : preserves (only_DHT lp) (PM_SetPeer maxPeers iter p).
Proof. unfold PM_SetPeer, on_pm. frame_tac. Qed.
#[local] Hint Resolve frame_SetPeer : zif.

Lemma frame_ConnectPeerDirect a : preserves (only_DHT lp) (PM_ConnectPeerDirect rand maxPeers iter a).
Proof. unfold PM_ConnectPeerDirect, new_peer, Peer_Connect, Peer_ConnectClient. frame_tac. Qed.
#[local] Hint Resolve frame_ConnectPeerDirect : zif.

Lemma frame_resolveStep f : forall e a depth, preserves (only_DHT lp) (resolveStep rand maxPeers iter f e a depth).
Proof.
  induction f as [|f IH]; intros e a depth; cbn [resolveStep]; frame_tac.
  match goal with H : _ = inl ?l |- preserves _ (_ ?l ?d) => clear H; generalize d; induction l as [|i l IHl]; intros ? end; frame_tac.
Qed.
#[local] Hint Resolve frame_resolveStep : zif.

Lemma frame_resolve_loop f a : forall l depth, preserves (only_DHT lp) (resolve_loop rand maxPeers iter f l a depth).
Proof. induction l as [|i l IH]; intros depth; cbn [resolve_loop]; frame_tac. Qed.
#[local] Hint Resolve frame_resolve_loop : zif.

Lemma frame_Resolve a : preserves (only_DHT lp) (PM_Resolve rand maxPeers iter a).
Proof. unfold PM_Resolve. frame_tac. Qed.
#[local] Hint Resolve frame_Resolve : zif.

Lemma frame_ConnectPeer a : preserves (only_DHT lp) (PM_ConnectPeer rand maxPeers iter a).
Proof. unfold PM_ConnectPeer. frame_tac. Qed.
#[local] Hint Resolve frame_ConnectPeer : zif.

Lemma frame_first a : preserves (only_DHT lp) (explore_first rand maxPeers iter a).
Proof. unfold explore_first. frame_tac. Qed.
Lemma frame_second me p : preserves (only_DHT lp) (explore_second me p).
Proof. unfold explore_second. frame_tac. Qed.
Lemma frame_seed shuffle : preserves (only_DHT lp) (seedExplore rand shuffle).
Proof. unfold seedExplore. frame_tac. Qed.
Lemma frame_found order i : preserves (only_DHT lp) (explore_found order i).
Proof. unfold explore_found. frame_tac. Qed.
End FrameOps.
