(* ===== verification/ExploreProps.v ===== *)
(** The exploration over any interleaving of its goroutines: what is on the channels,
    that a blocked goroutine can always go on, and that an exploration that has run dry
    never starts again. *)

From stdpp Require Import sorting relations.
From S2P Require Import Prelude GoLib Base58Check Crypto Address Entry Util Sqlite NetStore NetDB NetTable NetInv NetRun DHT DHTProps.
From S2P Require Import Post PieceStream PostDB DataProps Collection Proto Handshake StreamManager LocalPeer Client Peer PeerManager.
From S2P Require Import NetClosest PeerManagerProps Explore ExploreJob.

Section Props.
Context {C : Crypto} {D : Sqlite} {K : Msgpack} {W : Network}.
Context (rand : nat -> option bytes) (maxPeers : Z) (iter : gmap string Z -> list (string * Z)).
Context (shuffle : nat -> nat) (order : list string -> list string) (me : Address).

#[local] Notation step := (step rand maxPeers iter shuffle order me).

Definition other (i : Entry) : Prop := Address_Equals (EAddress i) me = false.

(** ** What is sent *)

(** The seeding is of others, three at most. *)
Lemma seed_other s s' l : lp_address (nd_lp s) = me -> seedExplore rand shuffle s = (s', Ok l) ->
  Forall other l /\ (length l <= 3)%nat.
Proof.
  intros Hme. unfold seedExplore. rewrite run_get, Hme. intros (s1 & c & _ & H)%bind_Ok.
  apply bind_Ok in H as (s2 & a & _ & H). apply bind_Ok in H as (s3 & r & _ & H). apply bind_Ok in H as (s4 & all & _ & H).
  destruct (length all =? 0)%nat; [done|]. injection H as _ <-. split.
  - apply List.Forall_forall. intros i Hi. apply filter_In in Hi as [_ Hi]. by apply negb_true_iff in Hi.
  - etransitivity; [apply filter_length_le|]. assert (length (take 3 all) <= 3)%nat as Ht by (rewrite length_take; lia).
    revert Ht. generalize (take 3 all). intros k. enough (length (flat_map (fun o : option Entry => match o with Some i => [i] | None => [] end) k) <= length k)%nat by lia.
    induction k as [|[i|] k IH]; cbn [flat_map length app]; lia.
Qed.

(** Only the entry that came is sent back. *)
Lemma found_same i s s' l : explore_found order i s = (s', Ok l) -> l = [] \/ l = [i].
Proof.
  unfold explore_found. intros (s1 & q & _ & H)%bind_Ok. destruct q as [cur|e]; [|injection H as _ <-; by left].
  rewrite run_get in H. destruct (Address_Equals _ _); [injection H as _ <-; by left|]. destruct cur as [cur|].
  - destruct (_ <? _); [apply bind_Ok in H as (? & ? & _ & H); injection H as _ <-; by left|].
    destruct (_ <? _)%nat; [apply bind_Ok in H as (? & ? & _ & H); injection H as _ <-; by left|injection H as _ <-; by left].
  - apply bind_Ok in H as (s2 & [n [e|]] & _ & H); injection H as _ <-; [by left|]. destruct (0 <? n); [by right|by left].
Qed.

(** ** The invariant *)

Definition tick_ok (t : tick) : Prop :=
  match t with TSeed out => Forall other out | _ => True end.

Record ex_inv (lp : LocalPeer) (x : Exploration) : Prop := {
  iv_in : (length (ex_in x) <= ExploreBufferSize)%nat /\ Forall other (ex_in x);
  iv_ret : (length (ex_ret x) <= ExploreBufferSize)%nat /\ Forall other (ex_ret x);
  iv_ticks : Forall tick_ok (ex_ticks x);
  iv_receiver : match ex_receiver x with RTake => True | RSend i => other i end;
  iv_node : only_DHT lp (ex_node x);
}.

Context (lp : LocalPeer) (Hme : lp_address lp = me).

Lemma inv_address x : ex_inv lp x -> lp_address (nd_lp (ex_node x)) = me.
Proof. intros []. rewrite <-Hme. unfold only_DHT in *. by rewrite <-iv_node0. Qed.

Lemma inv_tick x s k t : ex_inv lp x -> tick_ok t -> only_DHT lp s -> ex_inv lp (with_tick s k t x).
Proof. intros [] Ht Hs. split; try done. cbn. by apply Forall_insert. Qed.

Lemma inv_end x s k : ex_inv lp x -> only_DHT lp s -> ex_inv lp (end_tick s k x).
Proof. intros [] Hs. split; try done. cbn. by apply Forall_delete. Qed.

Lemma inv_crash x s : ex_inv lp x -> only_DHT lp s -> ex_inv lp (crash s x).
Proof. intros [] Hs. by split. Qed.

Lemma inv_pushed ch i : (length ch <= ExploreBufferSize)%nat /\ Forall other ch -> room ch -> other i ->
  (length (ch ++ [i]) <= ExploreBufferSize)%nat /\ Forall other (ch ++ [i]).
Proof.
  unfold room. intros [H1 H2] Hr Hi. rewrite length_app. cbn [length]. split; [lia|]. apply Forall_app_2; [done|by constructor].
Qed.

Lemma inv_taken ch i : (length (i :: ch) <= ExploreBufferSize)%nat /\ Forall other (i :: ch) ->
  ((length ch <= ExploreBufferSize)%nat /\ Forall other ch) /\ other i.
Proof. cbn [length]. intros [H1 H2]. apply Forall_cons_1 in H2 as [? ?]. split; [split; [lia|done]|done]. Qed.

Lemma inv_with_in ch x : ex_inv lp x -> (length ch <= ExploreBufferSize)%nat /\ Forall other ch -> ex_inv lp (with_in ch x).
Proof. intros [] H. by split. Qed.
Lemma inv_with_ret ch x : ex_inv lp x -> (length ch <= ExploreBufferSize)%nat /\ Forall other ch -> ex_inv lp (with_ret ch x).
Proof. intros [] H. by split. Qed.
Lemma inv_with_receiver s r x : ex_inv lp x -> only_DHT lp s -> match r with RTake => True | RSend i => other i end ->
  ex_inv lp (with_receiver s r x).
Proof. intros [] H H'. by split. Qed.

Lemma inv_ticks x k t : ex_inv lp x -> ex_ticks x !! k = Some t -> tick_ok t.
Proof. intros [] Hk. by eapply Forall_lookup_1. Qed.

Lemma inv_take x k i : ex_inv lp x -> ex_inv lp (tick_take rand maxPeers iter me k i x).
Proof.
  intros H. unfold tick_take. case_match; [by apply inv_end; [|apply H]|].
  pose proof (frame_first rand maxPeers iter lp (EAddress i) (ex_node x) (iv_node _ _ H)) as Hf.
  destruct (explore_first _ _ _ _ _) as [s [[[p out]|e]|e|]] eqn:E; cbn [fst] in Hf;
    first [by apply inv_crash | by apply inv_tick].
Qed.

Lemma inv_send x k t o : ex_inv lp x -> tick_ok t -> (sends me o -> room (ex_ret x)) -> ex_inv lp (tick_send me k t o x).
Proof.
  intros H Ht Hr. unfold tick_send. destruct o as [i|]; [|by apply inv_crash; [|apply H]].
  destruct (Address_Equals (EAddress i) me) eqn:E; (apply inv_tick; [|done|apply H]); [done|].
  apply inv_with_ret; [done|]. apply inv_pushed; [apply H| |done]. apply Hr. by exists i.
Qed.

Lemma inv_second x k p : ex_inv lp x -> ex_inv lp (tick_second me k p x).
Proof.
  intros H. unfold tick_second. pose proof (frame_second lp me p (ex_node x) (iv_node _ _ H)) as Hf.
  destruct (explore_second _ _ _) as [s [[out|e]|e|]] eqn:E; cbn [fst] in Hf;
    first [by apply inv_crash | by apply inv_tick].
Qed.

Lemma inv_check x k : ex_inv lp x -> ex_inv lp (tick_check rand shuffle k x).
Proof.
  intros H. unfold tick_check. case_match; [|by apply inv_end; [|apply H]].
  pose proof (frame_seed rand lp shuffle (ex_node x) (iv_node _ _ H)) as Hf. unfold try.
  destruct (seedExplore rand shuffle (ex_node x)) as [s [l|e|]] eqn:E; cbn [fst] in Hf; [|by apply inv_end|by apply inv_crash].
  apply inv_tick; [done| |done]. by apply (seed_other _ _ _ (inv_address x H) E).
Qed.

Lemma inv_receive x i : ex_inv lp x -> other i -> ex_inv lp (receive order i x).
Proof.
  intros H Hi. unfold receive. pose proof (frame_found lp order i (ex_node x) (iv_node _ _ H)) as Hf.
  destruct (explore_found order i (ex_node x)) as [s [[|j l]|e|]] eqn:E; cbn [fst] in Hf;
    first [by apply inv_crash | by apply inv_with_receiver | apply inv_with_receiver; [done|done|]].
  apply found_same in E as [|[= -> _]]; done.
Qed.

Lemma step_keeps x y : step x y -> ex_inv lp x -> ex_inv lp y.
Proof.
  intros Hs H. pose proof (inv_ticks x) as Ht.
  destruct Hs as [x Hc|x k i ch Hc Hk Hin|x k p o l Hc Hk Hr|x k p Hc Hk|x k o l Hc Hk Hr|x k Hc Hk|x k Hc Hk
    |x k i out Hc Hk Hr|x k Hc Hk|x i ch Hc Hk Hin|x i Hc Hk Hr].
  - destruct H. split; try done. cbn. apply Forall_app_2; [done|by constructor].
  - apply inv_take, inv_with_in; [done|]. pose proof (iv_in _ _ H) as Hi. rewrite Hin in Hi. by apply inv_taken in Hi as [].
  - by apply inv_send.
  - by apply inv_second.
  - by apply inv_send.
  - by apply inv_tick; [| |apply H].
  - by apply inv_check.
  - specialize (Ht _ _ H Hk) as Hi. apply Forall_cons_1 in Hi as [Hi Hout].
    apply inv_tick; [|done|apply H]. apply inv_with_in; [done|]. by apply inv_pushed; [apply H| |].
  - by apply inv_end; [|apply H].
  - pose proof (iv_ret _ _ H) as Hi. rewrite Hin in Hi. apply inv_taken in Hi as [Hch Hi].
    apply inv_receive; [|done]. by apply inv_with_ret.
  - pose proof (iv_receiver _ _ H) as Hi. rewrite Hk in Hi. apply inv_with_receiver; [|apply H|done].
    apply inv_with_in; [done|]. by apply inv_pushed; [apply H| |].
Qed.

Lemma start_inv s : nd_lp s = lp -> ex_inv lp (ExploreJob rand shuffle s).1.
Proof.
  intros Es. assert (only_DHT lp s) as Hs by (unfold only_DHT; rewrite Es; by destruct lp).
  pose proof (frame_seed rand lp shuffle s Hs) as Hf. unfold ExploreJob.
  destruct (seedExplore rand shuffle s) as [s' [l|e|]] eqn:E; cbn [fst] in *; split; cbn; try done; try (split; [lia|constructor]).
  - apply seed_other in E as [Ho Hl]; [|by rewrite Es]. unfold ExploreBufferSize. split; [lia|done].
  - by constructor.
Qed.

Lemma reach_inv x y : rtc step x y -> ex_inv lp x -> ex_inv lp y.
Proof. induction 1 as [|x y z Hs _ IH]; [done|]. intros H. apply IH. by eapply step_keeps. Qed.

(** ** Going on *)

(** A tick that comes when [in] is full makes room, and leaves the others as they are. *)
Lemma tick_makes_room x : ex_crashed x = false -> ex_inv lp x -> ex_in x <> [] ->
  exists y, rtc step x y /\ (ex_crashed y = true \/
    ex_crashed y = false /\ ex_in y = tail (ex_in x) /\ ex_ret y = ex_ret x /\ ex_receiver y = ex_receiver x /\
    forall k t, ex_ticks x !! k = Some t -> ex_ticks y !! k = Some t).
Proof.
  intros Hc H Hin. destruct (ex_in x) as [|i ch] eqn:Ei; [done|].
  set (x1 := mkEx (ex_node x) (ex_in x) (ex_ret x) (ex_ticks x ++ [TStart]) (ex_receiver x) false).
  set (k0 := length (ex_ticks x)). assert (ex_ticks x1 !! k0 = Some TStart) as Hk0 by (by apply list_lookup_middle).
  exists (tick_take rand maxPeers iter me k0 i (with_in ch x1)). split.
  { eapply rtc_l; [by apply step_tick|]. eapply rtc_once. by apply step_take. }
  assert (forall t k t', ex_ticks x !! k = Some t -> <[k0 := t']> (ex_ticks x1) !! k = Some t) as Hins.
  { intros t k t' Hk. pose proof (lookup_lt_Some _ _ _ Hk). rewrite list_lookup_insert_ne by (unfold k0; lia). by apply lookup_app_l_Some. }
  unfold tick_take. destruct (Address_Equals (EAddress i) me).
  - right. split_and!; try done. intros k t Hk. cbn. unfold k0. rewrite delete_middle, app_nil_r. done.
  - destruct (explore_first _ _ _ _ _) as [s [[[p out]|e]|e|]]; [right|right|by left|by left];
      (split_and!; [done..|]); intros k t Hk; by eapply Hins.
Qed.

(** The receiver, when it sends, can get back to its loop. *)
Lemma receiver_goes_on x i : ex_crashed x = false -> ex_inv lp x -> ex_receiver x = RSend i ->
  exists y, rtc step x y /\ (ex_crashed y = true \/
    ex_crashed y = false /\ ex_receiver y = RTake /\ ex_ret y = ex_ret x /\ forall k t, ex_ticks x !! k = Some t -> ex_ticks y !! k = Some t).
Proof.
  intros Hc H Hr. destruct (decide (length (ex_in x) < ExploreBufferSize)%nat) as [Hroom|Hfull].
  { exists (with_receiver (ex_node x) RTake (with_in (ex_in x ++ [i]) x)). split; [apply rtc_once; by apply step_return|right].
    by split_and!. }
  destruct (tick_makes_room x Hc H) as (y & Hy & [Hcr|(Hcy & Hiy & Hry & Hrec & Hk)]); [|by exists y; split; [|left]|].
  { intros E. rewrite E in Hfull. cbn in Hfull. unfold ExploreBufferSize in Hfull. lia. }
  exists (with_receiver (ex_node y) RTake (with_in (ex_in y ++ [i]) y)). split; [|right; by split_and!].
  eapply rtc_r; [exact Hy|]. apply step_return; [done|by rewrite Hrec|]. unfold room. rewrite Hiy.
  pose proof (iv_in _ _ H) as [Hle _]. destruct (ex_in x); cbn [tail length] in *; unfold ExploreBufferSize in *; lia.
Qed.

(** There can be room on [ret] for a tick that sends. *)
Lemma ret_makes_room x k t : ex_crashed x = false -> ex_inv lp x -> ex_ticks x !! k = Some t ->
  exists y, rtc step x y /\ (ex_crashed y = true \/ ex_crashed y = false /\ room (ex_ret y) /\ ex_ticks y !! k = Some t).
Proof.
  intros Hc H Hk. destruct (decide (length (ex_ret x) < ExploreBufferSize)%nat) as [Hroom|Hfull].
  { exists x. split; [done|right]. done. }
  assert (exists y, rtc step x y /\ (ex_crashed y = true \/
    ex_crashed y = false /\ ex_receiver y = RTake /\ ex_ret y = ex_ret x /\ ex_ticks y !! k = Some t)) as (y & Hy & Hcase).
  { destruct (ex_receiver x) as [|i] eqn:Er; [by exists x; split; [|right; split_and!]|].
    destruct (receiver_goes_on x i Hc H Er) as (y & Hy & [Hcr|(? & ? & ? & Ht)]); exists y; split; try done; [by left|].
    right. split_and!; try done. by apply Ht. }
  destruct Hcase as [Hcr|(Hcy & Hry & Hrety & Hky)]; [by exists y; split; [|left]|].
  pose proof (reach_inv x y Hy H) as Hiy. destruct (ex_ret y) as [|i ch] eqn:Ei.
  { rewrite <-Hrety in Hfull. cbn in Hfull. unfold ExploreBufferSize in Hfull. lia. }
  exists (receive order i (with_ret ch y)). split; [eapply rtc_r; [exact Hy|]; by apply step_receive|].
  pose proof (iv_ret _ _ Hiy) as [Hle _]. rewrite Ei in Hle. cbn [length] in Hle.
  unfold receive. destruct (explore_found _ _ _) as [s [[|j l]|e|]]; [right|right|by left|by left];
    (split_and!; [done| |done]; unfold room; cbn; unfold ExploreBufferSize in *; lia).
Qed.

(** There can be room on [in] for a tick that seeds. *)
Lemma in_makes_room x k t : ex_crashed x = false -> ex_inv lp x -> ex_ticks x !! k = Some t ->
  exists y, rtc step x y /\ (ex_crashed y = true \/ ex_crashed y = false /\ room (ex_in y) /\ ex_ticks y !! k = Some t).
Proof.
  intros Hc H Hk. destruct (decide (length (ex_in x) < ExploreBufferSize)%nat) as [Hroom|Hfull].
  { exists x. split; [done|right]. done. }
  destruct (tick_makes_room x Hc H) as (y & Hy & [Hcr|(Hcy & Hiy & _ & _ & Hky)]); [|by exists y; split; [|left]|].
  { intros E. rewrite E in Hfull. cbn in Hfull. unfold ExploreBufferSize in Hfull. lia. }
  exists y. split; [done|right]. split_and!; [done| |by apply Hky]. unfold room. rewrite Hiy.
  pose proof (iv_in _ _ H) as [Hle _]. destruct (ex_in x); cbn [tail length] in *; unfold ExploreBufferSize in *; lia.
Qed.

(** A round of a loop over an answer. *)
Lemma sent_later x k t o : ex_crashed x = false -> is_Some (ex_ticks x !! k) ->
  ex_crashed (tick_send me k t o x) = true \/ ex_ticks (tick_send me k t o x) !! k = Some t.
Proof.
  intros Hc [t0 Hk]. unfold tick_send. destruct o as [i|]; [right|by left].
  destruct (Address_Equals _ _); cbn; apply list_lookup_insert_eq; by eapply lookup_lt_Some.
Qed.

(** ** Running dry *)

Definition stalled (x : Exploration) : Prop :=
  ex_crashed x = false /\ ex_in x = [] /\ ex_ret x = [] /\ ex_receiver x = RTake /\ Forall (eq TStart) (ex_ticks x).

Lemma stalled_step x y : step x y -> stalled x -> stalled y /\ ex_node y = ex_node x.
Proof.
  intros Hs (Hc & Hi & Hr & Hrec & Ht).
  assert (forall k t, ex_ticks x !! k = Some t -> t = TStart) as Hk by (intros k t E; symmetry; by eapply (Forall_lookup_1 (eq TStart))).
  destruct Hs; try congruence; try (by match goal with E : ex_ticks _ !! _ = Some _ |- _ => apply Hk in E end).
  split; [|done]. split_and!; try done. cbn. apply Forall_app_2; [done|by constructor].
Qed.

Lemma stalled_reach x y : rtc step x y -> stalled x -> stalled y /\ ex_node y = ex_node x.
Proof.
  induction 1 as [|x y z Hs _ IH]; [done|]. intros H. destruct (stalled_step x y Hs H) as [Hy Ey]. destruct (IH Hy). split; congruence.
Qed.
End Props.

(** ** Theorems *)

(** C25. Whatever the network answers and however ticks and receiver interleave, in every
    state that the exploration reaches the channels hold at most a hundred entries each,
    none of them the local peer's own, and of the data of the local peer only the DHT has
    changed: neither the entry nor the key, the posts, the collection or the files. (The
    ticks connect to peers, so that the manager of the peers does change.) *)
Theorem exploration_invariant {C : Crypto} {D : Sqlite} {K : Msgpack} {W : Network}
    (rand : nat -> option bytes) (maxPeers : Z) (iter : gmap string Z -> list (string * Z))
    (shuffle : nat -> nat) (order : list string -> list string) (s : Node) (x : Exploration) :
  let me := lp_address (nd_lp s) in
  rtc (step rand maxPeers iter shuffle order me) (ExploreJob rand shuffle s).1 x ->
  (length (ex_in x) <= ExploreBufferSize)%nat /\ (length (ex_ret x) <= ExploreBufferSize)%nat /\
  (forall i, i ∈ ex_in x ++ ex_ret x -> Address_Equals (EAddress i) me = false) /\
  nd_lp (ex_node x) = set_DHT (lp_DHT (nd_lp (ex_node x))) (nd_lp s).
Proof.
  intros me Hr. pose proof (reach_inv rand maxPeers iter shuffle order me (nd_lp s) eq_refl _ _ Hr (start_inv _ _ _ _ eq_refl _ eq_refl)) as H.
  destruct H as [[H1 H2] [H3 H4] _ _ H5]. split_and!; try done.
  - intros i Hi. pose proof (Forall_app_2 _ _ _ H2 H4) as Hall. rewrite List.Forall_forall in Hall. by apply Hall, list_elem_of_In.
  - unfold only_DHT in H5. rewrite <-H5. by destruct (nd_lp (ex_node x)).
Qed.

(** C26. No goroutine of the exploration waits forever for a channel it sends on: while the
    ticker runs, from every reachable state there is a way on which the receiver has sent
    what it puts back, and one on which a tick in a loop over an answer, or over the entries
    of a seeding, is a round further, unless the process crashes; a new tick makes room on
    a full [in], the receiver then makes room on a full [ret]. *)
Theorem exploration_goes_on {C : Crypto} {D : Sqlite} {K : Msgpack} {W : Network}
    (rand : nat -> option bytes) (maxPeers : Z) (iter : gmap string Z -> list (string * Z))
    (shuffle : nat -> nat) (order : list string -> list string) (s : Node) (x : Exploration) :
  let me := lp_address (nd_lp s) in
  let step := step rand maxPeers iter shuffle order me in
  rtc step (ExploreJob rand shuffle s).1 x -> ex_crashed x = false ->
  let later P := exists y, rtc step x y /\ (ex_crashed y = true \/ P y) in
  (forall i, ex_receiver x = RSend i -> later (fun y => ex_receiver y = RTake)) /\
  (forall k p o l, ex_ticks x !! k = Some (TFirst p (o :: l)) -> later (fun y => ex_ticks y !! k = Some (TFirst p l))) /\
  (forall k o l, ex_ticks x !! k = Some (TSecond (o :: l)) -> later (fun y => ex_ticks y !! k = Some (TSecond l))) /\
  (forall k i out, ex_ticks x !! k = Some (TSeed (i :: out)) -> later (fun y => ex_ticks y !! k = Some (TSeed out))).
Proof.
  intros me stp Hr Hc later. pose proof (reach_inv rand maxPeers iter shuffle order me (nd_lp s) eq_refl _ _ Hr (start_inv _ _ _ _ eq_refl _ eq_refl)) as H.
  assert (forall (y : Exploration) k (t : tick), ex_ticks y !! k = Some t -> forall t', <[k := t']> (ex_ticks y) !! k = Some t') as Hset.
  { intros y k t Hk t'. apply list_lookup_insert_eq. by eapply lookup_lt_Some. }
  split_and!.
  - intros i Hi. destruct (receiver_goes_on rand maxPeers iter shuffle order me _ x i Hc H Hi) as (y & Hy & Hcase). exists y. split; [done|]. tauto.
  - intros k p o l Hk. destruct (ret_makes_room rand maxPeers iter shuffle order me _ eq_refl x k _ Hc H Hk) as (y & Hy & [Hcr|(Hcy & Hroom & Hky)]);
      [by exists y; split; [|left]|]. eexists. split; [eapply rtc_r; [exact Hy|]; by eapply (step_first _ _ _ _ _ _ y k)|]. by apply sent_later.
  - intros k o l Hk. destruct (ret_makes_room rand maxPeers iter shuffle order me _ eq_refl x k _ Hc H Hk) as (y & Hy & [Hcr|(Hcy & Hroom & Hky)]);
      [by exists y; split; [|left]|]. eexists. split; [eapply rtc_r; [exact Hy|]; by eapply (step_second _ _ _ _ _ _ y k)|]. by apply sent_later.
  - intros k i out Hk. destruct (in_makes_room rand maxPeers iter shuffle order me _ x k _ Hc H Hk) as (y & Hy & [Hcr|(Hcy & Hroom & Hky)]);
      [by exists y; split; [|left]|]. eexists. split; [eapply rtc_r; [exact Hy|]; by eapply step_seed|]. right. by eapply Hset.
Qed.

(** A node that knows only itself: its database has no other entry, and its address is in
    front of its bucket. *)
Record alone {C : Crypto} {D : Sqlite} {K : Msgpack} (lp : LocalPeer) : Prop := {
  al_inv : ndb_inv (lp_DHT lp);
  al_healthy : healthy (conn (lp_DHT lp));
  al_address : length (Raw (lp_address lp)) = AddressBinarySize /\ addr_fresh (lp_address lp);
  al_rows : forall r, r ∈ entries (conn (lp_DHT lp)) -> r_address r = addr_str (lp_address lp);
  al_table : exists i b, bucket_index (ndb_addr (lp_DHT lp)) (lp_address lp) = Ok (Z.of_nat i) /\
    buckets (lp_DHT lp) !! i = Some (lp_address lp :: b);
}.

Section Alone.
Context {C : Crypto} {CL : CryptoLaws C} {D : Sqlite} {L : SqliteLaws D} {K : Msgpack} {W : Network}.

(** All that [FindClosest] gives is the own entry, or nil. *)
Definition own_or_nil (me : Address) (o : option Entry) : Prop := match o with Some e => Address_Equals (EAddress e) me = true | None => True end.

Lemma FindClosest_own ndb a me : ndb_inv ndb -> length (Raw me) = AddressBinarySize -> addr_fresh me ->
  (forall r, r ∈ entries (conn ndb) -> r_address r = addr_str me) -> (1 <= length (Raw a) <= AddressBinarySize)%nat ->
  exists ndb' l, DHT_FindClosest a ndb = (ndb', Ok l) /\ Forall (own_or_nil me) l /\ ndb_inv ndb' /\ entries (conn ndb') = entries (conn ndb).
Proof.
  intros Hinv Hl Hf Hrows Ha. pose proof (spec_FindClosest ndb a Ha ndb (reading_refl ndb Hinv)) as [HR HQ].
  pose proof (errorless_FindClosest a ndb) as He. unfold DHT_FindClosest.
  destruct (FindClosest a ndb) as [ndb' [l|e|]]; cbn [fst snd returns] in *; [|by destruct (He e)|done].
  destruct HR as ([Ht Hfl] & [Hd HE] & _). destruct HQ as [Hst _]. exists ndb', l. split; [done|]. split; [|split; [done|done]].
  eapply Forall_impl; [|exact Hst]. intros [e|]; [|done]. intros (r & Hr & (Hra & _ & _ & _ & Hraw)).
  unfold own_or_nil, Address_Equals. apply bool_decide_eq_true, encode_inj.
  rewrite <-(addr_str_fresh me Hf), <-(addr_str_fresh (EAddress e)) by (left; by rewrite Hraw). rewrite <-Hra. by apply Hrows.
Qed.

Lemma random_length rand a : RandomAddress rand = Ok a -> length (Raw a) = AddressBinarySize.
Proof.
  unfold RandomAddress. intros (b & _ & H)%obind_Ok. unfold Address_Generate in H.
  destruct (negb _); [done|]. cbn in H. injection H as <-. cbn. apply blake2b_length.
Qed.

Lemma seed_alone rand shuffle (s : Node) a :
  alone (nd_lp s) -> RandomAddress rand = Ok a -> (forall i, (shuffle i <= i)%nat) ->
  exists s', seedExplore rand shuffle s = (s', Ok []).
Proof.
  intros [Hinv Hh [Hl Hf] Hrows (i & b & Hi & Hb)] Ha Hs. set (me := lp_address (nd_lp s)) in *.
  destruct (FindClosest_own (lp_DHT (nd_lp s)) me me Hinv Hl Hf Hrows) as (d1 & l1 & E1 & H1 & Hinv1 & Hr1).
  { rewrite Hl. unfold AddressBinarySize. lia. }
  destruct (FindClosest_own d1 a me Hinv1 Hl Hf) as (d2 & l2 & E2 & H2 & _); [by rewrite Hr1| |].
  { rewrite (random_length rand a Ha). unfold AddressBinarySize. lia. }
  pose proof (FindClosest_some (lp_DHT (nd_lp s)) me i me b d1 l1 Hinv Hh Hi Hb ltac:(rewrite Hl; unfold AddressBinarySize; lia) E1) as Hn.
  destruct (Shuffle_perm shuffle (l1 ++ l2) Hs) as (all & Eall & Hperm).
  exists (set_lp (set_DHT d2 (set_DHT d1 (nd_lp s))) (set_lp (set_DHT d1 (nd_lp s)) s)).
  unfold seedExplore. rewrite run_get. fold me. erewrite run_bind.
  2: { unfold nd_DHT, on_lp, on_DHT, zoom. by rewrite E1. }
  rewrite (run_lift _ _ _ a) by (by rewrite Ha). erewrite run_try.
  2: { unfold nd_DHT, on_lp, on_DHT, zoom. cbn [nd_lp set_lp lp_DHT set_DHT]. by rewrite E2. }
  rewrite (run_lift _ _ _ all) by exact Eall.
  assert (length all = length l1 + length l2)%nat as Hlen by (by rewrite Hperm, length_app).
  destruct (Nat.eqb_spec (length all) 0); [lia|]. unfold mret, M_ret. do 2 f_equal.
  assert (Forall (own_or_nil me) (take 3 all)) as Hall by (apply Forall_take; rewrite Hperm; by apply Forall_app).
  induction Hall as [|[e|] k He _ IH]; [done| |done]. cbn [flat_map app List.filter]. cbn in He. by rewrite He.
Qed.
End Alone.

(** C32. A node that knows only itself never explores: when its database has no other entry
    and its routing table has its own address in front of its bucket, as after every start,
    and the random source works, [StartExploring] reports success, and from then on,
    however the goroutines interleave, both channels stay empty, every tick, now and later,
    waits for an entry that nobody sends, and the exploration does not change the node. *)
Theorem exploration_dries_up {C : Crypto} {CL : CryptoLaws C} {D : Sqlite} {L : SqliteLaws D} {K : Msgpack} {W : Network}
    (rand : nat -> option bytes) (maxPeers : Z) (iter : gmap string Z -> list (string * Z))
    (shuffle : nat -> nat) (order : list string -> list string) (me a : Address) (s : Node) (x : Exploration) :
  alone (nd_lp s) -> RandomAddress rand = Ok a -> (forall i, (shuffle i <= i)%nat) ->
  let job := ExploreJob rand shuffle s in
  rtc (step rand maxPeers iter shuffle order me) job.1 x ->
  job.2 = None /\ ex_crashed x = false /\ ex_in x = [] /\ ex_ret x = [] /\ ex_receiver x = RTake /\
  (forall t, t ∈ ex_ticks x -> t = TStart) /\ ex_node x = ex_node job.1.
Proof.
  intros Hs Ha Hsh job Hr. destruct (seed_alone rand shuffle s a Hs Ha Hsh) as [s' E].
  unfold job, ExploreJob in *. rewrite E in *. cbn [fst snd ex_node] in *. split; [done|].
  destruct (stalled_reach _ _ _ _ _ _ _ _ Hr) as [(H0 & H1 & H2 & H3 & H4) Hn].
  { split_and!; try done. by constructor. }
  split_and!; try done. intros t Ht. rewrite List.Forall_forall in H4. symmetry. by apply H4, list_elem_of_In.
Qed.

(** ** Witnesses *)

#[local] Existing Instance toy_crypto.
#[local] Existing Instance toy_laws.
#[local] Existing Instance toy_sqlite.
#[local] Existing Instance toy_sqlite_laws.
#[local] Existing Instance toy_msgpack.
#[local] Existing Instance toy_network.

Definition toy_rand (n : nat) : option bytes := Some (replicate n "r"%char).
Definition ticked (x : Exploration) : Exploration :=
  mkEx (ex_node x) (ex_in x) (ex_ret x) (ex_ticks x ++ [TStart]) (ex_receiver x) false.

Lemma ticked_reached rand maxPeers iter shuffle order me x : ex_crashed x = false ->
  rtc (step rand maxPeers iter shuffle order me) x (ticked x).
Proof. intros Hc. apply rtc_once. by apply step_tick. Qed.

(** The exploration of the node with three peers, after another tick. *)
Definition toy_ticked : Exploration := ticked (ExploreJob toy_rand (fun i => i) (toy_node [])).1.

Lemma toy_not_crashed : ex_crashed (ExploreJob toy_rand (fun i => i) (toy_node [])).1 = false.
Proof. vm_compute. reflexivity. Qed.

Lemma exploration_invariant_witness :
  (length (ex_in toy_ticked) <= ExploreBufferSize)%nat /\ (length (ex_ret toy_ticked) <= ExploreBufferSize)%nat /\
  (forall i, i ∈ ex_in toy_ticked ++ ex_ret toy_ticked -> Address_Equals (EAddress i) (lp_address (nd_lp (toy_node []))) = false) /\
  nd_lp (ex_node toy_ticked) = set_DHT (lp_DHT (nd_lp (ex_node toy_ticked))) (nd_lp (toy_node [])).
Proof.
  exact (exploration_invariant toy_rand 100 map_to_list (fun i => i) (fun l => l) (toy_node []) toy_ticked
    (ticked_reached toy_rand 100 map_to_list (fun i => i) (fun l => l) (lp_address (nd_lp (toy_node []))) _ toy_not_crashed)).
Defined.

(** A tick that has asked a peer, which answers with an entry and a nil one. *)
Definition toy_asked : Node := toy_node [Message_Write (VEntries [Some toy_d; None]) (bare ProtoDhtEntries)].
Definition toy_exploring : Exploration :=
  let x := (ExploreJob toy_rand (fun i => i) toy_asked).1 in
  match ex_in x with
  | i :: ch => tick_take toy_rand 100 map_to_list (lp_address (nd_lp toy_asked)) 0 i (with_in ch x)
  | [] => x
  end.

Lemma toy_exploring_reached :
  rtc (step toy_rand 100 map_to_list (fun i => i) (fun l => l) (lp_address (nd_lp toy_asked)))
    (ExploreJob toy_rand (fun i => i) toy_asked).1 toy_exploring.
Proof.
  unfold toy_exploring. cbv zeta. destruct (ex_in (ExploreJob toy_rand (fun i => i) toy_asked).1) as [|i ch] eqn:E; [done|].
  apply rtc_once, step_take; [vm_compute; reflexivity..|exact E].
Qed.

Lemma exploration_goes_on_witness :
  ex_ticks toy_exploring !! 0%nat = Some (TFirst 2 [Some toy_d; None]) /\
  exists y, rtc (step toy_rand 100 map_to_list (fun i => i) (fun l => l) (lp_address (nd_lp toy_asked))) toy_exploring y /\
    (ex_crashed y = true \/ ex_ticks y !! 0%nat = Some (TFirst 2 [None])).
Proof.
  split; [vm_compute; reflexivity|].
  destruct (exploration_goes_on toy_rand 100 map_to_list (fun i => i) (fun l => l) toy_asked toy_exploring
    toy_exploring_reached) as (_ & H & _); [vm_compute; reflexivity|].
  apply (H 0%nat 2%nat (Some toy_d) [None]). vm_compute. reflexivity.
Defined.

(** A node that knows only itself. *)
Definition toy_alone : Node :=
  set_lp (mkLP (toy_at "a" []) (raw_address (replicate 20 "a"%char)) toy_sk (DHT_Insert (toy_at "a" []) toy_new).1
    (mkPostDb [] [] 0 []) NewCollection ∅ None ∅ None 1500000001 [] [] true []) (toy_node []).

Lemma rows_all (l : list entry_row) t : forallb (fun r => String.eqb (r_address r) t) l = true -> forall r, r ∈ l -> r_address r = t.
Proof. intros H r Hr. rewrite forallb_forall in H. apply String.eqb_eq, H. by apply list_elem_of_In. Qed.

Lemma toy_is_alone : alone (nd_lp toy_alone).
Proof.
  split.
  - apply (toy_inv _ (toy_insert_reachable _ _ (proj1 toy_verified) (proj1 toy_texts) toy_new_reachable)).
  - vm_compute. reflexivity.
  - split; [reflexivity|left; reflexivity].
  - apply rows_all. vm_compute. reflexivity.
  - exists 1%nat, []. split; vm_compute; reflexivity.
Qed.

Lemma exploration_dries_up_witness :
  let job := ExploreJob toy_rand (fun i => i) toy_alone in
  job.2 = None /\ ex_in (ticked job.1) = [] /\ (forall t, t ∈ ex_ticks (ticked job.1) -> t = TStart).
Proof.
  destruct (exploration_dries_up toy_rand 100 map_to_list (fun i => i) (fun l => l) (raw_address (replicate 20 "a"%char))
    (match RandomAddress toy_rand with Ok a => a | _ => raw_address [] end) toy_alone
    (ticked (ExploreJob toy_rand (fun i => i) toy_alone).1)) as (H1 & _ & H2 & _ & _ & H3 & _).
  - exact toy_is_alone.
  - vm_compute. reflexivity.
  - intros i. exact (le_n i).
  - apply ticked_reached. vm_compute. reflexivity.
  - exact (conj H1 (conj H2 H3)).
Defined.
