(* ===== verification/SeedManager.v ===== *)
(** Who seeds for whom: the search for new seeds of a tracked peer
    ([seedmanager.go]) and of the local peer ([LocalPeer.QuerySelf]). *)

From stdpp Require Import sorting.
From S2P Require Import Prelude GoLib Crypto Address Entry Util Sqlite NetStore NetDB DHT.
From S2P Require Import Post PieceStream PostDB Collection Proto Handshake StreamManager LocalPeer Client Peer PeerManager.

Section SeedManager.
Context {C : Crypto} {D : Sqlite} {R : SqlOrder} {K : Msgpack} {W : Network}.
Context (rand : nat -> option bytes) (maxPeers : Z) (iter : gmap string Z -> list (string * Z)).

(** The entry behind the pointer [sm.entry]: the local entry itself, or a copy that
    came out of the database. *)
Definition tracked_get (e : option Entry) : M Node Entry :=
  match e with Some e => mret e | None => s ← get; mret (lp_Entry (nd_lp s)) end.
Definition tracked_set (seeds : list bytes) (e : option Entry) : M Node (option Entry) :=
  match e with
  | Some e => mret (Some (set_Seeds seeds e))
  | None => _ ← on_lp (modify (fun lp => set_Entry (set_Seeds seeds (lp_Entry lp)) lp)); mret None
  end.

(** ** Slices that shrink under a range *)

(** [append(result[:n], result[n+1:]...)] in the array of [result], of length [len]. *)
Definition cut_at (n : nat) (arr : list bytes) (len : nat) : outcome (list bytes * nat) :=
  if (S n <=? len)%nat
  then Ok (take n arr ++ take (len - S n) (drop (S n) arr) ++ drop (len - 1) arr, (len - 1)%nat)
  else Panic.

(** The removal of the element [n]: the last one, or one that is already gone, is cut
    off by [result[:n]]. *)
Definition remove_at (n : nat) (arr : list bytes) (len : nat) : outcome (list bytes * nat) :=
  if (len - 1 <=? n)%nat then Ok (arr, n) else cut_at n arr len.

(** The check that the seeds link back. [left] cells of the range are to come, the
    next one is [n]. *)
Fixpoint link_loop (left n : nat) (track : Address) (arr : list bytes) (len : nat) : M Node (list bytes) :=
  match left with
  | O => mret (take len arr)
  | S left' =>
      i ← lift (match arr !! n with Some i => Ok i | None => Panic end);
      entry ← try (PM_Resolve rand maxPeers iter (raw_address i));
      match entry with
      | inr _ =>
          a ← lift (remove_at n arr len);
          b ← lift (cut_at n a.1 a.2);
          link_loop left' (S n) track b.1 b.2
      | inl entry =>
          if existsb (fun j => bool_decide (Raw track = j)) (Seeding entry)
          then link_loop left' (S n) track arr len
          else a ← lift (remove_at n arr len); link_loop left' (S n) track a.1 a.2
      end
  end.

(** The seeds a peer reports: the unknown ones, less those that do not link back, are
    added to the entry, which is stored. *)
Definition merge_reported (track : Address) (e : option Entry) (reported : list bytes) : M Node (option Entry) :=
  tracked ← tracked_get e;
  let diff := SliceDiff (Seeds tracked) reported in
  result ← link_loop (length diff) 0 track diff (length diff);
  if (0 <? length result)%nat then
    tracked ← tracked_get e;
    e' ← tracked_set (Seeds tracked ++ result) e;
    tracked ← tracked_get e';
    _ ← nd_DHT (DHT_Insert tracked);
    mret e'
  else mret e.

(** One seed of the tracked entry. *)
Definition find_from (track : Address) (e : option Entry) (i : bytes) : M Node (option Entry) :=
  s ← get;
  if Address_Equals (raw_address i) (lp_address (nd_lp s)) then mret e
  else
    c ← PM_ConnectPeer rand maxPeers iter (raw_address i);
    match c with
    | inr _ => mret e
    | inl (peer, _) =>
        tracked ← tracked_get e;
        q ← try (Peer_Query peer (EAddress tracked));
        match q with
        | inr _ => mret e
        | inl v =>
            qResult ← lift (as_entry v);
            merge_reported track e (Seeds qResult)
        end
    end.

Fixpoint find_loop (track : Address) (e : option Entry) (seeds : list bytes) : M Node (option Entry) :=
  match seeds with
  | [] => mret e
  | i :: rest => e' ← find_from track e i; find_loop track e' rest
  end.

(** ** The manager *)

(** [SeedManager]; its [entry] as above. *)
Record SeedManager := mkSM { sm_track : Address; sm_entry : option Entry }.

(** The pointer that [QueryEntry] returned for [track]. *)
Definition tracked_entry (track : Address) (entry : Entry) : M Node (option Entry) :=
  s ← get; mret (if Address_Equals track (lp_address (nd_lp s)) then None else Some entry).

Definition NewSeedManager (track : Address) : M Node SeedManager :=
  entry ← on_lp (LocalPeer_QueryEntry track);
  e ← tracked_entry track entry;
  mret (mkSM track e).

(** The [find] of [findSeeds], run at once and on every tick. *)
Definition find_seeds (sm : SeedManager) : M Node SeedManager :=
  q ← try (on_lp (LocalPeer_QueryEntry (sm_track sm)));
  match q with
  | inr _ => mret sm
  | inl entry =>
      e ← tracked_entry (sm_track sm) entry;
      e' ← find_loop (sm_track sm) e (Seeds entry);
      mret (mkSM (sm_track sm) e')
  end.

(** [findSeeds] as the goroutine that [Start] begins. What it waits for comes in the order
    of [evs]; while it waits, the rest of the node does what it does. The result says whether
    it is still running. *)
Inductive sm_event := SmTick | SmClose | SmOther (rest : M Node unit).
Fixpoint findSeeds_loop (evs : list sm_event) (sm : SeedManager) : M Node (option SeedManager) :=
  match evs with
  | [] => mret (Some sm)
  | SmTick :: evs' => sm' ← find_seeds sm; findSeeds_loop evs' sm'
  | SmClose :: _ => mret None
  | SmOther m :: evs' => _ ← m; findSeeds_loop evs' sm
  end.
Definition findSeeds (evs : list sm_event) (sm : SeedManager) : M Node (option SeedManager) :=
  sm' ← find_seeds sm; findSeeds_loop evs sm'.

(** One tick of [QuerySelf]; [draw] and [order] as in [CryptoRandInt] and
    [MergeSeeds]. The merged list is neither signed nor saved. *)
Definition query_self_tick (draw : Z -> option Z) (order : list string -> list string) : M Node unit :=
  s ← get;
  let seeds := Seeds (lp_Entry (nd_lp s)) in
  if (length seeds =? 0)%nat then mret tt
  else
    i ← lift (match seeds !! Z.to_nat (CryptoRandInt draw 0 (Z.of_nat (length seeds))) with
              | Some i => Ok i | None => Panic end);
    if Address_Equals (raw_address i) (lp_address (nd_lp s)) then mret tt
    else
      c ← PM_ConnectPeer rand maxPeers iter (raw_address i);
      match c with
      | inr _ => mret tt
      | inl (peer, _) =>
          q ← try (Peer_Query peer (lp_address (nd_lp s)));
          match q with
          | inr _ => mret tt
          | inl v =>
              entry ← lift (as_entry v);
              s ← get;
              let own := Seeds (lp_Entry (nd_lp s)) in
              if (length own <? length (Seeds entry))%nat then
                on_lp (modify (fun lp => set_Entry (set_Seeds (MergeSeeds order own (Seeds entry)) (lp_Entry lp)) lp))
              else mret tt
          end
      end.
End SeedManager.
