(* ===== verification/SeedProps.v ===== *)
(** The properties of the search for seeds: which of the seeds a peer reports are
    taken over. *)

From stdpp Require Import sorting.
From S2P Require Import Prelude GoLib Base58Check Crypto Address Entry Util Sqlite NetStore NetDB NetTable NetInv NetRun DHT DHTProps.
From S2P Require Import Post PieceStream PostDB DataProps Collection Proto Handshake StreamManager LocalPeer Client Peer PeerManager.
From S2P Require Import PeerManagerProps SeedManager.

Section Links.
Context {C : Crypto} {D : Sqlite} {K : Msgpack} {W : Network}.
Context (rand : nat -> option bytes) (maxPeers : Z) (iter : gmap string Z -> list (string * Z)).
Abbreviation resolve x := (PM_Resolve rand maxPeers iter (raw_address x)).
Abbreviation loop := (link_loop rand maxPeers iter).

Definition links_to (track : Address) (e : Entry) : bool := existsb (fun j => bool_decide (Raw track = j)) (Seeding e).

(** From [s] to [s'] the seeds [l] resolve one after the other, and each links back. *)
Inductive all_link (track : Address) : list bytes -> Node -> Node -> Prop :=
| all_link_nil s : all_link track [] s s
| all_link_cons x l s s1 s2 e :
    resolve x s = (s1, Ok e) -> links_to track e = true -> all_link track l s1 s2 ->
    all_link track (x :: l) s s2.

Lemma link_loop_all track pre post more s s' left :
  all_link track post s s' ->
  loop (length post + left) (length pre) track (pre ++ post ++ more) (length (pre ++ post ++ more)) s =
  loop left (length (pre ++ post)) track (pre ++ post ++ more) (length (pre ++ post ++ more)) s'.
Proof.
  intros H. revert pre. induction H as [s|x l s s1 s2 e Hr Hl Ha IH]; intros pre.
  - by rewrite app_nil_r.
  - cbn [length Nat.add link_loop]. rewrite lookup_app_r, Nat.sub_diag by done. cbn [lookup list_lookup app].
    erewrite run_lift by done. rewrite (run_try _ _ _ _ _ Hr). unfold links_to in Hl. rewrite Hl.
    specialize (IH (pre ++ [x])). rewrite length_app, Nat.add_1_r, <-!app_assoc in IH. cbn [app] in IH.
    by rewrite IH.
Qed.

(** The check of one seed that is not the last of the range. *)
Lemma link_loop_run left n track arr len i s s1 e :
  arr !! n = Some i -> resolve i s = (s1, Ok e) ->
  loop (S left) n track arr len s =
  if links_to track e then loop left (S n) track arr len s1
  else (a ← lift (remove_at n arr len); loop left (S n) track a.1 a.2) s1.
Proof.
  intros Hi Hr. cbn [link_loop]. rewrite Hi. erewrite run_lift by done. rewrite (run_try _ _ _ _ _ Hr).
  unfold links_to. by destruct (existsb _ _).
Qed.
End Links.

(** Seeds that all link back are all taken over, in their order. *)
Theorem seeds_linking_back_kept {C : Crypto} {D : Sqlite} {K : Msgpack} {W : Network}
    (rand : nat -> option bytes) (maxPeers : Z) (iter : gmap string Z -> list (string * Z))
    (track : Address) (found : list bytes) (s s' : Node) :
  all_link rand maxPeers iter track found s s' ->
  link_loop rand maxPeers iter (length found) 0 track found (length found) s = (s', Ok found).
Proof.
  intros H. pose proof (link_loop_all rand maxPeers iter track [] found [] s s' 0 H) as E. cbn [app length] in E.
  rewrite app_nil_r, Nat.add_0_r in E. rewrite E. cbn [link_loop]. by rewrite take_ge.
Qed.

(** A last seed that cannot be resolved stops the node: the code that removes it
    cuts the slice twice, the second time behind its end. *)
Theorem unresolved_last_seed_panics {C : Crypto} {D : Sqlite} {K : Msgpack} {W : Network}
    (rand : nat -> option bytes) (maxPeers : Z) (iter : gmap string Z -> list (string * Z))
    (track : Address) (found : list bytes) (fake : bytes) (s s1 s2 : Node) (e : error) :
  all_link rand maxPeers iter track found s s1 ->
  PM_Resolve rand maxPeers iter (raw_address fake) s1 = (s2, Err e) ->
  link_loop rand maxPeers iter (length (found ++ [fake])) 0 track (found ++ [fake]) (length (found ++ [fake])) s =
  (s2, Panic).
Proof.
  intros H Hr. pose proof (link_loop_all rand maxPeers iter track [] found [fake] s s1 1 H) as E. cbn [app length] in E.
  rewrite length_app in *. cbn [length] in *. rewrite E. cbn [link_loop].
  rewrite lookup_app_r, Nat.sub_diag by done. cbn [lookup list_lookup]. erewrite run_lift by done.
  rewrite (run_try_Err _ _ _ _ _ Hr). unfold remove_at.
  rewrite (proj2 (Nat.leb_le _ _)) by lia. erewrite run_lift by done. cbn [fst snd]. unfold cut_at.
  rewrite (proj2 (Nat.leb_gt _ _)) by lia. done.
Qed.

(** Of two seeds in a row that do not link back, the second is taken over: it
    moves to the place of the first, which the range has passed. *)
Theorem second_fake_seed_kept {C : Crypto} {D : Sqlite} {K : Msgpack} {W : Network}
    (rand : nat -> option bytes) (maxPeers : Z) (iter : gmap string Z -> list (string * Z))
    (track : Address) (a b : bytes) (ea eb : Entry) (s s1 s2 : Node) :
  PM_Resolve rand maxPeers iter (raw_address a) s = (s1, Ok ea) -> links_to track ea = false ->
  PM_Resolve rand maxPeers iter (raw_address b) s1 = (s2, Ok eb) -> links_to track eb = false ->
  link_loop rand maxPeers iter 2 0 track [a; b] 2 s = (s2, Ok [b]).
Proof.
  intros Ra La Rb Lb. rewrite (link_loop_run _ _ _ 1 0 track [a; b] 2 a _ _ _ eq_refl Ra), La.
  change (remove_at 0 [a; b] 2) with (Ok ([b; b], 1%nat)). erewrite run_lift by done. cbn [fst snd].
  rewrite (link_loop_run _ _ _ 0 1 track [b; b] 1 b _ _ _ eq_refl Rb), Lb.
  change (remove_at 1 [b; b] 1) with (Ok ([b; b], 1%nat)). by erewrite run_lift by done.
Qed.

(** ** Witnesses *)

#[local] Existing Instance toy_crypto.
#[local] Existing Instance toy_sqlite.
#[local] Existing Instance toy_msgpack.
#[local] Existing Instance toy_network.

Definition toy_track : Address := raw_address (replicate 20 "t"%char).
Definition toy_seed (c : byte) : bytes := replicate 20 c.
Abbreviation toy_resolve x s := (PM_Resolve (fun _ => None) 100 map_to_list (raw_address x) s).
Definition result_or (o : outcome Entry) : Entry := match o with Ok e => e | _ => toy_entry end.

Lemma second_fake_seed_kept_witness :
  link_loop (fun _ => None) 100 map_to_list 2 0 toy_track [toy_seed "a"; toy_seed "b"] 2 (toy_node []) =
  ((toy_resolve (toy_seed "b") (toy_resolve (toy_seed "a") (toy_node [])).1).1, Ok [toy_seed "b"]).
Proof.
  apply (second_fake_seed_kept (fun _ => None) 100 map_to_list toy_track (toy_seed "a") (toy_seed "b")
    (result_or (toy_resolve (toy_seed "a") (toy_node [])).2)
    (result_or (toy_resolve (toy_seed "b") (toy_resolve (toy_seed "a") (toy_node [])).1).2)
    (toy_node []) (toy_resolve (toy_seed "a") (toy_node [])).1).
  - apply pair_surj. vm_compute. reflexivity.
  - vm_compute. reflexivity.
  - apply pair_surj. vm_compute. reflexivity.
  - vm_compute. reflexivity.
Defined.

Lemma unresolved_last_seed_panics_witness :
  link_loop (fun _ => None) 100 map_to_list (length ([] ++ [toy_seed "d"])) 0 toy_track ([] ++ [toy_seed "d"])
    (length ([] ++ [toy_seed "d"])) (toy_node []) = ((toy_resolve (toy_seed "d") (toy_node [])).1, Panic).
Proof.
  apply (unresolved_last_seed_panics (fun _ => None) 100 map_to_list toy_track [] (toy_seed "d") (toy_node [])
    (toy_node []) (toy_resolve (toy_seed "d") (toy_node [])).1 (ErrText "Address could not be resolved")).
  - constructor.
  - apply pair_surj. vm_compute. reflexivity.
Defined.
