(* ===== verification/SeedJob.v ===== *)
(** The life of a seed manager: what its searches change of the node over any number of
    ticks, and what closing it does. *)

From stdpp Require Import sorting.
From S2P Require Import Prelude GoLib Base58Check Crypto Address Entry Util Sqlite NetStore NetDB NetTable NetInv NetRun DHT DHTProps.
From S2P Require Import Post PieceStream PostDB DataProps Collection Proto Handshake StreamManager LocalPeer Client Peer PeerManager.
From S2P Require Import PeerManagerProps Explore ExploreJob SeedManager SeedProps.

(** ** The seeds that are left of the reported ones *)

Section Sublists.
Context (P : bytes -> Prop).

Lemma cut_at_Forall n arr len arr' len' : Forall P arr -> cut_at n arr len = Ok (arr', len') -> Forall P arr'.
Proof.
  intros H. unfold cut_at. case_match; [|done]. intros [= <- <-].
  rewrite !Forall_app. split_and!; auto using Forall_take, Forall_drop.
Qed.
Lemma remove_at_Forall n arr len arr' len' : Forall P arr -> remove_at n arr len = Ok (arr', len') -> Forall P arr'.
Proof. intros H. unfold remove_at. case_match; [by intros [= <- <-]|by apply cut_at_Forall]. Qed.
End Sublists.

Section Job.
Context {C : Crypto} {D : Sqlite} {K : Msgpack} {W : Network}.
Context (rand : nat -> option bytes) (maxPeers : Z) (iter : gmap string Z -> list (string * Z)).

Lemma link_loop_Forall (P : bytes -> Prop) track left : forall n arr len s s' result, Forall P arr ->
  link_loop rand maxPeers iter left n track arr len s = (s', Ok result) -> Forall P result.
Proof.
  induction left as [|left IH]; intros n arr len s s' result H E; cbn [link_loop] in E.
  { injection E as <- <-. by apply Forall_take. }
  unfold lift, try, mbind, M_bind in E. destruct (arr !! n) as [i|]; [|done].
  destruct (PM_Resolve _ _ _ _ s) as [s1 [e|x|]]; [| |done].
  - destruct (existsb _ _); [by eapply IH|]. destruct (remove_at n arr len) as [[a l]|x|] eqn:Er; try done.
    eapply IH; [|exact E]. by eapply remove_at_Forall.
  - destruct (remove_at n arr len) as [[a l]|y|] eqn:Er; try done. cbn [fst snd] in E.
    destruct (cut_at n a l) as [[a' l']|y|] eqn:Ec; try done.
    eapply IH; [|exact E]. eapply cut_at_Forall; [|exact Ec]. by eapply remove_at_Forall.
Qed.

(** ** What the node keeps *)

(** Against the local peer [lp]: only the DHT has changed, and seeds that were not there
    have been added to the own entry. *)
Definition grown (lp : LocalPeer) (s : Node) : Prop := exists added,
  set_DHT (lp_DHT lp) (nd_lp s) = set_Entry (set_Seeds (Seeds (lp_Entry lp) ++ added) (lp_Entry lp)) lp /\
  Forall (fun x => x ∉ Seeds (lp_Entry lp)) added.

Context (lp : LocalPeer).

Lemma grown_refl s : only_DHT lp s -> grown lp s.
Proof.
  intros H. exists []. split; [|done]. rewrite app_nil_r. unfold only_DHT in H. rewrite H. by destruct lp as [[] ? ? ? ? ? ? ? ? ? ? ? ? ?].
Qed.

(** Code that leaves the local peer alone but for the DHT. *)
Lemma grown_frame {A} (m : M Node A) : (forall lp, preserves (only_DHT lp) m) -> preserves (grown lp) m.
Proof.
  intros Hm s (added & E & H). specialize (Hm (nd_lp s) s). exists added. split; [|done]. rewrite <-E.
  assert (only_DHT (nd_lp s) s) as H0; [unfold only_DHT; by destruct (nd_lp s)|]. specialize (Hm H0). unfold only_DHT in Hm.
  trans (set_DHT (lp_DHT lp) (set_DHT (lp_DHT (nd_lp s)) (nd_lp (m s).1))); [done|by rewrite Hm].
Qed.

Lemma grown_add result s : grown lp s -> Forall (fun x => x ∉ Seeds (lp_Entry (nd_lp s))) result ->
  grown lp (set_lp (set_Entry (set_Seeds (Seeds (lp_Entry (nd_lp s)) ++ result) (lp_Entry (nd_lp s))) (nd_lp s)) s).
Proof.
  intros (added & E & H) Hr. assert (lp_Entry (nd_lp s) = set_Seeds (Seeds (lp_Entry lp) ++ added) (lp_Entry lp)) as Ee.
  { apply (f_equal lp_Entry) in E. exact E. }
  rewrite Ee in Hr |- *. exists (added ++ result). split.
  - cbn [Seeds set_Seeds]. rewrite (assoc_L (++)). revert E. cbn [nd_lp set_lp]. destruct (nd_lp s), lp. cbn.
    intros [=]. by subst.
  - apply Forall_app. split; [done|]. eapply Forall_impl; [|exact Hr]. intros x Hx Hin. apply Hx. cbn [Seeds set_Seeds].
    apply elem_of_app. by left.
Qed.

(** ** The search *)

Lemma frame_link_loop lp' track left : forall n arr len, preserves (only_DHT lp') (link_loop rand maxPeers iter left n track arr len).
Proof. induction left as [|left IH]; intros n arr len; cbn [link_loop]; auto using frame_Resolve with zif; frame_tac; apply frame_Resolve. Qed.

Lemma grown_bind {A B} (m : M Node A) (f : A -> M Node B) :
  (forall lp, preserves (only_DHT lp) m) -> (forall a, preserves (grown lp) (f a)) -> preserves (grown lp) (m ≫= f).
Proof. intros Hm Hf. apply preserves_bind; [by apply grown_frame|done]. Qed.

(** With the own entry tracked, the list is read, compared and extended with nothing but
    networking in between. *)
Lemma grown_merge track reported : preserves (grown lp) (merge_reported rand maxPeers iter track None reported).
Proof.
  intros s Hs. unfold merge_reported, tracked_get, tracked_set. cbv zeta.
  set (diff := SliceDiff (Seeds (lp_Entry (nd_lp s))) reported).
  erewrite (run_bind (s ← get; mret (lp_Entry (nd_lp s)))) by reflexivity. fold diff.
  pose proof (grown_frame _ (fun lp' => frame_link_loop lp' track (length diff) 0 diff (length diff)) s Hs) as Hg.
  pose proof (frame_link_loop (nd_lp s) track (length diff) 0 diff (length diff) s ltac:(unfold only_DHT; by destruct (nd_lp s))) as Hf.
  unfold mbind at 1, M_bind at 1. destruct (link_loop _ _ _ _ _ _ _ _ s) as [s1 [result|x|]] eqn:El; [|done|done].
  cbn [fst] in Hg, Hf. destruct (0 <? length result)%nat; [|done].
  assert (Forall (fun x => x ∉ Seeds (lp_Entry (nd_lp s1))) result) as Hr.
  { apply (f_equal lp_Entry) in Hf. cbn in Hf. rewrite Hf. eapply link_loop_Forall; [|exact El].
    apply Forall_forall. intros x Hx%list_elem_of_In. unfold diff in Hx. rewrite SliceDiff_filter in Hx.
    by apply list_elem_of_filter in Hx as [? _]. }
  pose proof (grown_add result s1 Hg Hr) as Ha.
  pose proof (grown_frame _ (fun lp' => frame_DHT lp' (DHT_Insert (set_Seeds (Seeds (lp_Entry (nd_lp s1)) ++ result) (lp_Entry (nd_lp s1))))) _ Ha) as Hn.
  revert Hn. unfold mbind, M_bind, on_lp, zoom, modify, get, mret, M_ret. cbn. by destruct (nd_DHT _ _) as [s2 [[]|x|]].
Qed.

(** With another entry tracked, it is a copy that is extended. *)
Lemma frame_merge lp' track e reported : preserves (only_DHT lp') (merge_reported rand maxPeers iter track (Some e) reported).
Proof. unfold merge_reported, tracked_get, tracked_set. frame_tac. apply frame_link_loop. Qed.

(** It stays a copy. *)
Lemma merge_copy track e reported s s' e' : merge_reported rand maxPeers iter track (Some e) reported s = (s', Ok e') -> is_Some e'.
Proof.
  intros (s1 & t & _ & (s2 & result & _ & H)%bind_Ok)%bind_Ok. destruct (0 <? length result)%nat; [|by injection H as _ <-].
  apply bind_Ok in H as (s3 & t2 & _ & (s4 & e2 & H2 & (s5 & t3 & _ & (s6 & u & _ & H)%bind_Ok)%bind_Ok)%bind_Ok).
  injection H2 as _ <-. by injection H as _ <-.
Qed.
Lemma find_from_copy track e i s s' e' : find_from rand maxPeers iter track (Some e) i s = (s', Ok e') -> is_Some e'.
Proof.
  intros (s1 & t & _ & H)%bind_Ok. destruct (Address_Equals _ _); [by injection H as _ <-|].
  apply bind_Ok in H as (s2 & [[p x]|] & _ & H); [|by injection H as _ <-].
  apply bind_Ok in H as (s3 & tr & _ & (s4 & [v|] & _ & H)%bind_Ok); [|by injection H as _ <-].
  apply bind_Ok in H as (s5 & q & _ & H). by eapply merge_copy.
Qed.

Lemma grown_find_from track e i : preserves (grown lp) (find_from rand maxPeers iter track e i).
Proof.
  unfold find_from. apply grown_bind; [by intros lp' s|]. intros s. destruct (Address_Equals _ _); [apply preserves_ret|].
  apply grown_bind; [intros lp'; apply frame_ConnectPeer|]. intros [[p x]|]; [|apply preserves_ret].
  apply grown_bind; [intros lp'; unfold tracked_get; frame_tac|]. intros t.
  apply grown_bind; [intros lp'; apply preserves_try, frame_Query|]. intros [v|]; [|apply preserves_ret].
  apply grown_bind; [intros lp'; frame_tac|]. intros q.
  destruct e; [apply grown_frame; intros lp'; apply frame_merge|apply grown_merge].
Qed.

Lemma grown_find_loop track l : forall e, preserves (grown lp) (find_loop rand maxPeers iter track e l).
Proof.
  induction l as [|i l IH]; intros e; cbn [find_loop]; [apply preserves_ret|].
  apply preserves_bind; [apply grown_find_from|done].
Qed.

Lemma frame_QueryEntry lp' a : preserves (only_DHT lp') (on_lp (LocalPeer_QueryEntry a)).
Proof.
  intros s Hs. unfold on_lp, zoom, LocalPeer_QueryEntry, mbind, M_bind, get. cbn.
  destruct (Address_Equals a (lp_address (nd_lp s))); [exact Hs|].
  unfold on_DHT, zoom, lift, mret, M_ret. destruct (DHT_Query a _) as [d [[e|]|x|]]; exact Hs.
Qed.

Lemma grown_find_seeds sm : preserves (grown lp) (find_seeds rand maxPeers iter sm).
Proof.
  unfold find_seeds. apply grown_bind; [intros lp'; apply preserves_try, frame_QueryEntry|]. intros [entry|]; [|apply preserves_ret].
  apply grown_bind; [by intros lp' s|]. intros e.
  apply preserves_bind; [apply grown_find_loop|]. intros e'. apply preserves_ret.
Qed.

(** *** Of another peer *)

Lemma frame_find_from track e i : preserves (only_DHT lp) (find_from rand maxPeers iter track (Some e) i).
Proof.
  unfold find_from, tracked_get. frame_tac; [apply frame_ConnectPeer|apply frame_Query|apply frame_merge].
Qed.
Lemma frame_find_loop track l : forall e, preserves (only_DHT lp) (find_loop rand maxPeers iter track (Some e) l).
Proof.
  induction l as [|i l IH]; intros e s Hs; [done|]. cbn [find_loop]. unfold mbind, M_bind.
  pose proof (frame_find_from track e i s Hs) as Hf. pose proof (find_from_copy track e i s) as Hc.
  destruct (find_from _ _ _ _ _ _ s) as [s1 [e1|x|]]; [|done|done]. destruct (Hc s1 e1 eq_refl) as [e2 ->]. by apply IH.
Qed.
Lemma frame_find_seeds sm : Address_Equals (sm_track sm) (lp_address lp) = false ->
  preserves (only_DHT lp) (find_seeds rand maxPeers iter sm).
Proof.
  intros Ht. unfold find_seeds. apply preserves_bind; [apply preserves_try, frame_QueryEntry|]. intros [entry|]; [|apply preserves_ret].
  intros s Hs. unfold tracked_entry. assert (lp_address (nd_lp s) = lp_address lp) as Ea by exact (f_equal lp_address Hs).
  erewrite (run_bind (s ← get; mret _)) by reflexivity. rewrite Ea, Ht.
  apply preserves_bind; [apply frame_find_loop|intros e'; apply preserves_ret|done].
Qed.

(** ** The whole life *)

Lemma find_seeds_track sm s s' sm' : find_seeds rand maxPeers iter sm s = (s', Ok sm') -> sm_track sm' = sm_track sm.
Proof.
  intros (s1 & [e|] & _ & H)%bind_Ok; [|by injection H as _ <-].
  apply bind_Ok in H as (s2 & e' & _ & (s3 & e2 & _ & H)%bind_Ok). by injection H as _ <-.
Qed.

(** The rest of the node, as far as it only talks to peers. *)
Definition elsewhere (ev : sm_event) : Prop :=
  match ev with SmOther m => forall lp, preserves (only_DHT lp) m | _ => True end.

Lemma life_preserves (P : Node -> Prop) track evs : Forall elsewhere evs ->
  (forall sm, sm_track sm = track -> preserves P (find_seeds rand maxPeers iter sm)) ->
  (forall m : M Node unit, (forall lp, preserves (only_DHT lp) m) -> preserves P m) ->
  forall sm, sm_track sm = track -> preserves P (findSeeds_loop rand maxPeers iter evs sm).
Proof.
  intros He Hf Hm. induction He as [|ev evs He _ IH]; intros sm Ht s Hs; [done|]. destruct ev as [| |m]; cbn [findSeeds_loop]; [|done|].
  - unfold mbind, M_bind. pose proof (Hf sm Ht s Hs) as H1. pose proof (find_seeds_track sm s) as H2.
    destruct (find_seeds _ _ _ sm s) as [s1 [sm1|x|]]; [|done|done]. apply IH; [|done]. by rewrite (H2 s1 sm1 eq_refl).
  - apply preserves_bind; [by apply Hm|intros _; by apply IH|done].
Qed.

Lemma findSeeds_preserves (P : Node -> Prop) evs sm : Forall elsewhere evs ->
  (forall sm', sm_track sm' = sm_track sm -> preserves P (find_seeds rand maxPeers iter sm')) ->
  (forall m : M Node unit, (forall lp, preserves (only_DHT lp) m) -> preserves P m) -> preserves P (findSeeds rand maxPeers iter evs sm).
Proof. intros He Hf Hm. by apply (life_preserves P (sm_track sm) (SmTick :: evs)); [constructor| | |]. Qed.

(** *** Closing *)

Lemma closed_loop evs later : forall sm s,
  findSeeds_loop rand maxPeers iter (evs ++ SmClose :: later) sm s = findSeeds_loop rand maxPeers iter (evs ++ [SmClose]) sm s.
Proof.
  induction evs as [|[| |m] evs IH]; intros sm s; cbn [app findSeeds_loop]; [done| |done|]; unfold mbind, M_bind.
  - by destruct (find_seeds _ _ _ sm s) as [s1 [sm1|x|]].
  - by destruct (m s) as [s1 [[]|x|]].
Qed.
Lemma closed_ended evs : forall sm s sm', (findSeeds_loop rand maxPeers iter (evs ++ [SmClose]) sm s).2 <> Ok (Some sm').
Proof.
  induction evs as [|[| |m] evs IH]; intros sm s sm'; cbn [app findSeeds_loop]; [done| |done|]; unfold mbind, M_bind.
  - by destruct (find_seeds _ _ _ sm s) as [s1 [sm1|x|]].
  - by destruct (m s) as [s1 [[]|x|]].
Qed.
End Job.

(** C28. A seed manager only ever adds. Over its whole life -- the first search, any number of
    ticks, whatever peers answer and whatever networking goes on in between, and even where a
    search panics -- nothing of the local peer changes but its DHT and the seeds of the own
    entry, and those only by addresses, not in the list before, at its end; a manager of
    another peer leaves them as they are. A manager that is closed has ended: what would come
    after is not run. *)
Theorem seed_manager_only_adds {C : Crypto} {D : Sqlite} {K : Msgpack} {W : Network}
    (rand : nat -> option bytes) (maxPeers : Z) (iter : gmap string Z -> list (string * Z))
    (evs later : list sm_event) (sm : SeedManager) (s : Node) :
  Forall elsewhere evs ->
  let lp := nd_lp s in
  let run evs := findSeeds rand maxPeers iter evs sm s in
  (exists added, Forall (fun x => x ∉ Seeds (lp_Entry lp)) added /\
     set_DHT (lp_DHT lp) (nd_lp (run evs).1) = set_Entry (set_Seeds (Seeds (lp_Entry lp) ++ added) (lp_Entry lp)) lp /\
     (Address_Equals (sm_track sm) (lp_address lp) = false -> added = [])) /\
  run (evs ++ SmClose :: later) = run (evs ++ [SmClose]) /\
  (forall sm', (run (evs ++ [SmClose])).2 <> Ok (Some sm')).
Proof.
  intros He lp run. assert (only_DHT lp s) as H0 by (unfold only_DHT, lp; by destruct (nd_lp s)).
  split; [|split; [exact (closed_loop rand maxPeers iter (SmTick :: evs) later sm s)|exact (closed_ended rand maxPeers iter (SmTick :: evs) sm s)]].
  destruct (Address_Equals (sm_track sm) (lp_address lp)) eqn:Ea.
  - destruct (findSeeds_preserves rand maxPeers iter (grown lp) evs sm He (fun sm' _ => grown_find_seeds rand maxPeers iter lp sm')
      (grown_frame lp) s (grown_refl lp s H0)) as (added & E & Ha). by exists added.
  - exists []. split; [done|]. split; [|done]. rewrite app_nil_r.
    assert (only_DHT lp (run evs).1) as Hr.
    { apply (findSeeds_preserves rand maxPeers iter (only_DHT lp) evs sm He); [|auto|done].
      intros sm' Ht. apply frame_find_seeds. by rewrite Ht. }
    unfold only_DHT in Hr. rewrite Hr. generalize lp. intros [[] ? ? ? ? ? ? ? ? ? ? ? ? ?]. reflexivity.
Qed.

(** ** Witness *)

#[local] Existing Instance toy_crypto.
#[local] Existing Instance toy_sqlite.
#[local] Existing Instance toy_msgpack.
#[local] Existing Instance toy_network.

(** A manager, ticked twice. *)
Definition toy_manager : SeedManager := mkSM toy_track None.

Lemma seed_manager_only_adds_witness :
  let s := toy_node [] in
  let lp := nd_lp s in
  let run evs := findSeeds (fun _ => None) 100 map_to_list evs toy_manager s in
  (exists added, Forall (fun x => x ∉ Seeds (lp_Entry lp)) added /\
     set_DHT (lp_DHT lp) (nd_lp (run [SmTick; SmTick]).1) = set_Entry (set_Seeds (Seeds (lp_Entry lp) ++ added) (lp_Entry lp)) lp /\
     (Address_Equals (sm_track toy_manager) (lp_address lp) = false -> added = [])) /\
  run ([SmTick; SmTick] ++ SmClose :: [SmTick]) = run ([SmTick; SmTick] ++ [SmClose]) /\
  (forall sm', (run ([SmTick; SmTick] ++ [SmClose])).2 <> Ok (Some sm')).
Proof.
  exact (seed_manager_only_adds (fun _ => None) 100 map_to_list [SmTick; SmTick] [SmTick] toy_manager (toy_node [])
    (List.Forall_cons elsewhere SmTick _ I (List.Forall_cons elsewhere SmTick _ I (List.Forall_nil _)))).
Defined.
