(* ===== verification/NetMap.v ===== *)
(** The map of the network ([netmap.go]): the graph of who seeds for whom, followed
    from one entry through the database. *)

From stdpp Require Import sorting.
From S2P Require Import Prelude GoLib Base58Check Crypto Address Entry Util Sqlite NetStore NetDB NetTable NetInv NetRun DHT.

Record MapNode := mkMapNode { mn_Address : string; mn_Name : string }.
Record MapLink := mkMapLink { ml_Source : string; ml_Target : string }.

(** The database with the two maps that all calls share. *)
Record MapState := mkMapState { ms_db : NetDB; ms_nodes : gset string; ms_links : gset string }.
Definition set_ms_db (d : NetDB) (s : MapState) : MapState := mkMapState d (ms_nodes s) (ms_links s).
Definition add_node (k : string) : M MapState unit :=
  modify (fun s => mkMapState (ms_db s) ({[k]} ∪ ms_nodes s) (ms_links s)).
Definition add_link (k : string) : M MapState unit :=
  modify (fun s => mkMapState (ms_db s) (ms_nodes s) ({[k]} ∪ ms_links s)).

Section NetMap.
Context {C : Crypto} {D : Sqlite}.

Definition node_of (e : Entry) : MapNode := mkMapNode (addr_str (EAddress e)) (Name e).
Definition link_of (e entry : Entry) : MapLink := mkMapLink (addr_str (EAddress e)) (addr_str (EAddress entry)).
Definition raw_key (e : Entry) : string := to_string (Raw (EAddress e)).
Definition link_key (e entry : Entry) : string := raw_key e +:+ raw_key entry.

(** [createMap(i)] for an address of the seeding list of [entry], with the recursive
    call as [recur]. An address without an entry gives a nil pointer. *)
Definition createMap (recur : Entry -> M MapState (list MapNode * list MapLink)) (entry : Entry)
    (acc : list MapNode * list MapLink) (i : bytes) : M MapState (list MapNode * list MapLink) :=
  q ← try (zoom ms_db set_ms_db (DHT_Query (raw_address i)));
  match q with
  | inr _ => mret acc
  | inl None => lift Panic
  | inl (Some e) =>
      s ← get;
      if bool_decide (link_key e entry ∈ ms_links s) then mret acc
      else
        _ ← add_link (link_key e entry);
        let acc := (acc.1, acc.2 ++ [link_of e entry]) in
        if bool_decide (raw_key e ∈ ms_nodes s) then mret acc
        else
          _ ← add_node (raw_key e);
          let acc := (acc.1 ++ [node_of e], acc.2) in
          nl ← recur e;
          mret (acc.1 ++ nl.1, acc.2 ++ nl.2)
  end.

Fixpoint map_loop (recur : Entry -> M MapState (list MapNode * list MapLink)) (entry : Entry)
    (acc : list MapNode * list MapLink) (seeding : list bytes) : M MapState (list MapNode * list MapLink) :=
  match seeding with
  | [] => mret acc
  | i :: rest => acc' ← createMap recur entry acc i; map_loop recur entry acc' rest
  end.

(** [CreateNetMap(entry, db, currentNodes, currentLinks)]; [fuel] bounds the depth of
    the recursion. *)
Fixpoint CreateNetMap (fuel : nat) (entry : Entry) : M MapState (list MapNode * list MapLink) :=
  match fuel with
  | O => lift Panic
  | S f =>
      s ← get;
      let nodes := if bool_decide (raw_key entry ∈ ms_nodes s) then [] else [node_of entry] in
      map_loop (CreateNetMap f) entry (nodes, []) (Seeding entry)
  end.
End NetMap.
