(* ===== verification/NetMapProps.v ===== *)
(** The map of the network is the part of the seeding graph that can be reached from
    the first entry: the recursion ends, and no link or node is lost or doubled,
    except that the first node may come again. *)

From stdpp Require Import sorting.
From S2P Require Import Prelude GoLib Base58Check Crypto Address Entry Util Sqlite NetStore NetDB.
From S2P Require Import NetTable NetInv NetRun DHT DHTProps NetMap.

(** ** The graph in the database *)

Definition stored {D : Sqlite} (d : Db) (raw : bytes) : Prop :=
  length raw = AddressBinarySize /\ exists r, find_address (encoded raw) d = Some r.
(** [x] seeds for [i]. *)
Definition edge {D : Sqlite} (d : Db) (x i : bytes) : Prop :=
  exists r, find_address (encoded x) d = Some r /\ encoded i ∈ seeding_texts d (r_id r).
(** The keys of all stored addresses. *)
Definition stored_keys (d : Db) : gset string :=
  list_to_set (map (fun r => match DecodeAddress (r_address r) with Ok a => to_string (Raw a) | _ => ""%string end)
    (entries d)).
(** What can be reached over the entries of [sd]. *)
Definition reached {D : Sqlite} (d : Db) (sd : bytes -> Prop) (x : bytes) : Prop := exists i, sd i /\ rtc (edge d) i x.
(** The node has the name of the row of its address. *)
Definition named {D : Sqlite} (d : Db) (n : MapNode) : Prop :=
  exists r, find_address (mn_Address n) d = Some r /\ mn_Name n = Name (entry_of_row r).
Definition lk (p : bytes * bytes) : string := to_string p.1 +:+ to_string p.2.
Definition link_texts (p : bytes * bytes) : MapLink := mkMapLink (encoded p.1) (encoded p.2).

Lemma lk_inj p q :
  length p.1 = AddressBinarySize -> length q.1 = AddressBinarySize -> lk p = lk q -> p = q.
Proof.
  intros Hp Hq E. apply (f_equal list_ascii_of_string) in E. unfold lk in E.
  rewrite !to_bytes_app, !list_ascii_of_string_of_list_ascii in E.
  apply app_inj_1 in E as [E1 E2]; [|by rewrite Hp, Hq]. destruct p, q. by cbn in *; subst.
Qed.

Section Graph.
Context {C : Crypto} {D : Sqlite} {L : SqliteLaws D}.

Lemma stored_in_keys d raw : stored d raw -> to_string raw ∈ stored_keys d.
Proof.
  intros (Hl & r & Hf). apply find_address_Some in Hf as [Hin Hr].
  rewrite col_text_address in Hr by (by exists raw).
  apply elem_of_list_to_set, elem_of_map. exists r. split; [|done].
  rewrite Hr. unfold encoded. by rewrite DecodeAddress_encode.
Qed.

Lemma size_stored_keys d : (size (stored_keys d) <= length (entries d))%nat.
Proof.
  unfold stored_keys. set (f := fun r => _). induction (entries d) as [|r l IH]; [done|].
  cbn [map list_to_set length]. rewrite size_union_alt, size_singleton.
  pose proof (subseteq_size (list_to_set (map f l) ∖ {[f r]}) (list_to_set (C := gset string) (map f l))).
  cbn in *. assert (size (list_to_set (C := gset string) (map f l) ∖ {[f r]}) <= size (list_to_set (C := gset string) (map f l)))%nat
    by (apply subseteq_size; set_solver). lia.
Qed.

Lemma find_stored d r : db_wf address_text d -> r ∈ entries d -> is_Some (find_address (r_address r) d).
Proof.
  intros Hd Hr. pose proof (row_good _ _ _ Hd Hr) as Ht.
  destruct (find_address _ d) eqn:E; [done|]. apply find_none with (x := r) in E; [|by apply list_elem_of_In].
  unfold has_address in E. rewrite col_text_address in E by done. by rewrite String.eqb_refl in E.
Qed.

(** The addresses an entry seeds for are stored. *)
Lemma seeding_stored d id t :
  db_wf address_text d -> t ∈ seeding_texts d id -> exists raw, t = encoded raw /\ stored d raw.
Proof.
  intros Hd Ht. unfold seeding_texts in Ht. apply list_elem_of_In, in_flat_map in Ht as (s & _ & Ht).
  unfold address_of_id in Ht. apply in_map_iff in Ht as (r & <- & Hr). apply filter_In in Hr as [Hr _].
  apply list_elem_of_In in Hr. destruct (row_good _ _ _ Hd Hr) as (raw & Hl & E).
  exists raw. split; [done|]. split; [done|]. unfold encoded. rewrite <-E. by apply find_stored.
Qed.

Lemma Query_stored ndb raw :
  ndb_inv ndb -> healthy (conn ndb) -> stored (conn ndb) raw ->
  exists e ndb', DHT_Query (raw_address raw) ndb = (ndb', Ok (Some e)) /\ EAddress e = raw_address raw /\
    Forall (stored (conn ndb)) (Seeding e) /\ (forall i, i ∈ Seeding e <-> edge (conn ndb) raw i) /\
    conn ndb' = conn ndb /\ ndb_inv ndb' /\ named (conn ndb) (node_of e).
Proof.
  intros Hinv Hh (Hl & r & Hf).
  assert (find_address (addr_str (raw_address raw)) (conn ndb) = Some r) as Hf' by (by rewrite addr_str_raw).
  destruct (Query_present ndb _ r Hinv Hh Hf')
    as (e & ndb' & i & E & (Ha & _ & Hrow & _) & _ & Hsd & Hr & _ & _ & _ & Hc & _ & Hinv').
  exists e, ndb'. unfold DHT_Query. rewrite (run_bind _ _ _ _ _ E). split; [done|].
  assert (Raw (EAddress e) = raw) as Hraw.
  { apply find_address_Some in Hf as [_ Hf]. rewrite col_text_address in Hf by (by exists raw).
    apply encode_inj. by rewrite <-(addr_str_fresh (EAddress e)), <-Ha by (left; by rewrite Hr). }
  assert (forall i, i ∈ Seeding e <-> edge (conn ndb) raw i) as He.
  { intros j. unfold edge. split.
    - intros Hj. exists r. split; [done|]. rewrite <-Hsd. apply elem_of_map. eauto.
    - intros (r' & Hf2 & Hj). rewrite Hf in Hf2. injection Hf2 as <-. rewrite <-Hsd in Hj.
      apply elem_of_map in Hj as (k & Ek & Hk). by apply encode_inj in Ek as ->. }
  assert (named (conn ndb) (node_of e)) as Hnm.
  { exists r. cbn [node_of mn_Address mn_Name]. rewrite Hr, Hraw, addr_str_raw. split; [done|]. by rewrite Hrow. }
  split; [by rewrite Hr, Hraw|]. split; [|done].
  apply List.Forall_forall. intros j Hj. apply list_elem_of_In, He in Hj as (r' & _ & Hj).
  destruct Hinv as (_ & _ & Hd). apply seeding_stored in Hj as (k & Ek & Hk); [|done]. by apply encode_inj in Ek as ->.
Qed.

(** ** One call *)

(** The databases a map can be at. *)
Definition mapping (d : Db) (s : MapState) : Prop :=
  ndb_inv (ms_db s) /\ healthy d /\ conn (ms_db s) = d.

(** From [s] to [s'] the addresses [N] were marked, with their edges, and the links
    [P] added, whose targets are [own] or marked. All of them are there in the database, or
    start at what [own] seeds for. *)
Record grew (d : Db) (own : bytes) (sd : bytes -> Prop) (s s' : MapState) (N : list bytes) (P : list (bytes * bytes)) : Prop := {
  g_inv : mapping d s';
  g_nodes : ms_nodes s' = list_to_set (map to_string N) ∪ ms_nodes s;
  g_distinct : NoDup N;
  g_unmarked : forall x, x ∈ N -> to_string x ∉ ms_nodes s;
  g_links : ms_links s' = list_to_set (map lk P) ∪ ms_links s;
  g_links_distinct : NoDup P;
  g_links_new : forall p, p ∈ P -> lk p ∉ ms_links s;
  g_lengths : Forall (fun p => length p.1 = AddressBinarySize) P;
  g_source : forall p, p ∈ P -> to_string p.1 ∈ ms_nodes s';
  g_target : forall p, p ∈ P -> p.2 = own \/ to_string p.2 ∈ ms_nodes s';
  g_closed : forall x i, x ∈ N -> edge d x i -> lk (i, x) ∈ ms_links s';
  g_real : forall p, p ∈ P -> p.2 = own /\ sd p.1 \/ edge d p.2 p.1;
  g_reached : forall x, x ∈ N -> reached d sd x;
}.

Lemma grew_refl d own sd s : mapping d s -> grew d own sd s s [] [].
Proof. intros Hs. split; try done; try constructor; set_solver. Qed.

Lemma grew_trans d own sd s s1 s2 N1 N2 P1 P2 :
  grew d own sd s s1 N1 P1 -> grew d own sd s1 s2 N2 P2 -> grew d own sd s s2 (N1 ++ N2) (P1 ++ P2).
Proof.
  intros [? E1 ? ? F1 ? ? ? G1 T1 C1 R1 Z1] [? E2 ? U2 F2 ? V2 ? G2 T2 C2 R2 Z2]. rewrite E1 in U2. rewrite F1 in V2.
  assert (ms_nodes s1 ⊆ ms_nodes s2) by set_solver. assert (ms_links s1 ⊆ ms_links s2) by set_solver.
  split; try done.
  - rewrite E2, E1, map_app, list_to_set_app_L. set_solver.
  - apply list.NoDup_app. split_and!; try done. intros x Hx Hx2. apply (U2 x Hx2), elem_of_union_l, elem_of_list_to_set.
    apply elem_of_map. eauto.
  - intros x [Hx|Hx]%elem_of_app; [auto|]. specialize (U2 x Hx). set_solver.
  - rewrite F2, F1, map_app, list_to_set_app_L. set_solver.
  - apply list.NoDup_app. split_and!; try done. intros p Hp Hp2. apply (V2 p Hp2), elem_of_union_l, elem_of_list_to_set.
    apply elem_of_map. eauto.
  - intros p [Hp|Hp]%elem_of_app; [auto|]. specialize (V2 p Hp). set_solver.
  - by apply Forall_app.
  - intros p [Hp|Hp]%elem_of_app; [|auto]. set_solver.
  - intros p [Hp|Hp]%elem_of_app; [|auto]. destruct (T1 p Hp); [auto|]. set_solver.
  - intros x i [Hx|Hx]%elem_of_app He; [|eauto]. specialize (C1 x i Hx He). set_solver.
  - intros p [Hp|Hp]%elem_of_app; auto.
  - intros x [Hx|Hx]%elem_of_app; auto.
Qed.

(** A new node [i] with the link to it, then the map from there. *)
Lemma grew_enter d own sd si i s s2 s3 N P :
  to_string i ∉ ms_nodes s -> lk (i, own) ∉ ms_links s -> length i = AddressBinarySize ->
  ms_nodes s2 = {[to_string i]} ∪ ms_nodes s -> ms_links s2 = {[lk (i, own)]} ∪ ms_links s ->
  grew d i si s2 s3 N P -> (forall j, edge d i j -> lk (j, i) ∈ ms_links s3) -> sd i -> (forall j, si j -> edge d i j) ->
  grew d own sd s s3 (i :: N) ((i, own) :: P).
Proof.
  intros Hi Hp Hl E2 F2 [? E3 ? U3 F3 ? V3 ? G3 T3 C3 R3 Z3] Hc Hsd Hsi. rewrite E2 in U3, E3. rewrite F2 in V3, F3.
  split; try done.
  - rewrite E3. cbn [map list_to_set]. set_solver.
  - apply list.NoDup_cons. split; [|done]. intros Hin. specialize (U3 i Hin). set_solver.
  - intros x [->|Hx]%elem_of_cons; [done|]. specialize (U3 x Hx). set_solver.
  - rewrite F3. cbn [map list_to_set]. set_solver.
  - apply list.NoDup_cons. split; [|done]. intros Hin. specialize (V3 _ Hin). set_solver.
  - intros p [->|Hx]%elem_of_cons; [done|]. specialize (V3 p Hx). set_solver.
  - by constructor.
  - intros p [->|Hx]%elem_of_cons; [|auto]. cbn [fst]. set_solver.
  - intros p [->|Hx]%elem_of_cons; [by left|]. destruct (T3 p Hx) as [->|]; [|auto]. right. set_solver.
  - intros x j [->|Hx]%elem_of_cons He; [auto|eauto].
  - intros p [->|Hx]%elem_of_cons; [by left|]. destruct (R3 p Hx) as [[-> ?]|]; auto.
  - intros x [->|Hx]%elem_of_cons; [by exists i|]. destruct (Z3 x Hx) as (j & Hj & Hr). exists i. split; [done|].
    eapply rtc_l; [|exact Hr]. by apply Hsi.
Qed.

(** Only a link to a node that is there. *)
Lemma grew_link d own (sd : bytes -> Prop) i s s' :
  mapping d s' -> to_string i ∈ ms_nodes s -> lk (i, own) ∉ ms_links s -> length i = AddressBinarySize ->
  ms_nodes s' = ms_nodes s -> ms_links s' = {[lk (i, own)]} ∪ ms_links s -> sd i ->
  grew d own sd s s' [] [(i, own)].
Proof.
  intros Hm Hi Hp Hl E F Hsd. split; try done.
  - rewrite E. set_solver.
  - constructor.
  - set_solver.
  - rewrite F. cbn [map list_to_set]. set_solver.
  - apply NoDup_singleton.
  - by intros p ->%list_elem_of_singleton.
  - by constructor.
  - intros p ->%list_elem_of_singleton. by rewrite E.
  - intros p ->%list_elem_of_singleton. by left.
  - set_solver.
  - intros p ->%list_elem_of_singleton. by left.
  - set_solver.
Qed.

(** The same maps, the database moved on. *)
Lemma grew_db d own sd s s' :
  mapping d s' -> ms_nodes s' = ms_nodes s -> ms_links s' = ms_links s -> grew d own sd s s' [] [].
Proof.
  intros Hm E F. split; try done; rewrite ?E, ?F; try constructor; set_solver.
Qed.

(** What a call returns for what it marked and linked. *)
Definition shows (d : Db) (out : list MapNode * list MapLink) (N : list bytes) (P : list (bytes * bytes)) : Prop :=
  map mn_Address out.1 = map encoded N /\ out.2 = map link_texts P /\ Forall (named d) out.1.

Lemma shows_app d o1 o2 N1 N2 P1 P2 :
  shows d o1 N1 P1 -> shows d o2 N2 P2 -> shows d (o1.1 ++ o2.1, o1.2 ++ o2.2) (N1 ++ N2) (P1 ++ P2).
Proof.
  intros (E1 & F1 & M1) (E2 & F2 & M2). unfold shows. cbn [fst snd]. rewrite !map_app, E1, E2, F1, F2.
  split_and!; [done..|by apply Forall_app].
Qed.
Lemma shows_nil d : shows d ([], []) [] [].
Proof. by split_and!. Qed.

(** The entry of a call: its address encodes to its text, what it seeds for is stored. *)
Definition mappable (d : Db) (e : Entry) (raw : bytes) : Prop :=
  Raw (EAddress e) = raw /\ addr_str (EAddress e) = encoded raw /\ Forall (stored d) (Seeding e).

(** The contract of a call that may mark [n] more nodes. *)
Definition maps_from (d : Db) (n : nat) (call : Entry -> M MapState (list MapNode * list MapLink)) : Prop :=
  forall e raw s, mappable d e raw -> mapping d s -> to_string raw ∈ ms_nodes s ->
    (size (stored_keys d ∖ ms_nodes s) < n)%nat ->
    exists s' out N P, call e s = (s', Ok out) /\ grew d raw (fun i => i ∈ Seeding e) s s' N P /\ shows d out N P /\
      forall i, i ∈ Seeding e -> lk (i, raw) ∈ ms_links s'.

Lemma createMap_run d n recur entry own (sd : bytes -> Prop) acc i s :
  sd i -> maps_from d n recur -> mappable d entry own -> mapping d s -> stored d i ->
  (size (stored_keys d ∖ ms_nodes s) <= n)%nat ->
  exists s' out N P, createMap recur entry acc i s = (s', Ok (acc.1 ++ out.1, acc.2 ++ out.2)) /\
    grew d own sd s s' N P /\ shows d out N P /\ lk (i, own) ∈ ms_links s'.
Proof.
  intros Hsd Hrec (Ho & Ht & _) (Hinv & Hh & Hc) Hi Hn.
  destruct (Query_stored (ms_db s) i) as (e & ndb' & E & Ha & Hst & Hed & Hc' & Hinv' & Hnm); [done|by rewrite Hc..|].
  rewrite Hc in Hst, Hed, Hc', Hnm.
  set (s0 := set_ms_db ndb' s). assert (mapping d s0) as Hm0 by done.
  assert (raw_key e = to_string i) as Hk by (unfold raw_key; by rewrite Ha).
  assert (link_key e entry = lk (i, own)) as Hlk by (unfold link_key, lk, raw_key; by rewrite Ha, Ho).
  assert (link_of e entry = link_texts (i, own)) as Hlo.
  { unfold link_of, link_texts. by rewrite Ha, addr_str_raw, Ht. }
  unfold createMap.
  erewrite (run_try _ _ _ s0); [|unfold zoom; by rewrite E]. cbv beta iota. rewrite run_get, Hlk.
  change (ms_links s0) with (ms_links s). change (ms_nodes s0) with (ms_nodes s).
  case_bool_decide as Hin.
  { exists s0, ([], []), [], []. cbn [fst snd]. rewrite !app_nil_r. destruct acc. split; [done|].
    split; [by apply grew_db|]. by split; [apply shows_nil|]. }
  rewrite Hk, Hlo. set (s1 := mkMapState ndb' (ms_nodes s) ({[lk (i, own)]} ∪ ms_links s)).
  unfold add_link. rewrite run_modify. change (mkMapState (ms_db s0) (ms_nodes s0) _) with s1. cbv beta zeta.
  case_bool_decide as Hnode.
  { exists s1, ([], [link_texts (i, own)]), [], [(i, own)]. cbn [fst snd]. rewrite app_nil_r.
    split; [done|]. split; [apply grew_link; try done; apply Hi|]. split; [by split_and!|cbn; set_solver]. }
  set (s2 := mkMapState (ms_db s1) ({[to_string i]} ∪ ms_nodes s1) (ms_links s1)).
  assert (exists s3 out N P, recur e s2 = (s3, Ok out) /\ grew d i (fun j => j ∈ Seeding e) s2 s3 N P /\ shows d out N P /\
    forall j, j ∈ Seeding e -> lk (j, i) ∈ ms_links s3) as (s3 & out & N & P & E3 & G & S & Hcl).
  { apply Hrec; [split_and!; [by rewrite Ha|by rewrite Ha, addr_str_raw|done]|done|cbn; set_solver|].
    pose proof (stored_in_keys d i Hi) as Hkey. 
    change (ms_nodes s2) with ({[to_string i]} ∪ ms_nodes s).
    assert (stored_keys d ∖ ({[to_string i]} ∪ ms_nodes s) ⊂ stored_keys d ∖ ms_nodes s) as Hsub by set_solver.
    apply subset_size in Hsub. lia. }
  exists s3, (node_of e :: out.1, link_texts (i, own) :: out.2), (i :: N), ((i, own) :: P).
  unfold add_node. rewrite run_modify. change (mkMapState (ms_db s1) _ (ms_links s1)) with s2. cbv beta.
  rewrite (run_bind _ _ _ _ _ E3). cbn [fst snd].
  split; [by rewrite <-!app_assoc|].
  assert (grew d own sd s s3 (i :: N) ((i, own) :: P)) as HG.
  { apply (grew_enter d own sd (fun j => j ∈ Seeding e) i s s2); try done; [apply Hi| |by intros j; apply Hed].
    intros j Hj. by apply Hcl, Hed. }
  split; [done|]. split; [|rewrite (g_links _ _ _ _ _ _ _ HG); cbn; set_solver].
  destruct S as (S1 & S2 & S3). split_and!; cbn [map fst snd]; [|by rewrite S2|by constructor].
  rewrite S1. cbn [node_of mn_Address]. by rewrite Ha, addr_str_raw.
Qed.

Lemma map_loop_run d n recur entry own (sd : bytes -> Prop) :
  maps_from d n recur -> mappable d entry own ->
  forall seeding acc s, Forall (stored d) seeding -> (forall i, i ∈ seeding -> sd i) -> mapping d s ->
  (size (stored_keys d ∖ ms_nodes s) <= n)%nat ->
  exists s' out N P, map_loop recur entry acc seeding s = (s', Ok (acc.1 ++ out.1, acc.2 ++ out.2)) /\
    grew d own sd s s' N P /\ shows d out N P /\ forall i, i ∈ seeding -> lk (i, own) ∈ ms_links s'.
Proof.
  intros Hrec He. induction seeding as [|i rest IH]; intros acc s Hst Hsd Hm Hn.
  - exists s, ([], []), [], []. cbn [map_loop fst snd]. rewrite !app_nil_r. destruct acc.
    split; [done|]. split; [by apply grew_refl|]. split; [by apply shows_nil|]. set_solver.
  - apply Forall_cons_1 in Hst as [Hi Hst]. cbn [map_loop].
    destruct (createMap_run d n recur entry own sd acc i s) as (s1 & o1 & N1 & P1 & E1 & G1 & S1 & L1); try done.
    { apply Hsd. by left. }
    rewrite (run_bind _ _ _ _ _ E1).
    destruct (IH (acc.1 ++ o1.1, acc.2 ++ o1.2) s1) as (s2 & o2 & N2 & P2 & E2 & G2 & S2 & L2);
      [done|by intros j Hj; apply Hsd; right|apply G1| |].
    { etrans; [apply subseteq_size|exact Hn]. rewrite (g_nodes _ _ _ _ _ _ _ G1). set_solver. }
    exists s2, (o1.1 ++ o2.1, o1.2 ++ o2.2), (N1 ++ N2), (P1 ++ P2). rewrite E2. cbn [fst snd].
    split; [by rewrite <-!app_assoc|]. split; [by eapply grew_trans|]. split; [by apply shows_app|].
    intros j [->|Hj]%elem_of_cons; [|auto]. rewrite (g_links _ _ _ _ _ _ _ G2). set_solver.
Qed.

(** A call with fuel for the nodes that are left meets its contract. *)
Lemma CreateNetMap_maps d n : maps_from d n (CreateNetMap n).
Proof.
  induction n as [|n IH]; intros e raw s He Hm Hr Hn; [lia|]. cbn [CreateNetMap]. rewrite run_get.
  assert (raw_key e = to_string raw) as Hk by (unfold raw_key; f_equal; apply He).
  rewrite Hk, bool_decide_true by done.
  destruct (map_loop_run d n (CreateNetMap n) e raw (fun i => i ∈ Seeding e) IH He (Seeding e) ([], []) s)
    as (s' & [o1 o2] & N & P & E & H); [apply He|done|done|lia|].
  exists s', (o1, o2), N, P. by rewrite E.
Qed.
End Graph.

Lemma NoDup_map_inj {A B} (f : A -> B) l : (forall x y, f x = f y -> x = y) -> NoDup l -> NoDup (map f l).
Proof.
  intros Hf. induction 1 as [|x l Hx Hl IH]; cbn [map]; constructor; [|done].
  intros (y & E & Hy)%elem_of_map. apply Hx. by rewrite (Hf _ _ E).
Qed.

Lemma link_texts_inj p q : link_texts p = link_texts q -> p = q.
Proof.
  destruct p, q. unfold link_texts. intros [= E1 E2]. cbn [fst snd] in *.
  by rewrite (encode_inj _ _ E1), (encode_inj _ _ E2).
Qed.

Lemma linked (P : list (bytes * bytes)) i x :
  Forall (fun p => length p.1 = AddressBinarySize) P -> length i = AddressBinarySize ->
  lk (i, x) ∈ (list_to_set (map lk P) ∪ ∅ : gset string) -> mkMapLink (encoded i) (encoded x) ∈ map link_texts P.
Proof.
  intros HP Hi Hin. rewrite union_empty_r_L in Hin. apply elem_of_list_to_set, elem_of_map in Hin as (p & E & Hp).
  apply elem_of_map. exists p. split; [|done]. rewrite List.Forall_forall in HP.
  rewrite <-(lk_inj (i, x) p); [done|done| |done]. by apply HP, list_elem_of_In.
Qed.

(** C12. The map of the network from an entry, on a database whose statements succeed and
    in which the addresses that the entry seeds for are stored: the recursion ends within
    the number of stored entries. The entry comes first; after it every node that can be
    reached along the stored seeding links comes once, with the name of its row -- and so
    the first one a second time, when it can be reached itself. No link comes twice. The
    links are exactly those from what the entry seeds for to the entry, and from what a
    node seeds for in the database to that node; their ends are among the nodes. *)
Theorem CreateNetMap_graph {C : Crypto} {D : Sqlite} {L : SqliteLaws D} (ndb : NetDB) (root : Entry) :
  ndb_inv ndb -> healthy (conn ndb) -> addr_fresh (EAddress root) -> Forall (stored (conn ndb)) (Seeding root) ->
  exists s' rest links,
    CreateNetMap (S (length (entries (conn ndb)))) root (mkMapState ndb ∅ ∅) = (s', Ok (node_of root :: rest, links)) /\
    NoDup (map mn_Address rest) /\ NoDup links /\
    (forall l, l ∈ links ->
       ml_Source l ∈ map mn_Address rest /\ ml_Target l ∈ map mn_Address (node_of root :: rest)) /\
    (forall i, i ∈ Seeding root -> mkMapLink (encoded i) (addr_str (EAddress root)) ∈ links) /\
    (forall a r t, a ∈ map mn_Address rest -> find_address a (conn ndb) = Some r ->
       t ∈ seeding_texts (conn ndb) (r_id r) -> mkMapLink t a ∈ links) /\
    (forall l, l ∈ links ->
       (exists i, i ∈ Seeding root /\ l = mkMapLink (encoded i) (addr_str (EAddress root))) \/
       (exists i x, edge (conn ndb) x i /\ l = mkMapLink (encoded i) (encoded x))) /\
    (forall n, n ∈ rest -> named (conn ndb) n /\
       exists i x, i ∈ Seeding root /\ rtc (edge (conn ndb)) i x /\ mn_Address n = encoded x).
Proof.
  intros Hinv Hh Hf Hst. set (d := conn ndb) in *.
  assert (mappable d root (Raw (EAddress root))) as Hm by (split_and!; [done|by apply addr_str_fresh|done]).
  destruct (map_loop_run d (length (entries d)) _ root _ (fun i => i ∈ Seeding root) (CreateNetMap_maps d _) Hm (Seeding root)
    ([node_of root], []) (mkMapState ndb ∅ ∅)) as (s' & [rest links] & N & P & E & G & (S1 & S2 & S3) & Hl);
    [done|done|done| |].
  { pose proof (size_stored_keys d). etrans; [apply subseteq_size|eassumption]. set_solver. }
  cbn [fst snd] in *. subst links. exists s', rest, (map link_texts P). cbn [CreateNetMap]. rewrite run_get.
  split; [exact E|]. rewrite S1. cbn [map]. rewrite S1.
  pose proof (g_lengths _ _ _ _ _ _ _ G) as Hlen. pose proof (g_links _ _ _ _ _ _ _ G) as Hlinks. cbn [ms_links] in Hlinks.
  assert (forall x, to_string x ∈ ms_nodes s' -> encoded x ∈ map encoded N) as Hnode.
  { intros x Hx. rewrite (g_nodes _ _ _ _ _ _ _ G) in Hx. cbn [ms_nodes] in Hx. rewrite union_empty_r_L in Hx.
    apply elem_of_list_to_set, elem_of_map in Hx as (y & Ey & Hy). apply to_string_inj in Ey as ->. apply elem_of_map. eauto. }
  split_and!.
  - apply NoDup_map_inj; [by intros x y ?%encode_inj|apply G].
  - apply NoDup_map_inj; [apply link_texts_inj|apply G].
  - intros l (p & -> & Hp)%elem_of_map. cbn [ml_Source ml_Target link_texts]. split.
    + apply Hnode. by apply (g_source _ _ _ _ _ _ _ G).
    + rewrite elem_of_cons. destruct (g_target _ _ _ _ _ _ _ G p Hp) as [->|Ht]; [left|right; by apply Hnode].
      cbn [node_of mn_Address]. unfold encoded. by rewrite addr_str_fresh.
  - intros i Hi. rewrite (addr_str_fresh _ Hf). apply linked; [done| |rewrite <-Hlinks; by apply Hl].
    rewrite List.Forall_forall in Hst. by apply (Hst i), list_elem_of_In.
  - intros a r t (x & -> & Hx)%elem_of_map Hr Ht.
    destruct (seeding_stored d (r_id r) t) as (raw & -> & Hraw); [apply Hinv|done|].
    apply linked; [done|apply Hraw|]. rewrite <-Hlinks. apply (g_closed _ _ _ _ _ _ _ G); [done|]. by exists r.
  - intros l ([i x] & -> & Hp)%elem_of_map. pose proof (g_real _ _ _ _ _ _ _ G (i, x) Hp) as Hre. cbn [fst snd] in Hre.
    destruct Hre as [[-> Hi]|He]; [left|right].
    + exists i. split; [done|]. unfold link_texts. cbn [fst snd]. unfold encoded. by rewrite (addr_str_fresh _ Hf).
    + by exists i, x.
  - intros n Hn. split; [rewrite List.Forall_forall in S3; by apply S3, list_elem_of_In|].
    assert (mn_Address n ∈ map encoded N) as (x & E1 & Hx)%elem_of_map by (rewrite <-S1; apply elem_of_map; eauto).
    destruct (g_reached _ _ _ _ _ _ _ G x Hx) as (i & Hi & Hr). by exists i, x.
Qed.

#[local] Existing Instance toy_crypto.
#[local] Existing Instance toy_sqlite.
#[local] Existing Instance toy_laws.
#[local] Existing Instance toy_sqlite_laws.

Definition toy_root : Entry := toy_at "e" [replicate 20 "a"%char; replicate 20 "b"%char].

Lemma toy_stored : Forall (stored (conn toy_three)) (Seeding toy_root).
Proof.
  assert (Seeding toy_root = [replicate 20 "a"%char; replicate 20 "b"%char]) as -> by (vm_compute; reflexivity).
  repeat constructor; eexists; vm_compute; reflexivity.
Qed.

Lemma CreateNetMap_graph_witness :
  exists s' rest links,
    CreateNetMap (S (length (entries (conn toy_three)))) toy_root (mkMapState toy_three ∅ ∅) =
      (s', Ok (node_of toy_root :: rest, links)) /\
    NoDup (map mn_Address rest) /\ NoDup links /\
    (forall i, i ∈ Seeding toy_root -> mkMapLink (encoded i) (addr_str (EAddress toy_root)) ∈ links) /\
    (forall n, n ∈ rest -> exists i x, i ∈ Seeding toy_root /\ rtc (edge (conn toy_three)) i x /\ mn_Address n = encoded x).
Proof.
  destruct (CreateNetMap_graph toy_three toy_root) as (s' & rest & links & E & H1 & H2 & _ & H4 & _ & _ & H7).
  - exact (toy_inv _ toy_three_reachable).
  - vm_compute. reflexivity.
  - left. vm_compute. reflexivity.
  - exact toy_stored.
  - exists s', rest, links. exact (conj E (conj H1 (conj H2 (conj H4 (fun n Hn => proj2 (H7 n Hn)))))).
Defined.
