(* ===== verification/CommandServer.v ===== *)
(** The commands of the daemon ([commandserver.go], [commands.go]) and the search
    provider ([data/search.go]): what each command answers and changes. *)

From stdpp Require Import sorting.
From S2P Require Import Prelude GoLib Crypto Address Entry Util Sqlite NetStore NetDB DHT.
From S2P Require Import Post PieceStream PostDB Collection Proto Handshake StreamManager LocalPeer Client Peer PeerManager.
From S2P Require Import Explore NetMap.

(** ** Searching *)

Section Search.
Context {D : Sqlite} {R : SqlOrder}.
(** The Unicode tables, the runes of a string and [bufio.ScanWords]. *)
Context (IsLetter IsNumber : Z -> bool) (runes : string -> list Z) (ScanWords : string -> list string).
Context (like : string -> string -> bool).

Definition IsAlnumWord (word : string) : bool :=
  forallb (fun i => negb (negb (IsLetter i) && negb (IsNumber i))) (runes word).

Definition SanitiseForAuto (text : string) : string :=
  fold_left (fun buffer w => if IsAlnumWord w then buffer +:+ w +:+ " " else buffer) (ScanWords text) ""%string.

(** [Suggest]: the result starts as [len(checked)] empty strings, to which the
    suggestions are appended. *)
Definition SearchProvider_Suggest (query : string) : M PostDb (list string) :=
  checked ← Database_Suggest like (query +:+ "%");
  mret (fold_left (fun ret i => ret ++ [SanitiseForAuto i]) checked (replicate (length checked) ""%string)).

Definition SearchProvider_Search (source query : string) (page : Z) : M PostDb SearchResult :=
  results ← Database_Search query page 25; mret (mkSearchResult results source).
End Search.

(** ** Results *)

Inductive answer :=
| ANone
| APinged
| APosts (l : list Post)
| ASearch (r : SearchResult)
| AAddresses (l : list Address)
| AId (id : Z)
| AProgress (pieces : Z)
| AEntry (e : Entry)
| AEntries (l : list Entry)
| AStrings (l : list string)
| AString (s : string)
| AMap (nodes : list MapNode) (links : list MapLink).

Record CommandResult := mkResult { IsOK : bool; Result : answer; Error : option error }.

Definition refused (e : error) : CommandResult := mkResult false ANone (Some e).
(** [CommandResult{err == nil, f(x), err}]. *)
Definition answered {A} (f : A -> answer) (r : A + error) : CommandResult :=
  match r with inl a => mkResult true (f a) None | inr e => mkResult false ANone (Some e) end.

(** What [WriteJSON] writes: the fields of the object. *)
Inductive reply := ReplyOk | ReplyValue (value : answer) | ReplyErr (err : string).
Definition WriteJSON (cr : CommandResult) : reply :=
  if IsOK cr then match Result cr with ANone => ReplyOk | v => ReplyValue v end
  else ReplyErr (match Error cr with
                 | Some e => error_text e
                 | None => "Something bad happened, but we don't know what, which makes the fact much worse."
                 end).
(** The status of [write_http_response]. *)
Definition http_status (r : CommandResult) : Z := if IsOK r then 200 else 500.

Section Commands.
Context {C : Crypto} {D : Sqlite} {R : SqlOrder} {K : Msgpack} {W : Network}.
Context (rand : nat -> option bytes) (maxPeers : Z) (iter : gmap string Z -> list (string * Z)).
Context (external_ip : string) (grow : nat -> nat) (ToLower : string -> string) (to_json : Entry -> string).

Abbreviation connect := (PM_ConnectPeer rand maxPeers iter).
Definition on_posts {A} (m : M PostDb A) : M Node A := on_lp (on_Database m).

(** [DecodeAddress] at the start of a command. *)
Definition with_address (text : string) (f : Address -> M Node CommandResult) : M Node CommandResult :=
  match DecodeAddress text with
  | Ok a => f a
  | Err e => mret (refused e)
  | Panic => lift Panic
  end.

(** A connected peer, connected to if need be. *)
Definition get_or_connect (address : Address) (f : nat -> M Node CommandResult) : M Node CommandResult :=
  s ← get;
  match PM_GetPeer address (nd_pm s) with
  | Some p => f p
  | None =>
      c ← connect address;
      match c with inr (e, _) => mret (refused e) | inl (p, _) => f p end
  end.

Definition Command_Ping (a : string) : M Node CommandResult :=
  with_address a (fun address =>
    c ← connect address;
    match c with
    | inr (e, _) => mret (refused e)
    | inl (p, _) => r ← try (Peer_Ping p); mret (answered (fun _ => APinged) r)
    end).
Definition Command_Announce (a : string) : M Node CommandResult :=
  with_address a (fun address => get_or_connect address (fun p =>
    r ← try (Peer_Announce external_ip p); mret (answered (fun _ => ANone) r))).
Definition Command_RSearch (a query : string) (page : Z) : M Node CommandResult :=
  with_address a (fun address => get_or_connect address (fun p =>
    r ← try (Peer_Search p query page); mret (answered ASearch r))).
Definition Command_PeerSearch (a query : string) (page : Z) : M Node CommandResult :=
  s ← get;
  if negb (bool_decide (is_Some (lp_Databases (nd_lp s) !! a))) then Command_RSearch a query page
  else r ← try (on_mirror a (SearchProvider_Search a query page)); mret (answered ASearch r).
(** [EntrySearch]: the texts of the addresses are filled in. *)
Definition Command_EntrySearch (name desc : string) (page : Z) : M Node CommandResult :=
  r ← try (nd_DHT (DHT_SearchEntries name desc page));
  mret (answered (fun l => AAddresses (map (fun i => (Address_String i).2) l)) r).
Definition Command_PeerRecent (a : string) (page : Z) : M Node CommandResult :=
  s ← get;
  if bool_decide (a = addr_str (lp_address (nd_lp s))) then
    r ← try (on_posts (Database_QueryRecent page)); mret (answered APosts r)
  else with_address a (fun address => get_or_connect address (fun p =>
    r ← try (Peer_Recent p page); mret (answered APosts r))).
Definition Command_PeerPopular (a : string) (page : Z) : M Node CommandResult :=
  s ← get;
  if bool_decide (a = addr_str (lp_address (nd_lp s))) then
    r ← try (on_posts (Database_QueryPopular page)); mret (answered APosts r)
  else with_address a (fun address => get_or_connect address (fun p =>
    r ← try (Peer_Popular p page); mret (answered APosts r))).

(** The seeds of an unreachable peer, one after the other: the variable [peer] holds
    what the last attempt left in it. *)
Fixpoint seeds_loop (entry : Entry) (seeds : list bytes) (peer : option nat) : M Node (option nat) :=
  match seeds with
  | [] => mret peer
  | i :: rest =>
      s ← get;
      if Address_Equals (raw_address i) (lp_address (nd_lp s)) then seeds_loop entry rest peer
      else
        c ← connect (raw_address i);
        match c with
        | inr _ => seeds_loop entry rest None
        | inl (p, _) =>
            x ← deref p;
            _ ← store p (set_seed true (Some entry) x);
            seeds_loop entry rest (Some p)
        end
  end.

(** [Mirror]; [shuffle] are the draws of the shuffling, [open_db] is what the database
    file of an address holds. The database is registered under the address of the
    peer it is downloaded from. *)
Definition Command_Mirror (shuffle : nat -> nat) (open_db : string -> PostDb) (spare : nat) (a : string) :
  M Node CommandResult :=
  with_address a (fun address =>
    m ← try (PM_Resolve rand maxPeers iter address);
    match m with
    | inr e => mret (refused e)
    | inl mirroring =>
        s ← get;
        found ← (match PM_GetPeer address (nd_pm s) with
                 | Some p => mret (inl (Some p))
                 | None =>
                     c ← connect address;
                     match c with
                     | inl (p, _) => mret (inl (Some p))
                     | inr (e, entry) =>
                         if bool_decide (e = PeerUnreachable) then
                           match entry with
                           | None => lift Panic
                           | Some entry =>
                               if (length (Seeds entry) =? 0)%nat then mret (inr e)
                               else
                                 seeds ← lift (ShuffleBytes shuffle (Seeds entry));
                                 p ← seeds_loop (set_Seeds seeds entry) seeds None;
                                 mret (inl p)
                           end
                         else mret (inr e)
                     end
                 end);
        match found with
        | inr e => mret (refused e)
        | inl None => mret (refused PeerUnreachable)
        | inl (Some p) =>
            x ← deref p;
            let name := addr_str (p_address x) in
            _ ← on_lp (modify (fun lp => set_Databases
                  (<[name := open_db (addr_str (EAddress mirroring))]> (lp_Databases lp)) lp));
            r ← try (Peer_Mirror spare name p);
            mret (answered (fun _ => ANone) r)
        end
    end).

Definition Command_PeerIndex (a : string) (since : Z) : M Node CommandResult :=
  s ← get;
  if negb (bool_decide (is_Some (lp_Databases (nd_lp s) !! a)))
  then mret (refused (ErrText "Peer database not loaded."))
  else r ← try (on_mirror a (Database_GenerateFts since)); mret (answered (fun _ => ANone) r).

(** [AddPost]. *)
Definition Command_AddPost (post : Post) (index : bool) : M Node CommandResult :=
  r ← on_lp (LocalPeer_AddPost grow post);
  match r with
  | (_, Some e) => mret (refused e)
  | (id, None) =>
      _ ← (if index then _ ← try (on_posts (Database_GenerateFts (id - 1))); mret tt else mret tt);
      mret (mkResult true (AId id) None)
  end.
Definition Command_SelfIndex (since : Z) : M Node CommandResult :=
  r ← try (on_posts (Database_GenerateFts since)); mret (answered (fun _ => ANone) r).
Definition Command_Resolve (a : string) : M Node CommandResult :=
  with_address a (fun address =>
    r ← try (PM_Resolve rand maxPeers iter address);
    mret (answered (fun e => AEntry (set_EAddress (Address_String (EAddress e)).2 e)) r)).

(** [Bootstrap]: the host and port around the first colon, 5050 without one. *)
Fixpoint cut_colon (s : string) : string * option string :=
  match s with
  | EmptyString => (""%string, None)
  | String c rest =>
      if Ascii.eqb c ":" then (""%string, Some rest)
      else let '(a, b) := cut_colon rest in (String c a, b)
  end.
Definition bootstrap_target (address : string) : string :=
  let '(host, rest) := cut_colon address in
  let port := match rest with None => "5050"%string | Some r => (cut_colon r).1 end in
  host +:+ ":" +:+ port.
Definition Command_Bootstrap (address : string) : M Node CommandResult :=
  c ← try (PM_ConnectPeerDirect rand maxPeers iter (bootstrap_target address));
  match c with
  | inr e => mret (refused e)
  | inl p => r ← try (Peer_Bootstrap p); mret (answered (fun _ => ANone) r)
  end.

Definition Command_SelfSearch (query : string) (page : Z) : M Node CommandResult :=
  s ← get;
  r ← try (on_posts (SearchProvider_Search (addr_str (lp_address (nd_lp s))) query page));
  mret (answered ASearch r).
Definition Command_SelfSuggest (suggest : string -> M PostDb (list string)) (query : string) : M Node CommandResult :=
  r ← try (on_posts (suggest query)); mret (answered AStrings r).
Definition Command_SelfRecent (page : Z) : M Node CommandResult :=
  r ← try (on_posts (Database_QueryRecent page)); mret (answered APosts r).
Definition Command_SelfPopular (page : Z) : M Node CommandResult :=
  r ← try (on_posts (Database_QueryPopular page)); mret (answered APosts r).
Definition Command_AddMeta (pid : Z) (value : string) : M Node CommandResult :=
  r ← try (on_posts (Database_AddMeta pid value)); mret (answered (fun _ => ANone) r).
Definition Command_SaveCollection : M Node CommandResult :=
  s ← get;
  _ ← try (on_lp (WriteFile (collection_dat (lp_Collection (nd_lp s)))));
  mret (mkResult true ANone None).

(** [RebuildCollection]: nothing is saved or signed. *)
Definition Command_RebuildCollection : M Node CommandResult :=
  r ← try (on_posts (CreateCollection grow 0 (Z.of_nat PieceSize)));
  match r with
  | inr e => mret (refused e)
  | inl c =>
      _ ← on_lp (modify (fun lp => set_Collection c (lp_collection_file lp) lp));
      mret (mkResult true ANone None)
  end.

(** [Peers]; [order] is the order in which the map of peers is ranged over. *)
Fixpoint peer_entries (l : list nat) : M Node (list Entry) :=
  match l with
  | [] => mret []
  | p :: l' => e ← Peer_Entry p; rest ← peer_entries l'; mret (e :: rest)
  end.
Definition Command_Peers (order : gmap string nat -> list nat) : M Node CommandResult :=
  s ← get;
  r ← try (peer_entries (order (pm_peers (nd_pm s))));
  mret (answered (fun l => AEntries (lp_Entry (nd_lp s) :: l)) r).

(** [RequestAddPeer]: [remote] is not used, and early errors come with success. *)
Definition Command_RequestAddPeer (remote peer : string) : M Node CommandResult :=
  match DecodeAddress peer with
  | Panic => lift Panic
  | Err e => mret (mkResult true ANone (Some e))
  | Ok address =>
      c ← connect address;
      match c with
      | inr (e, _) => mret (mkResult true ANone (Some e))
      | inl (p, _) =>
          q ← try (on_lp (LocalPeer_QueryEntry address));
          match q with
          | inr e => mret (mkResult true ANone (Some e))
          | inl entry => r ← try (Peer_RequestAddPeer p entry); mret (answered (fun _ => ANone) r)
          end
      end
  end.

(** [LocalSet] and [LocalGet]. *)
Definition set_Name (n : string) (e : Entry) : Entry :=
  mkEntry (EAddress e) n (Desc e) (PublicAddress e) (PublicKey e) (PostCount e) (Updated e)
    (Signature e) (CollectionHash e) (Port e) (Seeds e) (Seeding e) (Seen e) (distance e).
Definition set_Desc (n : string) (e : Entry) : Entry :=
  mkEntry (EAddress e) (Name e) n (PublicAddress e) (PublicKey e) (PostCount e) (Updated e)
    (Signature e) (CollectionHash e) (Port e) (Seeds e) (Seeding e) (Seen e) (distance e).
Definition local_field (key : string) : option (string -> Entry -> Entry) :=
  if bool_decide (key = "name"%string) then Some set_Name
  else if bool_decide (key = "desc"%string) then Some set_Desc
  else if bool_decide (key = "public"%string) then Some set_PublicAddress
  else None.
Definition Command_LocalSet (key value : string) : M Node CommandResult :=
  match local_field (ToLower key) with
  | None => mret (refused (ErrText "Unknown key"))
  | Some set =>
      _ ← on_lp (modify (fun lp => set_Entry (set value (lp_Entry lp)) lp));
      _ ← on_lp LocalPeer_SignEntry;
      r ← try (on_lp LocalPeer_SaveEntry);
      mret (answered (fun _ => ANone) r)
  end.
Definition Command_LocalGet (key : string) : M Node CommandResult :=
  s ← get;
  let e := lp_Entry (nd_lp s) in
  let k := ToLower key in
  let value :=
    if bool_decide (k = "name"%string) then Some (Name e)
    else if bool_decide (k = "desc"%string) then Some (Desc e)
    else if bool_decide (k = "public"%string) then Some (PublicAddress e)
    else if bool_decide (k = "zif"%string) then Some (addr_str (EAddress e))
    else if bool_decide (k = "postcount"%string) then Some (Itoa (PostCount e))
    else if bool_decide (k = "entry"%string) then Some (to_json e)
    else None in
  mret (match value with
        | Some v => mkResult true (AString v) None
        | None => refused (ErrText "Unknown key")
        end).

Definition Command_AddressEncode (raw : bytes) : CommandResult := mkResult true (AString (addr_str (raw_address raw))) None.
Definition Command_SetSeedLeech (id seeders leechers : Z) : M Node CommandResult :=
  r ← try (on_posts (Database_SetLeechers id leechers));
  match r with
  | inr e => mret (refused e)
  | inl _ => r ← try (on_posts (Database_SetSeeders id seeders)); mret (answered (fun _ => ANone) r)
  end.
Definition Command_Explore (shuffle : nat -> nat) : M Node CommandResult :=
  r ← try (StartExploring rand shuffle); mret (answered (fun _ => ANone) r).

(** [NetMap]: the error of the query is not looked at, and its nil entry dereferenced.
    [fuel] as in [CreateNetMap]. *)
Definition Command_NetMap (fuel : nat) (a : string) : M Node CommandResult :=
  with_address a (fun address =>
    q ← try (on_lp (LocalPeer_QueryEntry address));
    match q with
    | inr _ => lift Panic
    | inl entry =>
        s ← get;
        let '(ms, o) := CreateNetMap fuel entry (mkMapState (lp_DHT (nd_lp s)) ∅ ∅) in
        _ ← on_lp (modify (set_DHT (ms_db ms)));
        nl ← lift o;
        mret (mkResult true (AMap nl.1 nl.2) None)
    end).
End Commands.

(** ** The command server itself *)

Section Server.
Context {C : Crypto} {D : Sqlite} {R : SqlOrder} {K : Msgpack} {W : Network}.

(** The node with the count of pieces of the mirrors that run or ran. *)
Record CommandServer := mkCS { cs_node : Node; cs_MirrorProgress : gmap string Z }.

Definition NewCommandServer (lp : Node) : CommandServer := mkCS lp ∅.
Definition on_node {A} (m : M Node A) : M CommandServer A :=
  zoom cs_node (fun n s => mkCS n (cs_MirrorProgress s)) m.

(** What the goroutine of [Mirror] does with a number it receives. *)
Definition progress_received (address : string) (i : Z) : M CommandServer unit :=
  modify (fun s => mkCS (cs_node s) (<[address := i]> (cs_MirrorProgress s))).
Definition Command_GetMirrorProgress (address : string) : M CommandServer CommandResult :=
  s ← get;
  mret (match cs_MirrorProgress s !! address with
        | None => refused (ErrText "Mirror not in progress")
        | Some i => mkResult true (AProgress i) None
        end).

(** The profiles: [create] opens the file, [start] and [write] are the runtime. *)
Context (create start write : string -> option error).
Definition profile (run : string -> option error) (file : string) : CommandResult :=
  match create file with
  | Some e => refused e
  | None => match run file with Some e => refused e | None => mkResult true ANone None end
  end.
Definition Command_StartCpuProfile (file : string) : CommandResult := profile start file.
Definition Command_StopCpuProfile : CommandResult := mkResult true ANone None.
Definition Command_MemProfile (file : string) : CommandResult := profile write file.
End Server.
