(* ===== verification/CommandProps.v ===== *)
(** The properties of the local peer's own entry and of the commands: what is set is
    saved, signed and read back; what an exploration overwrites; what the search for a
    reachable seed ends with. *)

From stdpp Require Import sorting.
From S2P Require Import Prelude GoLib Base58Check Crypto Address Entry Util Sqlite NetStore NetDB NetTable NetInv NetRun DHT DHTProps.
From S2P Require Import Post PieceStream PostDB DataProps Collection Proto Handshake StreamManager LocalPeer Client Peer PeerManager.
From S2P Require Import PeerManagerProps Explore NetMap CommandServer.

Section Entry.
Context {C : Crypto} {L : CryptoLaws C} {D : Sqlite} {DL : SqliteLaws D} {K : Msgpack}.

(** A local peer that can sign [e] and store it: the key fits, the sizes too. *)
Record can_store (lp : LocalPeer) (e : Entry) : Prop := {
  cs_inv : ndb_inv (lp_DHT lp);
  cs_healthy : healthy (conn (lp_DHT lp));
  cs_key : length (lp_privateKey lp) = PrivateKeySize;
  cs_signature : length (Signature e) = SignatureSize;
  cs_public : PublicKey e = ed25519_Public (lp_privateKey lp);
  cs_sizes : entry_sizes e;
  cs_fresh : addr_fresh (EAddress e);
  cs_clock : lp_clock lp < 2 ^ 63;
  cs_files : lp_file_faults lp = [];
}.

(** Its address is stored already. *)
Definition stored_own (lp : LocalPeer) (e : Entry) : Prop :=
  find_address (addr_str (EAddress e)) (conn (lp_DHT lp)) <> None.
Definition can_save (lp : LocalPeer) (e : Entry) : Prop := can_store lp e /\ stored_own lp e.

(** The entry with the time and the signature of the local peer. *)
Definition signed_by (lp : LocalPeer) (e : Entry) : Entry :=
  set_Signature (curve_sign (lp_privateKey lp) (Entry_Bytes (set_Updated (lp_clock lp) e))) (set_Updated (lp_clock lp) e).

Lemma SignEntry_run lp : can_store lp (lp_Entry lp) ->
  LocalPeer_SignEntry lp = (set_Entry (signed_by lp (lp_Entry lp)) lp, Ok tt).
Proof.
  intros H. unfold LocalPeer_SignEntry. rewrite run_get.
  destruct (SignEntry_accepted (lp_privateKey lp) (lp_clock lp) (lp_Entry lp)) as [E _];
    [apply H|apply H|apply H|apply H|]. by rewrite (run_lift _ _ _ _ E).
Qed.

Lemma can_store_signed lp : can_store lp (lp_Entry lp) ->
  can_store (set_Entry (signed_by lp (lp_Entry lp)) lp) (signed_by lp (lp_Entry lp)).
Proof. intros [? ? Hk ? ? ? ? ?]. split; try done. cbn. by apply sign_length. Qed.

(** The table after [Insert]: the statements that follow do not change it. *)
Lemma Insert_table ndb e : table_inv ndb -> Entry_Verify (Some e) = Ok tt ->
  exists i, bucket_index (ndb_addr ndb) (EAddress e) = Ok (Z.of_nat i) /\
    buckets (Insert e ndb).1 = alter (touch (EAddress e)) i (buckets ndb) /\ ndb_addr (Insert e ndb).1 = ndb_addr ndb.
Proof.
  intros Ht Hv. assert (length (Raw (EAddress e)) = AddressBinarySize) as Hl by (by apply Verify_iff in Hv as [[H _] _]).
  destruct (insertIntoTable_run ndb (EAddress e) Ht Hl) as (ndb1 & i & Ei & Hi & Hb & _ & Ho & _).
  exists i. split; [done|]. rewrite (Insert_verified e ndb ndb1 Hv Ei), <-Hb, <-Ho.
  assert (preserves (fun n => buckets n = buckets ndb1 /\ ndb_addr n = ndb_addr ndb1) (insert_body e)) as Hp; [|by apply Hp].
  assert (forall A (m : M Db A), preserves (fun n => buckets n = buckets ndb1 /\ ndb_addr n = ndb_addr ndb1) (dbop m)) as Hd.
  { intros A m n Hn. unfold dbop, zoom. by destruct (m (conn n)). }
  unfold insert_body. apply preserves_bind; [by apply preserves_try|]. intros [a|err]; [|apply preserves_ret].
  case_match; [apply preserves_ret|]. apply preserves_bind; [by apply preserves_try|].
  intros [a'|err]; [|apply preserves_ret]. apply preserves_bind; [by apply preserves_try|]. intros x. apply preserves_ret.
Qed.

(** [SaveEntry]: the entry is signed and stored; the error is that of storing the
    seeds of a new entry, and without one the file is written. *)
Lemma SaveEntry_stores lp : can_store lp (lp_Entry lp) ->
  let e := signed_by lp (lp_Entry lp) in
  exists d id err i,
    LocalPeer_SaveEntry lp =
      (set_entry_file (match err with None => Some e | Some _ => lp_entry_file lp end) (set_DHT d (set_Entry e lp)),
       match err with None => Ok tt | Some x => Err x end) /\
    Entry_Verify (Some e) = Ok tt /\ ndb_inv d /\ healthy (conn d) /\
    find_address (addr_str (EAddress e)) (conn d) = Some (row_of id (addr_str (EAddress e)) e) /\
    (stored_own lp (lp_Entry lp) -> err = None) /\
    bucket_index (ndb_addr (lp_DHT lp)) (EAddress e) = Ok (Z.of_nat i) /\
    buckets d = alter (touch (EAddress e)) i (buckets (lp_DHT lp)) /\ ndb_addr d = ndb_addr (lp_DHT lp).
Proof.
  intros H. cbv zeta. set (e := signed_by lp (lp_Entry lp)).
  assert (Entry_Verify (Some e) = Ok tt) as Hv by (apply SignEntry_accepted; apply H).
  destruct (Insert_run (lp_DHT lp) e) as (d & err & id & E & Hinv & Hh & Hf & _ & _ & Hold); try apply H; [done|].
  destruct (Insert_table (lp_DHT lp) e) as (i & Hi & Hb & Ho); [apply H|done|]. rewrite E in Hb, Ho.
  exists d, id, err, i. split_and!; try done.
  - unfold LocalPeer_SaveEntry. rewrite (run_bind _ _ _ _ _ (SignEntry_run lp H)), run_get.
    cbn [lp_Entry set_Entry]. fold e. unfold on_DHT, zoom. unfold mbind, M_bind. cbn [lp_DHT set_Entry].
    unfold DHT_Insert. rewrite E. cbn [snd]. destruct err; [done|].
    by rewrite run_WriteFile by apply (cs_files _ _ H).
  - unfold stored_own. intros Hs. change (EAddress (lp_Entry lp)) with (EAddress e) in Hs.
    destruct (find_address _ (conn (lp_DHT lp))) as [r|] eqn:Er; [|done]. by destruct (Hold r eq_refl).
Qed.

Lemma SaveEntry_run lp : can_save lp (lp_Entry lp) ->
  let e := signed_by lp (lp_Entry lp) in
  exists d id, LocalPeer_SaveEntry lp = (set_entry_file (Some e) (set_DHT d (set_Entry e lp)), Ok tt) /\
    Entry_Verify (Some e) = Ok tt /\
    find_address (addr_str (EAddress e)) (conn d) = Some (row_of id (addr_str (EAddress e)) e).
Proof.
  intros [H Hs]. destruct (SaveEntry_stores lp H) as (d & id & err & i & E & Hv & _ & _ & Hf & Hn & _).
  rewrite (Hn Hs) in E. exists d, id. done.
Qed.
End Entry.

(** C19. Setting a field of the local entry, within the limits: the command succeeds;
    reading the key gives the value back; the entry on disk and the row in the database
    are the entry in memory, and its signature is valid. *)
Theorem LocalSet_saves {C : Crypto} {L : CryptoLaws C} {D : Sqlite} {DL : SqliteLaws D} {K : Msgpack} {W : Network}
    (ToLower : string -> string) (to_json : Entry -> string) (key value : string)
    (field : string -> Entry -> Entry) (s : Node) :
  local_field (ToLower key) = Some field ->
  can_save (nd_lp s) (field value (lp_Entry (nd_lp s))) ->
  exists s' id, Command_LocalSet ToLower key value s = (s', Ok (mkResult true ANone None)) /\
    Command_LocalGet ToLower to_json key s' = (s', Ok (mkResult true (AString value) None)) /\
    lp_entry_file (nd_lp s') = Some (lp_Entry (nd_lp s')) /\
    Entry_Verify (Some (lp_Entry (nd_lp s'))) = Ok tt /\
    find_address (addr_str (EAddress (lp_Entry (nd_lp s')))) (conn (lp_DHT (nd_lp s'))) =
      Some (row_of id (addr_str (EAddress (lp_Entry (nd_lp s')))) (lp_Entry (nd_lp s'))).
Proof.
  intros Hf H. set (lp1 := set_Entry (field value (lp_Entry (nd_lp s))) (nd_lp s)).
  assert (can_store lp1 (lp_Entry lp1)) as H1 by (destruct H as [[] _]; by split).
  pose proof (can_store_signed lp1 H1) as H2. set (lp2 := set_Entry (signed_by lp1 (lp_Entry lp1)) lp1) in *.
  destruct (SaveEntry_run lp2) as (d & id & E & Hv & Hr); [split; [done|apply H]|]. cbv zeta in *. set (e := signed_by lp2 _) in *.
  eexists _, id. split.
  { unfold Command_LocalSet. rewrite Hf. unfold on_lp, zoom, modify, try, mbind, M_bind. cbn [nd_lp set_lp].
    fold lp1. rewrite (SignEntry_run lp1 H1). cbn [nd_lp set_lp]. fold lp2. rewrite E. cbn [answered]. reflexivity. }
  cbn [nd_lp set_lp lp_Entry set_entry_file set_DHT set_Entry lp_entry_file lp_DHT]. split; [|done].
  unfold Command_LocalGet. rewrite run_get. cbn [nd_lp set_lp lp_Entry set_entry_file set_DHT set_Entry].
  unfold local_field in Hf. unfold e, signed_by, lp2, signed_by, lp1 in *. cbn [lp_Entry set_Entry].
  repeat case_bool_decide; simplify_eq; reflexivity.
Qed.

(** A query that finds something leaves the database healthy. *)
Lemma DHT_Query_found {C : Crypto} {D : Sqlite} {DL : SqliteLaws D} ndb a e :
  ndb_inv ndb -> healthy (conn ndb) -> (DHT_Query a ndb).2 = Ok (Some e) ->
  exists d, DHT_Query a ndb = (d, Ok (Some e)) /\ ndb_inv d /\ healthy (conn d).
Proof.
  intros Hinv Hh Hq. unfold DHT_Query in *. destruct (find_address (addr_str a) (conn ndb)) as [r|] eqn:Er.
  - destruct (Query_present ndb a r Hinv Hh Er) as (e' & d & i & E & _ & _ & _ & _ & _ & _ & _ & Hc & _ & Hi).
    exists d. rewrite (run_bind _ _ _ _ _ E) in Hq |- *. cbn in Hq. injection Hq as ->. by rewrite Hc.
  - rewrite (run_bind _ _ _ _ _ (Query_absent ndb a Hh Er)) in Hq. done.
Qed.

(** An exploration brings back older entries: an entry that comes with more seeds
    than the stored one replaces it although the stored one is at least as new, and
    the merged list of seeds is lost. *)
Theorem explore_older_entry_wins {C : Crypto} {D : Sqlite} {DL : SqliteLaws D} {K : Msgpack} {W : Network}
    (order : list string -> list string) (i current : Entry) (s : Node) :
  ndb_inv (lp_DHT (nd_lp s)) -> healthy (conn (lp_DHT (nd_lp s))) -> Entry_Verify (Some i) = Ok tt ->
  addr_fresh (EAddress i) -> Updated i < 2 ^ 63 ->
  Address_Equals (EAddress i) (lp_address (nd_lp s)) = false ->
  (DHT_Query (EAddress i) (lp_DHT (nd_lp s))).2 = Ok (Some current) ->
  Updated i <= Updated current -> (length (Seeds current) < length (Seeds i))%nat ->
  exists s' id, explore_found order i s = (s', Ok []) /\
    find_address (addr_str (EAddress i)) (conn (lp_DHT (nd_lp s'))) = Some (row_of id (addr_str (EAddress i)) i).
Proof.
  intros Hinv Hh Hv Hfr Hu Hown Hc Hold Hseeds.
  destruct (DHT_Query_found _ _ _ Hinv Hh Hc) as (d & Hq & Hd & Hhd).
  destruct (Insert_run d i Hd Hhd Hv Hfr Hu) as (d' & err & id & E & _ & _ & Hf & _).
  eexists _, id. unfold explore_found. erewrite run_try.
  2: { unfold nd_DHT, on_lp, on_DHT, zoom. rewrite Hq. reflexivity. }
  rewrite run_get. cbn [nd_lp set_lp lp_address set_DHT]. rewrite Hown.
  rewrite (proj2 (Z.ltb_ge _ _)) by lia. rewrite (proj2 (Nat.ltb_lt _ _)) by done. cbv zeta.
  erewrite run_bind.
  2: { unfold nd_DHT, on_lp, on_DHT, zoom. cbn [nd_lp set_lp lp_DHT set_DHT]. unfold DHT_Insert. rewrite E. reflexivity. }
  split; [reflexivity|]. exact Hf.
Qed.

(** The seeds of an unreachable peer are all tried, and what counts is the last:
    if the last one cannot be connected to, the mirror is refused although an earlier
    seed is connected. *)
Theorem last_seed_decides {C : Crypto} {D : Sqlite} {K : Msgpack} {W : Network}
    (rand : nat -> option bytes) (maxPeers : Z) (iter : gmap string Z -> list (string * Z))
    (entry : Entry) (seeds : list bytes) (i : bytes) (peer p : option nat) (s s1 s2 : Node) (e : error * option Entry) :
  seeds_loop rand maxPeers iter entry seeds peer s = (s1, Ok p) ->
  Address_Equals (raw_address i) (lp_address (nd_lp s1)) = false ->
  PM_ConnectPeer rand maxPeers iter (raw_address i) s1 = (s2, Ok (inr e)) ->
  seeds_loop rand maxPeers iter entry (seeds ++ [i]) peer s = (s2, Ok None).
Proof.
  revert peer s. induction seeds as [|j seeds IH]; intros peer s Hs Ho Hc; cbn [app seeds_loop] in *.
  - injection Hs as -> ->. rewrite run_get, Ho, (run_bind _ _ _ _ _ Hc). done.
  - rewrite run_get in Hs |- *.
    destruct (Address_Equals (raw_address j) (lp_address (nd_lp s))); [by apply IH|].
    apply bind_Ok in Hs as (s3 & c & E & Hs). rewrite (run_bind _ _ _ _ _ E).
    destruct c as [[q x]|x]; [|by apply IH].
    apply bind_Ok in Hs as (s4 & y & Ey & Hs). rewrite (run_bind _ _ _ _ _ Ey).
    apply bind_Ok in Hs as (s5 & [] & Ez & Hs). rewrite (run_bind _ _ _ _ _ Ez). by apply IH.
Qed.

(** ** Witnesses *)

#[local] Existing Instance toy_crypto.
#[local] Existing Instance toy_laws.
#[local] Existing Instance toy_sqlite.
#[local] Existing Instance toy_sqlite_laws.
#[local] Existing Instance toy_msgpack.
#[local] Existing Instance toy_network.

(** A node whose own entry is the stored one of [a]. *)
Definition toy_saved : Node :=
  set_lp (mkLP (toy_at "a" []) (raw_address (replicate 20 "a"%char)) toy_sk toy_three (mkPostDb [] [] 0 []) NewCollection ∅
    None ∅ None 1500000001 [] [] true []) (toy_node []).

Lemma toy_can_save : can_save (nd_lp toy_saved) (set_Name "bob" (lp_Entry (nd_lp toy_saved))).
Proof.
  split; [split|].
  - exact (toy_inv _ toy_three_reachable).
  - vm_compute. reflexivity.
  - reflexivity.
  - vm_compute. reflexivity.
  - vm_compute. reflexivity.
  - unfold entry_sizes. split_and!; first [by vm_compute | apply Nat.leb_le; by vm_compute | apply Z.leb_le; by vm_compute].
  - left. vm_compute. reflexivity.
  - vm_compute. reflexivity.
  - reflexivity.
  - vm_compute. discriminate.
Qed.

Lemma LocalSet_saves_witness :
  exists s' id, Command_LocalSet (fun k => k) "name" "bob" toy_saved = (s', Ok (mkResult true ANone None)) /\
    Command_LocalGet (fun k => k) (fun _ => ""%string) "name" s' = (s', Ok (mkResult true (AString "bob") None)) /\
    lp_entry_file (nd_lp s') = Some (lp_Entry (nd_lp s')) /\
    Entry_Verify (Some (lp_Entry (nd_lp s'))) = Ok tt /\
    find_address (addr_str (EAddress (lp_Entry (nd_lp s')))) (conn (lp_DHT (nd_lp s'))) =
      Some (row_of id (addr_str (EAddress (lp_Entry (nd_lp s')))) (lp_Entry (nd_lp s'))).
Proof.
  exact (LocalSet_saves (fun k => k) (fun _ => ""%string) "name" "bob" set_Name toy_saved eq_refl toy_can_save).
Defined.

(** An entry of [b] as old as the stored one, with a seed. *)
Definition toy_seeded : Entry := set_Seeds [replicate 20 "a"%char] (toy_at "b" []).
Definition some_or (o : outcome (option Entry)) : Entry := match o with Ok (Some e) => e | _ => toy_entry end.
Definition toy_current : Entry := some_or (DHT_Query (EAddress toy_seeded) toy_three).2.

Lemma explore_older_entry_wins_witness :
  exists s' id, explore_found (fun l => l) toy_seeded (toy_node []) = (s', Ok []) /\
    find_address (addr_str (EAddress toy_seeded)) (conn (lp_DHT (nd_lp s'))) =
      Some (row_of id (addr_str (EAddress toy_seeded)) toy_seeded).
Proof.
  apply (explore_older_entry_wins (fun l => l) toy_seeded toy_current (toy_node [])).
  - exact (toy_inv _ toy_three_reachable).
  - vm_compute. reflexivity.
  - vm_compute. reflexivity.
  - left. vm_compute. reflexivity.
  - vm_compute. reflexivity.
  - vm_compute. reflexivity.
  - vm_compute. reflexivity.
  - vm_compute. discriminate.
  - vm_compute. reflexivity.
Defined.

Lemma last_seed_decides_witness :
  seeds_loop (fun _ => None) 100 map_to_list toy_entry ([replicate 20 "a"%char] ++ [replicate 20 "d"%char]) None (toy_node []) =
  ((PM_ConnectPeer (fun _ => None) 100 map_to_list toy_target
     (seeds_loop (fun _ => None) 100 map_to_list toy_entry [replicate 20 "a"%char] None (toy_node [])).1).1, Ok None).
Proof.
  apply (last_seed_decides (fun _ => None) 100 map_to_list toy_entry [replicate 20 "a"%char] (replicate 20 "d"%char) None
    (Some 0%nat) (toy_node []) (seeds_loop (fun _ => None) 100 map_to_list toy_entry [replicate 20 "a"%char] None (toy_node [])).1
    _ (ErrText "Address could not be resolved", None)).
  - apply pair_surj. vm_compute. reflexivity.
  - vm_compute. reflexivity.
  - apply pair_surj. vm_compute. reflexivity.
Defined.
