(* ===== verification/Publish.v ===== *)
(** Publishing ([LocalPeer.AddPost], [localpeer.go]): the post count, the hash list and
    the root hash in the signed entry follow the database, up to the 999th post. *)

From stdpp Require Import sorting.
From S2P Require Import Prelude GoLib Base58Check Crypto Address Entry Util Sqlite NetStore NetDB NetTable NetInv NetRun DHT DHTProps.
From S2P Require Import Post PieceStream PostDB PostDBProps DataProps Collection CollectionProps Proto Handshake StreamManager.
From S2P Require Import LocalPeer Client Peer PeerManager PeerManagerProps Explore NetMap CommandServer CommandProps.

(** ** The invariant of a publisher *)

Section Publish.
Context {C : Crypto} {L : CryptoLaws C} {D : Sqlite} {DL : SqliteLaws D} {O : SqlOrder} {K : Msgpack}.

(** The hash list of a list of posts: the hashes of its pieces. *)
Definition hash_list (posts : list Post) : bytes :=
  flat_map (piece_hash posts) (seq 0 (piece_count (length posts))).

(** Database and collection agree, and the entry counts the posts. *)
Record consistent (lp : LocalPeer) : Prop := {
  co_wf : pdb_wf (lp_Database lp);
  co_healthy : pdb_healthy (lp_Database lp);
  co_rows : Forall (fun p => p = post_row (Id p) p) (rows (lp_Database lp));
  co_count : PostCount (lp_Entry lp) = Z.of_nat (length (rows (lp_Database lp)));
  co_slice : g_wf (HashList (lp_Collection lp));
  co_list : g_contents (HashList (lp_Collection lp)) = hash_list (rows (lp_Database lp));
}.

(** The entry vouches for it too. *)
Definition published (lp : LocalPeer) : Prop :=
  consistent lp /\ CollectionHash (lp_Entry lp) = sha3_Sum256 (hash_list (rows (lp_Database lp))).

Lemma piece_count_one n : (0 < n <= PieceSize)%nat -> piece_count n = 1%nat.
Proof.
  intros Hn. destruct (piece_count_bounds n) as (l & -> & Hl); [lia|]. f_equal. unfold PieceSize in *. lia.
Qed.

Lemma length_hash_list posts : length (hash_list posts) = (32 * piece_count (length posts))%nat.
Proof.
  unfold hash_list. generalize (seq 0 (piece_count (length posts))) (length_seq (piece_count (length posts)) 0).
  intros l <-. induction l as [|k l IH]; [done|]. cbn [flat_map length]. rewrite length_app, IH.
  unfold piece_hash. rewrite sha3_length. lia.
Qed.

Lemma hash_list_one posts : (0 < length posts <= PieceSize)%nat -> hash_list posts = piece_hash posts 0.
Proof. intros Hn. unfold hash_list. rewrite piece_count_one by done. cbn. apply app_nil_r. Qed.

(** The hash of the first piece replaces the one before, or is the first. *)
Lemma Add_first_again (grow : nat -> nat) posts c :
  g_wf (HashList c) -> (length (g_contents (HashList c)) = 0 \/ length (g_contents (HashList c)) = 32)%nat ->
  exists c', Collection_Add grow (owned_piece 0 false posts) c = Ok c' /\
    g_wf (HashList c') /\ g_contents (HashList c') = piece_hash posts 0.
Proof.
  intros Hwf Hlen. rewrite length_g_contents in Hlen by done. unfold Collection_Add, Piece_Hash.
  cbn [owned_piece P_hash P_Id mbind outcome_bind]. fold (piece_hash posts 0).
  assert (length (piece_hash posts 0) = 32%nat) as Hh by apply sha3_length.
  change (wrap64 (Z.of_nat 0 + 1)) with 1. destruct Hlen as [E|E]; rewrite E; cbn [Z.of_nat Z.ltb Z.compare].
  - eexists. split; [reflexivity|]. cbn [HashList]. unfold g_append, g_wf, g_cap, g_contents.
    rewrite E, Hh. cbn [Nat.add take app]. destruct (Nat.leb_spec 32 (length (g_array (HashList c)))); cbn [g_len g_array g_make].
    + rewrite take_0, app_nil_l, length_app, length_drop, Hh. split; [lia|]. by rewrite take_app_le, take_ge by lia.
    + rewrite take_0, app_nil_l, length_app, Hh. split; [lia|]. by rewrite take_app_le, take_ge by lia.
  - change (Z.of_nat 32 <? 1) with false. cbv iota. unfold g_copy_at, g_wf, g_cap in *.
    change (wrap64 (Z.of_nat 0 * 32)) with 0. change (wrap64 (Z.of_nat 0 * 32 + 32)) with 32.
    rewrite (proj2 (Z.leb_le 32 _)) by lia. cbn [andb Z.leb Z.compare].
    eexists. split; [reflexivity|]. cbn [HashList g_array g_len]. rewrite Hh. unfold g_contents. cbn [g_array g_len].
    change (Z.to_nat (32 - 0)) with 32%nat. change (Z.to_nat 0) with 0%nat. cbn [Nat.min Nat.add].
    rewrite take_0, app_nil_l, (take_ge (piece_hash posts 0)) by (rewrite Hh; cbn; lia). rewrite E.
    rewrite length_app, length_drop, Hh. split; [lia|]. by rewrite take_app_le, take_ge by lia.
Qed.

Lemma Rehash_hash c : (length (g_contents (HashList c)) = 32)%nat ->
  Collection_Hash (Collection_Rehash c) = sha3_Sum256 (g_contents (HashList c)).
Proof. intros E. unfold Collection_Hash. rewrite Rehash_root, E. f_equal. apply take_ge. rewrite E. cbn. lia. Qed.

Lemma post_row_fix id p : post_row (Id (post_row id p)) (post_row id p) = post_row id p.
Proof. unfold post_row. cbn. by rewrite !col_text_idem. Qed.

(** ** Adding a post *)

Lemma InsertPost_new d p :
  pdb_wf d -> pdb_healthy d -> col_text (InfoHash p) ∉ map InfoHash (rows d) ->
  let id := Z.of_nat (S (length (rows d))) in
  let d' := mkPostDb (rows d ++ [post_row id p]) (fts_post d) id (pd_faults d) in
  insert_row p d = d' /\ Database_InsertPost p d = (d', Ok id) /\ pdb_wf d' /\ pdb_healthy d'.
Proof.
  intros Hd Hh Hnew. cbv zeta. assert (insert_row p d = mkPostDb (rows d ++ [post_row (Z.of_nat (S (length (rows d)))) p])
    (fts_post d) (Z.of_nat (S (length (rows d)))) (pd_faults d)) as E.
  { unfold insert_row. rewrite bool_decide_false by done. rewrite max_post_id_wf by done.
    by replace (Z.of_nat (length (rows d)) + 1) with (Z.of_nat (S (length (rows d)))) by lia. }
  split; [done|]. split_and!; [|rewrite <-E; by apply pdb_wf_insert|done].
  unfold Database_InsertPost, sql_insert_post. rewrite (run_bind _ _ _ d tt) by (by apply nop_healthy).
  by rewrite sql_stmt_healthy, E by done.
Qed.

Lemma on_Database_run {A} (m : M PostDb A) lp d o : m (lp_Database lp) = (d, o) -> on_Database m lp = (set_Database d lp, o).
Proof. intros E. unfold on_Database, zoom. by rewrite E. Qed.

(** The first piece is queried for every id below a thousand. *)
Lemma first_piece_index n : (S n < PieceSize)%nat -> wrap64 (Z.of_nat (S n) / Z.of_nat PieceSize) = Z.of_nat 0.
Proof. intros Hn. rewrite Z.div_small by lia. reflexivity. Qed.

(** The local peer before its entry is signed and saved. *)
Definition with_post (d : PostDb) (c : Collection) (lp : LocalPeer) : LocalPeer :=
  set_Entry (set_CollectionHash (Collection_Hash c) (set_PostCount (PostCount (lp_Entry lp) + 1) (lp_Entry lp)))
    (set_Collection c (Some (Collection_Save c)) (set_Database d
      (set_Entry (set_PostCount (PostCount (lp_Entry lp) + 1) (lp_Entry lp)) lp))).

Lemma can_save_with_post d c lp : can_save lp (lp_Entry lp) -> can_save (with_post d c lp) (lp_Entry (with_post d c lp)).
Proof. intros [[] ?]. split; [|done]. by split. Qed.

(** Signing and saving once the rest is done. *)
Lemma sign_and_save lp : can_save lp (lp_Entry lp) ->
  exists e d, (_ ← LocalPeer_SignEntry; try LocalPeer_SaveEntry) lp =
      (set_entry_file (Some e) (set_DHT d (set_Entry e lp)), Ok (inl tt)) /\
    PostCount e = PostCount (lp_Entry lp) /\ CollectionHash e = CollectionHash (lp_Entry lp) /\
    EAddress e = EAddress (lp_Entry lp) /\ Seeds e = Seeds (lp_Entry lp) /\
    Entry_Verify (Some e) = Ok tt /\ can_save (set_entry_file (Some e) (set_DHT d (set_Entry e lp))) e.
Proof.
  intros [H Hs]. set (lp1 := set_Entry (signed_by lp (lp_Entry lp)) lp).
  assert (can_store lp1 (lp_Entry lp1)) as H1 by (by apply can_store_signed).
  destruct (SaveEntry_stores lp1 H1) as (d & id & err & i & E & Hv & Hi & Hh & Hf & Hn & _). cbv zeta in *.
  rewrite (Hn Hs) in E. exists (signed_by lp1 (lp_Entry lp1)), d.
  pose proof (can_store_signed lp1 H1) as H2. split_and!; try done.
  - rewrite (run_bind _ _ _ _ _ (SignEntry_run lp H)). fold lp1. unfold try. by rewrite E.
  - split; [|unfold stored_own; cbn [lp_DHT set_entry_file set_DHT]; by rewrite Hf]. destruct H2. by split.
Qed.

Lemma AddPost_run (grow : nat -> nat) lp p :
  consistent lp -> can_save lp (lp_Entry lp) -> Post_Valid (lp_clock lp) p = Ok tt ->
  col_text (InfoHash p) ∉ map InfoHash (rows (lp_Database lp)) -> (S (length (rows (lp_Database lp))) < PieceSize)%nat ->
  let id := Z.of_nat (S (length (rows (lp_Database lp)))) in
  exists lp', LocalPeer_AddPost grow p lp = (lp', Ok (id, None)) /\
    rows (lp_Database lp') = rows (lp_Database lp) ++ [post_row id p] /\ published lp' /\
    can_save lp' (lp_Entry lp') /\ Entry_Verify (Some (lp_Entry lp')) = Ok tt /\
    lp_entry_file lp' = Some (lp_Entry lp') /\ lp_collection_file lp' = Some (hash_list (rows (lp_Database lp'))) /\
    lp_clock lp' = lp_clock lp /\ EAddress (lp_Entry lp') = EAddress (lp_Entry lp) /\ lp_writable lp' = lp_writable lp.
Proof.
  intros Hc Hsave Hv Hnew Hn. cbv zeta. set (d := lp_Database lp) in *. set (id := Z.of_nat (S (length (rows d)))).
  destruct (InsertPost_new d p (co_wf _ Hc) (co_healthy _ Hc) Hnew) as (_ & Ei & Hd' & Hh'). cbv zeta in *.
  fold id in Ei, Hd', Hh'. set (d' := mkPostDb (rows d ++ [post_row id p]) (fts_post d) id (pd_faults d)) in *.
  assert (length (rows d') = S (length (rows d))) as Hl' by (cbn [d' rows]; rewrite length_app; cbn [length]; lia).
  destruct (Add_first_again grow (rows d') (lp_Collection lp)) as (c & Ec & Hcw & Hcc); [apply Hc| |].
  { rewrite (co_list _ Hc), length_hash_list. fold d. destruct (length (rows d)) as [|n]; [by left|right].
    by rewrite piece_count_one by lia. }
  set (c' := Collection_Rehash c). destruct (sign_and_save (with_post d' c' lp)) as (e & dht & Es & Hpc & Hch & Hea & _ & Hev & Hsv).
  { by apply can_save_with_post. }
  assert (hash_list (rows d') = piece_hash (rows d') 0) as Hhl by (apply hash_list_one; lia).
  exists (set_entry_file (Some e) (set_DHT dht (set_Entry e (with_post d' c' lp)))). split_and!; try done.
  - unfold LocalPeer_AddPost. rewrite run_get, Hv, run_modify.
    erewrite run_try by (apply on_Database_run; cbn [lp_Database set_Entry]; exact Ei). cbv zeta. cbv beta iota.
    rewrite (first_piece_index _ Hn : wrap64 (id / _) = _).
    erewrite run_try by (apply on_Database_run; cbn [lp_Database set_Database]; by apply (QueryPiece_run d' 0)).
    rewrite run_get. cbv iota. cbn [lp_Collection set_Database set_Entry].
    rewrite (run_lift _ _ _ _ Ec), run_modify.
    erewrite run_try by (apply run_WriteFile; exact (cs_files _ _ (proj1 Hsave))).
    rewrite run_modify. cbv beta. unfold collection_dat. cbn [lp_Entry lp_Collection set_Collection set_Database set_Entry].
    change (set_Database d' (set_Database d' ?x)) with (set_Database d' x). fold c'.
    change (set_Entry _ (set_Collection _ _ _)) with (with_post d' c' lp).
    revert Es. unfold mbind, M_bind. destruct (LocalPeer_SignEntry (with_post d' c' lp)) as [lp1 [[]|x|]]; [|done|done].
    intros ->. done.
  - split.
    + split; cbn [lp_Database lp_Collection lp_Entry set_entry_file set_DHT set_Entry with_post set_Collection set_Database]; try done.
      * cbn [d' rows]. apply Forall_app_2; [apply Hc|]. constructor; [|constructor]. symmetry. apply post_row_fix.
      * rewrite Hpc, Hl'. cbn [with_post lp_Entry set_Entry set_CollectionHash set_PostCount PostCount].
        rewrite (co_count _ Hc). fold d. lia.
      * cbn [c' Collection_Rehash HashList]. by rewrite Hcc, Hhl.
    + cbn [lp_Database lp_Entry set_entry_file set_DHT set_Entry]. rewrite Hch. cbn [with_post lp_Entry set_Entry CollectionHash set_CollectionHash lp_Database set_Collection set_Database].
      unfold c'. rewrite Rehash_hash by (rewrite Hcc; apply sha3_length). by rewrite Hcc, Hhl.
  - cbn [lp_collection_file set_entry_file set_DHT set_Entry with_post set_Collection lp_Database set_Database].
    unfold Collection_Save, c'. cbn [Collection_Rehash HashList]. by rewrite Hcc, Hhl.
Qed.

(** The rows after inserts depend on the rows before only. *)
Lemma insert_rows_ext l : forall d d', rows d = rows d' -> rows (insert_rows l d) = rows (insert_rows l d').
Proof.
  induction l as [|p l IH]; intros d d' E; [done|]. cbn [insert_rows fold_left]. apply IH.
  unfold insert_row. rewrite E. by case_bool_decide.
Qed.

(** A sequence of posts. *)
Definition add_posts (grow : nat -> nat) (l : list Post) : M LocalPeer unit :=
  for_each l (fun p => r ← LocalPeer_AddPost grow p; match r.2 with Some e => fail e | None => mret tt end).

Lemma add_posts_run (grow : nat -> nat) l : forall lp,
  consistent lp -> can_save lp (lp_Entry lp) -> Forall (fun p => Post_Valid (lp_clock lp) p = Ok tt) l ->
  NoDup (map InfoHash (rows (lp_Database lp)) ++ map (fun p => col_text (InfoHash p)) l) ->
  (length (rows (lp_Database lp)) + length l < PieceSize)%nat -> l <> [] ->
  exists lp', add_posts grow l lp = (lp', Ok tt) /\
    rows (lp_Database lp') = rows (insert_rows l (lp_Database lp)) /\ published lp' /\ can_save lp' (lp_Entry lp') /\
    Entry_Verify (Some (lp_Entry lp')) = Ok tt /\ lp_entry_file lp' = Some (lp_Entry lp') /\
    lp_collection_file lp' = Some (hash_list (rows (lp_Database lp'))).
Proof.
  induction l as [|p l IH]; intros lp Hc Hs Hv Hnd Hn Hne; [done|]. clear Hne.
  apply Forall_cons_1 in Hv as [Hp Hv]. cbn [map length] in *.
  assert (col_text (InfoHash p) ∉ map InfoHash (rows (lp_Database lp))) as Hnew.
  { apply list.NoDup_app in Hnd as (_ & Hdis & _). intros Hin. apply (Hdis _ Hin). by left. }
  destruct (AddPost_run grow lp p Hc Hs Hp Hnew) as (lp1 & E & Hr & Hpub & Hs1 & Hev & Hf & Hcf & Hck & _); [lia|].
  cbv zeta in *. set (id := Z.of_nat (S (length (rows (lp_Database lp))))) in *.
  destruct (InsertPost_new (lp_Database lp) p (co_wf _ Hc) (co_healthy _ Hc) Hnew) as (Ei & _). cbv zeta in Ei. fold id in Ei.
  assert (rows (lp_Database lp1) = rows (insert_row p (lp_Database lp))) as Hr1 by (rewrite Ei, Hr; done).
  assert (add_posts grow (p :: l) lp = add_posts grow l lp1) as Estep.
  { unfold add_posts. cbn [for_each]. erewrite run_bind; [reflexivity|]. erewrite run_bind by exact E. done. }
  rewrite Estep. destruct l as [|q l].
  { exists lp1. split_and!; try done. }
  destruct (IH lp1) as (lp' & E' & Hr' & H'); try done; [apply Hpub|by rewrite Hck| |rewrite Hr, length_app; cbn [length] in *; lia|].
  { rewrite Hr, map_app, <-(assoc_L (++)). exact Hnd. }
  exists lp'. split; [done|]. split; [|done]. rewrite Hr'. cbn [insert_rows fold_left].
  fold (insert_rows l (insert_row q (lp_Database lp1))) (insert_rows l (insert_row q (insert_row p (lp_Database lp)))).
  apply (insert_rows_ext (q :: l)). exact Hr1.
Qed.
End Publish.

(** ** Theorems *)

(** C24. Publishing keeps the promise of the entry: after any sequence of valid posts with
    new info hashes, fewer than a thousand in all, on a database that answers, every
    [AddPost] succeeds; the rows are the posts in order; the signed entry is valid, is
    the one on disk, counts the posts and carries the hash of the hash list, which is the
    list of the hashes of the pieces and is on disk too. *)
Theorem AddPost_publishes {C : Crypto} {L : CryptoLaws C} {D : Sqlite} {DL : SqliteLaws D} {O : SqlOrder} {K : Msgpack}
    (grow : nat -> nat) (l : list Post) (lp : LocalPeer) :
  consistent lp -> can_save lp (lp_Entry lp) -> Forall (fun p => Post_Valid (lp_clock lp) p = Ok tt) l ->
  NoDup (map InfoHash (rows (lp_Database lp)) ++ map (fun p => col_text (InfoHash p)) l) ->
  (length (rows (lp_Database lp)) + length l < PieceSize)%nat -> l <> [] ->
  exists lp', add_posts grow l lp = (lp', Ok tt) /\
    rows (lp_Database lp') = rows (insert_rows l (lp_Database lp)) /\
    PostCount (lp_Entry lp') = Z.of_nat (length (rows (lp_Database lp'))) /\
    CollectionHash (lp_Entry lp') = sha3_Sum256 (hash_list (rows (lp_Database lp'))) /\
    g_contents (HashList (lp_Collection lp')) = hash_list (rows (lp_Database lp')) /\
    lp_collection_file lp' = Some (hash_list (rows (lp_Database lp'))) /\
    lp_entry_file lp' = Some (lp_Entry lp') /\ Entry_Verify (Some (lp_Entry lp')) = Ok tt.
Proof.
  intros H1 H2 H3 H4 H5 H6. destruct (add_posts_run grow l lp H1 H2 H3 H4 H5 H6) as (lp' & E & Hr & [Hc Hh] & _ & Hv & Hf & Hcf).
  exists lp'. split_and!; try done; apply Hc.
Qed.

(** The thousandth post belongs to the first piece, but [AddPost] divides its id, which
    starts at one, by the piece size and so hashes the empty second piece; its hash is
    copied behind the hash list, which panics unless the list has room for it. *)
Theorem AddPost_thousandth {C : Crypto} {L : CryptoLaws C} {D : Sqlite} {DL : SqliteLaws D} {O : SqlOrder} {K : Msgpack}
    (grow : nat -> nat) (lp : LocalPeer) (p : Post) :
  consistent lp -> Post_Valid (lp_clock lp) p = Ok tt ->
  col_text (InfoHash p) ∉ map InfoHash (rows (lp_Database lp)) -> S (length (rows (lp_Database lp))) = PieceSize ->
  (g_cap (HashList (lp_Collection lp)) < 64)%nat ->
  (LocalPeer_AddPost grow p lp).2 = Panic.
Proof.
  intros Hc Hv Hnew Hn Hcap. destruct (InsertPost_new _ p (co_wf _ Hc) (co_healthy _ Hc) Hnew) as (_ & Ei & Hd' & Hh').
  cbv zeta in *. rewrite Hn in *. unfold LocalPeer_AddPost. rewrite run_get, Hv, run_modify.
  erewrite run_try by (apply on_Database_run; cbn [lp_Database set_Entry]; exact Ei). cbv zeta. cbv beta iota.
  change (wrap64 (Z.of_nat PieceSize / Z.of_nat PieceSize)) with (Z.of_nat 1).
  erewrite run_try by (apply on_Database_run; cbn [lp_Database set_Database]; by apply (QueryPiece_run _ 1)).
  rewrite run_get. cbn [lp_Collection set_Database set_Entry].
  assert (g_len (HashList (lp_Collection lp)) = 32%nat) as Hl.
  { rewrite <-length_g_contents by apply Hc. rewrite (co_list _ Hc), length_hash_list, piece_count_one; [done|].
    unfold PieceSize in *. lia. }
  unfold Collection_Add, Piece_Hash. cbn [owned_piece P_hash P_Id mbind outcome_bind]. rewrite Hl.
  change (Z.of_nat 32 <? wrap64 (Z.of_nat 1 + 1)) with false. cbv iota. unfold g_copy_at.
  change (wrap64 (Z.of_nat 1 * 32)) with 32. change (wrap64 (Z.of_nat 1 * 32 + 32)) with 64.
  rewrite (proj2 (Z.leb_gt 64 _)) by lia. done.
Qed.

(** ** A concrete publisher *)

#[local] Existing Instance toy_crypto.
#[local] Existing Instance toy_laws.
#[local] Existing Instance toy_sqlite.
#[local] Existing Instance toy_sqlite_laws.
#[local] Existing Instance toy_order.
#[local] Existing Instance toy_msgpack.

Definition toy_publisher : LocalPeer :=
  mkLP (set_PostCount 0 (toy_at "a" [])) (raw_address (replicate 20 "a"%char)) toy_sk toy_three toy_empty NewCollection ∅
    None ∅ None 1500000001 [] [] true [].

Lemma toy_publisher_consistent : consistent toy_publisher.
Proof.
  split; try done; [split; [done|constructor]|].
  unfold g_wf, g_cap. cbn. lia.
Qed.

Lemma toy_publisher_saves : can_save toy_publisher (lp_Entry toy_publisher).
Proof.
  split; [split|].
  - exact (toy_inv _ toy_three_reachable).
  - vm_compute. reflexivity.
  - reflexivity.
  - vm_compute. reflexivity.
  - vm_compute. reflexivity.
  - unfold entry_sizes. split_and!; first [by vm_compute | apply Nat.leb_le; by vm_compute | apply Z.leb_le; by vm_compute].
  - left. vm_compute. reflexivity.
  - vm_compute. reflexivity.
  - reflexivity.
  - vm_compute. discriminate.
Qed.

Definition toy_news : list Post := [toy_post "abc" "first" 10; toy_post "def" "second" 30; toy_post "ghi" "third" 20].

Lemma AddPost_publishes_witness :
  exists lp', add_posts (fun _ => 0%nat) toy_news toy_publisher = (lp', Ok tt) /\
    rows (lp_Database lp') = rows toy_posts /\
    PostCount (lp_Entry lp') = Z.of_nat (length (rows (lp_Database lp'))) /\
    CollectionHash (lp_Entry lp') = sha3_Sum256 (hash_list (rows (lp_Database lp'))) /\
    g_contents (HashList (lp_Collection lp')) = hash_list (rows (lp_Database lp')) /\
    lp_collection_file lp' = Some (hash_list (rows (lp_Database lp'))) /\
    lp_entry_file lp' = Some (lp_Entry lp') /\ Entry_Verify (Some (lp_Entry lp')) = Ok tt.
Proof.
  apply (AddPost_publishes (fun _ => 0%nat) toy_news toy_publisher toy_publisher_consistent toy_publisher_saves).
  - by repeat constructor.
  - by apply (bool_decide_unpack _).
  - cbn. unfold PieceSize. lia.
  - discriminate.
Defined.

(** A publisher with 999 posts. *)
Definition toy_999 : PostDb :=
  mkPostDb (map (fun i => mkPost (Z.of_nat i) (Itoa (Z.of_nat i)) "t" 1 1 0 0 0 "" "") (seq 1 999)) [] 0 [].
Definition toy_full : LocalPeer :=
  set_Collection (mkCollection (g_make (hash_list (rows toy_999)) 0) []) None
    (set_Database toy_999 (set_Entry (set_PostCount 999 (lp_Entry toy_publisher)) toy_publisher)).

Lemma toy_999_wf : pdb_wf toy_999.
Proof.
  split; [vm_compute; reflexivity|].
  unfold toy_999. cbn [rows]. rewrite map_map. cbn [InfoHash].
  apply NoDup_fmap_2_strong; [|apply NoDup_seq].
  intros x y Hx Hy E. apply elem_of_seq in Hx, Hy. apply (f_equal Atoi) in E.
  rewrite !Atoi_Itoa in E by lia. injection E as E. lia.
Qed.

Lemma toy_full_consistent : consistent toy_full.
Proof.
  split.
  - exact toy_999_wf.
  - done.
  - apply List.Forall_forall. intros p Hp. apply list_elem_of_In in Hp.
    assert (forallb (fun p => bool_decide (col_text (InfoHash p) = InfoHash p)) (rows toy_999) = true) as Hb by (by vm_compute).
    rewrite forallb_forall in Hb. apply list_elem_of_In in Hp. specialize (Hb p Hp). apply bool_decide_eq_true in Hb.
    unfold toy_999 in Hp. apply in_map_iff in Hp as (i & <- & _). unfold post_row. cbn [InfoHash] in *.
    rewrite Hb. done.
  - vm_compute. reflexivity.
  - apply g_make_wf.
  - apply g_contents_make.
Qed.

Lemma AddPost_thousandth_witness : (LocalPeer_AddPost (fun _ => 0%nat) (toy_post "abc" "first" 10) toy_full).2 = Panic.
Proof.
  apply (AddPost_thousandth (fun _ => 0%nat) toy_full (toy_post "abc" "first" 10) toy_full_consistent).
  - reflexivity.
  - assert (bool_decide (col_text "abc" ∈ map InfoHash (rows toy_999)) = false) as Hb by (by vm_compute).
    by apply bool_decide_eq_false in Hb.
  - vm_compute. reflexivity.
  - apply Nat.ltb_lt. vm_compute. reflexivity.
Defined.
