(* ===== verification/MirrorNet.v ===== *)
(** Two nodes on one connection: the network of the mirroring node is the other node,
    which serves every message with its own handlers. Mirroring a publisher copies its
    database and registers the mirror as a seed. *)

From stdpp Require Import sorting.
From S2P Require Import Prelude GoLib Base58Check Crypto Address Entry Util Sqlite NetStore NetDB NetTable NetInv NetRun DHT DHTProps.
From S2P Require Import Post PieceStream PostDB PostDBProps DataProps Collection CollectionProps Proto Handshake StreamManager.
From S2P Require Import LocalPeer Client PeerProps Peer MirrorProps PeerManager PeerManagerProps Explore NetMap CommandServer CommandProps Publish.

(** ** The other node as the network *)

Section Wire.
Context {C : Crypto} {D : Sqlite} {O : SqlOrder} {K : Msgpack}.

(** The local peer of the other node, whether its process runs, the open streams with
    what is still to be read from them ([None] before a message was sent) and the id of
    the next one. *)
Record Remote := mkRemote {
  rm_lp : LocalPeer;
  rm_up : bool;
  rm_streams : gmap Z (option (list Message * bytes));
  rm_next : Z;
}.

(** [HandleStream] of the other node on the message of a stream; a panic of a handler
    ends the process. *)
Definition serve_stream (from : Address) (m : Message) (lp : LocalPeer) : LocalPeer * option (list Message * bytes) :=
  let '(lp', o) := HandleStream [m] true (LocalPeer_handler from) (set_written [] [] lp) in
  (lp', match o with Panic => None | _ => Some (lp_written lp', lp_stream lp') end).

Definition remote_write (from : Address) (c : Z) (m : Message) (r : Remote) : Remote * bool :=
  match rm_streams r !! c with
  | Some None =>
      if rm_up r then
        match serve_stream from m (rm_lp r) with
        | (lp', Some out) => (mkRemote lp' true (<[c := Some out]> (rm_streams r)) (rm_next r), true)
        | (lp', None) => (mkRemote lp' false ∅ (rm_next r), true)
        end
      else (r, false)
  | _ => (r, false)
  end.
Definition remote_read (c : Z) (r : Remote) : Remote * option Message :=
  match rm_streams r !! c with
  | Some (Some (m :: ms, b)) => (mkRemote (rm_lp r) (rm_up r) (<[c := Some (ms, b)]> (rm_streams r)) (rm_next r), Some m)
  | _ => (r, None)
  end.
Definition remote_raw (c : Z) (r : Remote) : Remote * bytes :=
  match rm_streams r !! c with
  | Some (Some (ms, b)) => (mkRemote (rm_lp r) (rm_up r) (<[c := Some (ms, [])]> (rm_streams r)) (rm_next r), b)
  | _ => (r, [])
  end.
Definition remote_open (r : Remote) : Remote * option Z :=
  if rm_up r then (mkRemote (rm_lp r) true (<[rm_next r := None]> (rm_streams r)) (rm_next r + 1), Some (rm_next r))
  else (r, None).
Definition remote_close (c : Z) (r : Remote) : Remote := mkRemote (rm_lp r) (rm_up r) (delete c (rm_streams r)) (rm_next r).

(** The connection and its session exist; no other one can be made. *)
Definition remote_network (from : Address) : Network := {|
  net := Remote;
  net_dial _ r := (r, None);
  net_socks _ _ r := (r, None);
  net_write := remote_write from;
  net_read := remote_read;
  net_close := remote_close;
  raw_write _ _ r := (r, false);
  raw_read := remote_raw;
  yamux_Client _ r := (r, None);
  yamux_Server _ r := (r, None);
  session_IsClosed _ r := negb (rm_up r);
  session_Ping _ r := (r, rm_up r);
  session_Open _ := remote_open;
  session_Close _ r := r;
  net_SetDeadline _ r := (r, true);
|}.
End Wire.

(** ** A publisher that serves *)

Section Source.
Context {C : Crypto} {L : CryptoLaws C} {D : Sqlite} {DL : SqliteLaws D} {O : SqlOrder} {K : Msgpack} {KL : MsgpackLaws K}.
Context (from : Address).

(** What is sent as an answer fits into a message, and the format of the pieces can
    carry the posts. *)
Record source (src : LocalPeer) : Prop := {
  so_published : published src;
  so_save : can_save src (lp_Entry src);
  so_room : Z.of_nat (length (Seeds (lp_Entry src))) < MaxEntrySeeds;
  so_writable : lp_writable src = true;
  so_address : Raw (EAddress (lp_Entry src)) = Raw (lp_address src);
  so_fresh : addr_fresh (lp_address src);
  so_verify : Entry_Verify (Some (lp_Entry src)) = Ok tt;
  so_size : Z.of_nat (length (rows (lp_Database src))) < 2 ^ 62;
  so_wire : Forall wire_ok (rows (lp_Database src));
  so_entry : fits (VEntry (lp_Entry src));
  so_list : fits (VHashList (hash_list (rows (lp_Database src))) (Z.of_nat (piece_count (length (rows (lp_Database src))))));
}.

Lemma source_written src w b : source src -> source (set_written w b src).
Proof. by intros [[[]] [[]] ? ? ? ? ? ? ? ? ?]. Qed.

Lemma source_DHT src d : source src -> ndb_inv d -> conn d = conn (lp_DHT src) -> source (set_DHT d src).
Proof.
  intros [Hp [[] Hs] ? ? ? ? ? ? ? ? ?] Hi Hc. split; try done; [by destruct Hp as [[]]|].
  split; [|unfold stored_own; cbn [lp_DHT set_DHT]; by rewrite Hc]. split; try done. cbn [lp_DHT set_DHT]. by rewrite Hc.
Qed.

Lemma own_address src a : source src -> Raw a = Raw (lp_address src) -> Address_Equals a (lp_address src) = true.
Proof. intros _ E. unfold Address_Equals. rewrite E. by apply bool_decide_true. Qed.

Definition entry_message (src : LocalPeer) : Message := Message_Write (VEntry (lp_Entry src)) (bare ProtoDhtQuery).

Lemma serve_Query src a : source src -> Raw a = Raw (lp_address src) -> fits (VAddress a) ->
  serve_stream from (Message_Write (VAddress a) (bare ProtoDhtQuery)) src =
  (set_written [entry_message src] [] src, Some ([entry_message src], [])).
Proof.
  intros H Ha Hf. unfold serve_stream, HandleStream, RouteMessage.
  change (route (Header (Message_Write _ _)) _) with (Some (HandleQuery (D := D) (K := K))). cbv iota.
  unfold mbind at 1, M_bind at 1, mbind at 1, M_bind at 1. unfold try, HandleQuery.
  rewrite (run_bind _ _ _ _ _ (read_address_run _ ProtoDhtQuery _ Hf)), run_get.
  cbn [lp_address set_written]. rewrite (own_address src a H Ha).
  unfold LocalPeer.reply. cbn [lp_writable set_written]. rewrite (so_writable _ H). done.
Qed.

Definition list_message (src : LocalPeer) : Message :=
  Message_Write (VHashList (hash_list (rows (lp_Database src))) (Z.of_nat (piece_count (length (rows (lp_Database src))))))
    (bare ProtoHashList).

Lemma DHT_Query_own src a : source src -> Raw a = Raw (lp_address src) -> addr_fresh a ->
  exists e d, DHT_Query a (lp_DHT src) = (d, Ok (Some e)) /\ ndb_inv d /\ conn d = conn (lp_DHT src).
Proof.
  intros H Ha Hfr. pose proof (so_save _ H) as [Hc Hs]. unfold stored_own in Hs.
  assert (addr_str (EAddress (lp_Entry src)) = addr_str a) as Et.
  { rewrite (addr_str_fresh a Hfr), (addr_str_fresh _ (cs_fresh _ _ Hc)). by rewrite (so_address _ H), Ha. }
  rewrite Et in Hs. destruct (find_address (addr_str a) (conn (lp_DHT src))) as [r|] eqn:Er; [|done].
  destruct (Query_present (lp_DHT src) a r (cs_inv _ _ Hc) (cs_healthy _ _ Hc) Er) as (e & d & i & E & _ & _ & _ & _ & _ & _ & _ & Ec & _ & Hi).
  exists e, d. split_and!; try done. unfold DHT_Query. by rewrite (run_bind _ _ _ _ _ E).
Qed.

Lemma serve_HashList src a : source src -> Raw a = Raw (lp_address src) -> addr_fresh a -> fits (VAddress a) ->
  exists d, serve_stream from (Message_Write (VAddress a) (bare ProtoRequestHashList)) src =
    (set_written [list_message src] [] (set_DHT d src), Some ([list_message src], [])) /\ source (set_DHT d src).
Proof.
  intros H Ha Hfr Hf. destruct (DHT_Query_own src a H Ha Hfr) as (e & d & E & Hi & Hc).
  exists d. split; [|by apply source_DHT]. unfold serve_stream, HandleStream, RouteMessage.
  change (route (Header (Message_Write _ _)) _) with (Some (HandleHashList (D := D) (K := K))). cbv iota.
  unfold mbind at 1, M_bind at 1, mbind at 1, M_bind at 1. unfold try at 1, HandleHashList.
  rewrite (run_bind _ _ _ _ _ (read_address_run _ ProtoRequestHashList _ Hf)).
  erewrite run_try by (apply on_DHT_run; cbn [lp_DHT set_written]; exact E). rewrite run_ret, run_get.
  cbn [lp_address set_written set_DHT]. rewrite (own_address src a H Ha), run_ret.
  cbn [lp_Collection set_written set_DHT]. rewrite (co_list _ (proj1 (so_published _ H))), length_hash_list.
  rewrite reply_run by apply H. unfold list_message.
  by rewrite Nat2Z.inj_mul, Z.mul_comm, Z.div_mul by done.
Qed.

Definition piece_request (a : string) (src : LocalPeer) : MessageRequestPiece :=
  mkRequestPiece a 0 (Z.of_nat (piece_count (length (rows (lp_Database src))))).

Lemma serve_Piece src a : source src -> Raw a = Raw (lp_address src) -> addr_fresh a ->
  (0 < length (rows (lp_Database src)))%nat -> fits (VPiece (piece_request (addr_str a) src)) ->
  serve_stream from (Message_Write (VPiece (piece_request (addr_str a) src)) (bare ProtoRequestPiece)) src =
  (set_written [] (HandlePiece_write (rows (lp_Database src))) src, Some ([], HandlePiece_write (rows (lp_Database src)))).
Proof.
  intros H Ha Hfr Hpos Hf. unfold serve_stream, HandleStream, RouteMessage.
  change (route (Header (Message_Write _ _)) _) with (Some (HandlePiece (K := K))). cbv iota.
  unfold mbind at 1, M_bind at 1, mbind at 1, M_bind at 1. unfold try at 1, HandlePiece.
  rewrite (run_lift _ _ _ _ (read_fits (VPiece (piece_request (addr_str a) src)) ProtoRequestPiece Hf)), run_get.
  cbn [RP_Address piece_request lp_address set_written RP_Id RP_Length].
  rewrite (addr_str_fresh a Hfr), (addr_str_fresh _ (so_fresh _ H)), Ha, bool_decide_true by done.
  destruct (proj1 (so_published _ H)) as [Hd Hh _ _ _ _].
  destruct (piece_count_bounds _ Hpos) as (l & El & Hl). pose proof (so_size _ H).
  erewrite run_bind by (apply on_Database_run; cbn [lp_Database set_written];
    apply QueryPiecePosts_run; [done|done|lia|unfold PieceSize in Hl; lia|rewrite El; unfold PieceSize in Hl; lia]).
  unfold modify. cbn [lp_writable set_written set_Database]. rewrite (so_writable _ H).
  by destruct src.
Qed.

(** The own entry with a seed more, unless it is there. *)
Definition with_seed (e : Entry) : Entry :=
  if forallb (fun i => negb (Address_Equals from (raw_address i))) (Seeds e)
  then set_Seeds (Seeds e ++ [Raw from]) e else e.

Lemma with_seed_in e : Raw from ∈ Seeds (with_seed e).
Proof.
  unfold with_seed. destruct (forallb _ (Seeds e)) eqn:E; [cbn; set_solver|].
  apply not_true_iff_false in E. rewrite forallb_forall in E.
  destruct (decide (Raw from ∈ Seeds e)) as [|Hn]; [done|]. destruct E. intros i Hi. apply negb_true_iff.
  unfold Address_Equals. apply bool_decide_false. cbn. intros Eq. apply Hn. rewrite Eq. by apply list_elem_of_In.
Qed.

Lemma can_save_seed src w b : source src ->
  let lp := set_Entry (with_seed (lp_Entry src)) (set_written w b src) in can_save lp (lp_Entry lp).
Proof.
  intros H. cbv zeta. cbn [lp_Entry set_Entry]. unfold with_seed. pose proof (so_room _ H) as Hr.
  destruct (so_save _ H) as [[? ? ? ? ? (? & ? & ? & ? & ?) ? ? ?] ?].
  destruct (forallb _ _); (split; [|done]); split; try done.
  unfold entry_sizes. cbn [EAddress Name Desc Seeds PublicAddress Port set_Seeds]. rewrite length_app. cbn [length].
  unfold MaxEntrySeeds in Hr. split_and!; try apply H; try lia; apply (so_save _ H).
Qed.

Lemma serve_AddPeer src a : source src -> Raw a = Raw (lp_address src) -> fits (VAddress a) ->
  exists src', serve_stream from (Message_Write (VAddress a) (bare ProtoRequestAddPeer)) src = (src', Some ([bare ProtoOk], [])) /\
    Raw from ∈ Seeds (lp_Entry src') /\ Entry_Verify (Some (lp_Entry src')) = Ok tt /\ lp_Database src' = lp_Database src.
Proof.
  intros H Ha Hf. set (lp1 := set_Entry (with_seed (lp_Entry src)) (set_written [] [] src)).
  destruct (SaveEntry_run lp1 (can_save_seed src [] [] H)) as (d & id & E & Hv & _). cbv zeta in *.
  exists (set_written [bare ProtoOk] [] (set_entry_file (Some (signed_by lp1 (lp_Entry lp1))) (set_DHT d
    (set_Entry (signed_by lp1 (lp_Entry lp1)) lp1)))). split_and!; [|apply with_seed_in|done|done].
  unfold serve_stream, HandleStream, RouteMessage.
  change (route (Header (Message_Write _ _)) _) with (Some (HandleAddPeer (D := D) (K := K) from)). cbv iota.
  unfold mbind at 1, M_bind at 1, mbind at 1, M_bind at 1. unfold try at 1, HandleAddPeer.
  rewrite (run_bind _ _ _ _ _ (read_address_run _ ProtoRequestAddPeer _ Hf)), run_get.
  cbn [lp_address set_written]. rewrite (own_address src a H Ha).
  assert ((_ ← (if forallb (fun i => negb (Address_Equals from (raw_address i))) (Seeds (lp_Entry (set_written [] [] src)))
    then modify (set_Entry (set_Seeds (Seeds (lp_Entry (set_written [] [] src)) ++ [Raw from]) (lp_Entry (set_written [] [] src))))
    else mret tt); LocalPeer_SaveEntry) (set_written [] [] src) = LocalPeer_SaveEntry lp1) as Es.
  { unfold lp1, with_seed. cbn [lp_Entry set_written]. destruct (forallb _ _); [by rewrite run_modify|]. rewrite run_ret.
    by destruct src. }
  rewrite E in Es. rewrite (run_bind _ _ _ _ _ Es), reply_run by apply H. done.
Qed.
End Source.

(** ** Pieces that pass *)

Lemma slice_flat_map {A} (f : nat -> list A) t n : (forall i, length (f i) = 32)%nat ->
  forall k i, (i < n)%nat -> take 32 (drop (32 * i) (flat_map f (seq k n) ++ t)) = f (k + i)%nat.
Proof.
  intros Hf. induction n as [|n IH]; intros k i Hi; [lia|]. cbn [seq flat_map]. rewrite <-(assoc_L (++)).
  destruct i as [|i].
  - rewrite Nat.mul_0_r, drop_0, Nat.add_0_r, take_app_le, take_ge by (rewrite Hf; lia). done.
  - rewrite drop_app_ge by (rewrite Hf; lia). rewrite Hf. replace (32 * S i - 32)%nat with (32 * i)%nat by lia.
    rewrite IH by lia. f_equal. lia.
Qed.

Section Pieces.
Context {C : Crypto} {L : CryptoLaws C}.

Definition received_pieces (posts : list Post) : list Piece :=
  map (fun i => received_piece (chunk posts i)) (seq 0 (piece_count (length posts))).

(** The pieces of the owner pass the comparison with the owner's hash list. *)
Lemma mirror_loop_accepts posts spare n : forall k, (k + n = piece_count (length posts))%nat ->
  let pieces := map (fun i => received_piece (chunk posts i)) (seq k n) in
  mirror_loop pieces (Z.of_nat k) (g_make (hash_list posts) spare) = Ok (pieces, None).
Proof.
  induction n as [|n IH]; intros k Hk; [done|]. cbn [seq map mirror_loop].
  change (Piece_Hash (received_piece (chunk posts k))) with (Ok (piece_hash posts k)). cbn [mbind outcome_bind].
  rewrite (proj2 (Z.leb_le _ _)).
  2: { unfold g_cap, g_make. cbn [g_array]. rewrite length_app, length_hash_list. lia. }
  replace (Z.to_nat (32 * Z.of_nat k)) with (32 * k)%nat by lia.
  rewrite (bool_decide_true (take 32 _ = _)).
  2: { apply (slice_flat_map (piece_hash posts) _ _ (fun i => sha3_length _) 0 k). lia. }
  replace (Z.of_nat k + 1) with (Z.of_nat (S k)) by lia. by rewrite (IH (S k)) by lia.
Qed.

Lemma Client_Pieces_all posts : Forall wire_ok posts -> (0 < length posts)%nat ->
  Client_Pieces (HandlePiece_write posts) (Z.of_nat (piece_count (length posts))) = received_pieces posts.
Proof.
  intros Hw Hpos. destruct (piece_count_bounds (length posts) Hpos) as (l & El & Hl).
  unfold Client_Pieces, NewErrorReader, received_pieces. rewrite Nat2Z.id, El. apply pieces_loop_all; [done|lia].
Qed.

Lemma received_pieces_posts posts : (0 < length posts)%nat -> flat_map Posts (received_pieces posts) = posts.
Proof.
  intros Hpos. destruct (piece_count_bounds (length posts) Hpos) as (l & El & Hl). unfold received_pieces.
  rewrite flat_map_concat_map, map_map, <-flat_map_concat_map. cbn [received_piece Posts].
  unfold chunk. rewrite flat_map_pages. apply take_ge. rewrite El. lia.
Qed.
End Pieces.

(** Posts that are stored already are skipped. *)
Lemma insert_rows_known {D : Sqlite} (l : list Post) : forall d,
  Forall (fun p => col_text (InfoHash p) ∈ map InfoHash (rows d)) l -> insert_rows l d = d.
Proof.
  induction l as [|p l IH]; intros d Hl; [done|]. apply Forall_cons_1 in Hl as [Hp Hl].
  cbn [insert_rows fold_left]. unfold insert_row. rewrite bool_decide_true by done. by apply IH.
Qed.

(** A database that holds the first posts of another one is completed by all of them. *)
Lemma insert_rows_complete {D : Sqlite} d d0 k : pdb_wf d -> Forall (fun p => p = post_row (Id p) p) (rows d) ->
  rows d = rows d0 ++ k -> rows (insert_rows (rows d) d0) = rows d.
Proof.
  intros Hd Hst Hk. rewrite Hk at 1. unfold insert_rows. rewrite fold_left_app.
  fold (insert_rows (rows d0) d0). rewrite insert_rows_known.
  - by apply (insert_rows_replay d Hd Hst k (rows d0)).
  - rewrite Hk in Hst. apply Forall_app in Hst as [Hst _]. rewrite List.Forall_forall in Hst |- *. intros p Hp.
    specialize (Hst p Hp). apply list_elem_of_In, in_map_iff. exists p. split; [|done]. by rewrite Hst at 1.
Qed.

(** ** The mirroring node *)

Section Node.
Context {C : Crypto} {D : Sqlite} {O : SqlOrder} {K : Msgpack} (from : Address).
#[local] Instance remote_net : Network := remote_network from.

(** The peer [p] of the node is the remote one, with a session and under management. *)
Record linked (p : nat) (x : Peer) (src : LocalPeer) (s : Node) : Prop := {
  li_peer : nd_heap s !! p = Some x;
  li_session : is_Some (SM_GetSession (p_streams x));
  li_managed : p_managed x = true;
  li_up : rm_up (nd_net s) = true;
  li_remote : rm_lp (nd_net s) = src;
}.

Lemma Ping_run p x src s : linked p x src s -> Peer_Ping p s = (s, Ok tt).
Proof.
  intros H. unfold Peer_Ping. rewrite (run_bind _ _ _ _ _ (deref_run p x s (li_peer _ _ _ _ H))).
  destruct (li_session _ _ _ _ H) as [z ->]. rewrite run_get. cbn [session_IsClosed remote_net remote_network].
  rewrite (li_up _ _ _ _ H). unfold nd_talk, zoom, net_ok. cbn [negb session_Ping remote_net remote_network].
  rewrite (li_up _ _ _ _ H). by destruct s.
Qed.

Lemma OpenStream_run p x src s : linked p x src s ->
  exists s' c, Peer_OpenStream p s = (s', Ok c) /\ linked p x src s' /\ nd_lp s' = nd_lp s /\
    rm_streams (nd_net s') !! c = Some None.
Proof.
  intros H. unfold Peer_OpenStream. rewrite (run_bind _ _ _ _ _ (Ping_run p x src s H)).
  unfold Peer_UpdateSeen, seen_now, now. pose proof (li_peer _ _ _ _ H) as Hp.
  erewrite run_bind.
  2: { rewrite (run_bind _ _ _ _ _ (deref_run p x s Hp)), (li_managed _ _ _ _ H). reflexivity. }
  set (s1 := set_pm _ _). assert (nd_heap s1 !! p = Some x) as Hp1 by done.
  unfold on_streams. rewrite (run_bind _ _ _ _ _ (deref_run p x s1 Hp1)), run_get.
  destruct (SM_OpenStream (p_streams x, nd_net s1)) as [[sm n] o] eqn:Eo.
  unfold SM_OpenStream in Eo. rewrite run_get in Eo. cbn [fst] in Eo. destruct (li_session _ _ _ _ H) as [z Ez]. rewrite Ez in Eo.
  change (nd_net s1) with (nd_net s) in Eo.
  unfold on_net, zoom, net_call, net_ok, mbind, M_bind in Eo. cbn [session_Open net_SetDeadline remote_net remote_network snd fst] in Eo.
  unfold remote_open in Eo. rewrite (li_up _ _ _ _ H) in Eo. cbn in Eo. injection Eo as <- <- <-.
  rewrite run_modify. unfold lift. eexists _, _. split; [reflexivity|].
  cbn [nd_heap nd_net nd_lp set_net set_heap rm_streams]. split; [|split; [done|apply lookup_insert_eq]].
  split; cbn [nd_heap nd_net set_net set_heap rm_up rm_lp]; try apply H; [|done].
  rewrite list_lookup_insert_eq by (by eapply lookup_lt_Some). by destruct x.
Qed.

(** Changes of the network that leave the remote node as it is. *)
Lemma linked_close p x src s c : linked p x src s -> linked p x src (set_net (net_close c (nd_net s)) s).
Proof. intros []. by split. Qed.

Lemma closing_run {A} c (body : M Node A) s s' o : body s = (s', o) -> o <> Panic ->
  closing c body s = (set_net (net_close c (nd_net s')) s', o).
Proof. intros E Ho. unfold closing, mbind, M_bind, try. rewrite E. by destruct o. Qed.

(** The process writes [m] and, when it reads [msg], ends with [o]. *)
Definition asks {A} (proc : Proc A) (m msg : Message) (o : outcome A) : Prop :=
  exists k g, proc = Send m k /\ k true = Recv g /\ g (Some msg) = Ret o.

Lemma converse_one {A} c (proc : Proc A) m msg msgs raw o r lp' :
  asks proc m msg o -> rm_streams r !! c = Some None -> rm_up r = true ->
  serve_stream from m (rm_lp r) = (lp', Some (msg :: msgs, raw)) ->
  exists r', converse c proc r = (r', o) /\ rm_up r' = true /\ rm_lp r' = lp'.
Proof.
  intros (k & g & -> & Hk & Hg) Hc Hu Hs. cbn [converse net_write remote_net remote_network]. unfold remote_write.
  rewrite Hc, Hu, Hs, Hk. cbn [converse net_read remote_net remote_network]. unfold remote_read.
  cbn [rm_streams rm_lp rm_up rm_next]. rewrite lookup_insert_eq, Hg. eexists. split; [reflexivity|]. done.
Qed.

Lemma talk_one {A} p x src s c (proc : Proc A) m msg msgs raw o src' :
  asks proc m msg o -> linked p x src s -> rm_streams (nd_net s) !! c = Some None ->
  serve_stream from m src = (src', Some (msg :: msgs, raw)) ->
  exists s', nd_talk (converse c proc) s = (s', o) /\ linked p x src' s' /\ nd_lp s' = nd_lp s.
Proof.
  intros Hp H Hc Hs. destruct (converse_one c proc m msg msgs raw o (nd_net s) src') as (r' & E & Hu & Hl); try done;
    [apply H|by rewrite (li_remote _ _ _ _ H)|].
  exists (set_net r' s). unfold nd_talk, zoom. rewrite E. split; [done|]. split; [|done]. destruct H. by split.
Qed.

Lemma request_run {A} p x src s (proc : Proc A) m msg msgs raw o src' :
  asks proc m msg o -> o <> Panic -> linked p x src s -> serve_stream from m src = (src', Some (msg :: msgs, raw)) ->
  exists s', request p proc s = (s', o) /\ linked p x src' s' /\ nd_lp s' = nd_lp s.
Proof.
  intros Hp Ho H Hs. unfold request. rewrite (run_bind _ _ _ _ _ (Ping_run p x src s H)).
  destruct (OpenStream_run p x src s H) as (s1 & c & E1 & H1 & L1 & Hc). rewrite (run_bind _ _ _ _ _ E1).
  destruct (talk_one p x src s1 c proc m msg msgs raw o src') as (s2 & E2 & H2 & L2); try done.
  erewrite closing_run by done. eexists. split; [reflexivity|]. split; [by apply linked_close|]. cbn. by rewrite L2.
Qed.
End Node.

(** ** What the mirror keeps *)

Section Holds.
Context {C : Crypto} {L : CryptoLaws C} {D : Sqlite} {DL : SqliteLaws D} {O : SqlOrder} {K : Msgpack}.

(** The node can sign and look up, and has the database [d] registered as [db]. *)
Record holds (db : string) (d : PostDb) (files : gmap string bytes) (lp : LocalPeer) : Prop := {
  ho_inv : ndb_inv (lp_DHT lp);
  ho_key : length (lp_privateKey lp) = PrivateKeySize;
  ho_public : length (PublicKey (lp_Entry lp)) = PublicKeySize;
  ho_fresh : addr_fresh (EAddress (lp_Entry lp));
  ho_db : lp_Databases lp !! db = Some d;
  ho_files : lp_collection_files lp = files;
  ho_faults : lp_file_faults lp = [];
}.

Lemma Verify_no_panic e : length (PublicKey e) = PublicKeySize -> Entry_Verify (Some e) <> Panic.
Proof.
  intros Hk. unfold Entry_Verify, ed25519_Verify. rewrite Hk. cbn [Nat.ltb Nat.leb Nat.eqb PublicKeySize negb].
  repeat case_match; try done; cbn [mbind outcome_bind]; repeat case_match; done.
Qed.

Context (db : string) (d : PostDb) (files : gmap string bytes).

Lemma holds_DHT {A} (m : M NetDB A) : keeps ndb_inv m -> keeps (holds db d files) (on_DHT m).
Proof. intros Hm. eapply spec_zoom; [exact Hm|by intros s []|]. intros s t [] Ht. by split. Qed.

Lemma holds_Query a : keeps (holds db d files) (on_DHT (DHT_Query a)).
Proof. apply holds_DHT. unfold DHT_Query. apply keeps_bind; [apply keeps_Query|]. intros; apply keeps_ret. Qed.

Lemma holds_AddEntry e : length (PublicKey e) = PublicKeySize -> addr_fresh (EAddress e) ->
  keeps (holds db d files) (LocalPeer_AddEntry e).
Proof.
  intros Hk Hf. unfold LocalPeer_AddEntry. apply keeps_bind.
  - apply holds_DHT, keeps_Insert; [by apply Verify_no_panic|done].
  - intros [n [x|]]; [apply keeps_fail|apply keeps_ret].
Qed.

Lemma holds_SignEntry : keeps (holds db d files) LocalPeer_SignEntry.
Proof.
  intros lp H. unfold LocalPeer_SignEntry. rewrite run_get. unfold SignEntry, ed25519_Sign.
  rewrite (ho_key _ _ _ _ H). cbn. split; [|done]. destruct H. by split.
Qed.

Lemma holds_SaveEntry : keeps (holds db d files) LocalPeer_SaveEntry.
Proof.
  unfold LocalPeer_SaveEntry. apply keeps_bind; [apply holds_SignEntry|]. intros _. eapply spec_bind; [apply spec_get|].
  intros lp H. apply keeps_bind.
  - apply holds_DHT, keeps_Insert; [apply Verify_no_panic|]; apply H.
  - intros [n [x|]]; [apply keeps_fail|]. intros s Hs. cbn [snd]. rewrite run_WriteFile by apply Hs.
    split; [|done]. destruct Hs. by split.
Qed.

Lemma holds_AddSeeding e : length (PublicKey e) = PublicKeySize -> addr_fresh (EAddress e) ->
  keeps (holds db d files) (LocalPeer_AddSeeding e).
Proof.
  intros Hk Hf. unfold LocalPeer_AddSeeding. eapply spec_bind; [apply spec_get|]. intros lp H. apply keeps_bind.
  { apply keeps_modify. intros s []. destruct H. by split. }
  intros _. apply keeps_bind; [apply holds_SignEntry|]. intros _. apply keeps_bind; [by apply holds_AddEntry|].
  intros _. apply holds_SaveEntry.
Qed.

Lemma holds_QueryEntry a : keeps (holds db d files) (LocalPeer_QueryEntry a).
Proof.
  unfold LocalPeer_QueryEntry. apply keeps_bind; [by eapply spec_keeps, spec_get|]. intros lp. case_match; [apply keeps_ret|].
  apply keeps_bind; [apply holds_Query|]. intros [e|]; [apply keeps_ret|apply keeps_fail].
Qed.
End Holds.

(** ** Mirroring the other node *)

Section Mirroring.
Context {C : Crypto} {L : CryptoLaws C} {D : Sqlite} {DL : SqliteLaws D} {O : SqlOrder} {K : Msgpack} {KL : MsgpackLaws K}.
Context (from : Address).
#[local] Existing Instance remote_net.

Definition mirrors (p : nat) (x : Peer) (src : LocalPeer) (db : string) (d : PostDb) (files : gmap string bytes)
  (s : @Node K (remote_net from)) : Prop := linked from p x src s /\ holds db d files (nd_lp s).

Lemma mirrors_lp {A} p x src db d files (m : M LocalPeer A) :
  keeps (holds db d files) m -> keeps (mirrors p x src db d files) (on_lp m).
Proof. intros Hm. eapply spec_zoom; [exact Hm|by intros s []|]. intros s lp [[] _] Hh. by split; [split|]. Qed.

Lemma keeps_try_run {S A} (P : S -> Prop) (m : M S A) s : keeps P m -> P s -> exists s' r, try m s = (s', Ok r) /\ P s'.
Proof.
  intros Hm Hs. destruct (keeps_try P m Hm s Hs) as [H1 H2]. unfold try in *. destruct (m s) as [s' [a|e|]]; eauto. done.
Qed.

(** What serving a request leaves of the source. *)
Definition still (src src' : LocalPeer) : Prop :=
  source src' /\ lp_Entry src' = lp_Entry src /\ lp_Database src' = lp_Database src /\ lp_address src' = lp_address src.

Lemma still_written src src' w b : still src src' -> still src (set_written w b src').
Proof. intros (H1 & H2 & H3 & H4). split; [by apply source_written|done]. Qed.

(** The requests on the answers of the source. *)
Lemma asks_Query src a : source src ->
  asks (Client_Query a) (Message_Write (VAddress a) (bare ProtoDhtQuery)) (entry_message src) (Ok (lp_Entry src)).
Proof.
  intros H. eexists _, _. split; [reflexivity|]. split; [reflexivity|]. cbn [Proc_bind].
  change (bool_decide (Header (entry_message src) = ProtoNo)) with false. cbv iota.
  rewrite (read_fits (VEntry (lp_Entry src)) ProtoDhtQuery (so_entry _ H) : Message_Read KEntry (entry_message src) = _).
  rewrite lift_out_bind, (so_verify _ H). done.
Qed.

Lemma asks_Collection src spare a : source src ->
  asks (Client_Collection spare a (lp_Entry src)) (Message_Write (VAddress a) (bare ProtoRequestHashList)) (list_message src)
    (Ok (mkMessageCollection (g_make (hash_list (rows (lp_Database src))) spare)
      (Z.of_nat (piece_count (length (rows (lp_Database src))))))).
Proof.
  intros H. eexists _, _. split; [reflexivity|]. split; [reflexivity|]. cbn [Proc_bind].
  rewrite (read_fits _ ProtoHashList (so_list _ H) : Message_Read KHashList (list_message src) = _), lift_out_bind. cbv iota zeta.
  rewrite Verify_run. unfold g_make, g_cap. cbn [g_array]. rewrite length_app, length_hash_list.
  rewrite (proj2 (Nat.leb_le _ _)) by lia. rewrite take_app_le, take_ge by (rewrite length_hash_list; lia).
  rewrite bool_decide_true by (symmetry; apply (so_published _ H)). done.
Qed.

Lemma asks_AddPeer a :
  asks (Client_RequestAddPeer a) (Message_Write (VAddress a) (bare ProtoRequestAddPeer)) (bare ProtoOk) (Ok tt).
Proof. by eexists _, _. Qed.

Lemma mirror_entry_run p x src s : linked from p x src s -> source src -> p_seed x = false ->
  Raw (p_address x) = Raw (lp_address src) -> fits (VAddress (p_address x)) ->
  exists s' src', mirror_entry p s = (s', Ok (lp_Entry src)) /\
    linked from p (set_entry (Some (lp_Entry src)) x) src' s' /\ nd_lp s' = nd_lp s /\ still src src'.
Proof.
  intros H Hsrc Hseed Ha Hf. pose proof (deref_run p x s (li_peer _ _ _ _ _ H)) as Ed.
  destruct (request_run from p x src s _ _ _ _ _ _ _ (asks_Query src (p_address x) Hsrc) ltac:(done) H
    (serve_Query from src (p_address x) Hsrc Ha Hf)) as (s1 & E1 & H1 & L1).
  pose proof (deref_run p x s1 (li_peer _ _ _ _ _ H1)) as Ed1.
  set (x' := set_entry (Some (lp_Entry src)) x). set (s2 := set_heap (<[p := x']> (nd_heap s1)) s1).
  assert (linked from p x' (set_written [entry_message src] [] src) s2) as H2.
  { split; try apply H1. cbn [nd_heap s2 set_heap]. rewrite list_lookup_insert_eq; [done|]. eapply lookup_lt_Some, H1. }
  exists s2, (set_written [entry_message src] [] src). split; [|split_and!; [done|done|by apply still_written]].
  unfold mirror_entry. rewrite (run_bind _ _ _ _ _ Ed), Hseed.
  assert (Peer_GetEntry p s = (s2, Ok (lp_Entry src))) as Eg.
  { unfold Peer_GetEntry. rewrite (run_bind _ _ _ _ _ (Ping_run from p x src s H)), (run_bind _ _ _ _ _ Ed).
    unfold Peer_Query. erewrite run_bind by (rewrite (run_bind _ _ _ _ _ E1); reflexivity).
    rewrite (run_lift _ _ _ (lp_Entry src) eq_refl), (run_bind _ _ _ _ _ Ed1).
    assert (Address_Equals (EAddress (lp_Entry src)) (p_address x) = true) as ->; [|done].
    unfold Address_Equals. apply bool_decide_true. by rewrite Ha, (so_address _ Hsrc). }
  rewrite (run_bind _ _ _ _ _ Eg). unfold Peer_Entry. by rewrite (run_bind _ _ _ _ _ (deref_run p x' s2 (li_peer _ _ _ _ _ H2))).
Qed.

(** Asking to be listed: the source lists the mirror, and whatever becomes of the own
    entry, the databases stay. *)
Lemma mirrors_AddSeedManager p x src db d files a : keeps (mirrors p x src db d files) (PM_AddSeedManager a).
Proof.
  unfold PM_AddSeedManager. apply keeps_bind; [by eapply spec_keeps, spec_get|]. intros s. case_bool_decide; [apply keeps_ret|].
  apply keeps_bind; [apply mirrors_lp, holds_QueryEntry|]. intros _. apply keeps_modify. intros s' [[] ?]. by split; [split|].
Qed.

Lemma RequestAddPeer_run p x src db d files s e : mirrors p x src db d files s -> source src ->
  Raw (EAddress e) = Raw (lp_address src) -> fits (VAddress (EAddress e)) ->
  length (PublicKey e) = PublicKeySize -> addr_fresh (EAddress e) ->
  exists s' r src', try (Peer_RequestAddPeer p e) s = (s', Ok r) /\ mirrors p x src' db d files s' /\
    Raw from ∈ Seeds (lp_Entry src') /\ Entry_Verify (Some (lp_Entry src')) = Ok tt /\ lp_Database src' = lp_Database src.
Proof.
  intros [H Hh] Hsrc Ha Hf Hk Hfr. destruct (serve_AddPeer from src (EAddress e) Hsrc Ha Hf) as (src' & Es & Hin & Hv & Hdb).
  destruct (request_run from p x src s _ _ _ _ _ _ _ (asks_AddPeer (EAddress e)) ltac:(done) H Es) as (s1 & E1 & H1 & L1).
  assert (mirrors p x src' db d files s1) as Hm by (split; [done|by rewrite L1]).
  assert (keeps (mirrors p x src' db d files) (_ ← PM_AddSeedManager (EAddress e);
    if existsb (fun i => Address_Equals (raw_address i) (EAddress e)) (Seeds e) then mret tt
    else on_lp (LocalPeer_AddSeeding e))) as Hrest.
  { apply keeps_bind; [apply mirrors_AddSeedManager|]. intros _. case_match; [apply keeps_ret|]. by apply mirrors_lp, holds_AddSeeding. }
  destruct (keeps_try_run _ _ s1 Hrest Hm) as (s2 & r & E2 & H2). exists s2, r, src'. split; [|done].
  rewrite <-E2. unfold try. unfold Peer_RequestAddPeer. rewrite (run_bind _ _ _ _ _ E1).
  by rewrite (run_bind _ _ _ _ _ (deref_run p x s1 (li_peer _ _ _ _ _ H1))), (li_managed _ _ _ _ _ H1).
Qed.

(** The raw bytes of a piece stream. *)
Lemma fetch_pieces_run p x src s c e : linked from p x src s -> source src ->
  rm_streams (nd_net s) !! c = Some None -> (0 < length (rows (lp_Database src)))%nat ->
  Raw (EAddress e) = Raw (lp_address src) -> addr_fresh (EAddress e) ->
  fits (VPiece (piece_request (addr_str (EAddress e)) src)) ->
  let size := Z.of_nat (piece_count (length (rows (lp_Database src)))) in
  exists s' src', fetch_pieces c (EAddress e) 0 size s = (s', Ok (received_pieces (rows (lp_Database src)))) /\
    linked from p x src' s' /\ nd_lp s' = nd_lp s /\ still src src'.
Proof.
  intros H Hsrc Hc Hpos Ha Hfr Hf. cbv zeta. pose proof (serve_Piece from src (EAddress e) Hsrc Ha Hfr Hpos Hf) as Es.
  unfold fetch_pieces, Client_Pieces_request. erewrite run_try.
  2: { unfold nd_talk, zoom. unfold WriteMessage. cbn [converse net_write remote_net remote_network]. unfold remote_write.
    rewrite Hc, (li_up _ _ _ _ _ H), (li_remote _ _ _ _ _ H). fold (piece_request (addr_str (EAddress e)) src).
    rewrite Es. reflexivity. }
  cbv beta iota. erewrite run_bind.
  2: { unfold nd_talk, zoom. cbn [nd_net set_net raw_read remote_net remote_network]. unfold remote_raw.
    cbn [rm_streams rm_lp rm_up rm_next]. rewrite lookup_insert_eq. reflexivity. }
  unfold mret, M_ret. rewrite Client_Pieces_all by (done || apply Hsrc). eexists _, _. split; [reflexivity|].
  split; [|split; [done|]]; [|by apply still_written; split].
  destruct H. by split.
Qed.

Lemma on_mirror_run {A} p x src db d files s (m : M PostDb A) d' o : mirrors p x src db d files s -> m d = (d', o) ->
  exists s', on_mirror db m s = (s', o) /\ mirrors p x src db d' files s'.
Proof.
  intros [H Hh] E. unfold on_mirror. rewrite run_get, (ho_db _ _ _ _ Hh), E.
  unfold on_lp, zoom, modify. eexists. split; [reflexivity|]. destruct H, Hh.
  split; [by split|]. split; try done. cbn. apply lookup_insert_eq.
Qed.

(** The outcome of the whole download. *)
Definition mirrored (src : LocalPeer) (db : string) (files : gmap string bytes) (s : @Node K (remote_net from)) : Prop :=
  exists d', lp_Databases (nd_lp s) !! db = Some d' /\ rows d' = rows (lp_Database src) /\
    lp_collection_files (nd_lp s) = files /\ lp_Database (rm_lp (nd_net s)) = lp_Database src.

Lemma mirror_pieces_run p x src db d files s e spare k : mirrors p x src db d files s -> source src ->
  pdb_wf d -> pdb_healthy d -> (length (rows d) <= PieceSize)%nat -> rows (lp_Database src) = rows d ++ k -> k <> [] ->
  Raw (EAddress e) = Raw (lp_address src) -> length (PublicKey e) = PublicKeySize -> addr_fresh (EAddress e) ->
  fits (VAddress (EAddress e)) -> fits (VPiece (piece_request (addr_str (EAddress e)) src)) ->
  let mcol := mkMessageCollection (g_make (hash_list (rows (lp_Database src))) spare)
    (Z.of_nat (piece_count (length (rows (lp_Database src))))) in
  exists s' o, mirror_pieces db p e mcol (Z.of_nat (length (rows d))) s = (s', o) /\ o <> Panic /\
    mirrored src db files s' /\ Raw from ∈ Seeds (lp_Entry (rm_lp (nd_net s'))).
Proof.
  intros [H Hh] Hsrc Hd Hhd Hn Hk Hne Ha Hpk Hfr Hf1 Hf2 mcol. unfold mirror_pieces.
  assert (0 < length (rows (lp_Database src)))%nat as Hpos by (rewrite Hk, length_app; destruct k; cbn [length]; [done|lia]).
  set (cur := (Z.of_nat (length (rows d)) + Z.of_nat PieceSize - 1) / Z.of_nat PieceSize).
  assert ((if negb (cur =? 0) then cur - 1 else 0) = 0) as ->.
  { assert (0 <= cur < 2) as Hst by (unfold cur, PieceSize in *; split; [apply Z.div_pos|apply Z.div_lt_upper_bound]; lia).
    destruct (Z.eqb_spec cur 0); cbn [negb]; lia. }
  destruct (OpenStream_run from p x src s H) as (s1 & c & E1 & H1 & L1 & Hc). rewrite (run_bind _ _ _ _ _ E1).
  destruct (fetch_pieces_run p x src s1 c e) as (s2 & src2 & E2 & H2 & L2 & Hst2); try done.
  pose proof (mirror_loop_accepts (rows (lp_Database src)) spare (piece_count (length (rows (lp_Database src)))) 0 eq_refl) as El.
  assert (mirrors p x src2 db d files s2) as Hm2 by (split; [done|by rewrite L2, L1]). destruct Hst2 as (Hsrc2 & He2 & Hd2 & Ha2).
  destruct (RequestAddPeer_run p x src2 db d files s2 e) as (s3 & r & src3 & E3 & Hm3 & Hin & Hv & Hd3); try done; [by rewrite Ha2|].
  set (x' := set_seed false None x).
  set (s4 := set_heap (<[p := x']> (nd_heap s3)) s3).
  assert (mirrors p x' src3 db d files s4) as Hm4.
  { destruct Hm3 as [[] ?]. split; [|done]. split; try done. cbn [nd_heap s4 set_heap].
    rewrite list_lookup_insert_eq; [done|]. by eapply lookup_lt_Some. }
  destruct (InsertPieces_run (received_pieces (rows (lp_Database src))) d Hd Hhd) as (d' & Ed & Hr).
  destruct (on_mirror_run p x' src3 db d files s4 _ d' _ Hm4 Ed) as (s5 & E5 & Hm5).
  rewrite (closing_run from c _ s1 s5 (match r with inl _ => Ok tt | inr e => Err e end)); [|clear Hr|by destruct r].
  2: { rewrite (run_bind _ _ _ _ _ E2), (run_lift _ _ _ _ El). cbn [snd fst].
    rewrite (run_bind _ _ _ _ _ E3), (run_bind _ _ _ _ _ (deref_run p x s3 (li_peer _ _ _ _ _ (proj1 Hm3)))).
    unfold store. rewrite run_modify. fold x' s4. fold (received_pieces (rows (lp_Database src))).
    rewrite (run_try _ _ _ _ _ E5). by destruct r. }
  eexists _, _. split; [reflexivity|]. split; [by destruct r|]. destruct Hm5 as [H5 Hh5]. split.
  - assert (rows d' = rows (lp_Database src)) as Hrows.
    { rewrite Hr, received_pieces_posts by done. apply (insert_rows_complete _ _ k); [apply Hsrc..|done]. }
    exists d'. cbn. split_and!; [apply Hh5|done|apply Hh5|by rewrite (li_remote _ _ _ _ _ H5), Hd3].
  - cbn. by rewrite (li_remote _ _ _ _ _ H5).
Qed.

(** A node that is ready to mirror the other one into its database [db]. *)
Record ready (p : nat) (x : Peer) (src : LocalPeer) (db : string) (d : PostDb) (s : @Node K (remote_net from)) : Prop := {
  rd_linked : linked from p x src s;
  rd_seed : p_seed x = false;
  rd_peer : Raw (p_address x) = Raw (lp_address src);
  rd_holds : holds db d (lp_collection_files (nd_lp s)) (nd_lp s);
  rd_wf : pdb_wf d;
  rd_healthy : pdb_healthy d;
  rd_ask : fits (VAddress (p_address x));
  rd_ask_own : fits (VAddress (EAddress (lp_Entry src)));
  rd_ask_piece : fits (VPiece (piece_request (addr_str (EAddress (lp_Entry src))) src));
}.

Lemma holds_files db d files files' lp : holds db d files lp -> holds db d files' (set_collection_files files' lp).
Proof. intros []. by split. Qed.

(** After the collection: the count decides whether pieces are asked for. *)
Lemma mirror_rest_run p x src db d files s spare k : mirrors p x src db d files s -> source src ->
  pdb_wf d -> pdb_healthy d -> (length (rows d) <= PieceSize)%nat -> rows (lp_Database src) = rows d ++ k ->
  fits (VAddress (EAddress (lp_Entry src))) -> fits (VPiece (piece_request (addr_str (EAddress (lp_Entry src))) src)) ->
  let mcol := mkMessageCollection (g_make (hash_list (rows (lp_Database src))) spare)
    (Z.of_nat (piece_count (length (rows (lp_Database src))))) in
  exists s' o, (count ← on_mirror db Database_PostCount;
      if count =? PostCount (lp_Entry src) then mret tt else mirror_pieces db p (lp_Entry src) mcol count) s = (s', o) /\
    o <> Panic /\ mirrored src db files s' /\ (k <> [] -> Raw from ∈ Seeds (lp_Entry (rm_lp (nd_net s')))).
Proof.
  intros Hm Hsrc Hd Hh Hn Hk Hf1 Hf2 mcol.
  destruct (on_mirror_run p x src db d files s _ d _ Hm (PostCount_run d Hd Hh)) as (s1 & E1 & Hm1).
  rewrite (run_bind _ _ _ _ _ E1), (co_count _ (proj1 (so_published _ Hsrc))), Hk, length_app.
  destruct (so_save _ Hsrc) as [Hcs _]. destruct (Z.eqb_spec (Z.of_nat (length (rows d))) (Z.of_nat (length (rows d) + length k))) as [Eq|Ne].
  - destruct k; [|cbn [length] in Eq; lia]. rewrite app_nil_r in Hk. destruct Hm1 as [H1 Hh1].
    eexists _, _. split; [reflexivity|]. split_and!; try done. exists d.
    split_and!; [apply Hh1|done|apply Hh1|by rewrite (li_remote _ _ _ _ _ H1)].
  - destruct (mirror_pieces_run p x src db d files s1 (lp_Entry src) spare k) as (s2 & o & E2 & Ho & Hr & Hin); try done.
    + intros ->. cbn in Ne. lia.
    + apply Hsrc.
    + rewrite (cs_public _ _ Hcs). unfold ed25519_Public. by rewrite length_drop, (cs_key _ _ Hcs).
    + apply Hcs.
    + exists s2, o. done.
Qed.
End Mirroring.

(** C2. Mirroring a publisher over a connection that stays up, both ends running the code:
    when the publisher's entry counts and vouches for its posts and has room for a seed, the
    mirror's database holds the first of them, at most a thousand, no text of a post has the
    separator of the stream in it, the statements of the databases succeed, files can be
    written and the messages are within their size, [Mirror] does not panic and leaves the mirror with the publisher's posts, ids
    included, and with its hash list on disk; the publisher's database is unchanged, and
    if posts were missing the publisher now lists the mirror among its seeds. *)
Theorem Mirror_replicates {C : Crypto} {L : CryptoLaws C} {D : Sqlite} {DL : SqliteLaws D} {O : SqlOrder} {K : Msgpack} {KL : MsgpackLaws K}
    (from : Address) (spare p : nat) (x : Peer) (src : LocalPeer) (db : string) (d : PostDb) (k : list Post) (s : @Node K (remote_net from)) :
  source src -> ready from p x src db d s -> rows (lp_Database src) = rows d ++ k -> (length (rows d) <= PieceSize)%nat ->
  exists s' o, Peer_Mirror spare db p s = (s', o) /\ o <> Panic /\
    (exists d', lp_Databases (nd_lp s') !! db = Some d' /\ rows d' = rows (lp_Database src)) /\
    lp_collection_files (nd_lp s') !! addr_str (EAddress (lp_Entry src)) = Some (hash_list (rows (lp_Database src))) /\
    lp_Database (rm_lp (nd_net s')) = lp_Database src /\
    (k <> [] -> Raw from ∈ Seeds (lp_Entry (rm_lp (nd_net s')))).
Proof.
  intros Hsrc R Hk Hn. destruct R as [H Hseed Hpeer Hh Hd Hhd Hf0 Hf1 Hf2]. unfold Peer_Mirror.
  destruct (so_save _ Hsrc) as [Hcs _]. rewrite (run_bind _ _ _ _ _ (Ping_run from p x src s H)).
  destruct (mirror_entry_run from p x src s H Hsrc Hseed Hpeer Hf0) as (s1 & src1 & E1 & H1 & L1 & (Hs1 & He1 & Hd1 & Ha1)).
  set (x1 := set_entry (Some (lp_Entry src)) x) in *. rewrite (run_bind _ _ _ _ _ E1).
  rewrite (run_bind _ _ _ _ _ (deref_run p x1 s1 (li_peer _ _ _ _ _ H1))), (li_managed _ _ _ _ _ H1). cbn [negb].
  assert (length (PublicKey (lp_Entry src)) = PublicKeySize) as Hpk.
  { rewrite (cs_public _ _ Hcs). unfold ed25519_Public. by rewrite length_drop, (cs_key _ _ Hcs). }
  destruct (keeps_try_run (mirrors from p x1 src1 db d (lp_collection_files (nd_lp s))) _ s1
    (mirrors_lp _ _ _ _ _ _ _ _ (holds_AddEntry db d _ (lp_Entry src) Hpk (cs_fresh _ _ Hcs)))) as (s2 & r2 & E2 & [H2 Hh2]).
  { split; [done|]. by rewrite L1. }
  rewrite (run_bind _ _ _ _ _ E2). destruct (OpenStream_run from p x1 src1 s2 H2) as (s3 & c & E3 & H3 & L3 & Hc).
  rewrite (run_bind _ _ _ _ _ E3). unfold piece_request in Hf2. rewrite <-Hd1, <-He1 in *.
  assert (Raw (EAddress (lp_Entry src1)) = Raw (lp_address src1)) as Hown by apply Hs1.
  destruct (serve_HashList from src1 (EAddress (lp_Entry src1)) Hs1 Hown (cs_fresh _ _ Hcs) Hf1) as (dh & Es & Hs4).
  destruct (talk_one from p x1 src1 s3 c _ _ _ _ _ _ _ (asks_Collection src1 spare (EAddress (lp_Entry src1)) Hs1) H3 Hc Es)
    as (s4 & E4 & H4 & L4).
  set (src5 := set_written [list_message src1] [] (set_DHT dh src1)) in *.
  set (files := <[addr_str (EAddress (lp_Entry src1)) := hash_list (rows (lp_Database src1))]> (lp_collection_files (nd_lp s4))).
  set (s5 := set_lp (set_collection_files files (nd_lp s4)) s4).
  destruct (mirror_rest_run from p x1 src5 db d files s5 spare k) as (s6 & o & E6 & Ho & (d' & Hdb & Hrows & Hfiles & Hsame) & Hin); try done.
  { split; [destruct H4; by split|]. cbn [nd_lp s5 set_lp]. eapply holds_files. rewrite L4, L3. exact Hh2. }
  { by apply source_written. }
  rewrite (closing_run from c _ s3 s6 o); [|rewrite (run_bind _ _ _ _ _ E4)|done].
  2: { cbn [MC_HashList]. rewrite g_contents_make. unfold on_lp at 1, zoom. unfold mbind at 1, M_bind at 1.
    rewrite run_WriteFile by (rewrite L4, L3; apply Hh2). exact E6. }
  eexists _, _. split; [reflexivity|]. cbn [nd_lp nd_net set_net net_close remote_net remote_network remote_close rm_lp].
  split_and!; try done; [by exists d'|]. rewrite Hfiles. apply lookup_insert_eq.
Qed.

(** ** A concrete pair of nodes *)

#[local] Existing Instance toy_crypto.
#[local] Existing Instance toy_laws.
#[local] Existing Instance toy_sqlite.
#[local] Existing Instance toy_sqlite_laws.
#[local] Existing Instance toy_order.
#[local] Existing Instance toy_msgpack.
#[local] Existing Instance toy_msgpack_laws.

Definition toy_source : LocalPeer := (add_posts (fun _ => 0%nat) toy_news toy_publisher).1.
Definition toy_from : Address := raw_address (replicate 20 "b"%char).

(** The mirror has the first post already. *)
Definition toy_first : PostDb := insert_rows (take 1 toy_news) toy_empty.
Definition toy_mirror_lp : LocalPeer :=
  mkLP (toy_at "b" []) toy_from toy_sk toy_three toy_empty NewCollection {["a"%string := toy_first]} None ∅ None 1500000001 [] [] true [].
Definition toy_mirror : @Node toy_msgpack (remote_net toy_from) :=
  @mkNode toy_msgpack (remote_net toy_from) toy_mirror_lp (mkCaps []) [toy_connected "a"] toy_pm
    (mkRemote toy_source true ∅ 0) (fun i => 100 + Z.of_nat i) false.

Lemma toy_source_ok : source toy_source.
Proof.
  destruct (add_posts_run (fun _ => 0%nat) toy_news toy_publisher toy_publisher_consistent toy_publisher_saves)
    as (lp' & E & Hr & Hpub & Hs & Hv & _).
  { by repeat constructor. }
  { by apply (bool_decide_unpack _). }
  { cbn. unfold PieceSize. lia. }
  { discriminate. }
  assert (toy_source = lp') as <- by (unfold toy_source; by rewrite E).
  split; [exact Hpub|exact Hs|vm_compute; reflexivity..|left; vm_compute; reflexivity|exact Hv|vm_compute; reflexivity| | |].
  - rewrite Hr. exact toy_posts_wire.
  - apply toy_fits.
  - apply toy_fits.
Qed.

Lemma toy_mirror_ready : ready toy_from 0 (toy_connected "a") toy_source "a" toy_first toy_mirror.
Proof.
  split; [| | | | | |apply toy_fits..].
  - split; [reflexivity|by eexists|reflexivity..].
  - reflexivity.
  - vm_compute. reflexivity.
  - split; [exact (toy_inv _ toy_three_reachable)|reflexivity|vm_compute; reflexivity|left; vm_compute; reflexivity|reflexivity..].
  - split; [vm_compute; reflexivity|]. by apply (bool_decide_unpack _).
  - reflexivity.
Qed.

Lemma Mirror_replicates_witness :
  exists s' o, Peer_Mirror 3 "a" 0 toy_mirror = (s', o) /\ o <> Panic /\
    (exists d', lp_Databases (nd_lp s') !! "a"%string = Some d' /\ rows d' = rows (lp_Database toy_source)) /\
    lp_collection_files (nd_lp s') !! addr_str (EAddress (lp_Entry toy_source)) = Some (hash_list (rows (lp_Database toy_source))) /\
    lp_Database (rm_lp (nd_net s')) = lp_Database toy_source /\
    (drop 1 (rows (lp_Database toy_source)) <> [] -> Raw toy_from ∈ Seeds (lp_Entry (rm_lp (nd_net s')))).
Proof.
  apply (Mirror_replicates toy_from 3 0 (toy_connected "a") toy_source "a" toy_first (drop 1 (rows (lp_Database toy_source)))
    toy_mirror toy_source_ok toy_mirror_ready).
  - vm_compute. reflexivity.
  - unfold PieceSize. vm_compute. lia.
Defined.
