(* ===== verification/Gossip.v ===== *)
(** Many nodes around one: any nodes announce themselves to a hub over their connections,
    both ends running the code; a node that then resolves one of their addresses gets the
    newest announced entry from the hub, keeps it, and resolves it again alone. *)

From stdpp Require Import sorting.
From S2P Require Import Prelude GoLib Base58Check Crypto Address Entry Util Sqlite NetStore NetDB NetTable NetInv NetRun DHT DHTProps.
From S2P Require Import Post PieceStream PostDB PostDBProps DataProps Collection CollectionProps Proto Handshake StreamManager.
From S2P Require Import LocalPeer Client PeerProps Directory Peer MirrorProps PeerManager PeerManagerProps Explore NetMap CommandServer.
From S2P Require Import CommandProps Publish MirrorNet.

(** ** Reading leaves a healthy database as it is *)

Section Reads.
Context {C : Crypto} {D : Sqlite}.
Context (d : Db) (Hd : healthy d).








End Reads.

(** ** The hub on a stream *)

Section Hub.
Context {C : Crypto} {D : Sqlite} {L : SqliteLaws D} {O : SqlOrder} {K : Msgpack} {KL : MsgpackLaws K}.
Context (from : Address).








End Hub.

(** ** Nodes that announce themselves *)

Section Announce.
Context {C : Crypto} {CL : CryptoLaws C} {D : Sqlite} {L : SqliteLaws D} {O : SqlOrder} {K : Msgpack} {KL : MsgpackLaws K}.
#[local] Existing Instance remote_net.










End Announce.

(** ** A node that resolves *)

Section Resolve.
Context {C : Crypto} {CL : CryptoLaws C} {D : Sqlite} {L : SqliteLaws D} {O : SqlOrder} {K : Msgpack} {KL : MsgpackLaws K}.
Context (rand : nat -> option bytes) (maxPeers : Z) (iter : gmap string Z -> list (string * Z)).
Context (from : Address).
#[local] Existing Instance remote_net.





End Resolve.

(** ** The newest announcement *)

Section Newest.
Context {C : Crypto} {CL : CryptoLaws C} {D : Sqlite} {L : SqliteLaws D} {O : SqlOrder} {K : Msgpack} {KL : MsgpackLaws K}.




End Newest.


(** ** Three nodes and a hub *)

#[local] Existing Instance toy_crypto.
#[local] Existing Instance toy_laws.
#[local] Existing Instance toy_sqlite.
#[local] Existing Instance toy_sqlite_laws.
#[local] Existing Instance toy_order.
#[local] Existing Instance toy_msgpack.
#[local] Existing Instance toy_msgpack_laws.







