(* ===== verification/Index.v ===== *)
(** An abstract index of posts, and its implementation by two nodes on one connection: the
    owner adds posts, the reader asks for pages of the recent and of the popular ones, in
    any order. What comes over the network is what the index answers. A page starts at an
    offset of 64 bits, so that one far behind the last post can be the first again. *)

From stdpp Require Import sorting.
From S2P Require Import Prelude GoLib Base58Check Crypto Address Entry Util Sqlite NetStore NetDB NetTable NetInv NetRun DHT DHTProps.
From S2P Require Import Post PieceStream PostDB PostDBProps DataProps Collection CollectionProps Proto Handshake StreamManager.
From S2P Require Import LocalPeer Client PeerProps Peer MirrorProps PeerManager PeerManagerProps Explore NetMap CommandServer.
From S2P Require Import CommandProps Publish MirrorNet.

(** ** The abstract index *)

Inductive index_op := XAdd (p : Post) | XRecent (page : Z) | XPopular (page : Z).
Inductive index_reply := XAdded (id : Z) | XRefused | XPosts (l : list Post).

Section Index.
Context {D : Sqlite} {O : SqlOrder}.

(** The posts from [25 * k] on, a product of 64 bits: a page whose product is negative, or
    wraps to a negative one, is the first page. *)
Definition page_of (k : Z) (l : list Post) : list Post := take 25 (drop (Z.to_nat (to_int64 (25 * k))) l).
Definition recent (l : list Post) : list Post := order_desc UploadDate l.
(** The popular ones among the ten thousand newest. *)
Definition popular (l : list Post) : list Post := order_desc (fun p => Seeders p + Leechers p) (take (Z.to_nat 10000) (recent l)).

(** The posts in the order of their ids, which count them; an invalid post is refused. *)
Definition index_step (now : Z) (op : index_op) (l : list Post) : list Post * index_reply :=
  match op with
  | XAdd p =>
      match Post_Valid now p with
      | Ok _ => let id := Z.of_nat (S (length l)) in (l ++ [post_row id p], XAdded id)
      | _ => (l, XRefused)
      end
  | XRecent k => (l, XPosts (page_of k (recent l)))
  | XPopular k => (l, XPosts (page_of k (popular l)))
  end.
Fixpoint index_run (now : Z) (ops : list index_op) (l : list Post) : list Post * list index_reply :=
  match ops with
  | [] => (l, [])
  | op :: ops' => let '(l', r) := index_step now op l in let '(l'', rs) := index_run now ops' l' in (l'', r :: rs)
  end.
End Index.

(** ** The implementation *)

Section Implementation.
Context {C : Crypto} {D : Sqlite} {O : SqlOrder} {K : Msgpack} (from : Address) (grow : nat -> nat).
#[local] Existing Instance remote_net.

(** The owner at the other end adds a post. *)
Definition remote_AddPost (p : Post) : M (@Node K (remote_net from)) (Z * option error) := fun s =>
  let r := nd_net s in
  let '(lp', o) := LocalPeer_AddPost grow p (rm_lp r) in
  (set_net (W := remote_net from) (mkRemote lp' (rm_up r) (rm_streams r) (rm_next r)) s, o).

(** What the caller sees; [None] is an error of the request or a panic. *)
Definition index_call (peer : nat) (op : index_op) (s : @Node K (remote_net from)) : @Node K (remote_net from) * option index_reply :=
  match op with
  | XAdd p =>
      let '(s', o) := remote_AddPost p s in
      (s', match o with Ok (id, None) => Some (XAdded id) | Ok (_, Some _) => Some XRefused | _ => None end)
  | XRecent k =>
      let '(s', o) := Peer_Recent peer k s in (s', match o with Ok l => Some (XPosts l) | _ => None end)
  | XPopular k =>
      let '(s', o) := Peer_Popular peer k s in (s', match o with Ok l => Some (XPosts l) | _ => None end)
  end.
Fixpoint index_calls (peer : nat) (ops : list index_op) (s : @Node K (remote_net from)) :
  @Node K (remote_net from) * list (option index_reply) :=
  match ops with
  | [] => (s, [])
  | op :: ops' => let '(s', r) := index_call peer op s in let '(s'', rs) := index_calls peer ops' s' in (s'', r :: rs)
  end.
End Implementation.

(** ** Simulation *)

Section Simulation.
Context {C : Crypto} {L : CryptoLaws C} {D : Sqlite} {DL : SqliteLaws D} {O : SqlOrder} {K : Msgpack} {KL : MsgpackLaws K}.
Context (from : Address) (grow : nat -> nat).
#[local] Existing Instance remote_net.

(** Requests within the limits: the new posts have new info hashes and there are fewer
    than a thousand in all; numbers and answers fit into messages. *)
Definition can_call (now : Z) (op : index_op) (l : list Post) : Prop :=
  match op with
  | XAdd p => Post_Valid now p <> Panic /\
      (Post_Valid now p = Ok tt -> col_text (InfoHash p) ∉ map InfoHash l /\ (S (length l) < PieceSize)%nat)
  | XRecent k => fits (VInt k) /\ fits (VPosts (page_of k (recent l)))
  | XPopular k => fits (VInt k) /\ fits (VPosts (page_of k (popular l)))
  end.
Fixpoint can_calls (now : Z) (ops : list index_op) (l : list Post) : Prop :=
  match ops with
  | [] => True
  | op :: ops' => can_call now op l /\ can_calls now ops' (index_step now op l).1
  end.

(** The owner holds the posts of the index. *)
Record owns (now : Z) (l : list Post) (lp : LocalPeer) : Prop := {
  ow_consistent : consistent lp;
  ow_save : can_save lp (lp_Entry lp);
  ow_writable : lp_writable lp = true;
  ow_clock : lp_clock lp = now;
  ow_rows : rows (lp_Database lp) = l;
}.

Lemma owns_written now l lp w b : owns now l lp -> owns now l (set_written w b lp).
Proof. intros [[] [[] ?] ? ? ?]. by split. Qed.

Lemma owns_Database now l lp : owns now l lp -> set_Database (lp_Database lp) lp = lp.
Proof. by destruct lp. Qed.

(** Pages. *)
Lemma Recent_run k d : pdb_healthy d -> Database_QueryRecent k d = (d, Ok (page_of k (recent (rows d)))).
Proof.
  intros Hd. unfold Database_QueryRecent, Database_PaginatedQuery, sql_query_recent_post. rewrite pquery_healthy by done.
  reflexivity.
Qed.
Lemma Popular_run k d : pdb_healthy d -> Database_QueryPopular k d = (d, Ok (page_of k (popular (rows d)))).
Proof.
  intros Hd. unfold Database_QueryPopular, Database_PaginatedQuery, sql_query_popular_post. rewrite pquery_healthy by done.
  reflexivity.
Qed.

(** A page that is asked for over the connection; [query] is the one of the handler. *)
Lemma serve_page h (handler : Message -> M LocalPeer unit) (query : Z -> M PostDb (list Post)) k now l lp posts :
  route h (LocalPeer_handler from) = Some handler ->
  (forall m, handler m = (page ← lift (Message_ReadInt m); x ← on_Database (query page); LocalPeer.reply (Message_Write (VPosts x) (bare ProtoPosts)))) ->
  query k (lp_Database lp) = (lp_Database lp, Ok posts) ->
  owns now l lp -> fits (VInt k) ->
  let m := Message_Write (VPosts posts) (bare ProtoPosts) in
  serve_stream from (Message_Write (VInt k) (bare h)) lp = (set_written [m] [] lp, Some ([m], [])).
Proof.
  intros Hr Hh Hq H Hf m. unfold serve_stream, HandleStream, RouteMessage.
  change (Header (Message_Write (VInt k) (bare h))) with h. rewrite Hr, Hh.
  unfold Message_ReadInt. change KInt with (kind_of (VInt k)).
  rewrite (read_fits (VInt k) h Hf). cbn [mbind outcome_bind].
  unfold mbind, M_bind, try, lift, on_Database, zoom. cbn [lp_Database set_written]. rewrite Hq.
  unfold LocalPeer.reply. cbn [lp_writable set_Database set_written]. rewrite (ow_writable _ _ _ H). by destruct lp.
Qed.

Lemma asks_posts h k posts : fits (VPosts posts) ->
  asks (_ ← WriteMessage (Message_Write (VInt k) (bare h)); read_posts) (Message_Write (VInt k) (bare h))
    (Message_Write (VPosts posts) (bare ProtoPosts)) (Ok posts).
Proof.
  intros Hf. eexists _, _. split; [reflexivity|]. split; [reflexivity|]. cbn [Proc_bind].
  change KPosts with (kind_of (VPosts posts)). rewrite (read_fits (VPosts posts) ProtoPosts Hf). done.
Qed.

Lemma AddPost_refused now l p lp e : owns now l lp -> Post_Valid now p = Err e -> LocalPeer_AddPost grow p lp = (lp, Ok (-1, Some e)).
Proof. intros H Hv. unfold LocalPeer_AddPost. by rewrite run_get, (ow_clock _ _ _ H), Hv. Qed.

Lemma index_step_call now op peer x l lp s : linked from peer x lp s -> owns now l lp -> can_call now op l ->
  exists s' lp', index_call from grow peer op s = (s', Some (index_step now op l).2) /\
    linked from peer x lp' s' /\ owns now (index_step now op l).1 lp'.
Proof.
  intros H Ho Hc. destruct op as [p|k|k]; cbn [index_call index_step can_call] in *.
  - destruct Hc as [Hnp Hc]. unfold remote_AddPost. rewrite (li_remote _ _ _ _ _ H).
    destruct (Post_Valid now p) as [[]|e|] eqn:Hv; [| |done].
    + destruct (Hc eq_refl) as [Hnew Hn]. rewrite <-(ow_rows _ _ _ Ho) in *. rewrite <-(ow_clock _ _ _ Ho) in Hv.
      destruct (AddPost_run grow lp p) as (lp' & E & Hr & Hpub & Hs & _ & _ & _ & Hck & _ & Hw); try done; [apply Ho|apply Ho|].
      cbv zeta in E, Hr. rewrite E. eexists _, lp'. split; [reflexivity|]. split; [destruct H; by split|].
      split; try done; [apply Hpub|rewrite Hw; apply Ho|rewrite Hck; apply Ho].
    + rewrite (AddPost_refused now l p lp e Ho Hv). eexists _, lp. split; [reflexivity|]. split; [destruct H; by split|done].
  - destruct Hc as [Hf1 Hf2]. pose proof (co_healthy _ (ow_consistent _ _ _ Ho)) as Hd. rewrite <-(ow_rows _ _ _ Ho) in Hf2 |- *.
    destruct (request_run from peer x lp s (Client_Recent k) _ _ _ _ _ _ (asks_posts ProtoRecent k _ Hf2) ltac:(done) H
      (serve_page ProtoRecent HandleRecent Database_QueryRecent k now l lp _ eq_refl (fun m => eq_refl) (Recent_run k _ Hd) Ho Hf1)) as (s' & E & H' & _).
    unfold Peer_Recent. rewrite E. eexists _, _. split; [reflexivity|]. split; [exact H'|]. rewrite (ow_rows _ _ _ Ho). by apply owns_written.
  - destruct Hc as [Hf1 Hf2]. pose proof (co_healthy _ (ow_consistent _ _ _ Ho)) as Hd. rewrite <-(ow_rows _ _ _ Ho) in Hf2 |- *.
    destruct (request_run from peer x lp s (Client_Popular k) _ _ _ _ _ _ (asks_posts ProtoPopular k _ Hf2) ltac:(done) H
      (serve_page ProtoPopular HandlePopular Database_QueryPopular k now l lp _ eq_refl (fun m => eq_refl) (Popular_run k _ Hd) Ho Hf1)) as (s' & E & H' & _).
    unfold Peer_Popular. rewrite E. eexists _, _. split; [reflexivity|]. split; [exact H'|]. rewrite (ow_rows _ _ _ Ho). by apply owns_written.
Qed.
End Simulation.

(** C5. The index of a peer, over the network, as long as the valid posts that the owner
    adds have new info hashes and there are fewer than a thousand in all: whatever posts
    these are and whatever pages of the recent and popular ones another node asks for, in
    any order, every request succeeds and every answer is that of the abstract index --
    the ids count the posts, a page is the 25 posts of the order by date or by seeders and
    leechers from 25 times its number on, computed in 64 bits, an invalid post is refused
    without a trace -- and the owner ends up with the posts of the index. Both ends run the
    code; the connection stays up, the owner's entry counts and vouches for its posts, its
    statements succeed, its files can be written, and the messages are within their size. *)
Theorem network_index {C : Crypto} {L : CryptoLaws C} {D : Sqlite} {DL : SqliteLaws D} {O : SqlOrder} {K : Msgpack} {KL : MsgpackLaws K}
    (from : Address) (grow : nat -> nat) (now : Z) (ops : list index_op) (peer : nat) (x : Peer) (l : list Post)
    (lp : LocalPeer) (s : @Node K (remote_net from)) :
  linked from peer x lp s -> owns now l lp -> can_calls now ops l ->
  exists s', index_calls from grow peer ops s = (s', map Some (index_run now ops l).2) /\
    owns now (index_run now ops l).1 (rm_lp (nd_net s')).
Proof.
  revert l lp s. induction ops as [|op ops IH]; intros l lp s H Ho Hc; cbn [index_calls index_run].
  - exists s. split; [done|]. by rewrite (li_remote _ _ _ _ _ H).
  - destruct Hc as [Hc1 Hc]. destruct (index_step_call from grow now op peer x l lp s H Ho Hc1) as (s1 & lp1 & E1 & H1 & Ho1).
    rewrite E1. destruct (index_step now op l) as [l1 r]. cbn [fst snd] in *.
    destruct (IH l1 lp1 s1 H1 Ho1 Hc) as (s2 & E2 & Ho2). rewrite E2. destruct (index_run now ops l1) as [l2 rs].
    exists s2. done.
Qed.

(** A post with a known info hash: nothing is stored, the id is that of whichever post was
    inserted last, and the signed entry counts a post more than there are. *)
Theorem AddPost_known {C : Crypto} {L : CryptoLaws C} {D : Sqlite} {DL : SqliteLaws D} {O : SqlOrder} {K : Msgpack}
    (grow : nat -> nat) (lp : LocalPeer) (p : Post) :
  consistent lp -> can_save lp (lp_Entry lp) -> Post_Valid (lp_clock lp) p = Ok tt ->
  col_text (InfoHash p) ∈ map InfoHash (rows (lp_Database lp)) -> (length (rows (lp_Database lp)) < PieceSize)%nat ->
  0 <= last_rowid (lp_Database lp) < Z.of_nat PieceSize ->
  exists lp', LocalPeer_AddPost grow p lp = (lp', Ok (last_rowid (lp_Database lp), None)) /\
    lp_Database lp' = lp_Database lp /\ Entry_Verify (Some (lp_Entry lp')) = Ok tt /\
    PostCount (lp_Entry lp') = Z.of_nat (length (rows (lp_Database lp'))) + 1.
Proof.
  intros Hc Hsave Hv Hin Hn Hid. set (d := lp_Database lp) in *.
  assert (Database_InsertPost p d = (d, Ok (last_rowid d))) as Ei.
  { unfold Database_InsertPost, sql_insert_post. rewrite (run_bind _ _ _ d tt) by (apply nop_healthy, Hc).
    rewrite sql_stmt_healthy by apply Hc. unfold insert_row. by rewrite bool_decide_true. }
  destruct (Add_first_again grow (rows d) (lp_Collection lp)) as (c & Ec & Hcw & Hcc); [apply Hc| |].
  { rewrite (co_list _ Hc), length_hash_list. fold d. destruct (length (rows d)) as [|n]; [by left|right].
    by rewrite piece_count_one by lia. }
  set (c' := Collection_Rehash c).
  destruct (sign_and_save (with_post d c' lp)) as (e & dht & Es & Hpc & _ & _ & _ & Hev & _); [by apply can_save_with_post|].
  exists (set_entry_file (Some e) (set_DHT dht (set_Entry e (with_post d c' lp)))). split_and!; try done.
  - unfold LocalPeer_AddPost. rewrite run_get, Hv, run_modify.
    erewrite run_try by (apply on_Database_run; cbn [lp_Database set_Entry]; exact Ei). cbv zeta. cbv beta iota.
    rewrite (Z.div_small _ _ Hid). change (wrap64 0) with (Z.of_nat 0).
    erewrite run_try by (apply on_Database_run; cbn [lp_Database set_Database]; apply (QueryPiece_run d 0); first [done | apply Hc]).
    rewrite run_get. cbv iota. cbn [lp_Collection set_Database set_Entry].
    rewrite (run_lift _ _ _ _ Ec), run_modify.
    erewrite run_try by (apply run_WriteFile; exact (cs_files _ _ (proj1 Hsave))).
    rewrite run_modify. cbv beta. unfold collection_dat. cbn [lp_Entry lp_Collection set_Collection set_Database set_Entry].
    change (set_Database d (set_Database d ?x)) with (set_Database d x). fold c'.
    change (set_Entry _ (set_Collection _ _ _)) with (with_post d c' lp).
    revert Es. unfold mbind, M_bind. destruct (LocalPeer_SignEntry (with_post d c' lp)) as [lp1 [[]|x|]]; [|done|done].
    intros ->. done.
  - cbn [lp_Entry lp_Database set_entry_file set_DHT set_Entry]. rewrite Hpc.
    cbn [with_post lp_Entry set_Entry set_CollectionHash set_PostCount PostCount lp_Database set_Collection set_Database].
    by rewrite (co_count _ Hc).
Qed.

(** ** A concrete owner and reader *)

#[local] Existing Instance toy_crypto.
#[local] Existing Instance toy_laws.
#[local] Existing Instance toy_sqlite.
#[local] Existing Instance toy_sqlite_laws.
#[local] Existing Instance toy_order.
#[local] Existing Instance toy_msgpack.
#[local] Existing Instance toy_msgpack_laws.

Definition toy_reader : @Node toy_msgpack (remote_net toy_from) :=
  @mkNode toy_msgpack (remote_net toy_from) toy_mirror_lp (mkCaps []) [toy_connected "a"] toy_pm
    (mkRemote toy_publisher true ∅ 0) (fun i => 100 + Z.of_nat i) false.
(** Two posts, one from the future in between, and the pages. *)
Definition toy_calls : list index_op :=
  [XRecent 0; XAdd (toy_post "abc" "first" 10); XAdd (toy_post "xyz" "late" 1500000002); XAdd (toy_post "def" "second" 30); XRecent 0; XPopular 1].

Lemma toy_publisher_owns : owns 1500000001 [] toy_publisher.
Proof. split; [exact toy_publisher_consistent|exact toy_publisher_saves|reflexivity..]. Qed.

Lemma toy_can_calls : can_calls 1500000001 toy_calls [].
Proof.
  cbn [can_calls toy_calls can_call]. split_and!;
    first [apply toy_fits | exact I | vm_compute; discriminate | intros _; split; [by apply (bool_decide_unpack _)|unfold PieceSize; cbn; lia]
          | vm_compute; intros [=] ].
Qed.

Lemma toy_reader_linked : linked toy_from 0 (toy_connected "a") toy_publisher toy_reader.
Proof. split; [reflexivity|by eexists|reflexivity..]. Qed.

Lemma network_index_witness :
  exists s', index_calls toy_from (fun _ => 0%nat) 0 toy_calls toy_reader =
    (s', map Some [XPosts []; XAdded 1; XRefused; XAdded 2;
      XPosts [post_row 2 (toy_post "def" "second" 30); post_row 1 (toy_post "abc" "first" 10)]; XPosts []]).
Proof.
  destruct (network_index toy_from (fun _ => 0%nat) 1500000001 toy_calls 0 (toy_connected "a") [] toy_publisher toy_reader) as (s' & E & _).
  - exact toy_reader_linked.
  - exact toy_publisher_owns.
  - exact toy_can_calls.
  - exists s'. rewrite E. apply (f_equal (pair s')), (f_equal (map Some)). vm_compute. reflexivity.
Defined.

(** An owner of one post, who adds it again. *)
Definition toy_one_db : PostDb := mkPostDb [post_row 1 (toy_post "abc" "first" 10)] [] 1 [].
Definition toy_one : LocalPeer :=
  set_Collection (mkCollection (g_make (hash_list (rows toy_one_db)) 0) []) None
    (set_Database toy_one_db (set_Entry (set_PostCount 1 (lp_Entry toy_publisher)) toy_publisher)).

Lemma can_save_posts d c f n lp : can_save lp (lp_Entry lp) ->
  can_save (set_Collection c f (set_Database d (set_Entry (set_PostCount n (lp_Entry lp)) lp))) (set_PostCount n (lp_Entry lp)).
Proof. intros [[] ?]. by split; [split|]. Qed.

Lemma toy_one_consistent : consistent toy_one.
Proof.
  split; [|reflexivity|by repeat constructor|reflexivity|apply g_make_wf|apply g_contents_make].
  split; [reflexivity|]. by apply (bool_decide_unpack _).
Qed.

Lemma AddPost_known_witness :
  exists lp', LocalPeer_AddPost (fun _ => 0%nat) (toy_post "abc" "again" 10) toy_one = (lp', Ok (1, None)) /\
    lp_Database lp' = toy_one_db /\ PostCount (lp_Entry lp') = 2.
Proof.
  destruct (AddPost_known (fun _ => 0%nat) toy_one (toy_post "abc" "again" 10)) as (lp' & E & Hd & _ & Hp).
  - exact toy_one_consistent.
  - exact (can_save_posts _ _ _ _ _ toy_publisher_saves).
  - reflexivity.
  - by apply (bool_decide_unpack _).
  - unfold PieceSize. cbn. lia.
  - unfold PieceSize. cbn. lia.
  - exists lp'. split; [exact E|]. split; [exact Hd|]. rewrite Hp, Hd. reflexivity.
Defined.
