(* ===== verification/HttpServer.v ===== *)
(** The HTTP server of the daemon ([httpserver.go]): the table of routes, and one
    handler per route, which reads its variables and form values and runs a command. *)

From stdpp Require Import sorting.
From S2P Require Import Prelude GoLib HttpLib Crypto Address Entry Util Sqlite NetStore NetDB DHT.
From S2P Require Import Post PieceStream PostDB Collection Proto Handshake StreamManager LocalPeer Client Peer PeerManager.
From S2P Require Import Explore NetMap CommandServer.

(** ** Routes *)

Inductive handler :=
| IndexHandler | Ping | Announce | PeerRSearch | PeerSearch | Recent | Popular | Mirror | MirrorProgress | PeerFtsIndex
| AddPost | FtsIndex | Resolve | Bootstrap | SelfSearch | SelfSuggest | SelfRecent | SelfPopular | AddMeta
| SaveCollection | RebuildCollection | Peers | RequestAddPeer | SelfSet | SelfGet | SelfExplore | AddressEncode
| SearchEntry | CpuProfile | MemProfile | SetSeedLeech | NetMap.

#[global] Instance handler_eq_dec : EqDecision handler.
Proof. solve_decision. Defined.

Definition route (tpl : string) (h : handler) : Route handler := mkRoute tpl h false.
Definition post (tpl : string) (h : handler) : Route handler := mkRoute tpl h true.

(** The routes of [ListenHttp], in their order. *)
Definition routes : list (Route handler) := [
  route "/" IndexHandler;
  route "/peer/{address}/ping/" Ping;
  route "/peer/{address}/announce/" Announce;
  post "/peer/{address}/rsearch/" PeerRSearch;
  post "/peer/{address}/search/" PeerSearch;
  route "/peer/{address}/recent/{page}/" Recent;
  route "/peer/{address}/popular/{page}/" Popular;
  route "/peer/{address}/mirror/" Mirror;
  route "/peer/{address}/mirrorprogress/" MirrorProgress;
  route "/peer/{address}/index/{since}/" PeerFtsIndex;
  post "/self/addpost/" AddPost;
  route "/self/index/{since}/" FtsIndex;
  route "/self/resolve/{address}/" Resolve;
  route "/self/bootstrap/{address}/" Bootstrap;
  post "/self/search/" SelfSearch;
  post "/self/suggest/" SelfSuggest;
  route "/self/recent/{page}/" SelfRecent;
  route "/self/popular/{page}/" SelfPopular;
  post "/self/addmeta/{pid}/" AddMeta;
  route "/self/savecollection/" SaveCollection;
  route "/self/rebuildcollection/" RebuildCollection;
  route "/self/peers/" Peers;
  route "/self/requestaddpeer/{remote}/{peer}/" RequestAddPeer;
  post "/self/set/{key}/" SelfSet;
  route "/self/get/{key}/" SelfGet;
  route "/self/explore/" SelfExplore;
  post "/self/encode/" AddressEncode;
  post "/self/searchentry/" SearchEntry;
  post "/self/profile/cpu/" CpuProfile;
  post "/self/profile/mem/" MemProfile;
  post "/self/seedleech/" SetSeedLeech;
  route "/self/map/" NetMap ].

(** ** Handlers *)

(** What a handler sees of a request: the variables of its route and the form. *)
Record Request := mkRequest { rq_vars : list (string * string); rq_form : gmap string string }.
Definition FormValue (r : Request) (k : string) : string := default ""%string (rq_form r !! k).
Definition vars (r : Request) (k : string) : string := var k (rq_vars r).

(** The answer on the wire: a redirect, the page of the index, a status with the
    object of [WriteJSON]. *)
Inductive response := Redirect (location : string) | PageNotFound | Page (text : string) | Json (status : Z) (body : reply).

(** What a request takes from the runtime and its libraries: the parameters of the
    commands, the texts of the errors of [strconv] and [base64], the decoding of a
    post from JSON. *)
Record Runtime := mkRuntime {
  ru_rand : nat -> option bytes;
  ru_maxPeers : Z;
  ru_iter : gmap string Z -> list (string * Z);
  ru_external_ip : string;
  ru_grow : nat -> nat;
  ru_ToLower : string -> string;
  ru_to_json : Entry -> string;
  ru_shuffle : nat -> nat;
  ru_open_db : string -> PostDb;
  ru_spare : nat;
  ru_order : gmap string nat -> list nat;
  ru_IsLetter : Z -> bool;
  ru_IsNumber : Z -> bool;
  ru_runes : string -> list Z;
  ru_ScanWords : string -> list string;
  ru_like : string -> string -> bool;
  ru_create : string -> option error;
  ru_start : string -> option error;
  ru_write : string -> option error;
  ru_num_error : string -> string;
  ru_corrupt : string -> string;
  ru_Unmarshal : string -> Post + error;
}.

Section Handlers.
Context {C : Crypto} {D : Sqlite} {R : SqlOrder} {K : Msgpack} {W : Network}.
Context (ru : Runtime).

Definition write_http_response (cr : CommandResult) : response := Json (http_status cr) (WriteJSON cr).
Definition respond (m : M Node CommandResult) : M CommandServer response :=
  cr ← on_node m; mret (write_http_response cr).

(** [strconv.Atoi], whose error is answered at once. *)
Definition with_int (text : string) (f : Z -> M CommandServer response) : M CommandServer response :=
  match Atoi text with
  | None => mret (write_http_response (refused (ErrText (ru_num_error ru text))))
  | Some i => f i
  end.

Definition http_IndexHandler : M CommandServer response := mret (Page "Zif").
Definition http_Ping (r : Request) : M CommandServer response :=
  respond (Command_Ping (ru_rand ru) (ru_maxPeers ru) (ru_iter ru) (vars r "address")).
Definition http_Announce (r : Request) : M CommandServer response :=
  respond (Command_Announce (ru_rand ru) (ru_maxPeers ru) (ru_iter ru) (ru_external_ip ru) (vars r "address")).
Definition http_PeerRSearch (r : Request) : M CommandServer response :=
  with_int (FormValue r "page") (fun page =>
    respond (Command_RSearch (ru_rand ru) (ru_maxPeers ru) (ru_iter ru) (vars r "address") (FormValue r "query") page)).
Definition http_PeerSearch (r : Request) : M CommandServer response :=
  with_int (FormValue r "page") (fun page =>
    respond (Command_PeerSearch (ru_rand ru) (ru_maxPeers ru) (ru_iter ru) (vars r "address") (FormValue r "query") page)).
Definition http_Recent (r : Request) : M CommandServer response :=
  with_int (vars r "page") (fun page =>
    respond (Command_PeerRecent (ru_rand ru) (ru_maxPeers ru) (ru_iter ru) (vars r "address") page)).
Definition http_Popular (r : Request) : M CommandServer response :=
  with_int (vars r "page") (fun page =>
    respond (Command_PeerPopular (ru_rand ru) (ru_maxPeers ru) (ru_iter ru) (vars r "address") page)).
Definition http_Mirror (r : Request) : M CommandServer response :=
  respond (Command_Mirror (ru_rand ru) (ru_maxPeers ru) (ru_iter ru) (ru_shuffle ru) (ru_open_db ru) (ru_spare ru)
    (vars r "address")).
Definition http_MirrorProgress (r : Request) : M CommandServer response :=
  cr ← Command_GetMirrorProgress (vars r "address"); mret (write_http_response cr).
Definition http_PeerFtsIndex (r : Request) : M CommandServer response :=
  with_int (vars r "since") (fun since => respond (Command_PeerIndex (vars r "address") since)).

(** [AddPost]: whether to index comes from the form, not from the post. *)
Definition http_AddPost (r : Request) : M CommandServer response :=
  let index := bool_decide (FormValue r "index" = "true"%string) in
  match ru_Unmarshal ru (FormValue r "data") with
  | inr e => mret (write_http_response (refused e))
  | inl post => respond (Command_AddPost (ru_grow ru) post index)
  end.
Definition http_FtsIndex (r : Request) : M CommandServer response :=
  with_int (vars r "since") (fun since => respond (Command_SelfIndex since)).
Definition http_Resolve (r : Request) : M CommandServer response :=
  respond (Command_Resolve (ru_rand ru) (ru_maxPeers ru) (ru_iter ru) (vars r "address")).
Definition http_Bootstrap (r : Request) : M CommandServer response :=
  respond (Command_Bootstrap (ru_rand ru) (ru_maxPeers ru) (ru_iter ru) (vars r "address")).
Definition http_SelfSearch (r : Request) : M CommandServer response :=
  with_int (FormValue r "page") (fun page => respond (Command_SelfSearch (FormValue r "query") page)).
Definition http_SelfSuggest (r : Request) : M CommandServer response :=
  respond (Command_SelfSuggest
    (SearchProvider_Suggest (ru_IsLetter ru) (ru_IsNumber ru) (ru_runes ru) (ru_ScanWords ru) (ru_like ru))
    (FormValue r "query")).
Definition http_SelfRecent (r : Request) : M CommandServer response :=
  with_int (vars r "page") (fun page => respond (Command_SelfRecent page)).
Definition http_SelfPopular (r : Request) : M CommandServer response :=
  with_int (vars r "page") (fun page => respond (Command_SelfPopular page)).
Definition http_AddMeta (r : Request) : M CommandServer response :=
  with_int (vars r "pid") (fun pid => respond (Command_AddMeta pid (FormValue r "meta"))).
Definition http_SaveCollection : M CommandServer response := respond Command_SaveCollection.
Definition http_RebuildCollection : M CommandServer response := respond (Command_RebuildCollection (ru_grow ru)).
Definition http_Peers : M CommandServer response := respond (Command_Peers (ru_order ru)).
Definition http_RequestAddPeer (r : Request) : M CommandServer response :=
  respond (Command_RequestAddPeer (ru_rand ru) (ru_maxPeers ru) (ru_iter ru) (vars r "remote") (vars r "peer")).
Definition http_SelfSet (r : Request) : M CommandServer response :=
  respond (Command_LocalSet (ru_ToLower ru) (vars r "key") (FormValue r "value")).
Definition http_SelfGet (r : Request) : M CommandServer response :=
  respond (Command_LocalGet (ru_ToLower ru) (ru_to_json ru) (vars r "key")).
Definition http_SelfExplore : M CommandServer response := respond (Command_Explore (ru_rand ru) (ru_shuffle ru)).
Definition http_AddressEncode (r : Request) : M CommandServer response :=
  mret (write_http_response
    match base64_DecodeString (FormValue r "raw") with
    | None => refused (ErrText (ru_corrupt ru (FormValue r "raw")))
    | Some raw => Command_AddressEncode raw
    end).

(** [CpuProfile]: anything but "start" and "stop" leaves the zero result. *)
Definition http_CpuProfile (r : Request) : M CommandServer response :=
  let path := FormValue r "path" in
  mret (write_http_response
    (if bool_decide (FormValue r "do" = "start"%string) then Command_StartCpuProfile (ru_create ru) (ru_start ru) path
     else if bool_decide (FormValue r "do" = "stop"%string) then Command_StopCpuProfile
     else mkResult false ANone None)).
Definition http_MemProfile (r : Request) : M CommandServer response :=
  mret (write_http_response (Command_MemProfile (ru_create ru) (ru_write ru) (FormValue r "path"))).

(** [SetSeedLeech]: the numbers are converted to [uint]. *)
Definition http_SetSeedLeech (r : Request) : M CommandServer response :=
  with_int (FormValue r "id") (fun id =>
    with_int (FormValue r "seed") (fun seed =>
      with_int (FormValue r "leech") (fun leech =>
        respond (Command_SetSeedLeech (wrap64 id) (wrap64 seed) (wrap64 leech))))).
Definition http_SearchEntry (r : Request) : M CommandServer response :=
  with_int (FormValue r "page") (fun page =>
    respond (Command_EntrySearch (FormValue r "name") (FormValue r "desc") page)).

(** [NetMap] from the own entry. The recursion cannot be deeper than one level per
    stored entry and one. *)
Definition http_NetMap : M CommandServer response :=
  s ← get;
  let lp := nd_lp (cs_node s) in
  respond (Command_NetMap (S (length (entries (conn (lp_DHT lp))))) (Address_StringOr (EAddress (lp_Entry lp)) "")).

(** ** Serving a request *)

Definition handle (h : handler) (r : Request) : M CommandServer response :=
  match h with
  | IndexHandler => http_IndexHandler
  | Ping => http_Ping r
  | Announce => http_Announce r
  | PeerRSearch => http_PeerRSearch r
  | PeerSearch => http_PeerSearch r
  | Recent => http_Recent r
  | Popular => http_Popular r
  | Mirror => http_Mirror r
  | MirrorProgress => http_MirrorProgress r
  | PeerFtsIndex => http_PeerFtsIndex r
  | AddPost => http_AddPost r
  | FtsIndex => http_FtsIndex r
  | Resolve => http_Resolve r
  | Bootstrap => http_Bootstrap r
  | SelfSearch => http_SelfSearch r
  | SelfSuggest => http_SelfSuggest r
  | SelfRecent => http_SelfRecent r
  | SelfPopular => http_SelfPopular r
  | AddMeta => http_AddMeta r
  | SaveCollection => http_SaveCollection
  | RebuildCollection => http_RebuildCollection
  | Peers => http_Peers
  | RequestAddPeer => http_RequestAddPeer r
  | SelfSet => http_SelfSet r
  | SelfGet => http_SelfGet r
  | SelfExplore => http_SelfExplore
  | AddressEncode => http_AddressEncode r
  | SearchEntry => http_SearchEntry r
  | CpuProfile => http_CpuProfile r
  | MemProfile => http_MemProfile r
  | SetSeedLeech => http_SetSeedLeech r
  | NetMap => http_NetMap
  end.

Definition ServeHTTP (method path : string) (form : gmap string string) : M CommandServer response :=
  match Router_ServeHTTP routes method path with
  | Moved location => mret (Redirect location)
  | NotFound => mret PageNotFound
  | Handled h vs => handle h (mkRequest vs form)
  end.
End Handlers.

Example route_1 : Router_ServeHTTP routes "GET" "/peer/Zx/recent/12/" = Handled Recent [("address", "Zx"); ("page", "12")]%string.
Proof. vm_compute. reflexivity. Qed.
Example route_2 : Router_ServeHTTP routes "GET" "/peer/Zx/recent/12" = Moved "/peer/Zx/recent/12/".
Proof. vm_compute. reflexivity. Qed.
Example route_3 : Router_ServeHTTP routes "GET" "/self/search/" = NotFound.
Proof. vm_compute. reflexivity. Qed.
Example route_4 : Router_ServeHTTP routes "GET" "/" = Handled IndexHandler [].
Proof. vm_compute. reflexivity. Qed.
