(* ===== verification/HttpProps.v ===== *)
(** The properties of the HTTP server: every request has one handler, the address of a
    route leads back to its handler and variables, numbers that do not parse change
    nothing, Base64 is decoded back, and what a half successful update leaves. *)

From stdpp Require Import sorting.
From S2P Require Import Prelude GoLib HttpLib Base58Check Crypto Address Entry Util Sqlite NetStore NetDB NetTable NetInv NetRun DHT DHTProps.
From S2P Require Import Post PieceStream PostDB PostDBProps DataProps Collection Proto Handshake StreamManager LocalPeer Client Peer PeerManager.
From S2P Require Import PeerManagerProps Explore NetMap CommandServer CommandProps HttpServer.

(** ** Paths *)

Definition no_slash (s : string) : Prop := "/"%char ∉ to_bytes s.

Lemma no_slash_empty : no_slash "".
Proof. apply not_elem_of_nil. Qed.
#[local] Hint Resolve no_slash_empty : core.

Lemma app_string_cons c (s t : string) : String c s +:+ t = String c (s +:+ t).
Proof. reflexivity. Qed.

Lemma split_slash_one s : no_slash s -> split_slash s = [s].
Proof.
  induction s as [|c s IH]; intros Hs; [done|]. unfold no_slash in *. cbn [list_ascii_of_string] in Hs.
  cbn [split_slash]. rewrite IH by set_solver. destruct (Ascii.eqb_spec c "/"); [set_solver|done].
Qed.

Lemma split_slash_app s t : no_slash s -> split_slash (s +:+ String "/" t) = s :: split_slash t.
Proof.
  induction s as [|c s IH]; intros Hs; [done|]. unfold no_slash in *. cbn [list_ascii_of_string] in Hs.
  rewrite app_string_cons. cbn [split_slash]. rewrite IH by set_solver. destruct (Ascii.eqb_spec c "/"); [set_solver|done].
Qed.

Lemma join_cons x y l : join_slash (x :: y :: l) = x +:+ String "/" (join_slash (y :: l)).
Proof. reflexivity. Qed.

Lemma split_join l : l <> [] -> Forall no_slash l -> split_slash (join_slash l) = l.
Proof.
  induction l as [|x [|y l] IH]; intros Hne Hl; [done| |].
  - apply Forall_cons_1 in Hl as [Hx _]. by apply split_slash_one.
  - apply Forall_cons_1 in Hl as [Hx Hl]. rewrite join_cons, split_slash_app by done. by rewrite IH.
Qed.

Lemma join_snoc_empty l : l <> [] -> join_slash (l ++ [""%string]) = join_slash l +:+ "/".
Proof.
  induction l as [|x [|y l] IH]; intros Hne; [done|done|].
  change ((x :: y :: l) ++ [""%string]) with (x :: y :: (l ++ [""%string])).
  rewrite !join_cons. change (y :: l ++ [""%string]) with ((y :: l) ++ [""%string]). rewrite IH by done.
  apply to_bytes_inj. rewrite !to_bytes_app. cbn [list_ascii_of_string]. rewrite to_bytes_app. by rewrite <-app_assoc.
Qed.

Lemma ends_slash_snoc s : ends_slash (s +:+ "/") = true.
Proof. unfold ends_slash. rewrite to_bytes_app, rev_app_distr. done. Qed.

(** A part that stays when a path is made canonical. *)
Definition plain (s : string) : Prop := no_slash s /\ s <> ""%string /\ s <> "."%string /\ s <> ".."%string.

Lemma clean_plain l acc : Forall plain l -> fold_left clean_part (l ++ [""%string]) acc = acc ++ l.
Proof.
  revert acc. induction l as [|x l IH]; intros acc Hl; cbn [app fold_left].
  - by rewrite app_nil_r.
  - apply Forall_cons_1 in Hl as [(_ & H1 & H2 & H3) Hl]. rewrite IH by done. unfold clean_part at 1.
    rewrite !bool_decide_false by done. cbn. by rewrite <-app_assoc.
Qed.

Lemma cleanPath_canonical l : Forall plain l ->
  let p := join_slash (""%string :: l ++ [""%string]) in cleanPath p = p.
Proof.
  intros Hl. cbv zeta. assert (join_slash (""%string :: l ++ [""%string]) = String "/" (join_slash (l ++ [""%string]))) as Hp
    by (by destruct l).
  rewrite Hp. set (q := join_slash (l ++ [""%string])) in *. unfold cleanPath. cbn [Ascii.eqb Bool.eqb]. cbv zeta.
  assert (split_slash (String "/" q) = ""%string :: l ++ [""%string]) as Hs.
  { rewrite <-Hp. apply split_join; [done|]. constructor; [done|]. apply Forall_app. split; [|by constructor].
    eapply Forall_impl; [|exact Hl]. by intros x []. }
  unfold path_Clean. rewrite Hs. cbn [fold_left]. change (clean_part [] "") with (@nil string). rewrite clean_plain by done.
  cbn [app]. destruct l as [|x l]; [done|]. subst q. rewrite join_snoc_empty by done.
  rewrite <-app_string_cons, ends_slash_snoc. rewrite bool_decide_false; [done|].
  intros E%(f_equal String.length). apply Forall_cons_1 in Hl as [(_ & Hx & _) _].
  assert (exists c r, join_slash (x :: l) = String c r) as (c & r & Hj).
  { destruct x as [|c x]; [done|]. destruct l; [by eauto|]. rewrite join_cons, app_string_cons. eauto. }
  rewrite Hj in E. discriminate E.
Qed.

(** ** Templates *)

(** The path of a template for given values, which ends in a slash. *)
Fixpoint fill (t : list part) (vs : list string) : list string :=
  match t, vs with
  | [], _ => []
  | Lit s :: t', _ => s :: fill t' vs
  | Var _ :: t', v :: vs' => v :: fill t' vs'
  | Var _ :: t', [] => ""%string :: fill t' []
  end.
Fixpoint names (t : list part) : list string :=
  match t with [] => [] | Lit _ :: t' => names t' | Var n :: t' => n :: names t' end.
Definition url {H} (r : Route H) (vs : list string) : string :=
  join_slash (fill (template (rt_template r)) vs ++ [""%string]).

Lemma part_match_fill t vs : length vs = length (names t) -> Forall plain vs ->
  part_match t (fill t vs ++ [""%string]) = Some (zip (names t) vs).
Proof.
  revert vs. induction t as [|[s|n] t IH]; intros vs Hlen Hvs; cbn [names fill app part_match] in *.
  - by destruct vs.
  - rewrite bool_decide_true by done. by apply IH.
  - destruct vs as [|v vs]; [done|]. apply Forall_cons_1 in Hvs as [(_ & Hv & _) Hvs]. cbn [app].
    rewrite bool_decide_false by done. rewrite IH; [done|by injection Hlen|done].
Qed.

(** Whether some path can match both templates. *)
Definition only_empty (t : list part) : bool := bool_decide (t = [] \/ t = [Lit ""]).
Fixpoint may_share (t t' : list part) : bool :=
  match t with
  | [] => only_empty t'
  | Lit a :: t1 =>
      match t' with
      | [] => only_empty t
      | Lit b :: t2 => bool_decide (a = b) && may_share t1 t2
      | Var _ :: t2 => negb (bool_decide (a = ""%string)) && may_share t1 t2
      end
  | Var _ :: t1 =>
      match t' with
      | [] => false
      | Lit b :: t2 => negb (bool_decide (b = ""%string)) && may_share t1 t2
      | Var _ :: t2 => may_share t1 t2
      end
  end.

Lemma part_match_nil p vs : part_match [] p = Some vs -> p = [] \/ p = [""%string].
Proof. destruct p as [|s [|]]; cbn; [auto| |done]. case_bool_decide; [subst; auto|done]. Qed.

Lemma only_empty_match t p vs : (p = [] \/ p = [""%string]) -> part_match t p = Some vs -> only_empty t = true.
Proof.
  intros [->| ->] Hm; destruct t as [|[s|n] t]; cbn in *; try done.
  case_bool_decide as E; [|done]. subst. destruct t as [|[]]; done.
Qed.

Lemma part_match_share t t' p vs vs' :
  part_match t p = Some vs -> part_match t' p = Some vs' -> may_share t t' = true.
Proof.
  revert t' p vs vs'. induction t as [|x t IH]; intros t' p vs vs' H1 H2.
  { eapply only_empty_match; [by eapply part_match_nil|done]. }
  destruct t' as [|y t'].
  { apply part_match_nil in H2. eapply only_empty_match in H1; [|done]. by destruct x. }
  destruct p as [|s p]; [by destruct x|].
  destruct x as [a|n], y as [b|m]; cbn in H1, H2 |- *; repeat case_bool_decide; simplify_eq; try done; cbn;
    try (destruct (part_match t p) eqn:E1; [|done]); try (destruct (part_match t' p) eqn:E2; [|done]); by eauto.
Qed.

(** ** The table of routes *)

#[global] Instance route_eq_dec : EqDecision (Route handler).
Proof. solve_decision. Defined.

Lemma routes_separate :
  forallb (fun r => forallb (fun r' => bool_decide (r = r') ||
    negb (may_share (template (rt_template r)) (template (rt_template r')))) routes) routes = true.
Proof. vm_compute. reflexivity. Qed.

(** At most one route matches a request, so that their order does not matter. *)
Lemma routes_one r r' method path vs vs' :
  r ∈ routes -> r' ∈ routes -> Route_Match r method path = Some vs -> Route_Match r' method path = Some vs' -> r = r'.
Proof.
  intros Hr Hr' H1 H2. unfold Route_Match in *. repeat case_match; try done.
  pose proof (part_match_share _ _ _ _ _ H1 H2) as Hs.
  pose proof routes_separate as Hsep. rewrite forallb_forall in Hsep. apply list_elem_of_In in Hr, Hr'.
  specialize (Hsep r Hr). rewrite forallb_forall in Hsep. specialize (Hsep r' Hr').
  rewrite Hs in Hsep. case_bool_decide; done.
Qed.

Lemma Router_Match_first (rs : list (Route handler)) r method path vs :
  r ∈ rs -> Route_Match r method path = Some vs ->
  (forall r' vs', r' ∈ rs -> Route_Match r' method path = Some vs' -> r' = r) ->
  Router_Match rs method path = Some (r, vs).
Proof.
  induction rs as [|x rs IH]; intros Hr Hm Hone; [by apply elem_of_nil in Hr|]. cbn [Router_Match].
  destruct (Route_Match x method path) as [v|] eqn:Ex.
  - assert (x = r) as -> by (eapply Hone; [by left|done]). rewrite Hm in Ex. by injection Ex as <-.
  - apply elem_of_cons in Hr as [->|Hr]; [congruence|]. apply IH; [done|done|]. intros r' vs' Hr'. apply Hone. by right.
Qed.

(** Every template starts with a slash, ends in one, and its other parts are plain. *)
Lemma routes_shape :
  forallb (fun r => ends_slash (rt_template r) &&
    match template (rt_template r) with
    | Lit s :: t => bool_decide (s = ""%string) && forallb (fun x =>
        match x with
        | Lit s => forallb (fun c => negb (Ascii.eqb c "/")) (to_bytes s) && negb (bool_decide (s = ""%string)) &&
            negb (bool_decide (s = "."%string)) && negb (bool_decide (s = ".."%string))
        | Var _ => true
        end) t
    | _ => false
    end) routes = true.
Proof. vm_compute. reflexivity. Qed.

Definition plain_lit (x : part) : Prop := match x with Lit s => plain s | Var _ => True end.

Lemma route_shape r : r ∈ routes ->
  ends_slash (rt_template r) = true /\ exists t, template (rt_template r) = Lit "" :: t /\ Forall plain_lit t.
Proof.
  intros Hr%list_elem_of_In. pose proof routes_shape as Hs. rewrite forallb_forall in Hs.
  specialize (Hs r Hr). apply andb_true_iff in Hs as [He Hs]. split; [done|].
  destruct (template (rt_template r)) as [|[s|] t]; try done. apply andb_true_iff in Hs as [Hs Ht].
  apply bool_decide_eq_true in Hs as ->. exists t. split; [done|].
  rewrite forallb_forall in Ht. apply List.Forall_forall. intros [s|n] Hx; [|done]. specialize (Ht _ Hx). cbn in Ht |- *.
  rewrite !andb_true_iff, !negb_true_iff, !bool_decide_eq_false in Ht. destruct Ht as (((Hc & ?) & ?) & ?).
  split; [|done]. intros Hin%list_elem_of_In. rewrite forallb_forall in Hc. by apply Hc in Hin.
Qed.

Lemma fill_plain t vs : length vs = length (names t) -> Forall plain_lit t -> Forall plain vs -> Forall plain (fill t vs).
Proof.
  revert vs. induction t as [|[s|n] t IH]; intros vs Hlen Ht Hvs; cbn [fill names] in *; [done| |].
  - apply Forall_cons_1 in Ht as [Hs Ht]. constructor; [done|]. by apply IH.
  - apply Forall_cons_1 in Ht as [_ Ht]. destruct vs as [|v vs]; [done|]. apply Forall_cons_1 in Hvs as [Hv Hvs].
    constructor; [done|]. apply IH; [by injection Hlen|done|done].
Qed.

(** The path of a route leads to its handler with the values that were filled in. *)
Lemma url_handled (r : Route handler) (vs : list string) (method : string) :
  r ∈ routes -> length vs = length (names (template (rt_template r))) -> Forall plain vs ->
  (rt_post r = true -> method = "POST"%string) ->
  Router_ServeHTTP routes method (url r vs) = Handled (rt_handler r) (zip (names (template (rt_template r))) vs).
Proof.
  intros Hr Hlen Hvs Hpost. destruct (route_shape r Hr) as (He & t & Ht & Hpl).
  assert (Route_Match r method (url r vs) = Some (zip (names (template (rt_template r))) vs)) as Hm.
  { unfold Route_Match. rewrite (proj2 (andb_false_iff _ _)).
    2: { destruct (rt_post r); [right|by left]. by rewrite bool_decide_true by auto. }
    unfold url. rewrite split_join; [by apply part_match_fill|by destruct (fill _ _)|].
    apply Forall_app. split; [|by constructor]. rewrite Ht in *. cbn [fill names] in *. constructor; [done|].
    eapply Forall_impl; [|by apply fill_plain]. by intros x []. }
  unfold Router_ServeHTTP. rewrite bool_decide_true.
  2: { unfold url. rewrite Ht in *. cbn [fill names app] in *. by apply cleanPath_canonical, fill_plain. }
  cbn [negb]. rewrite (Router_Match_first routes r method _ _ Hr Hm).
  2: { intros r' vs' Hr' Hm'. by eapply routes_one. }
  unfold url. rewrite Ht. cbn [fill app]. change (""%string :: fill t vs ++ [""%string]) with ((""%string :: fill t vs) ++ [""%string]).
  rewrite join_snoc_empty, ends_slash_snoc, He by done. done.
Qed.

(** ** Base64 *)

Lemma base64_value_char v : 0 <= v < 64 -> base64_value (base64_char v) = Some v.
Proof.
  intros Hv. assert (forallb (fun i => bool_decide (base64_value (base64_char i) = Some i)) (map Z.of_nat (seq 0 64)) = true) as H
    by (vm_compute; reflexivity).
  rewrite forallb_forall in H. apply (bool_decide_eq_true (base64_value (base64_char v) = Some v)), H.
  apply in_map_iff. exists (Z.to_nat v). split; [lia|]. apply in_seq. lia.
Qed.

Lemma base64_char_letter v : 0 <= v < 64 -> base64_char v <> "="%char /\ base64_char v <> "010"%char /\ base64_char v <> "013"%char.
Proof. intros Hv. pose proof (base64_value_char v Hv) as E. split_and!; intros Hc; rewrite Hc in E; discriminate. Qed.

(** Induction on groups of three. *)
Lemma bytes_ind3 (P : bytes -> Prop) :
  P [] -> (forall a, P [a]) -> (forall a b, P [a; b]) -> (forall a b c l, P l -> P (a :: b :: c :: l)) -> forall l, P l.
Proof.
  intros H0 H1 H2 H3 l. assert (forall n l, (length l <= n)%nat -> P l) as H; [|by apply (H (length l))].
  clear l. induction n as [|n IH]; intros [|a [|b [|c l]]] Hl; cbn in Hl; try done; try lia; auto.
  apply H3, IH. lia.
Qed.

Lemma sextets a b c :
  0 <= bval a / 4 < 64 /\ 0 <= bval a mod 4 * 16 + bval b / 16 < 64 /\
  0 <= bval b mod 16 * 4 + bval c / 64 < 64 /\ 0 <= bval c mod 64 < 64 /\
  0 <= bval a mod 4 * 16 < 64 /\ 0 <= bval b mod 16 * 4 < 64.
Proof.
  pose proof (bval_range a). pose proof (bval_range b). pose proof (bval_range c).
  Z.to_euclidean_division_equations. lia.
Qed.

Lemma byte_is z c : z mod 256 = bval c -> byte_of z = c.
Proof. intros H. apply (inj bval). by rewrite bval_byte_of. Qed.

Lemma octets a b c :
  byte_of (bval a / 4 * 4 + (bval a mod 4 * 16 + bval b / 16) / 16) = a /\
  byte_of ((bval a mod 4 * 16 + bval b / 16) * 16 + (bval b mod 16 * 4 + bval c / 64) / 4) = b /\
  byte_of ((bval b mod 16 * 4 + bval c / 64) * 64 + bval c mod 64) = c /\
  byte_of (bval a / 4 * 4 + bval a mod 4 * 16 / 16) = a /\
  byte_of ((bval a mod 4 * 16 + bval b / 16) * 16 + bval b mod 16 * 4 / 4) = b.
Proof.
  pose proof (bval_range a). pose proof (bval_range b). pose proof (bval_range c).
  split_and!; apply byte_is; Z.to_euclidean_division_equations; lia.
Qed.

Lemma base64_quanta_encode l : base64_quanta (base64_encode l) = Some l.
Proof.
  induction l as [|a|a b|a b c l IH] using bytes_ind3; [done| | |].
  - destruct (sextets a a a) as (H1 & _ & _ & _ & H2 & _). destruct (octets a a a) as (_ & _ & _ & E & _).
    cbn [base64_encode base64_quanta]. rewrite !base64_value_char by done. cbn. by rewrite E.
  - destruct (sextets a b b) as (H1 & H2 & _ & _ & _ & H3). destruct (octets a b b) as (E1 & _ & _ & _ & E2).
    cbn [base64_encode base64_quanta]. rewrite !base64_value_char by done.
    destruct (base64_char_letter _ H3) as [Hc _]. apply Ascii.eqb_neq in Hc. cbn [mbind option_bind].
    cbn [Ascii.eqb Bool.eqb]. rewrite bool_decide_true by done. cbn [andb]. rewrite Hc. cbn [mbind option_bind]. by rewrite E1, E2.
  - destruct (sextets a b c) as (H1 & H2 & H3 & H4 & _ & _). destruct (octets a b c) as (E1 & E2 & E3 & _ & _).
    cbn [base64_encode base64_quanta]. rewrite !base64_value_char by done. cbn [mbind option_bind].
    destruct (base64_char_letter _ H4) as [Hc _]. apply Ascii.eqb_neq in Hc. rewrite Hc. cbn [andb]. rewrite IH. cbn. by rewrite E1, E2, E3.
Qed.

Lemma base64_encode_chars l : Forall (fun c => ~ (c = "010"%char \/ c = "013"%char)) (base64_encode l).
Proof.
  assert (forall v, 0 <= v < 64 -> ~ (base64_char v = "010"%char \/ base64_char v = "013"%char)) as H.
  { intros v Hv. destruct (base64_char_letter v Hv) as (_ & ? & ?). tauto. }
  assert (~ ("="%char = "010"%char \/ "="%char = "013"%char)) as He by (intros [|]; discriminate).
  induction l as [|a|a b|a b c l IH] using bytes_ind3; cbn [base64_encode]; [constructor| | |];
    [destruct (sextets a a a) as (?&?&?&?&?&?)|destruct (sextets a b b) as (?&?&?&?&?&?)|destruct (sextets a b c) as (?&?&?&?&?&?)];
    repeat constructor; auto.
Qed.

Lemma filter_everything {A} (P : A -> Prop) `{forall x, Decision (P x)} (l : list A) : Forall P l -> filter P l = l.
Proof. induction 1 as [|x l Hx _ IH]; [done|]. by rewrite filter_cons_True, IH. Qed.

Lemma base64_Decode_Encode l : base64_DecodeString (base64_EncodeToString l) = Some l.
Proof.
  unfold base64_DecodeString, base64_EncodeToString. rewrite list_ascii_of_string_of_list_ascii.
  rewrite filter_everything by apply base64_encode_chars. apply base64_quanta_encode.
Qed.

(** ** Numbers *)

Lemma plain_chars s : s <> ""%string -> (forall c, c ∈ to_bytes s -> c <> "/"%char /\ c <> "."%char) -> plain s.
Proof.
  intros Hne Hc. split_and!; [|done| |].
  - intros Hin. by destruct (Hc _ Hin).
  - intros ->. destruct (Hc "."%char) as [_ H]; [set_solver|done].
  - intros ->. destruct (Hc "."%char) as [_ H]; [set_solver|done].
Qed.

Lemma Itoa_plain z : - 2 ^ 63 <= z < 2 ^ 63 -> plain (Itoa z).
Proof.
  intros Hz. apply plain_chars.
  - intros E. pose proof (Atoi_Itoa z Hz) as H. by rewrite E in H.
  - intros c [->|Hc]%Itoa_chars; [done|].
    split; intros ->; [change (bval "/") with 47 in Hc|change (bval ".") with 46 in Hc]; lia.
Qed.

Section Serving.
Context {C : Crypto} {D : Sqlite} {R : SqlOrder} {K : Msgpack} {W : Network}.
Context (ru : Runtime).

(** The texts that a handler reads as numbers. *)
Definition numbers (h : handler) (r : Request) : list string :=
  match h with
  | PeerRSearch | PeerSearch | SelfSearch | SearchEntry => [FormValue r "page"]
  | Recent | Popular | SelfRecent | SelfPopular => [vars r "page"]
  | PeerFtsIndex | FtsIndex => [vars r "since"]
  | AddMeta => [vars r "pid"]
  | SetSeedLeech => [FormValue r "id"; FormValue r "seed"; FormValue r "leech"]
  | _ => []
  end.

Definition bad_number (text : string) : response := Json 500 (ReplyErr (ru_num_error ru text)).

Lemma with_int_bad text f s : Atoi text = None -> with_int ru text f s = (s, Ok (bad_number text)).
Proof. intros E. unfold with_int. by rewrite E. Qed.

Lemma with_int_good text i f s : Atoi text = Some i -> with_int ru text f s = f i s.
Proof. intros E. unfold with_int. by rewrite E. Qed.

Lemma SetSeedLeech_bad r s text : text ∈ numbers SetSeedLeech r -> Atoi text = None ->
  exists bad, bad ∈ numbers SetSeedLeech r /\ http_SetSeedLeech ru r s = (s, Ok (bad_number bad)).
Proof.
  cbn [numbers]. intros Hin Hbad. unfold http_SetSeedLeech.
  destruct (Atoi (FormValue r "id")) as [i|] eqn:E1.
  2: { exists (FormValue r "id"). split; [by left|]. by apply with_int_bad. }
  rewrite (with_int_good _ _ _ _ E1). destruct (Atoi (FormValue r "seed")) as [j|] eqn:E2.
  2: { exists (FormValue r "seed"). split; [by right; left|]. by apply with_int_bad. }
  rewrite (with_int_good _ _ _ _ E2). destruct (Atoi (FormValue r "leech")) as [k|] eqn:E3.
  2: { exists (FormValue r "leech"). split; [by right; right; left|]. by apply with_int_bad. }
  exfalso. rewrite !elem_of_cons, elem_of_nil in Hin. destruct Hin as [->|[->|[->|[]]]]; congruence.
Qed.
End Serving.

(** C22. A number that does not parse: on every route that reads numbers the answer is
    status 500 with the error of one of the bad texts, and nothing has changed. *)
Theorem bad_number_refused {C : Crypto} {D : Sqlite} {R : SqlOrder} {K : Msgpack} {W : Network}
    (ru : Runtime) (h : handler) (r : Request) (text : string) (s : CommandServer) :
  text ∈ numbers h r -> Atoi text = None ->
  exists bad, bad ∈ numbers h r /\ handle ru h r s = (s, Ok (Json 500 (ReplyErr (ru_num_error ru bad)))).
Proof.
  intros Hin Hbad. destruct h; cbn [numbers] in Hin; try by apply elem_of_nil in Hin.
  all: try (by eapply SetSeedLeech_bad).
  all: apply list_elem_of_singleton in Hin as ->; eexists; split; [by left|]; by apply with_int_bad.
Qed.

(** ** Addresses *)

Lemma encode_plain raw : plain (base58check.Encode prefix51 raw).
Proof.
  apply plain_chars.
  - intros E. pose proof (DecodeAddress_encode raw) as H. by rewrite E in H.
  - intros c Hc. rewrite base58check.Encode_eq, list_ascii_of_string_of_list_ascii in Hc by apply prefix51_nonzero.
    unfold base58.EncodeBig in Hc. apply list_elem_of_In, in_map_iff in Hc as (d & <- & Hd).
    pose proof (numeral_range 58 ltac:(lia) (be_val (prefix51 :: raw ++ base58check.checksum (prefix51 :: raw)))) as Hr.
    rewrite List.Forall_forall in Hr. specialize (Hr d Hd).
    pose proof (base58.decodeMap_digit_of d Hr) as E. split; intros Hx; rewrite Hx in E; discriminate.
Qed.

(** Bytes in Base64 that are posted to be encoded come back as the text of an
    address that decodes to them, and nothing has changed. *)
Theorem address_encode_served {C : Crypto} {D : Sqlite} {R : SqlOrder} {K : Msgpack} {W : Network}
    (ru : Runtime) (raw : bytes) (form : gmap string string) (s : CommandServer) :
  form !! "raw"%string = Some (base64_EncodeToString raw) ->
  exists a, ServeHTTP ru "POST" "/self/encode/" form s = (s, Ok (Json 200 (ReplyValue (AString a)))) /\
    DecodeAddress a = Ok (raw_address raw).
Proof.
  intros Hf. exists (addr_str (raw_address raw)). split; [|apply DecodeAddress_encode].
  unfold ServeHTTP. change (Router_ServeHTTP routes "POST" "/self/encode/") with (@Handled handler AddressEncode []).
  cbn [handle]. unfold http_AddressEncode, FormValue. cbn [rq_form]. rewrite Hf. cbn [default from_option id].
  by rewrite base64_Decode_Encode.
Qed.

(** ** Updates *)

Section Updates.
Context {C : Crypto} {D : Sqlite} {R : SqlOrder} {K : Msgpack} {W : Network}.

Definition db_of (s : CommandServer) : PostDb := lp_Database (nd_lp (cs_node s)).
Definition with_db (d : PostDb) (s : Node) : Node := set_lp (set_Database d (nd_lp s)) s.
Definition with_leechers (leechers : Z) (p : Post) : Post :=
  mkPost (Id p) (InfoHash p) (Title p) (Size p) (FileCount p) (Seeders p) leechers (UploadDate p) (Tags p) (Meta p).

Lemma on_posts_run {A} (m : M PostDb A) s d o : m (lp_Database (nd_lp s)) = (d, o) -> on_posts m s = (with_db d s, o).
Proof. intros E. unfold on_posts, on_lp, on_Database, zoom. by rewrite E. Qed.

Lemma update_id_healthy id f d : pdb_healthy d ->
  update_id id f d = (set_rows (map (fun p => if Id p =? id then f p else p) (rows d)) d, Ok tt).
Proof. intros Hd. unfold update_id. by rewrite sql_stmt_healthy. Qed.

Lemma SetLeechers_run id leech d : pdb_healthy d -> 0 <= id < 2 ^ 63 -> 0 <= leech < 2 ^ 63 ->
  Database_SetLeechers id leech d =
    (set_rows (map (fun p => if Id p =? id then with_leechers leech p else p) (rows d)) d, Ok tt).
Proof.
  intros Hd Hi Hl. unfold Database_SetLeechers. rewrite (run_bind _ _ _ _ _ (nop_healthy d Hd)).
  rewrite (proj2 (andb_true_iff _ _)) by (split; apply Z.ltb_lt; lia). by apply update_id_healthy.
Qed.

Lemma SetSeeders_refused id seed d : pdb_healthy d -> 2 ^ 63 <= seed -> Database_SetSeeders id seed d = (d, Err ErrDriver).
Proof.
  intros Hd Hs. unfold Database_SetSeeders. rewrite (run_bind _ _ _ _ _ (nop_healthy d Hd)).
  by rewrite (proj2 (Z.ltb_ge seed _)), andb_false_r by lia.
Qed.
End Updates.

(** Half an update: a negative number of seeders is refused by the database, but
    only after the number of leechers has been stored; the request fails and the
    leechers of the post are the new ones. *)
Theorem SetSeedLeech_half {C : Crypto} {D : Sqlite} {R : SqlOrder} {K : Msgpack} {W : Network}
    (ru : Runtime) (id seed leech : Z) (form : gmap string string) (s : CommandServer) :
  pdb_healthy (db_of s) -> 0 <= id < 2 ^ 63 -> - 2 ^ 63 <= seed < 0 -> 0 <= leech < 2 ^ 63 ->
  form !! "id"%string = Some (Itoa id) -> form !! "seed"%string = Some (Itoa seed) ->
  form !! "leech"%string = Some (Itoa leech) ->
  exists s' text, ServeHTTP ru "POST" "/self/seedleech/" form s = (s', Ok (Json 500 (ReplyErr text))) /\
    rows (db_of s') = map (fun p => if Id p =? id then with_leechers leech p else p) (rows (db_of s)).
Proof.
  intros Hh Hi Hs Hl Fi Fs Fl. unfold db_of in *.
  set (d := set_rows (map (fun p => if Id p =? id then with_leechers leech p else p) (rows (db_of s))) (db_of s)).
  exists (mkCS (with_db d (with_db d (cs_node s))) (cs_MirrorProgress s)), (error_text ErrDriver). split; [|done].
  unfold ServeHTTP. change (Router_ServeHTTP routes "POST" "/self/seedleech/") with (@Handled handler SetSeedLeech []).
  cbn [handle]. unfold http_SetSeedLeech, FormValue. cbn [rq_form]. rewrite Fi, Fs, Fl. cbn [default from_option Datatypes.id].
  rewrite (with_int_good _ _ id), (with_int_good _ _ seed), (with_int_good _ _ leech) by (apply Atoi_Itoa; lia).
  assert (wrap64 id = id /\ wrap64 leech = leech /\ 2 ^ 63 <= wrap64 seed) as (-> & -> & Hw).
  { unfold wrap64. Z.to_euclidean_division_equations. lia. }
  unfold respond, on_node, Command_SetSeedLeech. unfold mbind at 1, M_bind at 1, zoom at 1.
  rewrite (run_try _ _ _ _ _ (on_posts_run _ _ _ _ (SetLeechers_run id leech _ Hh Hi Hl))).
  rewrite (run_try_Err _ _ _ _ _ (on_posts_run _ (with_db d (cs_node s)) _ _ (SetSeeders_refused id (wrap64 seed) d Hh Hw))). done.
Qed.

(** ** Witnesses *)

#[local] Existing Instance toy_crypto.
#[local] Existing Instance toy_sqlite.
#[local] Existing Instance toy_order.
#[local] Existing Instance toy_msgpack.
#[local] Existing Instance toy_network.

Definition toy_runtime : Runtime :=
  mkRuntime (fun _ => None) 100 map_to_list "" (fun n => n) (fun k => k) (fun _ => ""%string) (fun n => n)
    (fun _ => mkPostDb [] [] 0 []) 0 (fun m => map snd (map_to_list m)) (fun _ => true) (fun _ => false)
    (fun _ => []) (fun _ => []) (fun _ _ => false) (fun _ => None) (fun _ => None) (fun _ => None)
    (fun s => s) (fun s => s) (fun _ => inr ErrEOF).
Definition toy_daemon : CommandServer := NewCommandServer (toy_node []).

Lemma bad_number_refused_witness :
  exists bad, bad ∈ numbers SelfRecent (mkRequest [("page", "ten")]%string ∅) /\
    handle toy_runtime SelfRecent (mkRequest [("page", "ten")]%string ∅) toy_daemon =
      (toy_daemon, Ok (Json 500 (ReplyErr bad))).
Proof.
  apply (bad_number_refused toy_runtime SelfRecent (mkRequest [("page", "ten")]%string ∅) "ten" toy_daemon).
  - apply list_elem_of_singleton. reflexivity.
  - reflexivity.
Defined.

Lemma address_encode_served_witness :
  exists a, ServeHTTP toy_runtime "POST" "/self/encode/" {["raw"%string := base64_EncodeToString (to_bytes "zif")]} toy_daemon =
      (toy_daemon, Ok (Json 200 (ReplyValue (AString a)))) /\
    DecodeAddress a = Ok (raw_address (to_bytes "zif")).
Proof. apply (address_encode_served toy_runtime (to_bytes "zif")). reflexivity. Defined.

(** A post without seeders or leechers. *)
Definition toy_posted : CommandServer :=
  NewCommandServer (with_db (mkPostDb [mkPost 1 "hash" "title" 1 1 0 0 0 "" ""] [] 1 []) (toy_node [])).

Lemma SetSeedLeech_half_witness :
  exists s' text, ServeHTTP toy_runtime "POST" "/self/seedleech/"
      {["id" := "1"; "seed" := "-1"; "leech" := "7"]}%string toy_posted = (s', Ok (Json 500 (ReplyErr text))) /\
    rows (db_of s') = [mkPost 1 "hash" "title" 1 1 0 7 0 "" ""].
Proof.
  apply (SetSeedLeech_half toy_runtime 1 (-1) 7 {["id" := "1"; "seed" := "-1"; "leech" := "7"]}%string toy_posted);
    first [lia | vm_compute; reflexivity].
Defined.
