(* ===== verification/Commands.v ===== *)
(** The commands of the daemon as data ([commands.go]), their execution by the command
    server, and their way over HTTP: what a client has to request for a command to be run. *)

From stdpp Require Import sorting.
From S2P Require Import Prelude GoLib HttpLib Base58Check Crypto Address Entry Util Sqlite NetStore NetDB NetTable NetInv NetRun DHT DHTProps.
From S2P Require Import Post PieceStream PostDB PostDBProps DataProps Collection Proto Handshake StreamManager LocalPeer Client Peer PeerManager.
From S2P Require Import PeerManagerProps Explore NetMap CommandServer CommandProps HttpServer HttpProps.

(** ** Input types *)

Record CommandPeer := mkPeerCmd { cp_Address : string }.
Record CommandFile := mkFileCmd { cf_File : string }.
Definition CommandPing := CommandPeer.
Definition CommandAnnounce := CommandPeer.

(** The peer to send the request to, and the peer to be registered for. *)
Record CommandRequestAddPeer := mkRequestAddPeerCmd { crap_Remote : string; crap_Peer : string }.
Record CommandSearchEntry := mkSearchEntryCmd { cse_Name : string; cse_Desc : string; cse_Page : Z }.
Record CommandRSearch := mkRSearchCmd { crs_CommandPeer : CommandPeer; crs_Query : string; crs_Page : Z }.
Definition CommandPeerSearch := CommandRSearch.
Record CommandPeerRecent := mkPeerRecentCmd { cpr_CommandPeer : CommandPeer; cpr_Page : Z }.
Definition CommandPeerPopular := CommandPeerRecent.
Definition CommandMirror := CommandPeer.
Definition CommandMirrorProgress := CommandPeer.
Record CommandPeerIndex := mkPeerIndexCmd { cpi_CommandPeer : CommandPeer; cpi_Since : Z }.
Record CommandMeta := mkMetaCmd { cm_PId : Z }.
Record CommandAddPost := mkAddPostCmd { cap_Post : Post; cap_Index : bool }.
Record CommandSelfIndex := mkSelfIndexCmd { csi_Since : Z }.
Definition CommandResolve := CommandPeer.
Definition CommandBootstrap := CommandPeer.
Record CommandSuggest := mkSuggestCmd { cs_Query : string }.
Record CommandSelfSearch := mkSelfSearchCmd { css_CommandSuggest : CommandSuggest; css_Page : Z }.
Record CommandSelfRecent := mkSelfRecentCmd { csr_Page : Z }.
Definition CommandSelfPopular := CommandSelfRecent.
Record CommandAddMeta := mkAddMetaCmd { cam_CommandMeta : CommandMeta; cam_Value : string }.
Definition CommandGetMeta := CommandMeta.
Record CommandLocalSet := mkLocalSetCmd { cls_Key : string; cls_Value : string }.
Record CommandLocalGet := mkLocalGetCmd { clg_Key : string }.
Record CommandAddressEncode := mkAddressEncodeCmd { cae_Raw : bytes }.
Record CommandSetSeedLeech := mkSetSeedLeechCmd { cssl_Id : Z; cssl_Seeders : Z; cssl_Leechers : Z }.
Record CommandNetMap := mkNetMapCmd { cnm_Address : string }.

(** A call of a method of the command server. *)
Inductive Command :=
| CmdPing (p : CommandPing)
| CmdAnnounce (a : CommandAnnounce)
| CmdRSearch (rs : CommandRSearch)
| CmdPeerSearch (ps : CommandPeerSearch)
| CmdEntrySearch (ps : CommandSearchEntry)
| CmdPeerRecent (pr : CommandPeerRecent)
| CmdPeerPopular (pp : CommandPeerPopular)
| CmdMirror (cm : CommandMirror)
| CmdGetMirrorProgress (cmp : CommandMirrorProgress)
| CmdPeerIndex (ci : CommandPeerIndex)
| CmdAddPost (ap : CommandAddPost)
| CmdSelfIndex (ci : CommandSelfIndex)
| CmdResolve (cr : CommandResolve)
| CmdBootstrap (cb : CommandBootstrap)
| CmdSelfSearch (s : CommandSelfSearch)
| CmdSelfSuggest (s : CommandSuggest)
| CmdSelfRecent (r : CommandSelfRecent)
| CmdSelfPopular (p : CommandSelfPopular)
| CmdAddMeta (cam : CommandAddMeta)
| CmdSaveCollection
| CmdRebuildCollection
| CmdPeers
| CmdRequestAddPeer (crap : CommandRequestAddPeer)
| CmdLocalSet (ls : CommandLocalSet)
| CmdLocalGet (lg : CommandLocalGet)
| CmdExplore
| CmdAddressEncode (ce : CommandAddressEncode)
| CmdStartCpuProfile (cf : CommandFile)
| CmdStopCpuProfile
| CmdMemProfile (cf : CommandFile)
| CmdSetSeedLeech (sl : CommandSetSeedLeech)
| CmdNetMap (cnm : CommandNetMap).

(** ** Execution *)

Section Exec.
Context {C : Crypto} {D : Sqlite} {R : SqlOrder} {K : Msgpack} {W : Network} (ru : Runtime).

Abbreviation net_args f := (f (ru_rand ru) (ru_maxPeers ru) (ru_iter ru)).

(** The method of a command; the fuel of the map is as in [http_NetMap]. *)
Definition exec (c : Command) : M CommandServer CommandResult :=
  match c with
  | CmdPing p => on_node (net_args Command_Ping (cp_Address p))
  | CmdAnnounce a => on_node (net_args Command_Announce (ru_external_ip ru) (cp_Address a))
  | CmdRSearch rs => on_node (net_args Command_RSearch (cp_Address (crs_CommandPeer rs)) (crs_Query rs) (crs_Page rs))
  | CmdPeerSearch ps => on_node (net_args Command_PeerSearch (cp_Address (crs_CommandPeer ps)) (crs_Query ps) (crs_Page ps))
  | CmdEntrySearch ps => on_node (Command_EntrySearch (cse_Name ps) (cse_Desc ps) (cse_Page ps))
  | CmdPeerRecent pr => on_node (net_args Command_PeerRecent (cp_Address (cpr_CommandPeer pr)) (cpr_Page pr))
  | CmdPeerPopular pp => on_node (net_args Command_PeerPopular (cp_Address (cpr_CommandPeer pp)) (cpr_Page pp))
  | CmdMirror cm => on_node (net_args Command_Mirror (ru_shuffle ru) (ru_open_db ru) (ru_spare ru) (cp_Address cm))
  | CmdGetMirrorProgress cmp => Command_GetMirrorProgress (cp_Address cmp)
  | CmdPeerIndex ci => on_node (Command_PeerIndex (cp_Address (cpi_CommandPeer ci)) (cpi_Since ci))
  | CmdAddPost ap => on_node (Command_AddPost (ru_grow ru) (cap_Post ap) (cap_Index ap))
  | CmdSelfIndex ci => on_node (Command_SelfIndex (csi_Since ci))
  | CmdResolve cr => on_node (net_args Command_Resolve (cp_Address cr))
  | CmdBootstrap cb => on_node (net_args Command_Bootstrap (cp_Address cb))
  | CmdSelfSearch s => on_node (Command_SelfSearch (cs_Query (css_CommandSuggest s)) (css_Page s))
  | CmdSelfSuggest s => on_node (Command_SelfSuggest
      (SearchProvider_Suggest (ru_IsLetter ru) (ru_IsNumber ru) (ru_runes ru) (ru_ScanWords ru) (ru_like ru)) (cs_Query s))
  | CmdSelfRecent r => on_node (Command_SelfRecent (csr_Page r))
  | CmdSelfPopular p => on_node (Command_SelfPopular (csr_Page p))
  | CmdAddMeta cam => on_node (Command_AddMeta (cm_PId (cam_CommandMeta cam)) (cam_Value cam))
  | CmdSaveCollection => on_node Command_SaveCollection
  | CmdRebuildCollection => on_node (Command_RebuildCollection (ru_grow ru))
  | CmdPeers => on_node (Command_Peers (ru_order ru))
  | CmdRequestAddPeer crap => on_node (net_args Command_RequestAddPeer (crap_Remote crap) (crap_Peer crap))
  | CmdLocalSet ls => on_node (Command_LocalSet (ru_ToLower ru) (cls_Key ls) (cls_Value ls))
  | CmdLocalGet lg => on_node (Command_LocalGet (ru_ToLower ru) (ru_to_json ru) (clg_Key lg))
  | CmdExplore => on_node (Command_Explore (ru_rand ru) (ru_shuffle ru))
  | CmdSetSeedLeech sl => on_node (Command_SetSeedLeech (cssl_Id sl) (cssl_Seeders sl) (cssl_Leechers sl))
  | CmdNetMap cnm => on_node (s ← get; Command_NetMap (S (length (entries (conn (lp_DHT (nd_lp s)))))) (cnm_Address cnm))
  | CmdAddressEncode ce => mret (Command_AddressEncode (cae_Raw ce))
  | CmdStartCpuProfile cf => mret (Command_StartCpuProfile (ru_create ru) (ru_start ru) (cf_File cf))
  | CmdStopCpuProfile => mret Command_StopCpuProfile
  | CmdMemProfile cf => mret (Command_MemProfile (ru_create ru) (ru_write ru) (cf_File cf))
  end.
End Exec.

(** ** Over HTTP *)

Section Sending.
(** The text of a post in JSON. *)
Context (marshal : Post -> string).

Definition form (l : list (string * string)) : gmap string string := list_to_map l.

(** The handler, the values of its path and the form that stand for a command. *)
Definition request_of (c : Command) : handler * list string * gmap string string :=
  match c with
  | CmdPing p => (Ping, [cp_Address p], ∅)
  | CmdAnnounce a => (Announce, [cp_Address a], ∅)
  | CmdRSearch rs =>
      (PeerRSearch, [cp_Address (crs_CommandPeer rs)], form [("query", crs_Query rs); ("page", Itoa (crs_Page rs))])
  | CmdPeerSearch ps =>
      (PeerSearch, [cp_Address (crs_CommandPeer ps)], form [("query", crs_Query ps); ("page", Itoa (crs_Page ps))])
  | CmdEntrySearch ps => (SearchEntry, [], form [("name", cse_Name ps); ("desc", cse_Desc ps); ("page", Itoa (cse_Page ps))])
  | CmdPeerRecent pr => (Recent, [cp_Address (cpr_CommandPeer pr); Itoa (cpr_Page pr)], ∅)
  | CmdPeerPopular pp => (Popular, [cp_Address (cpr_CommandPeer pp); Itoa (cpr_Page pp)], ∅)
  | CmdMirror cm => (Mirror, [cp_Address cm], ∅)
  | CmdGetMirrorProgress cmp => (MirrorProgress, [cp_Address cmp], ∅)
  | CmdPeerIndex ci => (PeerFtsIndex, [cp_Address (cpi_CommandPeer ci); Itoa (cpi_Since ci)], ∅)
  | CmdAddPost ap =>
      (AddPost, [], form [("data", marshal (cap_Post ap)); ("index", if cap_Index ap then "true" else "false")])
  | CmdSelfIndex ci => (FtsIndex, [Itoa (csi_Since ci)], ∅)
  | CmdResolve cr => (Resolve, [cp_Address cr], ∅)
  | CmdBootstrap cb => (Bootstrap, [cp_Address cb], ∅)
  | CmdSelfSearch s => (SelfSearch, [], form [("query", cs_Query (css_CommandSuggest s)); ("page", Itoa (css_Page s))])
  | CmdSelfSuggest s => (SelfSuggest, [], form [("query", cs_Query s)])
  | CmdSelfRecent r => (SelfRecent, [Itoa (csr_Page r)], ∅)
  | CmdSelfPopular p => (SelfPopular, [Itoa (csr_Page p)], ∅)
  | CmdAddMeta cam => (AddMeta, [Itoa (cm_PId (cam_CommandMeta cam))], form [("meta", cam_Value cam)])
  | CmdSaveCollection => (SaveCollection, [], ∅)
  | CmdRebuildCollection => (RebuildCollection, [], ∅)
  | CmdPeers => (Peers, [], ∅)
  | CmdRequestAddPeer crap => (RequestAddPeer, [crap_Remote crap; crap_Peer crap], ∅)
  | CmdLocalSet ls => (SelfSet, [cls_Key ls], form [("value", cls_Value ls)])
  | CmdLocalGet lg => (SelfGet, [clg_Key lg], ∅)
  | CmdExplore => (SelfExplore, [], ∅)
  | CmdAddressEncode ce => (AddressEncode, [], form [("raw", base64_EncodeToString (cae_Raw ce))])
  | CmdStartCpuProfile cf => (CpuProfile, [], form [("do", "start"); ("path", cf_File cf)])
  | CmdStopCpuProfile => (CpuProfile, [], form [("do", "stop")])
  | CmdMemProfile cf => (MemProfile, [], form [("path", cf_File cf)])
  | CmdSetSeedLeech sl =>
      (SetSeedLeech, [], form [("id", Itoa (cssl_Id sl)); ("seed", Itoa (cssl_Seeders sl)); ("leech", Itoa (cssl_Leechers sl))])
  | CmdNetMap _ => (NetMap, [], ∅)
  end%string.
End Sending.

Definition numbers_of (c : Command) : list Z :=
  match c with
  | CmdRSearch rs | CmdPeerSearch rs => [crs_Page rs]
  | CmdEntrySearch ps => [cse_Page ps]
  | CmdPeerRecent pr | CmdPeerPopular pr => [cpr_Page pr]
  | CmdPeerIndex ci => [cpi_Since ci]
  | CmdSelfIndex ci => [csi_Since ci]
  | CmdSelfSearch s => [css_Page s]
  | CmdSelfRecent r | CmdSelfPopular r => [csr_Page r]
  | CmdAddMeta cam => [cm_PId (cam_CommandMeta cam)]
  | CmdSetSeedLeech sl => [cssl_Id sl; cssl_Seeders sl; cssl_Leechers sl]
  | _ => []
  end.
Definition is_int64 (z : Z) : Prop := - 2 ^ 63 <= z < 2 ^ 63.

(** What a command has to be for HTTP to carry it: its numbers are [int]s and not negative
    where they become unsigned, what goes into the path is a part of a path, the post can be
    read back from its text, and a map is that of the own entry. *)
Definition sendable (ru : Runtime) (marshal : Post -> string) (own : Entry) (c : Command) : Prop :=
  Forall is_int64 (numbers_of c) /\ Forall plain (request_of marshal c).1.2 /\
  match c with
  | CmdAddPost ap => ru_Unmarshal ru (marshal (cap_Post ap)) = inl (cap_Post ap)
  | CmdSetSeedLeech sl => Forall (Z.le 0) (numbers_of c)
  | CmdNetMap cnm => cnm_Address cnm = Address_StringOr (EAddress own) ""
  | _ => True
  end.

Definition route_of (h : handler) : Route handler :=
  default (route "/" IndexHandler) (List.find (fun r => bool_decide (rt_handler r = h)) routes).
(** The path and the form to post. *)
Definition path_of (marshal : Post -> string) (c : Command) : string :=
  let '(h, vs, _) := request_of marshal c in url (route_of h) vs.
Definition form_of (marshal : Post -> string) (c : Command) : gmap string string := (request_of marshal c).2.

Lemma route_of_spec h : route_of h ∈ routes /\ rt_handler (route_of h) = h.
Proof.
  assert (List.find (fun r => bool_decide (rt_handler r = h)) routes = Some (route_of h)) as E by (destruct h; reflexivity).
  apply List.find_some in E as [H1 H2%bool_decide_eq_true]. split; [by apply list_elem_of_In|done].
Qed.

Section Served.
Context {C : Crypto} {D : Sqlite} {R : SqlOrder} {K : Msgpack} {W : Network} (ru : Runtime).

Lemma url_served h vs f s : length vs = length (names (template (rt_template (route_of h)))) -> Forall plain vs ->
  ServeHTTP ru "POST" (url (route_of h) vs) f s = handle ru h (mkRequest (zip (names (template (rt_template (route_of h)))) vs) f) s.
Proof.
  intros Hl Hp. destruct (route_of_spec h) as [Hr Hh]. unfold ServeHTTP. by rewrite (url_handled _ vs "POST" Hr Hl Hp), Hh by done.
Qed.

Lemma read_int text i (f : Z -> M CommandServer response) s : is_int64 i -> text = Itoa i -> with_int ru text f s = f i s.
Proof. intros Hi ->. by apply with_int_good, Atoi_Itoa. Qed.

Lemma wrap64_small z : is_int64 z -> 0 <= z -> wrap64 z = z.
Proof. unfold is_int64, wrap64. intros H0 H1. apply Z.mod_small. lia. Qed.
End Served.

(** C27. Every command can be had over HTTP. For each of the daemon's commands and whatever
    its arguments -- within what a path and an [int] can carry -- posting the form printed
    from it to the path printed from it is routed to the handler of this command and no
    other, its arguments are read back as they were, and the request does exactly what the
    method of the command server does, answering with its result. *)
Theorem command_served {C : Crypto} {D : Sqlite} {R : SqlOrder} {K : Msgpack} {W : Network}
    (ru : Runtime) (marshal : Post -> string) (c : Command) (s : CommandServer) :
  sendable ru marshal (lp_Entry (nd_lp (cs_node s))) c ->
  ServeHTTP ru "POST" (path_of marshal c) (form_of marshal c) s = (cr ← exec ru c; mret (write_http_response cr)) s.
Proof.
  intros (Hn & Hp & Hc). unfold path_of, form_of. destruct c; cbn [request_of fst snd numbers_of] in *;
    (rewrite url_served; [|reflexivity|exact Hp]); repeat (apply Forall_cons_1 in Hn as [? Hn]); cbn [handle].
  all: try reflexivity.
  all: try (etransitivity; [apply read_int; [eassumption|reflexivity]|reflexivity]).
  - cbn [sendable] in Hc. unfold http_AddPost. change (FormValue _ "data") with (marshal (cap_Post ap)). rewrite Hc. by destruct ap as [p []].
  - unfold http_AddressEncode. change (FormValue _ "raw") with (base64_EncodeToString (cae_Raw ce)). by rewrite base64_Decode_Encode.
  - unfold http_SetSeedLeech. 
    rewrite (read_int ru _ (cssl_Id sl)), (read_int ru _ (cssl_Seeders sl)), (read_int ru _ (cssl_Leechers sl)); [|done..].
    repeat (apply Forall_cons_1 in Hc as [? Hc]). by rewrite !wrap64_small.
  - unfold http_NetMap. cbn [exec]. rewrite Hc. reflexivity.
Qed.

(** ** Witness *)

#[local] Existing Instance toy_crypto.
#[local] Existing Instance toy_sqlite.
#[local] Existing Instance toy_order.
#[local] Existing Instance toy_msgpack.
#[local] Existing Instance toy_network.

(** The third page of the recent posts of a peer. *)
Definition toy_command : Command := CmdPeerRecent (mkPeerRecentCmd (mkPeerCmd (addr_str (raw_address (replicate 20 "a"%char)))) 3).

Lemma command_served_witness :
  path_of InfoHash toy_command = ("/peer/" +:+ addr_str (raw_address (replicate 20 "a"%char)) +:+ "/recent/3/")%string /\
  ServeHTTP toy_runtime "POST" (path_of InfoHash toy_command) (form_of InfoHash toy_command) toy_daemon =
    (cr ← exec toy_runtime toy_command; mret (write_http_response cr)) toy_daemon.
Proof.
  split; [vm_compute; reflexivity|]. apply (command_served toy_runtime InfoHash toy_command toy_daemon). split_and!.
  - apply Forall_cons_2; [|apply Forall_nil_2]. unfold is_int64. cbn [cpr_Page]. lia.
  - apply Forall_cons_2; [apply encode_plain|]. apply Forall_cons_2; [apply Itoa_plain; cbn [cpr_Page]; lia|apply Forall_nil_2].
  - exact I.
Defined.
