(* ===== verification/System.v ===== *)
(** The running daemon as a whole: requests of the HTTP interface, messages and
    connections of peers, the ticks of the background loops, in any order and whatever the
    network answers. Throughout, the node keeps its identity, and every post database its
    contract. *)

From stdpp Require Import sorting relations.
From S2P Require Import Prelude GoLib HttpLib Base58Check Crypto Address Entry Util Sqlite NetStore NetDB NetTable NetInv NetRun DHT DHTProps.
From S2P Require Import Post PieceStream PostDB PostDBProps DataProps Collection Proto Handshake StreamManager LocalPeer Client Peer PeerManager.
From S2P Require Import PeerManagerProps Explore ExploreJob SeedManager NetMap CommandServer HttpServer HttpProps.

(** ** What is kept *)

(** Identity and databases, against the local peer [lp0] of the start. *)
Record kept {K : Msgpack} (lp0 lp : LocalPeer) : Prop := {
  ke_address : lp_address lp = lp_address lp0;
  ke_key : lp_privateKey lp = lp_privateKey lp0;
  ke_entry : EAddress (lp_Entry lp) = EAddress (lp_Entry lp0) /\ PublicKey (lp_Entry lp) = PublicKey (lp_Entry lp0);
  ke_posts : pdb_wf (lp_Database lp);
  ke_mirrors : map_Forall (fun _ d => pdb_wf d) (lp_Databases lp);
}.

(** *** Databases *)

Section Databases.
Context {D : Sqlite} {R : SqlOrder}.

Lemma wf_query {A} (f : PostDb -> outcome A) : preserves pdb_wf (sql_query f).
Proof.
  intros d Hd. unfold sql_query, sql_stmt. cbn [faults PostDb_faulty]. destruct (pd_faults d) as [|[] fs]; exact Hd.
Qed.
Lemma wf_update id f : (forall p, Id (f p) = Id p /\ InfoHash (f p) = InfoHash p) -> preserves pdb_wf (update_id id f).
Proof. intros Hf. by apply keeps_preserves, keeps_update_id. Qed.
Lemma wf_GenerateFts since : preserves pdb_wf (Database_GenerateFts since).
Proof. apply keeps_preserves, keeps_GenerateFts. Qed.
Lemma wf_PostCount : preserves pdb_wf Database_PostCount.
Proof. apply keeps_preserves, keeps_PostCount. Qed.
Lemma wf_InsertPost p : preserves pdb_wf (Database_InsertPost p).
Proof. unfold Database_InsertPost. apply preserves_bind; [apply preserves_nop|]. intros _. apply keeps_preserves, keeps_insert_post. Qed.
#[local] Hint Resolve wf_query preserves_nop : zif.

Lemma wf_QueryPiece id store : preserves pdb_wf (Database_QueryPiece id store).
Proof. unfold Database_QueryPiece, sql_query_paged_post. preserves_tac. Qed.
Lemma wf_QueryPiecePosts start len : preserves pdb_wf (Database_QueryPiecePosts start len).
Proof. unfold Database_QueryPiecePosts, sql_query_paged_post. preserves_tac. Qed.
Lemma wf_QueryRecent page : preserves pdb_wf (Database_QueryRecent page).
Proof. apply wf_query. Qed.
Lemma wf_QueryPopular page : preserves pdb_wf (Database_QueryPopular page).
Proof. apply wf_query. Qed.
Lemma wf_Search q page size : preserves pdb_wf (Database_Search q page size).
Proof.
  unfold Database_Search. apply preserves_bind; [apply wf_query|]. intros ids.
  induction ids as [|id ids IH]; cbn [query_each]; unfold Database_QueryPostId, sql_query_post_id; preserves_tac.
Qed.
Lemma wf_AddMeta id v : preserves pdb_wf (Database_AddMeta id v).
Proof. unfold Database_AddMeta. apply preserves_bind; [apply preserves_nop|]. intros _. by apply wf_update. Qed.
Lemma wf_SetSeeders id n : preserves pdb_wf (Database_SetSeeders id n).
Proof. unfold Database_SetSeeders. apply preserves_bind; [apply preserves_nop|]. intros _. case_match; [by apply wf_update|apply preserves_fail]. Qed.
Lemma wf_SetLeechers id n : preserves pdb_wf (Database_SetLeechers id n).
Proof. unfold Database_SetLeechers. apply preserves_bind; [apply preserves_nop|]. intros _. case_match; [by apply wf_update|apply preserves_fail]. Qed.
#[local] Hint Resolve wf_QueryPiece wf_PostCount wf_Search : zif.

Lemma wf_CreateCollection `{Crypto} grow start size : preserves pdb_wf (CreateCollection grow start size).
Proof.
  unfold CreateCollection. apply preserves_bind; [apply wf_PostCount|]. intros n.
  generalize (Z.to_nat ((n + size - 1) / size)) 0 NewCollection. intros k.
  induction k as [|k IH]; intros i c; cbn [create_loop]; preserves_tac.
Qed.
Lemma wf_unfinished pieces : preserves pdb_wf (InsertPieces_unfinished pieces).
Proof.
  unfold InsertPieces_unfinished. apply preserves_bind_get. intros snap Hs.
  apply preserves_bind; [apply preserves_try, preserves_nop|]. intros [b|e]; [|apply preserves_fail].
  intros d Hd. destruct (insert_pieces_loop_wf (map Some pieces) 0 snap d Hs Hd) as [H1 H2]. unfold mbind, M_bind.
  destruct (insert_pieces_loop _ 0 snap d) as [d' [r|e|]]; cbn [fst snd] in *; [|done|done]. unfold modify. cbn. by apply H2.
Qed.
Lemma wf_SearchProvider source q page : preserves pdb_wf (SearchProvider_Search source q page).
Proof. unfold SearchProvider_Search. preserves_tac. Qed.
Lemma wf_Suggest a b c e f q : preserves pdb_wf (SearchProvider_Suggest a b c e f q).
Proof. unfold SearchProvider_Suggest, Database_Suggest, sql_suggest_posts. preserves_tac. Qed.
End Databases.

#[export] Hint Resolve wf_GenerateFts wf_PostCount wf_InsertPost wf_QueryPiece wf_QueryPiecePosts wf_QueryRecent wf_QueryPopular wf_Search
  wf_AddMeta wf_SetSeeders wf_SetLeechers wf_CreateCollection wf_unfinished wf_SearchProvider wf_Suggest InsertPieces_wf : zif.

(** *** The local peer *)

Section Local.
Context {C : Crypto} {D : Sqlite} {R : SqlOrder} {K : Msgpack} (lp0 : LocalPeer).

Lemma kept_get {A} (f : LocalPeer -> M LocalPeer A) :
  (forall lp, kept lp0 lp -> preserves (kept lp0) (f lp)) -> preserves (kept lp0) (get ≫= f).
Proof. intros Hf lp H. by apply Hf. Qed.
Lemma kept_DHT {A} (m : M NetDB A) : preserves (kept lp0) (on_DHT m).
Proof. intros lp []. unfold on_DHT, zoom. destruct (m _). by split. Qed.
Lemma kept_Database {A} (m : M PostDb A) : preserves pdb_wf m -> preserves (kept lp0) (on_Database m).
Proof. intros Hm lp []. unfold on_Database, zoom. specialize (Hm (lp_Database lp) ke_posts0). destruct (m _). by split. Qed.
Lemma kept_set_Entry f : (forall e, EAddress (f e) = EAddress e /\ PublicKey (f e) = PublicKey e) ->
  preserves (kept lp0) (modify (fun lp => set_Entry (f (lp_Entry lp)) lp)).
Proof. intros Hf. apply preserves_modify. intros lp [? ? [E1 E2] ? ?]. destruct (Hf (lp_Entry lp)) as [F1 F2]. split; try done. cbn. by rewrite F1, F2. Qed.
(** The entry that was read before is written back with other fields. *)
Lemma kept_put_Entry e : EAddress e = EAddress (lp_Entry lp0) /\ PublicKey e = PublicKey (lp_Entry lp0) ->
  preserves (kept lp0) (modify (set_Entry e)).
Proof. intros He. apply preserves_modify. intros lp []. by split. Qed.
Lemma kept_set_Collection c f : preserves (kept lp0) (modify (set_Collection c f)).
Proof. apply preserves_modify. intros lp []. by split. Qed.
Lemma kept_modify f : (forall lp, kept lp0 lp -> kept lp0 (f lp)) -> preserves (kept lp0) (modify f).
Proof. apply preserves_modify. Qed.
Lemma kept_WriteFile file : (forall n lp, kept lp0 lp -> kept lp0 (file n lp)) -> preserves (kept lp0) (WriteFile file).
Proof. apply preserves_WriteFile. intros fs lp []. by split. Qed.
Lemma kept_reply m : preserves (kept lp0) (LocalPeer.reply m).
Proof. intros lp []. unfold LocalPeer.reply. case_match; by split. Qed.
#[local] Hint Resolve kept_DHT kept_Database kept_set_Collection kept_reply : zif.
#[local] Hint Extern 3 (preserves (kept _) (WriteFile _)) => apply kept_WriteFile; by intros ? ? []; split : zif.
#[local] Hint Extern 4 (preserves (kept _) (modify _)) => apply kept_modify; by intros ? []; split : zif.
#[local] Hint Extern 3 (preserves (kept _) (modify _)) => apply kept_put_Entry; first [done | by match goal with H : kept _ _ |- _ => destruct H end] : zif.

Ltac kept_step :=
  match goal with
  | |- preserves (kept _) (get ≫= _) => apply kept_get; intros ? ?
  | _ => preserves_step
  end.
Ltac kept_tac := repeat kept_step.

Lemma kept_reply_ m : preserves (kept lp0) (reply_ m).
Proof. unfold reply_. kept_tac. Qed.
Lemma kept_read_address m : preserves (kept lp0) (read_address m).
Proof. unfold read_address. kept_tac. Qed.
#[local] Hint Resolve kept_reply_ kept_read_address : zif.

Lemma kept_SignEntry : preserves (kept lp0) LocalPeer_SignEntry.
Proof.
  unfold LocalPeer_SignEntry. apply kept_get. intros lp H. intros lp' H'. unfold lift, mbind, M_bind, SignEntry.
  destruct (ed25519_Sign (lp_privateKey lp) _) as [sig|x|]; [|done|done]. cbn. destruct H, H'. by split.
Qed.
#[local] Hint Resolve kept_SignEntry : zif.

Lemma kept_SaveEntry : preserves (kept lp0) LocalPeer_SaveEntry.
Proof. unfold LocalPeer_SaveEntry. kept_tac. Qed.
Lemma kept_AddEntry e : preserves (kept lp0) (LocalPeer_AddEntry e).
Proof. unfold LocalPeer_AddEntry. kept_tac. Qed.
#[local] Hint Resolve kept_SaveEntry kept_AddEntry : zif.
Lemma kept_AddSeeding e : preserves (kept lp0) (LocalPeer_AddSeeding e).
Proof. unfold LocalPeer_AddSeeding. kept_tac. Qed.
Lemma kept_QueryEntry a : preserves (kept lp0) (LocalPeer_QueryEntry a).
Proof. unfold LocalPeer_QueryEntry. kept_tac. Qed.
Lemma kept_AddPost grow p : preserves (kept lp0) (LocalPeer_AddPost grow p).
Proof. unfold LocalPeer_AddPost. kept_tac. Qed.

(** The handlers of messages. *)
Lemma kept_HandlePiece m : preserves (kept lp0) (HandlePiece m).
Proof.
  unfold HandlePiece. apply preserves_bind; [apply preserves_pure|]. intros v. case_match; try apply preserves_fail.
  apply kept_get. intros lp Hlp. apply preserves_bind.
  - case_bool_decide; [auto with zif|]. destruct (lp_Databases lp !! _) as [db|] eqn:E; [|apply preserves_fail].
    pose proof (wf_QueryPiecePosts (RP_Id r) (RP_Length r) db (ke_mirrors _ _ Hlp _ _ E)) as Hd.
    destruct (Database_QueryPiecePosts _ _ db) as [db' o]. apply preserves_bind; [|intros _; apply preserves_pure].
    apply preserves_modify. intros lp' []. split; try done. cbn. apply map_Forall_insert_2; [exact Hd|]. apply Hlp.
  - intros posts. apply preserves_modify. intros lp' []. case_match; by split.
Qed.
Lemma kept_handlers from m h : Client.route h (LocalPeer_handler from) = Some m -> forall msg, preserves (kept lp0) (m msg).
Proof.
  unfold Client.route. intros E msg. repeat case_bool_decide; try discriminate E; injection E as <-;
    cbn [h_Announce h_Query h_FindClosest h_Search h_Recent h_Popular h_HashList h_Piece h_AddPeer LocalPeer_handler];
    first [apply kept_HandlePiece | unfold HandleAnnounce, HandleQuery, HandleFindClosest, HandleSearch, HandleRecent, HandlePopular, HandleHashList, HandleAddPeer; kept_tac].
Qed.
Lemma kept_HandleStream from msgs is_open : preserves (kept lp0) (HandleStream msgs is_open (LocalPeer_handler from)).
Proof.
  revert is_open. induction msgs as [|m msgs IH]; intros is_open; cbn [HandleStream]; [apply preserves_ret|].
  case_match; [|apply preserves_ret]. apply preserves_bind; [|by intros]. unfold RouteMessage.
  destruct (Client.route (Header m) _) as [f|] eqn:E; [|apply preserves_ret]. apply preserves_bind; [|intros; apply preserves_ret].
  apply preserves_try. by eapply kept_handlers.
Qed.
End Local.

(** *** The node *)

Section Node.
Context {C : Crypto} {D : Sqlite} {R : SqlOrder} {K : Msgpack} {W : Network} (lp0 : LocalPeer).
Context (rand : nat -> option bytes) (maxPeers : Z) (iter : gmap string Z -> list (string * Z)).

Definition node_kept (s : Node) : Prop := kept lp0 (nd_lp s).

(** Code that changes nothing of the local peer but its DHT. *)
Lemma kept_frame {A} (m : M Node A) : (forall lp, preserves (only_DHT lp) m) -> preserves node_kept m.
Proof.
  intros Hm s Hs. assert (only_DHT (nd_lp s) s) as H0 by (unfold only_DHT; by destruct (nd_lp s)).
  specialize (Hm (nd_lp s) s H0). unfold only_DHT in Hm. unfold node_kept in *. rewrite <-Hm in Hs.
  destruct Hs. by split.
Qed.
Lemma kept_lp {A} (m : M LocalPeer A) : preserves (kept lp0) m -> preserves node_kept (on_lp m).
Proof. intros Hm s Hs. unfold on_lp, zoom, node_kept. specialize (Hm (nd_lp s) Hs). by destruct (m (nd_lp s)). Qed.
Lemma kept_node_get {A} (f : Node -> M Node A) :
  (forall s, node_kept s -> preserves node_kept (f s)) -> preserves node_kept (get ≫= f).
Proof. intros Hf s Hs. by apply Hf. Qed.
Lemma kept_mirror {A} name (m : M PostDb A) : preserves pdb_wf m -> preserves node_kept (on_mirror name m).
Proof.
  intros Hm. unfold on_mirror. apply kept_node_get. intros s Hs. destruct (lp_Databases (nd_lp s) !! name) as [db|] eqn:E; [|apply preserves_pure].
  specialize (Hm db (ke_mirrors _ _ Hs _ _ E)). destruct (m db) as [db' o]. apply preserves_bind; [|intros _; apply preserves_pure].
  apply kept_lp, preserves_modify. intros lp []. split; try done. cbn. apply map_Forall_insert_2; [exact Hm|]. apply Hs.
Qed.

Lemma kept_talk {A} (m : M net A) : preserves node_kept (nd_talk m).
Proof. apply kept_frame. intros lp. apply frame_talk. Qed.
Lemma kept_nd_DHT {A} (m : M NetDB A) : preserves node_kept (nd_DHT m).
Proof. apply kept_frame. intros lp. apply frame_DHT. Qed.
Lemma kept_deref p : preserves node_kept (deref p).
Proof. apply kept_frame. intros lp. apply frame_deref. Qed.
Lemma kept_store p x : preserves node_kept (store p x).
Proof. apply kept_frame. intros lp. apply frame_store. Qed.
Lemma kept_Ping p : preserves node_kept (Peer_Ping p).
Proof. apply kept_frame. intros lp. apply frame_Ping. Qed.
Lemma kept_OpenStream p : preserves node_kept (Peer_OpenStream p).
Proof. apply kept_frame. intros lp. apply frame_OpenStream. Qed.
Lemma kept_request {A} p (proc : Proc A) : preserves node_kept (request p proc).
Proof. apply kept_frame. intros lp. apply frame_request. Qed.
Lemma kept_Peer_Entry p : preserves node_kept (Peer_Entry p).
Proof. apply kept_frame. intros lp. apply frame_Entry. Qed.
Lemma kept_close a : preserves node_kept (PM_HandleCloseConnection a).
Proof. apply kept_frame. intros lp. apply frame_close. Qed.
Lemma kept_SetPeer p : preserves node_kept (PM_SetPeer maxPeers iter p).
Proof. apply kept_frame. intros lp. apply frame_SetPeer. Qed.
Lemma kept_ConnectPeerDirect a : preserves node_kept (PM_ConnectPeerDirect rand maxPeers iter a).
Proof. apply kept_frame. intros lp. apply frame_ConnectPeerDirect. Qed.
Lemma kept_ConnectPeer a : preserves node_kept (PM_ConnectPeer rand maxPeers iter a).
Proof. apply kept_frame. intros lp. apply frame_ConnectPeer. Qed.
Lemma kept_Resolve a : preserves node_kept (PM_Resolve rand maxPeers iter a).
Proof. apply kept_frame. intros lp. apply frame_Resolve. Qed.
Lemma kept_closing {A} c (m : M Node A) : preserves node_kept m -> preserves node_kept (closing c m).
Proof.
  intros Hm. unfold closing. apply preserves_bind; [by apply preserves_try|]. intros r.
  apply preserves_bind; [apply kept_talk|]. intros _. case_match; auto with zif.
Qed.
Lemma kept_node_modify f : (forall s, nd_lp (f s) = nd_lp s) -> preserves node_kept (modify f).
Proof. intros Hf. apply kept_frame. intros lp. by apply frame_modify. Qed.
End Node.

#[export] Hint Resolve kept_DHT kept_Database kept_SignEntry kept_SaveEntry kept_AddEntry kept_AddSeeding kept_QueryEntry kept_AddPost
  kept_HandleStream kept_set_Collection : zif.
#[export] Hint Resolve kept_lp kept_mirror kept_talk kept_nd_DHT kept_deref kept_store kept_Ping kept_OpenStream kept_request kept_Peer_Entry
  kept_close kept_SetPeer kept_ConnectPeerDirect kept_ConnectPeer kept_Resolve kept_closing : zif.
#[export] Hint Extern 3 (preserves (node_kept _) (modify _)) => by apply kept_node_modify : zif.
#[export] Hint Extern 3 (preserves (kept _) (modify (fun lp => set_Entry _ lp))) => by apply kept_set_Entry : zif.

Ltac node_step :=
  match goal with
  | |- preserves (node_kept _) (get ≫= _) => apply kept_node_get; intros ? ?
  | |- preserves (node_kept _) (closing _ _) => apply kept_closing
  | |- preserves (node_kept _) (on_lp _) => apply kept_lp
  | |- preserves (node_kept _) (on_mirror _ _) => apply kept_mirror
  | |- preserves (node_kept _) (on_posts _) => apply kept_lp, kept_Database
  | _ => preserves_step
  end.
Ltac node_tac := repeat node_step.

Section Ops.
Context {C : Crypto} {D : Sqlite} {R : SqlOrder} {K : Msgpack} {W : Network} (lp0 : LocalPeer).
Context (rand : nat -> option bytes) (maxPeers : Z) (iter : gmap string Z -> list (string * Z)).

(** *** Peers *)

Lemma kept_Query p a : preserves (node_kept lp0) (Peer_Query p a).
Proof. unfold Peer_Query. node_tac. Qed.
#[local] Hint Resolve kept_Query : zif.

Lemma kept_Announce ip p : preserves (node_kept lp0) (Peer_Announce ip p).
Proof. unfold Peer_Announce. node_tac. Qed.
Lemma kept_Bootstrap p : preserves (node_kept lp0) (Peer_Bootstrap p).
Proof. unfold Peer_Bootstrap. node_tac. Qed.
Lemma kept_AddSeedManager a : preserves (node_kept lp0) (PM_AddSeedManager a).
Proof. unfold PM_AddSeedManager. node_tac. Qed.
#[local] Hint Resolve kept_Announce kept_Bootstrap kept_AddSeedManager : zif.
Lemma kept_RequestAddPeer p e : preserves (node_kept lp0) (Peer_RequestAddPeer p e).
Proof. unfold Peer_RequestAddPeer. node_tac. Qed.
#[local] Hint Resolve kept_RequestAddPeer : zif.

Lemma kept_files a l : preserves (kept lp0) (WriteFile (mirrored_dat a l)).
Proof. apply kept_WriteFile. intros n lp []. by split. Qed.
#[local] Hint Resolve kept_files : zif.

Lemma kept_Peer_Mirror spare db p : preserves (node_kept lp0) (Peer_Mirror spare db p).
Proof. unfold Peer_Mirror, mirror_pieces, fetch_pieces, mirror_entry, Peer_GetEntry, block. node_tac. Qed.
#[local] Hint Resolve kept_Peer_Mirror : zif.

(** *** The background loops *)

Lemma kept_heartbeat p : preserves (node_kept lp0) (heartbeat_tick p).
Proof. unfold heartbeat_tick. node_tac. Qed.
Lemma kept_announce_tick ip p : preserves (node_kept lp0) (announce_tick ip p).
Proof. unfold announce_tick. node_tac. Qed.
Lemma kept_link_loop track left : forall n arr len, preserves (node_kept lp0) (link_loop rand maxPeers iter left n track arr len).
Proof. induction left as [|left IH]; intros n arr len; cbn [link_loop]; node_tac. Qed.
#[local] Hint Resolve kept_link_loop : zif.
Lemma kept_find_from track e i : preserves (node_kept lp0) (find_from rand maxPeers iter track e i).
Proof. unfold find_from, merge_reported, tracked_get, tracked_set. node_tac. Qed.
#[local] Hint Resolve kept_find_from : zif.
Lemma kept_find_loop track l : forall e, preserves (node_kept lp0) (find_loop rand maxPeers iter track e l).
Proof. induction l as [|i l IH]; intros e; cbn [find_loop]; node_tac. Qed.
#[local] Hint Resolve kept_find_loop : zif.
Lemma kept_find_seeds sm : preserves (node_kept lp0) (find_seeds rand maxPeers iter sm).
Proof. unfold find_seeds, tracked_entry. node_tac. Qed.
Lemma kept_query_self draw order : preserves (node_kept lp0) (query_self_tick rand maxPeers iter draw order).
Proof. unfold query_self_tick. node_tac. Qed.
Lemma kept_HandleHandshake h : preserves (node_kept lp0) (HandleHandshake maxPeers iter h).
Proof. unfold HandleHandshake, new_peer, Peer_SetTCP, Peer_ConnectServer, on_streams. node_tac. Qed.
#[local] Hint Resolve kept_HandleHandshake : zif.
Lemma kept_Listen a : preserves (node_kept lp0) (Server_Listen_round rand maxPeers iter a).
Proof. unfold Server_Listen_round, Server_Handshake. node_tac. Qed.
Lemma kept_ListenStream p evs : preserves (node_kept lp0) (Server_ListenStream p evs).
Proof.
  unfold Server_ListenStream. apply preserves_bind; [|intros r; node_tac].
  induction evs as [|[|id []] evs IH]; cbn [listen_streams]; unfold Peer_UpdateSeen, seen_now, now; node_tac.
Qed.
End Ops.

#[export] Hint Resolve kept_Query kept_Announce kept_Bootstrap kept_AddSeedManager kept_RequestAddPeer kept_Peer_Mirror kept_heartbeat
  kept_announce_tick kept_find_seeds kept_query_self kept_Listen kept_ListenStream : zif.

(** *** Commands and requests *)

Section Requests.
Context {C : Crypto} {D : Sqlite} {R : SqlOrder} {K : Msgpack} {W : Network} (lp0 : LocalPeer) (ru : Runtime).
(** The files of mirrored databases hold what the program wrote there. *)
Context (Hopen : forall a, pdb_wf (ru_open_db ru a)).

#[local] Notation rand := (ru_rand ru).
#[local] Notation maxPeers := (ru_maxPeers ru).
#[local] Notation iter := (ru_iter ru).

Lemma kept_with_address a f : (forall x, preserves (node_kept lp0) (f x)) -> preserves (node_kept lp0) (with_address a f).
Proof. intros Hf. unfold with_address. case_match; auto with zif. Qed.
Lemma kept_get_or_connect a f : (forall x, preserves (node_kept lp0) (f x)) -> preserves (node_kept lp0) (get_or_connect rand maxPeers iter a f).
Proof. intros Hf. unfold get_or_connect. node_tac. Qed.

Ltac command_tac := repeat first [ apply kept_with_address; intros ? | apply kept_get_or_connect; intros ? | node_step ].

Lemma kept_seeds_loop e l : forall p, preserves (node_kept lp0) (seeds_loop rand maxPeers iter e l p).
Proof. induction l as [|i l IH]; intros p; cbn [seeds_loop]; node_tac. Qed.
#[local] Hint Resolve kept_seeds_loop : zif.

Lemma kept_open_db name a : preserves (kept lp0) (modify (fun lp => set_Databases (<[name := ru_open_db ru a]> (lp_Databases lp)) lp)).
Proof. apply preserves_modify. intros lp []. split; try done. cbn. by apply map_Forall_insert_2. Qed.
#[local] Hint Resolve kept_open_db : zif.

Lemma kept_Command_Mirror a : preserves (node_kept lp0)
  (Command_Mirror rand maxPeers iter (ru_shuffle ru) (ru_open_db ru) (ru_spare ru) a).
Proof. unfold Command_Mirror. command_tac. Qed.

Lemma kept_peer_entries l : preserves (node_kept lp0) (peer_entries l).
Proof. induction l as [|p l IH]; cbn [peer_entries]; node_tac. Qed.
#[local] Hint Resolve kept_Command_Mirror kept_peer_entries : zif.

Lemma kept_LocalSet k v : preserves (node_kept lp0) (Command_LocalSet (ru_ToLower ru) k v).
Proof.
  unfold Command_LocalSet. destruct (local_field _) as [f|] eqn:E; [|apply preserves_ret].
  apply preserves_bind; [|intros _; node_tac]. apply kept_lp, kept_set_Entry. intros e.
  unfold local_field in E. repeat case_bool_decide; simplify_eq; done.
Qed.

Lemma kept_NetMap fuel a : preserves (node_kept lp0) (Command_NetMap fuel a).
Proof.
  unfold Command_NetMap. command_tac. destruct (CreateNetMap _ _ _) as [ms res]. node_tac.
  apply preserves_modify. intros lp []. by split.
Qed.
#[local] Hint Resolve kept_LocalSet kept_NetMap : zif.

Lemma kept_seedExplore shuffle : preserves (node_kept lp0) (seedExplore rand shuffle).
Proof. apply kept_frame. intros lp. apply frame_seed. Qed.
#[local] Hint Resolve kept_seedExplore : zif.

(** The command server around the node. *)
Definition server_kept (s : CommandServer) : Prop := node_kept lp0 (cs_node s).

Lemma kept_on_node {A} (m : M Node A) : preserves (node_kept lp0) m -> preserves server_kept (on_node m).
Proof. intros Hm s Hs. unfold on_node, zoom, server_kept. specialize (Hm (cs_node s) Hs). by destruct (m (cs_node s)). Qed.
Lemma kept_respond m : preserves (node_kept lp0) m -> preserves server_kept (respond m).
Proof. intros Hm. unfold respond. apply preserves_bind; [by apply kept_on_node|]. intros cr. apply preserves_ret. Qed.
Lemma kept_with_int t f : (forall i, preserves server_kept (f i)) -> preserves server_kept (with_int ru t f).
Proof. intros Hf. unfold with_int. case_match; auto with zif. Qed.
Lemma kept_server_get {A} (f : CommandServer -> M CommandServer A) : (forall s, preserves server_kept (f s)) -> preserves server_kept (get ≫= f).
Proof. intros Hf s Hs. by apply Hf. Qed.

Lemma kept_collection f g : preserves (kept lp0) (modify (fun lp => set_Collection (f lp) (g lp) lp)).
Proof. apply preserves_modify. intros lp []. by split. Qed.
#[local] Hint Resolve kept_collection : zif.

Lemma kept_Command_Ping a : preserves (node_kept lp0) (Command_Ping rand maxPeers iter a).
Proof. unfold Command_Ping. command_tac. Qed.
Lemma kept_Command_Announce a : preserves (node_kept lp0) (Command_Announce rand maxPeers iter (ru_external_ip ru) a).
Proof. unfold Command_Announce. command_tac. Qed.
Lemma kept_Command_RSearch a q n : preserves (node_kept lp0) (Command_RSearch rand maxPeers iter a q n).
Proof. unfold Command_RSearch, Peer_Search. command_tac. Qed.
#[local] Hint Resolve kept_Command_RSearch : zif.
Lemma kept_Command_PeerSearch a q n : preserves (node_kept lp0) (Command_PeerSearch rand maxPeers iter a q n).
Proof. unfold Command_PeerSearch, Command_RSearch, Peer_Search. command_tac. Qed.
Lemma kept_Command_EntrySearch a q n : preserves (node_kept lp0) (Command_EntrySearch a q n).
Proof. unfold Command_EntrySearch. command_tac. Qed.
Lemma kept_Command_PeerRecent a n : preserves (node_kept lp0) (Command_PeerRecent rand maxPeers iter a n).
Proof. unfold Command_PeerRecent, Peer_Recent. command_tac. Qed.
Lemma kept_Command_PeerPopular a n : preserves (node_kept lp0) (Command_PeerPopular rand maxPeers iter a n).
Proof. unfold Command_PeerPopular, Peer_Popular. command_tac. Qed.
Lemma kept_Command_PeerIndex a n : preserves (node_kept lp0) (Command_PeerIndex a n).
Proof. unfold Command_PeerIndex. command_tac. Qed.
Lemma kept_Command_AddPost p i : preserves (node_kept lp0) (Command_AddPost (ru_grow ru) p i).
Proof. unfold Command_AddPost. command_tac. Qed.
Lemma kept_Command_SelfIndex n : preserves (node_kept lp0) (Command_SelfIndex n).
Proof. unfold Command_SelfIndex. command_tac. Qed.
Lemma kept_Command_Resolve a : preserves (node_kept lp0) (Command_Resolve rand maxPeers iter a).
Proof. unfold Command_Resolve. command_tac. Qed.
Lemma kept_Command_Bootstrap a : preserves (node_kept lp0) (Command_Bootstrap rand maxPeers iter a).
Proof. unfold Command_Bootstrap. command_tac. Qed.
Lemma kept_Command_SelfSearch q n : preserves (node_kept lp0) (Command_SelfSearch q n).
Proof. unfold Command_SelfSearch. command_tac. Qed.
Lemma kept_Command_SelfRecent n : preserves (node_kept lp0) (Command_SelfRecent n).
Proof. unfold Command_SelfRecent. command_tac. Qed.
Lemma kept_Command_SelfPopular n : preserves (node_kept lp0) (Command_SelfPopular n).
Proof. unfold Command_SelfPopular. command_tac. Qed.
Lemma kept_Command_AddMeta n v : preserves (node_kept lp0) (Command_AddMeta n v).
Proof. unfold Command_AddMeta. command_tac. Qed.
Lemma kept_collection_dat c : preserves (kept lp0) (WriteFile (collection_dat c)).
Proof. apply kept_WriteFile. intros n lp []. by split. Qed.
#[local] Hint Resolve kept_collection_dat : zif.
Lemma kept_Command_SaveCollection : preserves (node_kept lp0) Command_SaveCollection.
Proof. unfold Command_SaveCollection. command_tac. Qed.
Lemma kept_Command_RebuildCollection : preserves (node_kept lp0) (Command_RebuildCollection (ru_grow ru)).
Proof. unfold Command_RebuildCollection. command_tac. Qed.
Lemma kept_Command_Peers : preserves (node_kept lp0) (Command_Peers (ru_order ru)).
Proof. unfold Command_Peers. command_tac. Qed.
Lemma kept_Command_RequestAddPeer a q : preserves (node_kept lp0) (Command_RequestAddPeer rand maxPeers iter a q).
Proof. unfold Command_RequestAddPeer. command_tac. Qed.
Lemma kept_Command_LocalGet k : preserves (node_kept lp0) (Command_LocalGet (ru_ToLower ru) (ru_to_json ru) k).
Proof. unfold Command_LocalGet. command_tac. Qed.
Lemma kept_Command_SetSeedLeech n i j : preserves (node_kept lp0) (Command_SetSeedLeech n i j).
Proof. unfold Command_SetSeedLeech. command_tac. Qed.
Lemma kept_Command_Explore : preserves (node_kept lp0) (Command_Explore rand (ru_shuffle ru)).
Proof. unfold Command_Explore, StartExploring. command_tac. Qed.
Lemma kept_Command_SelfSuggest q : preserves (node_kept lp0) (Command_SelfSuggest
  (SearchProvider_Suggest (ru_IsLetter ru) (ru_IsNumber ru) (ru_runes ru) (ru_ScanWords ru) (ru_like ru)) q).
Proof. unfold Command_SelfSuggest. command_tac. Qed.

Lemma kept_handle h r : preserves server_kept (handle ru h r).
Proof.
  destruct h; cbn [handle]; try apply preserves_ret; try apply kept_server_get; intros;
    repeat first [apply kept_with_int; intros | apply kept_respond];
    auto using kept_Command_Ping, kept_Command_Announce, kept_Command_RSearch, kept_Command_PeerSearch, kept_Command_EntrySearch,
      kept_Command_PeerRecent, kept_Command_PeerPopular, kept_Command_PeerIndex, kept_Command_SelfIndex, kept_Command_Resolve,
      kept_Command_Bootstrap, kept_Command_SelfSearch, kept_Command_SelfSuggest, kept_Command_SelfRecent, kept_Command_SelfPopular,
      kept_Command_AddMeta, kept_Command_SaveCollection, kept_Command_RebuildCollection, kept_Command_Peers, kept_Command_RequestAddPeer,
      kept_Command_LocalGet, kept_Command_SetSeedLeech, kept_Command_Explore, kept_Command_Mirror, kept_LocalSet, kept_NetMap with nocore.
  - unfold http_MirrorProgress, Command_GetMirrorProgress. apply preserves_bind; [|intros; apply preserves_ret].
    apply kept_server_get. intros s. apply preserves_ret.
  - unfold http_AddPost. case_match; [|apply preserves_ret]. apply kept_respond, kept_Command_AddPost.
Qed.

Lemma kept_ServeHTTP method path form : preserves server_kept (ServeHTTP ru method path form).
Proof. unfold ServeHTTP. case_match; [apply preserves_ret..|apply kept_handle]. Qed.
End Requests.

(** ** Events *)

Section Events.
Context {C : Crypto} {D : Sqlite} {R : SqlOrder} {K : Msgpack} {W : Network} (ru : Runtime).
Context (merge_order : list string -> list string).

Inductive event :=
| ERequest (method path : string) (form : gmap string string)     (* of the HTTP interface *)
| EProgress (address : string) (pieces : Z)                       (* of a running mirror *)
| EStream (from : Address) (incoming : list Message)              (* a stream of a peer *)
| EAccept (a : accepted)                                          (* a connection *)
| EStreams (p : nat) (events : list stream_event)                 (* the streams a peer opens *)
| EExplore (addr : Address) | EExploreMe (p : nat) | ESeedExplore | EFound (i : Entry)
| EFindSeeds (sm : SeedManager) | EQuerySelf (draw : Z -> option Z)
| EHeartbeat (p : nat) | EAnnounce (p : nat)
| EWorld (clock : Z) (n : net) (nanos : nat -> Z)                 (* time passes, the network moves, *)
    (faults : list (option file_fault)).                          (* the disk fails *)

Definition set_lp_clock (t : Z) (lp : LocalPeer) : LocalPeer :=
  mkLP (lp_Entry lp) (lp_address lp) (lp_privateKey lp) (lp_DHT lp) (lp_Database lp) (lp_Collection lp) (lp_Databases lp)
    (lp_collection_file lp) (lp_collection_files lp) (lp_entry_file lp) t (lp_written lp) (lp_stream lp) (lp_writable lp)
    (lp_file_faults lp).

(** The code that runs for an event; its result goes to whoever waits for it. *)
Definition ignore {S A} (m : M S A) : M S unit := _ ← m; mret tt.
Definition run_event (e : event) : M CommandServer unit :=
  match e with
  | ERequest method path form => ignore (ServeHTTP ru method path form)
  | EProgress a i => progress_received a i
  | EStream from incoming => on_node (on_lp (HandleStream incoming true (LocalPeer_handler from)))
  | EAccept a => ignore (on_node (Server_Listen_round (ru_rand ru) (ru_maxPeers ru) (ru_iter ru) a))
  | EStreams p evs => ignore (on_node (Server_ListenStream p evs))
  | EExplore a => ignore (on_node (explore_first (ru_rand ru) (ru_maxPeers ru) (ru_iter ru) a))
  | EExploreMe p => ignore (on_node (s ← get; explore_second (lp_address (nd_lp s)) p))
  | ESeedExplore => ignore (on_node (seedExplore (ru_rand ru) (ru_shuffle ru)))
  | EFound i => ignore (on_node (explore_found merge_order i))
  | EFindSeeds sm => ignore (on_node (find_seeds (ru_rand ru) (ru_maxPeers ru) (ru_iter ru) sm))
  | EQuerySelf draw => on_node (query_self_tick (ru_rand ru) (ru_maxPeers ru) (ru_iter ru) draw merge_order)
  | EHeartbeat p => ignore (on_node (heartbeat_tick p))
  | EAnnounce p => on_node (announce_tick (ru_external_ip ru) p)
  | EWorld t n nanos faults =>
      on_node (modify (fun s => set_clock nanos (set_net n (set_lp (set_file_faults faults (set_lp_clock t (nd_lp s))) s))))
  end.

(** The states after any sequence of events; a panic, which the HTTP server survives,
    leaves what was written before it. *)
Inductive reaches (s0 : CommandServer) : CommandServer -> Prop :=
| reach_start : reaches s0 s0
| reach_event s e : reaches s0 s -> reaches s0 (run_event e s).1.

Lemma preserves_ignore {S A} (P : S -> Prop) (m : M S A) : preserves P m -> preserves P (ignore m).
Proof. intros Hm. unfold ignore. apply preserves_bind; [done|]. intros a. apply preserves_ret. Qed.

Lemma kept_event lp0 e : (forall a, pdb_wf (ru_open_db ru a)) -> preserves (server_kept lp0) (run_event e).
Proof.
  intros Hopen. destruct e; cbn [run_event]; try apply preserves_ignore;
    first [by apply kept_ServeHTTP | apply preserves_modify; done | apply kept_on_node; auto with zif nocore | idtac].
  - apply kept_frame. intros lp. apply frame_first.
  - apply kept_node_get. intros s _. apply kept_frame. intros lp. apply frame_second.
  - apply kept_seedExplore.
  - apply kept_frame. intros lp. apply frame_found.
  - apply preserves_modify. intros s []. by split.
Qed.

Lemma kept_reaches lp0 s0 s : (forall a, pdb_wf (ru_open_db ru a)) -> server_kept lp0 s0 -> reaches s0 s -> server_kept lp0 s.
Proof. intros Hopen H0. induction 1 as [|s e _ IH]; [done|]. by apply kept_event. Qed.
End Events.

(** C1. The running daemon keeps its identity and its posts in order. Whatever requests
    arrive at the HTTP interface, whatever messages, connections and answers come from the
    network, however the background loops interleave and even where a handler panics, the
    address, the key and the address and key of the own entry stay those of the start, and
    in the own and in every mirrored database the ids count the posts and no info hash is
    stored twice. *)
Theorem daemon_invariant {C : Crypto} {D : Sqlite} {R : SqlOrder} {K : Msgpack} {W : Network} (ru : Runtime)
    (merge_order : list string -> list string) (s0 s : CommandServer) :
  let lp0 := nd_lp (cs_node s0) in
  pdb_wf (lp_Database lp0) -> (forall a d, lp_Databases lp0 !! a = Some d -> pdb_wf d) -> (forall a, pdb_wf (ru_open_db ru a)) ->
  reaches ru merge_order s0 s ->
  let lp := nd_lp (cs_node s) in
  lp_address lp = lp_address lp0 /\ lp_privateKey lp = lp_privateKey lp0 /\
  EAddress (lp_Entry lp) = EAddress (lp_Entry lp0) /\ PublicKey (lp_Entry lp) = PublicKey (lp_Entry lp0) /\
  pdb_wf (lp_Database lp) /\ (forall a d, lp_Databases lp !! a = Some d -> pdb_wf d).
Proof.
  intros lp0 Hd Hm Hopen Hr lp.
  assert (server_kept lp0 s) as [? ? [? ?] ? ?]; [|done].
  apply (kept_reaches ru merge_order lp0 s0 s Hopen); [|done]. by split.
Qed.

(** ** Witness *)

#[local] Existing Instance toy_crypto.
#[local] Existing Instance toy_sqlite.
#[local] Existing Instance toy_order.
#[local] Existing Instance toy_msgpack.
#[local] Existing Instance toy_network.

(** A request for a mirror, then a tick of the heartbeat. *)
Definition toy_request : event := ERequest "GET" "/peer/Zx/mirror/" ∅.
Definition toy_later : CommandServer :=
  (run_event toy_runtime (fun l => l) (EHeartbeat 0) (run_event toy_runtime (fun l => l) toy_request toy_daemon).1).1.

Lemma daemon_invariant_witness :
  let lp0 := nd_lp (cs_node toy_daemon) in let lp := nd_lp (cs_node toy_later) in
  lp_address lp = lp_address lp0 /\ lp_privateKey lp = lp_privateKey lp0 /\
  EAddress (lp_Entry lp) = EAddress (lp_Entry lp0) /\ PublicKey (lp_Entry lp) = PublicKey (lp_Entry lp0) /\
  pdb_wf (lp_Database lp) /\ (forall a d, lp_Databases lp !! a = Some d -> pdb_wf d).
Proof.
  apply (daemon_invariant toy_runtime (fun l => l) toy_daemon toy_later).
  - split; [reflexivity|constructor].
  - intros a d Hd. pose proof (eq_trans (eq_sym (lookup_empty a)) Hd). discriminate.
  - intros a. split; [reflexivity|constructor].
  - exact (reach_event _ _ _ _ (EHeartbeat 0) (reach_event _ _ _ _ toy_request (reach_start _ _ _))).
Defined.
