(* ===== verification/Daemon.v ===== *)
(** The start and the end of the daemon ([cmd/zifd/main.go]; [Setup], [Listen],
    [Close] and the key file of [localpeer.go]): what is read from the directory
    ./data, what is written to it, and the node that runs in between. *)

From stdpp Require Import sorting.
From S2P Require Import Prelude GoLib HttpLib Crypto Address Entry Util Sqlite NetStore NetDB DHT.
From S2P Require Import Post PieceStream PostDB Collection Proto Handshake StreamManager LocalPeer Client Peer PeerManager.

(** ** The disk *)

(** A file below ./data: its content as a database of posts, if it is one, and as
    bytes, if it can be read. *)
Record disk_file := mkFile { df_db : option PostDb; df_bytes : option bytes }.

Record Disk := mkDisk {
  dk_dir : bool;                               (* ./data is there *)
  dk_identity : option bytes;                  (* identity.dat *)
  dk_readable : bool;                          (* and can be read *)
  dk_write : option file_fault;                (* what keeps it from being written *)
  dk_peers : Db;                               (* peers.db *)
  dk_table : option (list (list Address));     (* table.dat *)
  dk_collection : option bytes;                (* collection.dat *)
  dk_entry : option Entry;                     (* entry.json *)
  dk_posts : PostDb;                           (* the file of the configuration *)
  dk_tree : list (string * disk_file);         (* all files, in the order of filepath.Walk *)
}.

Definition set_identity (i : option bytes) (dk : Disk) : Disk :=
  mkDisk (dk_dir dk) i (dk_readable dk) (dk_write dk) (dk_peers dk) (dk_table dk) (dk_collection dk) (dk_entry dk)
    (dk_posts dk) (dk_tree dk).

(** [os.Mkdir("./data", 0777)], whose error is dropped: a directory that was missing is
    empty. *)
Definition os_Mkdir (allowed : bool) (dk : Disk) : Disk :=
  if dk_dir dk || negb allowed then dk
  else mkDisk true None true (dk_write dk) (mkDb [] [] [] []) None None None (dk_posts dk) [].

(** ** The key *)

(** [PrivateKey.Public()]: 32 bytes from the second half, which must exist. *)
Definition PrivateKey_Public (priv : bytes) : outcome bytes :=
  if (length priv <? 32)%nat then Panic else Ok (take 32 (drop 32 priv ++ replicate 32 zero)).

(** [ioutil.ReadFile("./data/identity.dat")]. *)
Definition read_identity (dk : Disk) : option bytes :=
  if dk_dir dk && dk_readable dk then dk_identity dk else None.

(** [ReadKey()]: the private and the public key. *)
Definition ReadKey (dk : Disk) : outcome (bytes * bytes) :=
  match read_identity dk with
  | None => Err ErrEOF
  | Some pk => pub ← PrivateKey_Public pk; Ok (pk, pub)
  end.

(** [GenerateKey()]; [fresh] is the private key the package draws. *)
Definition GenerateKey (fresh : option bytes) : outcome (bytes * bytes) :=
  match fresh with
  | None => Panic
  | Some pk => pub ← PrivateKey_Public pk; Ok (pk, pub)
  end.

(** [WriteKey()]: identity.dat afterwards, and the error. *)
Definition WriteKey (privateKey : bytes) (dk : Disk) : option bytes * outcome unit :=
  if (length privateKey =? 0)%nat
  then (dk_identity dk, Err (ErrText "LocalPeer does not have a private key, please generate"))
  else if dk_dir dk then
    match dk_write dk with
    | None => (Some privateKey, Ok tt)
    | Some NotOpened => (dk_identity dk, Err (ErrText "open"))
    | Some (Cut n) => (Some (take n privateKey), Err (ErrText "write"))
    end
  else (dk_identity dk, Err (ErrText "open")).

(** ** The walk over the mirrored databases *)

(** [\w]. *)
Definition word_char (c : byte) : bool :=
  let v := bval c in
  ((48 <=? v) && (v <=? 57)) || ((65 <=? v) && (v <=? 90)) || (v =? 95) || ((97 <=? v) && (v <=? 122)).

Fixpoint span_word (l : bytes) : bytes * bytes :=
  match l with
  | [] => ([], [])
  | c :: l' => if word_char c then let '(w, r) := span_word l' in (c :: w, r) else ([], l)
  end.

(** "data/(\w+)/.+" at the start of [l]: the group. *)
Definition match_here (l : bytes) : option string :=
  match l with
  | "d"%char :: "a"%char :: "t"%char :: "a"%char :: "/"%char :: rest =>
      match span_word rest with
      | ((_ :: _) as w, "/"%char :: c :: _) => if Ascii.eqb c "010" then None else Some (to_string w)
      | _ => None
      end
  | _ => None
  end.

(** [FindStringSubmatch(path)], the leftmost match. *)
Fixpoint FindStringSubmatch (l : bytes) : option string :=
  match match_here l with
  | Some w => Some w
  | None => match l with [] => None | _ :: l' => FindStringSubmatch l' end
  end.

Definition base_name (path : string) : string := List.last (split_slash path) ""%string.

Section Daemon.
Context {C : Crypto} {D : Sqlite} {R : SqlOrder} {K : Msgpack} {W : Network}.

Abbreviation maps := (gmap string PostDb * gmap string bytes)%type.

(** The function that the walk calls for one file; an error ends the walk. *)
Definition walk_file (path : string) (f : disk_file) (m : maps) : outcome maps :=
  if negb (bool_decide (path = "data/posts.db"%string)) && bool_decide (base_name path = "posts.db"%string) then
    match df_db f with
    | None => Err ErrDriver
    | Some db =>
        match Database_Connect db with
        | (db', Ok _) =>
            match FindStringSubmatch (to_bytes path) with
            | None => Ok m
            | Some addr => Ok (<[addr := db']> m.1, m.2)
            end
        | (_, Err e) => Err e
        | (_, Panic) => Panic
        end
    end
  else if negb (bool_decide (path = "data/collection.dat"%string)) && bool_decide (base_name path = "collection.dat"%string) then
    match df_bytes f with
    | None => Err ErrEOF
    | Some dat =>
        match FindStringSubmatch (to_bytes path) with
        | None => Panic
        | Some addr => Ok (m.1, <[addr := dat]> m.2)
        end
    end
  else Ok m.
Fixpoint walk (tree : list (string * disk_file)) (m : maps) : outcome maps :=
  match tree with
  | [] => Ok m
  | (path, f) :: rest =>
      match walk_file path f m with
      | Ok m' => walk rest m'
      | Err _ => Ok m
      | Panic => Panic
      end
  end.

(** The files ./data/<address>/collection.dat, which are read by their paths. *)
Definition collection_files (tree : list (string * disk_file)) : gmap string bytes :=
  fold_left (fun m '(path, f) =>
    match split_slash path, df_bytes f with
    | [d; a; n], Some b =>
        if bool_decide (d = "data"%string) && bool_decide (n = "collection.dat"%string) then <[a := b]> m else m
    | _, _ => m
    end) tree ∅.

(** ** Setting up *)

Definition Entry_zero : Entry :=
  mkEntry (raw_address []) "" "" "" [] 0 0 (replicate SignatureSize zero) [] 0 [] [] 0 (raw_address []).

(** [Setup()] with the keys at hand; the local peer and the second map of the walk,
    which nothing reads. [spare] as in [LoadCollection], [faults] are those of the files
    that the peer is going to write. The address stays empty if the key has another size
    than 32. Without the directory peers.db cannot be opened. *)
Definition Setup (spare : nat) (clock : Z) (faults : list (option file_fault)) (dk : Disk) (keys : bytes * bytes) :
  outcome (LocalPeer * gmap string bytes) :=
  let address := (Address_Generate (raw_address []) keys.2).1 in
  dht ← (if dk_dir dk then NewDHT address (dk_peers dk) (dk_table dk) else Panic);
  let dht := (DHT_LoadTable dht).1 in
  let collection := match LoadCollection (dk_collection dk) spare with Ok c => c | _ => NewCollection end in
  m ← walk (dk_tree dk) (∅, ∅);
  Ok (mkLP Entry_zero address keys.1 dht (dk_posts dk) collection m.1 (dk_collection dk)
        (collection_files (dk_tree dk)) (dk_entry dk) clock [] [] true faults, m.2).

(** The compressions that [Setup] offers. *)
Definition Setup_capabilities : MessageCapabilities := mkCaps ["gzip"; "none"]%string.

(** [SetupLocalPeer(addr)]: a key that cannot be read is replaced; whether the new one
    can be written is not looked at. The first result is the disk with identity.dat as it
    is afterwards. *)
Definition SetupLocalPeer (spare : nat) (clock : Z) (faults : list (option file_fault)) (fresh : option bytes) (dk : Disk) :
  Disk * outcome LocalPeer :=
  match ReadKey dk with
  | Panic => (dk, Panic)
  | Ok keys => (dk, r ← Setup spare clock faults dk keys; Ok r.1)
  | Err _ =>
      match GenerateKey fresh with
      | Ok keys =>
          let dk' := set_identity (WriteKey keys.1 dk).1 dk in
          (dk', r ← Setup spare clock faults dk' keys; Ok r.1)
      | _ => (dk, Panic)
      end
  end.

(** ** [main] *)

Record Config := mkConfig {
  cf_bind : string;         (* bind.zif *)
  cf_tor : bool;            (* tor.enabled *)
  cf_tor_socks : Z;         (* tor.socks *)
  cf_socks : bool;          (* socks.enabled *)
  cf_socks_port : Z;        (* socks.port *)
}.

(** [port, _ := strconv.Atoi(s)]: the value that comes with an error is 0 for a
    syntax error and the nearest integer for a range error. *)
Definition Atoi_value (s : string) : Z :=
  match Atoi s with
  | Some z => z
  | None =>
      match to_bytes s with
      | "-"%char :: l => match parse_digits l with Some _ => - 2 ^ 63 | None => 0 end
      | "+"%char :: l => match parse_digits l with Some _ => 2 ^ 63 - 1 | None => 0 end
      | l => match parse_digits l with Some _ => 2 ^ 63 - 1 | None => 0 end
      end
  end.

(** [strings.Split(addr, ":")[1]] as a number. *)
Fixpoint split_colon (s : string) : list string :=
  match s with
  | EmptyString => [""%string]
  | String c r =>
      if Ascii.eqb c ":" then ""%string :: split_colon r
      else match split_colon r with h :: t => String c h :: t | [] => [String c ""] end
  end.
Definition bind_port (addr : string) : outcome Z :=
  match split_colon addr with _ :: p :: _ => Ok (Atoi_value p) | _ => Panic end.

Definition set_Port (n : Z) (e : Entry) : Entry :=
  mkEntry (EAddress e) (Name e) (Desc e) (PublicAddress e) (PublicKey e) (PostCount e) (Updated e)
    (Signature e) (CollectionHash e) n (Seeds e) (Seeding e) (Seen e) (distance e).

(** The proxy of the peer manager, off or on with its port. *)
Definition proxy (cfg : Config) : option Z :=
  if cf_tor cfg then Some (cf_tor_socks cfg) else if cf_socks cfg then Some (cf_socks_port cfg) else None.

(** The public address: the onion address with Tor (whose failure is a panic), with
    another proxy what was loaded, else the external one if there is none. *)
Definition public_address (cfg : Config) (onion : string + error) (external_ip : string) (e : Entry) : outcome Entry :=
  if cf_tor cfg then match onion with inl o => Ok (set_PublicAddress o e) | inr _ => Panic end
  else if cf_socks cfg then Ok e
  else Ok (if bool_decide (PublicAddress e = ""%string) then set_PublicAddress external_ip e else e).

(** From [LoadEntry] to the connected database. [SaveEntry] is called twice, and
    only its second error counts; an error there, or of the database, ends the
    process. *)
Definition prepare (cfg : Config) (port : Z) (onion : string + error) (external_ip : string) : M LocalPeer unit :=
  _ ← try LocalPeer_LoadEntry;
  lp ← get;
  e ← lift (public_address cfg onion external_ip (lp_Entry lp));
  pub ← lift (PrivateKey_Public (lp_privateKey lp));
  _ ← modify (set_Entry (Entry_SetLocalPeer (lp_address lp) pub (set_Port port e)));
  _ ← LocalPeer_SignEntry;
  _ ← try LocalPeer_SaveEntry;
  r ← try LocalPeer_SaveEntry;
  match r with
  | inr _ => lift Panic
  | inl _ =>
      c ← try (on_Database Database_Connect);
      match c with inr _ => lift Panic | inl _ => mret tt end
  end.

(** [Listen(addr)]: a seed manager for the own entry, and the entry signed again.
    The server, the search for seeds and the loops of the manager run from here. *)
Definition LocalPeer_Listen : M LocalPeer unit :=
  lp ← get;
  r ← try (LocalPeer_QueryEntry (EAddress (lp_Entry lp)));
  match r with
  | inr _ => lift Panic
  | inl _ => LocalPeer_SignEntry
  end.

(** The disk while the local peer runs, and after an end without [Close]: the databases and
    the files as they are. *)
Definition disk_of (dk : Disk) (tree : list (string * disk_file)) (lp : LocalPeer) : Disk :=
  mkDisk (dk_dir dk) (dk_identity dk) (dk_readable dk) (dk_write dk) (conn (lp_DHT lp)) (table_file (lp_DHT lp))
    (lp_collection_file lp) (lp_entry_file lp) (lp_Database lp) tree.

(** [main] from the settings up to the loops: the disk, and the node or the end of the
    process. *)
Record World := mkWorld {
  w_fresh : option bytes;           (* a new key *)
  w_spare : nat;
  w_clock : Z;
  w_onion : string + error;
  w_external_ip : string;
  w_net : net;
  w_nanos : nat -> Z;
  w_mkdir : bool;                                (* the directory can be created *)
  w_file_faults : list (option file_fault);      (* of the writes of the local peer *)
}.
Definition zifd (cfg : Config) (w : World) (dk : Disk) : Disk * outcome Node :=
  match bind_port (cf_bind cfg) with
  | Ok port =>
      match SetupLocalPeer (w_spare w) (w_clock w) (w_file_faults w) (w_fresh w) dk with
      | (dk', Ok lp) =>
          match (_ ← prepare cfg port (w_onion w) (w_external_ip w); LocalPeer_Listen) lp with
          | (lp, Ok _) =>
              (disk_of dk' (dk_tree dk') lp, Ok (mkNode lp Setup_capabilities []
                (mkPM ∅ ∅ ∅ ∅ (bool_decide (is_Some (proxy cfg))) (default 0 (proxy cfg))) (w_net w) (w_nanos w) false))
          | (lp, _) => (disk_of dk' (dk_tree dk') lp, Panic)
          end
      | (dk', _) => (dk', Panic)
      end
  | _ => (dk, Panic)
  end.

(** [Close()] and the exit: what is left on disk, with the routing table saved. The
    identity is as it was, [tree] are the mirrored files. *)
Definition LocalPeer_Close (dk : Disk) (tree : list (string * disk_file)) (s : Node) : Disk :=
  disk_of dk tree (set_DHT (DHT_SaveTable (lp_DHT (nd_lp s))).1 (nd_lp s)).
End Daemon.

Example submatch_1 : FindStringSubmatch (to_bytes "data/Zx9/posts.db") = Some "Zx9"%string.
Proof. reflexivity. Qed.
Example submatch_2 : FindStringSubmatch (to_bytes "data/a-b/posts.db") = None.
Proof. reflexivity. Qed.
