(* ===== verification/DaemonProps.v ===== *)
(** The properties of the start and the end of the daemon: a first start on an empty
    disk, a restart that finds the identity, the saved entry, the routing table and the
    posts again, that a first start without a public address ends the process, and that a
    name which JSON makes too long keeps the daemon from starting again. *)

From stdpp Require Import sorting.
From S2P Require Import Prelude GoLib HttpLib Base58Check Crypto Address Entry Util Sqlite NetStore NetDB NetTable NetInv NetRun DHT DHTProps.
From S2P Require Import Post PieceStream PostDB PostDBProps DataProps Collection CollectionProps Proto Handshake StreamManager LocalPeer Client.
From S2P Require Import Peer PeerManager PeerManagerProps Explore NetMap CommandServer CommandProps Daemon.

(** ** Opening the databases *)

Section Opening.
Context {C : Crypto} {D : Sqlite} {L : SqliteLaws D}.

Lemma run_statements_healthy n d : healthy d -> run_statements n d = (d, Ok tt).
Proof.
  intros Hd. induction n as [|n IH]; [done|]. cbn [run_statements].
  rewrite (run_bind _ _ _ d tt); [done|]. by rewrite sql_stmt_healthy.
Qed.

Lemma latest_loop_run d rows : db_wf address_text d -> healthy d ->
  exists es, latest_loop rows d = (d, Ok es) /\
    Forall2 (fun r e => e = set_Seeding (Seeding e) (set_Seeds (Seeds e) (entry_of_row r))) rows es.
Proof.
  intros Hw Hh. induction rows as [|r rows (es & E & HF)]; [by exists []|].
  destruct (addSeedToEntry_run d (entry_of_row r) (r_id r) Hw Hh) as (e & Ee & He & _).
  exists (e :: es). split; [|by constructor]. cbn [latest_loop].
  rewrite (run_bind _ _ _ _ _ Ee), (run_bind _ _ _ _ _ E). done.
Qed.

(** [NewDHT] and [LoadTable] on a healthy file. *)
Definition opened (own : Address) (d : Db) (file : option (list (list Address))) : NetDB :=
  mkNetDB (replicate (AddressBinarySize * 8) []) (map (fun n => mkSlice n 0) (seq 0 (AddressBinarySize * 8))) own d file.

Lemma NewDHT_healthy own d file : db_wf address_text d -> healthy d -> NewDHT own d file = Ok (opened own d file).
Proof.
  intros Hw Hh. unfold NewDHT, NewNetDB. rewrite run_statements_healthy by done. fold (opened own d file).
  destruct (latest_loop_run d (take 20 (rev (entries d))) Hw Hh) as (es & E & HF).
  assert (dbop QueryLatest (opened own d file) = (opened own d file, Ok es)) as ->.
  { rewrite (dbop_run _ _ d (Ok es)); [done|]. unfold QueryLatest, sqlQueryLatest.
    rewrite (run_bind _ _ d d (take 20 (rev (entries d)))) by (by rewrite query_healthy). exact E. }
  by rewrite (insert_latest _ _ _ HF).
Qed.

Lemma opened_inv own d file : length (Raw own) = AddressBinarySize -> db_wf address_text d ->
  match file with Some t => buckets_ok own t | None => True end -> ndb_inv (opened own d file).
Proof.
  intros Ho Hw Hf. split_and!; [|done|done]. split_and!; [done|exact new_layout|].
  unfold opened. rewrite empty_buckets. split; [done|]. intros i b Hb. apply lookup_replicate in Hb as [-> _].
  split_and!; [cbn; lia|constructor|constructor].
Qed.

Lemma Connect_healthy d : pdb_healthy d -> Database_Connect d = (d, Ok tt).
Proof.
  intros Hd. unfold Database_Connect. rewrite (run_try _ _ _ _ _ (nop_healthy d Hd)).
  rewrite !(run_bind _ _ _ _ _ (nop_healthy d Hd)). by apply nop_healthy.
Qed.

Lemma touch_idem a b : touch a (touch a b) = touch a b.
Proof.
  unfold touch. f_equal. rewrite filter_cons_False by (intros H; by apply H).
  assert (forall n l, filter (fun x => Raw x <> Raw a) (take n (filter (fun x => Raw x <> Raw a) l)) =
    take n (filter (fun x => Raw x <> Raw a) l)) as ->; [|by rewrite take_take, Nat.min_id].
  intros n l. assert (Forall (fun x => Raw x <> Raw a) (take n (filter (fun x => Raw x <> Raw a) l))) as H.
  { apply Forall_take, List.Forall_forall. intros x Hx%list_elem_of_In. by apply list_elem_of_filter in Hx as [? _]. }
  induction H as [|x k Hx _ IH]; [done|]. by rewrite filter_cons_True, IH.
Qed.

Lemma alter_touch_idem a i bs : alter (touch a) i (alter (touch a) i bs) = alter (touch a) i (bs : list (list Address)).
Proof.
  apply list_eq. intros j. destruct (decide (i = j)) as [->|Hj].
  - rewrite !list_lookup_alter_eq. destruct (bs !! j); [|done]. cbn. by rewrite touch_idem.
  - by rewrite !list_lookup_alter_ne.
Qed.
End Opening.

(** ** From the loaded entry to the running peer *)

Section Starting.
Context {C : Crypto} {CL : CryptoLaws C} {D : Sqlite} {L : SqliteLaws D} {R : SqlOrder} {K : Msgpack} {W : Network}.

Lemma signed_by_again lp lp' e :
  lp_privateKey lp' = lp_privateKey lp -> lp_clock lp' = lp_clock lp -> signed_by lp' (signed_by lp e) = signed_by lp e.
Proof. intros Hk Hc. unfold signed_by. rewrite Hk, Hc. reflexivity. Qed.

(** The two calls of [SaveEntry]: the second one succeeds. *)
Lemma SaveEntry_twice {B} lp (f : unit + error -> M LocalPeer B) :
  can_store lp (lp_Entry lp) ->
  let e := signed_by lp (lp_Entry lp) in
  exists d id i,
    (_ ← try LocalPeer_SaveEntry; r ← try LocalPeer_SaveEntry; f r) lp =
      f (inl tt) (set_entry_file (Some e) (set_DHT d (set_Entry e lp))) /\
    Entry_Verify (Some e) = Ok tt /\ ndb_inv d /\ healthy (conn d) /\
    find_address (addr_str (EAddress e)) (conn d) = Some (row_of id (addr_str (EAddress e)) e) /\
    bucket_index (ndb_addr (lp_DHT lp)) (EAddress e) = Ok (Z.of_nat i) /\
    buckets d = alter (touch (EAddress e)) i (buckets (lp_DHT lp)) /\ ndb_addr d = ndb_addr (lp_DHT lp).
Proof.
  intros H e. destruct (SaveEntry_stores lp H) as (d1 & id1 & err1 & i1 & E1 & Hv1 & Hi1 & Hh1 & Hf1 & _ & Hx1 & Hb1 & Ho1).
  fold e in E1, Hv1, Hf1, Hx1, Hb1.
  set (lp1 := set_entry_file (match err1 with None => Some e | Some _ => lp_entry_file lp end) (set_DHT d1 (set_Entry e lp))) in *.
  assert (can_store lp1 (lp_Entry lp1)) as H1 by (destruct (can_store_signed lp H); by split).
  destruct (SaveEntry_stores lp1 H1) as (d2 & id2 & err2 & i2 & E2 & Hv2 & Hi2 & Hh2 & Hf2 & Hs2 & Hx2 & Hb2 & Ho2).
  rewrite (Hs2 ltac:(unfold stored_own; change (lp_Entry lp1) with e; change (lp_DHT lp1) with d1; by rewrite Hf1)) in E2.
  assert (signed_by lp1 (lp_Entry lp1) = e) as Hse by (by apply (signed_by_again lp lp1)). rewrite Hse in *.
  change (lp_DHT lp1) with d1 in *. rewrite Ho1 in Hx2. assert (i2 = i1) as -> by (rewrite Hx1 in Hx2; injection Hx2; lia).
  exists d2, id2, i1. split_and!; try done.
  - assert ((try LocalPeer_SaveEntry) lp = (lp1, Ok (match err1 with None => inl tt | Some x => inr x end))) as Et.
    { unfold try. rewrite E1. by destruct err1. }
    rewrite (run_bind _ _ _ _ _ Et), (run_try _ _ _ _ _ E2). reflexivity.
  - rewrite Hb2, Hb1. apply alter_touch_idem.
  - by rewrite Ho2.
Qed.

Lemma LoadEntry_run lp : (try LocalPeer_LoadEntry) lp = (set_Entry (default (lp_Entry lp) (json_Entry <$> lp_entry_file lp)) lp,
  Ok (match lp_entry_file lp with Some _ => inl tt | None => inr ErrEOF end)).
Proof. unfold try, LocalPeer_LoadEntry. rewrite run_get. destruct (lp_entry_file lp) as [x|]; [done|]. cbn. by destruct lp. Qed.

(** The local peer once it is saved. *)
Definition saved (d : NetDB) (e : Entry) (lp : LocalPeer) : LocalPeer := set_entry_file (Some e) (set_DHT d (set_Entry e lp)).

(** The entry that [main] puts together from the loaded one. *)
Definition own_entry (lp : LocalPeer) (pub : bytes) (port : Z) (e : Entry) : Entry :=
  Entry_SetLocalPeer (lp_address lp) pub (set_Port port e).

Lemma prepare_run cfg port onion ip lp e1 pub :
  public_address cfg onion ip (default (lp_Entry lp) (json_Entry <$> lp_entry_file lp)) = Ok e1 ->
  PrivateKey_Public (lp_privateKey lp) = Ok pub ->
  can_store (set_Entry (own_entry lp pub port e1) lp) (own_entry lp pub port e1) -> pdb_healthy (lp_Database lp) ->
  let e := signed_by lp (own_entry lp pub port e1) in
  exists d id i,
    (_ ← prepare cfg port onion ip; LocalPeer_Listen) lp = (saved d e lp, Ok tt) /\
    Entry_Verify (Some e) = Ok tt /\ ndb_inv d /\ healthy (conn d) /\
    find_address (addr_str (EAddress e)) (conn d) = Some (row_of id (addr_str (EAddress e)) e) /\
    bucket_index (ndb_addr (lp_DHT lp)) (EAddress e) = Ok (Z.of_nat i) /\
    buckets d = alter (touch (EAddress e)) i (buckets (lp_DHT lp)) /\ ndb_addr d = ndb_addr (lp_DHT lp).
Proof.
  intros Hp Hpub H Hdb e. set (e2 := own_entry lp pub port e1) in *.
  set (lp2 := set_Entry e2 lp) in *. pose proof (can_store_signed lp2 H) as H3.
  set (lp3 := set_Entry (signed_by lp2 (lp_Entry lp2)) lp2) in *.
  assert (lp_Entry lp3 = e) as He3 by reflexivity.
  set (after := fun r : unit + error => match r with
    | inr _ => lift Panic
    | inl _ => c ← try (on_Database Database_Connect); match c with inr _ => lift Panic | inl _ => mret tt end
    end : M LocalPeer unit).
  destruct (SaveEntry_twice lp3 after) as (d & id & i & E & Hv & Hi & Hh & Hf & Hx & Hb & Ho); [done|].
  rewrite He3 in *. assert (signed_by lp3 e = e) as Hse by (by apply (signed_by_again lp)). rewrite Hse in *.
  exists d, id, i. split_and!; try done.
  assert (prepare cfg port onion ip lp = (saved d e lp, Ok tt)) as Epre.
  { unfold prepare.
    rewrite (run_bind _ _ _ _ _ (LoadEntry_run lp)), run_get. cbn [lp_Entry set_Entry]. rewrite (run_lift _ _ _ _ Hp).
    cbn [lp_privateKey set_Entry]. rewrite (run_lift _ _ _ _ Hpub), run_modify.
    change (set_Entry (Entry_SetLocalPeer _ pub (set_Port port e1)) _) with lp2.
    rewrite (run_bind _ _ _ _ _ (SignEntry_run lp2 H)). fold lp3.
    etrans; [exact E|]. unfold after.
    erewrite run_try.
    2: { unfold on_Database, zoom. rewrite Connect_healthy by done. reflexivity. }
    unfold saved. destruct lp; reflexivity. }
  rewrite (run_bind _ _ _ _ _ Epre). unfold LocalPeer_Listen. rewrite run_get.
  assert (LocalPeer_QueryEntry (EAddress (lp_Entry (saved d e lp))) (saved d e lp) = (saved d e lp, Ok e)) as Eq.
  { unfold LocalPeer_QueryEntry. rewrite run_get. change (EAddress (lp_Entry (saved d e lp))) with (lp_address lp).
    change (lp_address (saved d e lp)) with (lp_address lp). unfold Address_Equals. by rewrite bool_decide_true. }
  rewrite (run_try _ _ _ _ _ Eq). 
  rewrite SignEntry_run by (destruct H3; by split). change (lp_Entry (saved d e lp)) with e.
  assert (signed_by (saved d e lp) e = e) as -> by (by apply (signed_by_again lp)). done.
Qed.
End Starting.

(** ** The whole start *)

Section Booting.
Context {C : Crypto} {CL : CryptoLaws C} {D : Sqlite} {L : SqliteLaws D} {R : SqlOrder} {K : Msgpack} {W : Network}.

Lemma Public_of_key sk : length sk = PrivateKeySize -> PrivateKey_Public sk = Ok (ed25519_Public sk).
Proof.
  intros Hsk. unfold PrivateKey_Public, ed25519_Public. rewrite (proj2 (Nat.ltb_ge _ _)) by (rewrite Hsk; cbv; lia).
  f_equal. assert (length (drop 32 sk) = 32%nat) as Hl by (by rewrite length_drop, Hsk). by rewrite take_app_length' by done.
Qed.

(** The address of a private key. *)
Definition key_address (sk : bytes) : Address := NewAddress (ed25519_Public sk).

Lemma key_address_ok sk : length sk = PrivateKeySize ->
  length (Raw (key_address sk)) = AddressBinarySize /\ addr_fresh (key_address sk).
Proof.
  intros Hsk. unfold key_address, NewAddress, Address_Generate.
  assert (length (ed25519_Public sk) = 32%nat) as -> by (unfold ed25519_Public; by rewrite length_drop, Hsk).
  cbn. rewrite blake2b_length. split; [done|]. by right.
Qed.

(** A disk on which the daemon with the key [sk] can start. *)
Record bootable (sk : bytes) (dk : Disk) : Prop := {
  bo_key : length sk = PrivateKeySize;
  bo_dir : dk_dir dk = true;
  bo_wf : db_wf address_text (dk_peers dk);
  bo_healthy : healthy (dk_peers dk);
  bo_posts : pdb_healthy (dk_posts dk);
  bo_table : match dk_table dk with Some t => buckets_ok (key_address sk) t | None => True end;
  bo_tree : walk (dk_tree dk) (∅, ∅) <> Panic;
}.

Definition setup_peer (w : World) (sk : bytes) (dk : Disk) : LocalPeer :=
  mkLP Entry_zero (key_address sk) sk (DHT_LoadTable (opened (key_address sk) (dk_peers dk) (dk_table dk))).1 (dk_posts dk)
    (match LoadCollection (dk_collection dk) (w_spare w) with Ok c => c | _ => NewCollection end)
    (match walk (dk_tree dk) (∅, ∅) with Ok m => m.1 | _ => ∅ end) (dk_collection dk)
    (collection_files (dk_tree dk)) (dk_entry dk) (w_clock w) [] [] true (w_file_faults w).

Lemma walk_not_Err tree m e : walk tree m <> Err e.
Proof. revert m. induction tree as [|[p f] tree IH]; intros m; cbn [walk]; [done|]. by destruct (walk_file p f m). Qed.

Lemma Setup_run w sk dk : bootable sk dk ->
  (r ← Setup (w_spare w) (w_clock w) (w_file_faults w) dk (sk, ed25519_Public sk); Ok r.1) = Ok (setup_peer w sk dk).
Proof.
  intros H. unfold Setup, setup_peer. cbn [fst snd]. fold (NewAddress (ed25519_Public sk)). fold (key_address sk).
  rewrite (bo_dir _ _ H), NewDHT_healthy by apply H. cbn [mbind outcome_bind].
  destruct (walk (dk_tree dk) (∅, ∅)) as [m|e|] eqn:E; [done|by apply walk_not_Err in E|by destruct (bo_tree _ _ H)].
Qed.

Lemma setup_DHT w sk dk : bootable sk dk ->
  let lp := setup_peer w sk dk in
  ndb_inv (lp_DHT lp) /\ healthy (conn (lp_DHT lp)) /\ ndb_addr (lp_DHT lp) = key_address sk /\
  buckets (lp_DHT lp) = default (replicate (AddressBinarySize * 8) []) (dk_table dk).
Proof.
  intros H lp. destruct (key_address_ok sk (bo_key _ _ H)) as [Hl _].
  pose proof (opened_inv _ _ _ Hl (bo_wf _ _ H) (bo_table _ _ H)) as Hinv.
  split; [by apply (keeps_LoadTable (opened _ _ _))|].
  unfold lp, setup_peer, DHT_LoadTable. cbn [lp_DHT].
  destruct (dk_table dk) as [t|] eqn:Et.
  - destruct (LoadTable_buckets (opened (key_address sk) (dk_peers dk) (Some t)) t eq_refl) as [Hb _].
    rewrite Hb. split_and!; [apply H|done|done].
  - split_and!; [apply H|done|apply empty_buckets].
Qed.

(** A start with the key [sk], from the identity that is left on disk. *)
Definition key_of (w : World) (dk : Disk) (sk : bytes) (identity : option bytes) : Prop :=
  match read_identity dk with
  | Some k => k = sk /\ identity = dk_identity dk
  | None => w_fresh w = Some sk /\ identity = (WriteKey sk dk).1
  end.

Lemma key_of_first w dk sk : bootable sk dk -> dk_identity dk = None -> dk_write dk = None -> w_fresh w = Some sk ->
  key_of w dk sk (Some sk).
Proof.
  intros H Hi Hw Hf. unfold key_of, read_identity, WriteKey. rewrite Hi, Hw, (bo_dir _ _ H), (bo_key _ _ H).
  by destruct (dk_readable dk).
Qed.

Lemma bootable_identity sk dk i : bootable sk dk -> bootable sk (set_identity i dk).
Proof. intros []. by split. Qed.

Lemma SetupLocalPeer_run w dk sk identity : bootable sk dk -> key_of w dk sk identity ->
  SetupLocalPeer (w_spare w) (w_clock w) (w_file_faults w) (w_fresh w) dk = (set_identity identity dk, Ok (setup_peer w sk dk)).
Proof.
  intros H Hk. unfold SetupLocalPeer, ReadKey, key_of in *. pose proof (Public_of_key sk (bo_key _ _ H)) as Hp.
  destruct (read_identity dk) as [k|] eqn:Ei.
  - destruct Hk as [-> ->]. rewrite Hp. cbn [mbind outcome_bind].
    rewrite (Setup_run w sk dk H). by destruct dk.
  - destruct Hk as [-> ->]. unfold GenerateKey. rewrite Hp. cbn [mbind outcome_bind fst]. cbv zeta.
    by rewrite (Setup_run w sk _ (bootable_identity sk dk _ H)).
Qed.

(** What the entry of the start must meet. *)
Record startable (cfg : Config) (w : World) (dk : Disk) (sk : bytes) (port : Z) (e : Entry) : Prop := {
  st_port : bind_port (cf_bind cfg) = Ok port;
  st_public : public_address cfg (w_onion w) (w_external_ip w) (default Entry_zero (json_Entry <$> dk_entry dk)) = Ok e;
  st_signature : length (Signature e) = SignatureSize;
  st_sizes : entry_sizes (Entry_SetLocalPeer (key_address sk) (ed25519_Public sk) (set_Port port e));
  st_clock : w_clock w < 2 ^ 63;
  st_files : w_file_faults w = [];
}.

Lemma zifd_run cfg w dk sk identity port e1 :
  bootable sk dk -> key_of w dk sk identity -> startable cfg w dk sk port e1 ->
  let lp := setup_peer w sk dk in
  let e := signed_by lp (own_entry lp (ed25519_Public sk) port e1) in
  exists s d id i, zifd cfg w dk = (disk_of (set_identity identity dk) (dk_tree dk) (nd_lp s), Ok s) /\ nd_lp s = saved d e lp /\
    Entry_Verify (Some e) = Ok tt /\ ndb_inv d /\ healthy (conn d) /\
    find_address (addr_str (EAddress e)) (conn d) = Some (row_of id (addr_str (EAddress e)) e) /\
    buckets d = alter (touch (key_address sk)) i (default (replicate (AddressBinarySize * 8) []) (dk_table dk)) /\
    ndb_addr d = key_address sk /\
    nd_pm s = mkPM ∅ ∅ ∅ ∅ (bool_decide (is_Some (proxy cfg))) (default 0 (proxy cfg)).
Proof.
  intros H Hk Hs lp e. destruct (setup_DHT w sk dk H) as (Hinv & Hh & Ho & Hb).
  pose proof (Public_of_key sk (bo_key _ _ H)) as Hp. destruct (key_address_ok sk (bo_key _ _ H)) as [_ Hfr].
  destruct (prepare_run cfg port (w_onion w) (w_external_ip w) lp e1 (ed25519_Public sk))
    as (d & id & i & E & Hv & Hd & Hhd & Hf & _ & Hbd & Hod); [apply Hs|done| |apply H|].
  { split; try done; [apply H|apply Hs|apply Hs|apply Hs|apply Hs]. }
  exists (mkNode (saved d e lp) Setup_capabilities [] (mkPM ∅ ∅ ∅ ∅ (bool_decide (is_Some (proxy cfg))) (default 0 (proxy cfg)))
    (w_net w) (w_nanos w) false), d, id, i. split.
  { unfold zifd. rewrite (st_port _ _ _ _ _ _ Hs), (SetupLocalPeer_run w dk sk identity H Hk). fold lp. by rewrite E. }
  split_and!; try done; [by rewrite <-Hb|by rewrite Hod].
Qed.
End Booting.

(** C21. The first start without Tor and proxy, in a directory without identity and entry
    in which files can be written, when the web service answers with an address of 1 to 252
    bytes: the key that is drawn is written; the node that runs has the address of that
    key, and its entry carries this address, the external address and the port of the
    configuration, is validly signed, written to disk and stored in the database. *)
Theorem first_start {C : Crypto} {CL : CryptoLaws C} {D : Sqlite} {L : SqliteLaws D} {R : SqlOrder} {K : Msgpack} {W : Network}
    (cfg : Config) (w : World) (dk : Disk) (sk : bytes) (port : Z) :
  bootable sk dk -> dk_identity dk = None -> dk_write dk = None -> dk_entry dk = None -> w_fresh w = Some sk ->
  cf_tor cfg = false -> cf_socks cfg = false -> bind_port (cf_bind cfg) = Ok port -> port <= 65535 ->
  (1 <= slen (w_external_ip w) < 253)%nat -> w_clock w < 2 ^ 63 -> w_file_faults w = [] ->
  exists dk' s id, zifd cfg w dk = (dk', Ok s) /\
    let lp := nd_lp s in let e := lp_Entry lp in
    dk_identity dk' = Some sk /\ dk_entry dk' = Some e /\
    lp_privateKey lp = sk /\ lp_address lp = key_address sk /\ EAddress e = key_address sk /\
    PublicAddress e = w_external_ip w /\ Port e = port /\ Entry_Verify (Some e) = Ok tt /\
    find_address (addr_str (EAddress e)) (conn (lp_DHT lp)) = Some (row_of id (addr_str (EAddress e)) e).
Proof.
  intros H Hi Hw He Hf Ht Hs Hport Hp Hip Hc Hff. set (e1 := set_PublicAddress (w_external_ip w) Entry_zero).
  destruct (key_address_ok sk (bo_key _ _ H)) as [Hl _].
  destruct (zifd_run cfg w dk sk (Some sk) port e1) as (s & d & id & i & E & Hlp & Hv & _ & _ & Hr & _); [done| | |].
  { by apply key_of_first. }
  { split; try done.
    - unfold public_address. by rewrite Ht, Hs, He.
    - split_and!; [exact Hl|cbn; lia..|done|apply Hip|apply Hip|done]. }
  eexists _, s, id. split; [exact E|]. cbv zeta. rewrite Hlp. done.
Qed.

(** The hash list that is read from collection.dat. *)
Definition list_of_file (f : option bytes) : bytes :=
  match f with Some l => if Z.of_nat (length l) mod 32 =? 0 then l else [] | None => [] end.

Lemma loaded_list {C : Crypto} f spare :
  Collection_Save (match LoadCollection f spare with Ok c => c | _ => NewCollection end) = list_of_file f.
Proof.
  destruct f as [l|]; [|done]. unfold LoadCollection, list_of_file. destruct (_ =? 0); [|done]. cbn [negb].
  unfold Collection_Save. cbn [HashList Collection_Rehash]. unfold g_contents, g_make. cbn [g_len g_array].
  by rewrite take_app_length.
Qed.

(** C20. A restart, not over Tor, on what [Close] leaves, when identity.dat can be read,
    files can be written and the last saved entry is still within the limits once it has
    been through JSON: the daemon starts with the key of the disk and its address; the own
    entry is the last saved one, with its texts as JSON gives them back and its posts,
    hash, seeds and seeding, signed anew with the port of the configuration; the posts are
    there; the hash list is that of the last saved collection.dat, empty if there is none
    or its length is off; the routing table is the one at [Close], with the own address in
    front of its bucket. *)
Theorem restart_restores {C : Crypto} {CL : CryptoLaws C} {D : Sqlite} {L : SqliteLaws D} {R : SqlOrder} {K : Msgpack} {W : Network}
    (cfg : Config) (w : World) (s : Node) (dk : Disk) (tree : list (string * disk_file)) (e : Entry) (port : Z) :
  let lp := nd_lp s in
  ndb_inv (lp_DHT lp) -> healthy (conn (lp_DHT lp)) -> pdb_healthy (lp_Database lp) ->
  length (lp_privateKey lp) = PrivateKeySize -> ndb_addr (lp_DHT lp) = key_address (lp_privateKey lp) ->
  dk_dir dk = true -> dk_readable dk = true -> dk_identity dk = Some (lp_privateKey lp) ->
  lp_entry_file lp = Some e -> entry_sizes (json_Entry e) -> length (Signature e) = SignatureSize ->
  walk tree (∅, ∅) <> Panic ->
  cf_tor cfg = false -> bind_port (cf_bind cfg) = Ok port -> port <= 65535 -> w_clock w < 2 ^ 63 -> w_file_faults w = [] ->
  exists dk' s' i, zifd cfg w (LocalPeer_Close dk tree s) = (dk', Ok s') /\ dk_identity dk' = Some (lp_privateKey lp) /\
    let lp' := nd_lp s' in let e' := lp_Entry lp' in
    lp_privateKey lp' = lp_privateKey lp /\ lp_address lp' = key_address (lp_privateKey lp) /\
    (Name e', Desc e', PublicAddress e', PostCount e', CollectionHash e', Seeds e', Seeding e', Port e') =
      (json_string (Name e), json_string (Desc e), json_string (PublicAddress e), PostCount e, CollectionHash e,
       Seeds e, Seeding e, port) /\
    Entry_Verify (Some e') = Ok tt /\ lp_entry_file lp' = Some e' /\
    lp_Database lp' = lp_Database lp /\
    Collection_Save (lp_Collection lp') = list_of_file (lp_collection_file lp) /\
    buckets (lp_DHT lp') = alter (touch (key_address (lp_privateKey lp))) i (buckets (lp_DHT lp)) /\ ndb_inv (lp_DHT lp').
Proof.
  intros lp Hinv Hh Hdb Hk Ho Hdir Hread Hi He Hsz Hsig Htree Htor Hport Hp Hc Hff.
  set (dk1 := LocalPeer_Close dk tree s). set (sk := lp_privateKey lp) in *.
  destruct (key_address_ok sk Hk) as [Hl _].
  assert (bootable sk dk1) as H.
  { split; try done; [apply Hinv|]. cbn. rewrite <-Ho. apply Hinv. }
  destruct (zifd_run cfg w dk1 sk (Some sk) port (json_Entry e)) as (s' & d & id & i & E & Hlp & Hv & Hd & _ & _ & Hb & _); [done| | |].
  { unfold key_of, read_identity. cbn [dk1 dk_dir dk_readable dk_identity LocalPeer_Close disk_of]. by rewrite Hdir, Hread, Hi. }
  { split; try done.
    - unfold public_address. rewrite Htor. change (dk_entry dk1) with (lp_entry_file lp). rewrite He. cbn [fmap option_fmap option_map default from_option Datatypes.id].
      destruct (cf_socks cfg); [done|]. rewrite bool_decide_false; [done|]. intros Hx.
      destruct Hsz as (_ & _ & _ & _ & [H1 _] & _). rewrite Hx in H1. cbn in H1. lia.
    - destruct Hsz as (_ & Hn & Hde & Hse & Hpa & _). by split_and!; [exact Hl|exact Hn|exact Hde|exact Hse|apply Hpa..|]. }
  eexists _, s', i. split; [exact E|]. cbv zeta. rewrite Hlp. split_and!; try done. exact (loaded_list (lp_collection_file lp) (w_spare w)).
Qed.

(** ** A start that fails *)

Section Refused.
Context {C : Crypto} {CL : CryptoLaws C} {D : Sqlite} {L : SqliteLaws D} {R : SqlOrder} {K : Msgpack} {W : Network}.

(** A local peer with keys of the right sizes, and no public address or a name that is too
    long. *)
Definition refused_entry (e : Entry) : Prop := PublicAddress e = ""%string \/ (32 < slen (Name e))%nat.
Definition refused_peer (lp : LocalPeer) : Prop :=
  length (lp_privateKey lp) = PrivateKeySize /\ length (PublicKey (lp_Entry lp)) = PublicKeySize /\
  refused_entry (lp_Entry lp).

Lemma SignEntry_refused lp : refused_peer lp ->
  exists lp', LocalPeer_SignEntry lp = (lp', Ok tt) /\ refused_peer lp'.
Proof.
  intros (Hk & Hp & Ha). unfold LocalPeer_SignEntry. rewrite run_get. unfold SignEntry, ed25519_Sign. rewrite Hk.
  eexists. split; [reflexivity|]. done.
Qed.

Lemma Verify_refused lp : refused_peer lp -> exists x, Entry_Verify (Some (lp_Entry lp)) = Err x.
Proof.
  intros (_ & Hp & Ha). destruct (Entry_Verify (Some (lp_Entry lp))) as [[]|x|] eqn:E; [exfalso|by exists x|exfalso].
  - apply Verify_iff in E as [(_ & Hn & _ & _ & [H1 _] & _) _]. destruct Ha as [Ha|Ha]; [rewrite Ha in H1; cbn in H1; lia|lia].
  - revert E. unfold Entry_Verify, ed25519_Verify. rewrite Hp. cbn [Nat.eqb PublicKeySize negb].
    repeat case_match; cbn; repeat case_match; done.
Qed.

Lemma SaveEntry_refused lp : refused_peer lp ->
  exists lp' x, LocalPeer_SaveEntry lp = (lp', Err x) /\ refused_peer lp'.
Proof.
  intros H. destruct (SignEntry_refused lp H) as (lp1 & E1 & H1). destruct (Verify_refused lp1 H1) as [x Hx].
  exists (set_DHT (lp_DHT lp1) lp1), x. split; [|done]. unfold LocalPeer_SaveEntry. rewrite (run_bind _ _ _ _ _ E1), run_get.
  erewrite run_bind; [|unfold on_DHT, zoom, DHT_Insert; rewrite (insert_rejected _ _ _ Hx); reflexivity]. done.
Qed.

(** With such an entry nothing can be saved, and the process ends. *)
Lemma start_refused (cfg : Config) (w : World) (dk : Disk) (sk : bytes) (identity : option bytes) (e1 : Entry) :
  bootable sk dk -> key_of w dk sk identity ->
  public_address cfg (w_onion w) (w_external_ip w) (default Entry_zero (json_Entry <$> dk_entry dk)) = Ok e1 -> refused_entry e1 ->
  (zifd cfg w dk).2 = Panic.
Proof.
  intros H Hk Hpub Hno. unfold zifd. destruct (bind_port (cf_bind cfg)) as [port| |]; [|done|done].
  rewrite (SetupLocalPeer_run w dk sk identity H Hk). set (lp := setup_peer w sk dk).
  set (lp1 := set_Entry (default (lp_Entry lp) (json_Entry <$> lp_entry_file lp)) lp).
  set (lp2 := set_Entry (own_entry lp (ed25519_Public sk) port e1) lp1).
  assert (refused_peer lp2) as H2.
  { split_and!; [apply H| |done]. cbn. unfold ed25519_Public. by rewrite length_drop, (bo_key _ _ H). }
  destruct (SignEntry_refused lp2 H2) as (lp3 & E3 & H3).
  destruct (SaveEntry_refused lp3 H3) as (lp4 & x4 & E4 & H4). destruct (SaveEntry_refused lp4 H4) as (lp5 & x5 & E5 & _).
  assert (prepare cfg port (w_onion w) (w_external_ip w) lp = (lp5, Panic)) as E.
  { unfold prepare. rewrite (run_bind _ _ _ _ _ (LoadEntry_run lp)), run_get. fold lp1.
    rewrite (run_lift _ _ _ e1) by exact Hpub.
    rewrite (run_lift _ _ _ (ed25519_Public sk)) by (apply Public_of_key, H). rewrite run_modify.
    change (set_Entry (Entry_SetLocalPeer _ _ _) lp1) with lp2.
    rewrite (run_bind _ _ _ _ _ E3), (run_try_Err _ _ _ _ _ E4), (run_try_Err _ _ _ _ _ E5). done. }
  unfold mbind, M_bind. by rewrite E.
Qed.
End Refused.

(** A name of at most 32 bytes can be set and saved whatever its bytes are, but one that is
    not UTF-8 comes back from entry.json with three bytes for every wrong one. When it is
    longer than 32 bytes then, the daemon does not start again, and not over Tor either. *)
Theorem grown_name_ends {C : Crypto} {CL : CryptoLaws C} {D : Sqlite} {L : SqliteLaws D} {R : SqlOrder} {K : Msgpack} {W : Network}
    (cfg : Config) (w : World) (dk : Disk) (sk : bytes) (identity : option bytes) (e : Entry) :
  bootable sk dk -> key_of w dk sk identity -> dk_entry dk = Some e -> (32 < slen (json_string (Name e)))%nat ->
  (exists o, w_onion w = inl o) -> (zifd cfg w dk).2 = Panic.
Proof.
  intros H Hk He Hn [o Ho].
  assert (exists e1, public_address cfg (w_onion w) (w_external_ip w) (json_Entry e) = Ok e1 /\ Name e1 = json_string (Name e)) as (e1 & Hp & Hn1).
  { unfold public_address. rewrite Ho. destruct (cf_tor cfg); [by eexists|]. destruct (cf_socks cfg); [by eexists|].
    eexists. split; [done|]. by case_bool_decide. }
  apply (start_refused cfg w dk sk identity e1 H Hk); [by rewrite He|]. right. by rewrite Hn1.
Qed.

(** ** Witnesses *)

#[local] Existing Instance toy_crypto.
#[local] Existing Instance toy_laws.
#[local] Existing Instance toy_sqlite.
#[local] Existing Instance toy_sqlite_laws.
#[local] Existing Instance toy_order.
#[local] Existing Instance toy_msgpack.
#[local] Existing Instance toy_network.

Definition toy_disk : Disk :=
  mkDisk true None true None (mkDb [] [] [] []) None (Some []) None (mkPostDb [] [] 0 [])
    [("data/Zx/posts.db"%string, mkFile (Some (mkPostDb [] [] 0 [])) None)].
Definition toy_world : World :=
  mkWorld (Some toy_sk) 0 1500000000 (inr ErrEOF) "192.0.2.1" (nd_net (toy_node [])) (fun _ => 0) true [].
Definition toy_config (socks : bool) : Config := mkConfig "0.0.0.0:5050" false 0 socks 10050.

Lemma toy_bootable : bootable toy_sk toy_disk.
Proof.
  split; try done. exact toy_db_wf.
Qed.

Lemma first_start_witness :
  exists dk' s id, zifd (toy_config false) toy_world toy_disk = (dk', Ok s) /\
    let lp := nd_lp s in let e := lp_Entry lp in
    dk_identity dk' = Some toy_sk /\ dk_entry dk' = Some e /\
    lp_privateKey lp = toy_sk /\ lp_address lp = key_address toy_sk /\ EAddress e = key_address toy_sk /\
    PublicAddress e = "192.0.2.1"%string /\ Port e = 5050 /\ Entry_Verify (Some e) = Ok tt /\
    find_address (addr_str (EAddress e)) (conn (lp_DHT lp)) = Some (row_of id (addr_str (EAddress e)) e).
Proof.
  apply (first_start (toy_config false) toy_world toy_disk toy_sk 5050 toy_bootable);
    first [reflexivity | cbn; lia].
Defined.

(** The node of that first start, and the disk while it runs. *)
Definition toy_started : Node := match (zifd (toy_config false) toy_world toy_disk).2 with Ok s => s | _ => toy_node [] end.
Definition toy_running : Disk := (zifd (toy_config false) toy_world toy_disk).1.

Lemma toy_started_inv : ndb_inv (lp_DHT (nd_lp toy_started)).
Proof.
  destruct (zifd_run (toy_config false) toy_world toy_disk toy_sk (Some toy_sk) 5050 (set_PublicAddress "192.0.2.1" Entry_zero))
    as (s & d & id & i & E & Hlp & _ & Hd & _); [exact toy_bootable|by split| |].
  { split; try done. unfold entry_sizes. split_and!; first [by vm_compute | apply Nat.leb_le; by vm_compute | apply Z.leb_le; by vm_compute]. }
  unfold toy_started. rewrite E. cbn [snd]. by rewrite Hlp.
Qed.

Lemma restart_restores_witness :
  exists e dk' s' i, lp_entry_file (nd_lp toy_started) = Some e /\
    zifd (toy_config true) toy_world (LocalPeer_Close toy_running [] toy_started) = (dk', Ok s') /\
    lp_address (nd_lp s') = key_address toy_sk /\ Name (lp_Entry (nd_lp s')) = json_string (Name e) /\
    buckets (lp_DHT (nd_lp s')) = alter (touch (key_address toy_sk)) i (buckets (lp_DHT (nd_lp toy_started))).
Proof.
  destruct (restart_restores (toy_config true) toy_world toy_started toy_running [] (lp_Entry (nd_lp toy_started)) 5050)
    as (dk' & s' & i & E & _ & H1 & H2 & H3 & H4 & H5 & H6 & H7 & H8 & H9).
  - exact toy_started_inv.
  - vm_compute. reflexivity.
  - vm_compute. reflexivity.
  - vm_compute. reflexivity.
  - vm_compute. reflexivity.
  - vm_compute. reflexivity.
  - vm_compute. reflexivity.
  - vm_compute. reflexivity.
  - vm_compute. reflexivity.
  - unfold entry_sizes. split_and!; first [by vm_compute | apply Nat.leb_le; by vm_compute | apply Z.leb_le; by vm_compute].
  - vm_compute. reflexivity.
  - vm_compute. discriminate.
  - reflexivity.
  - reflexivity.
  - lia.
  - reflexivity.
  - reflexivity.
  - exists (lp_Entry (nd_lp toy_started)), dk', s', i. split; [vm_compute; reflexivity|].
    split; [exact E|]. split; [exact H2|]. split; [exact (f_equal (fun t => t.1.1.1.1.1.1.1) H3)|]. exact H8.
Defined.

(** A name of eleven bytes that are no UTF-8. *)
Definition toy_latin : Disk :=
  mkDisk true (Some toy_sk) true None (mkDb [] [] [] []) None (Some [])
    (Some (set_Name_Desc (to_string (replicate 11 (byte_of 233))) "" (lp_Entry (nd_lp toy_started)))) (mkPostDb [] [] 0 []) [].

Lemma grown_name_ends_witness :
  (zifd (toy_config false) (mkWorld None 0 1500000000 (inl "x.onion"%string) "192.0.2.1" (nd_net (toy_node [])) (fun _ => 0) true []) toy_latin).2 = Panic.
Proof.
  eapply (grown_name_ends (toy_config false) _ toy_latin toy_sk (Some toy_sk)).
  - split; try done. exact toy_db_wf.
  - by split.
  - reflexivity.
  - apply Nat.ltb_lt. vm_compute. reflexivity.
  - by exists "x.onion"%string.
Defined.
