(* ===== verification/Outside.v ===== *)
(** The services outside of the process that a start asks for its public address: the
    control port of Tor ([tor.go]) and a web service ([nat.go]). *)

From stdpp Require Import sorting.
From S2P Require Import Prelude GoLib HttpLib Base58Check Crypto Address Entry Util Sqlite NetStore NetDB NetTable NetInv NetRun DHT DHTProps.
From S2P Require Import Post PieceStream PostDB PostDBProps DataProps Collection CollectionProps Proto Handshake StreamManager.
From S2P Require Import LocalPeer Client Peer PeerManager PeerManagerProps Explore NetMap CommandServer CommandProps Daemon DaemonProps.

(** ** [strings.TrimSpace] *)

(** The UTF-8 encodings of the characters that [unicode.IsSpace] accepts. *)
Definition space_runes : list bytes :=
  map (fun c => [ascii_of_N c]) [9; 10; 11; 12; 13; 32]%N ++
  map (map ascii_of_N) [[194; 133]; [194; 160]; [225; 154; 128];
    [226; 128; 128]; [226; 128; 129]; [226; 128; 130]; [226; 128; 131]; [226; 128; 132]; [226; 128; 133];
    [226; 128; 134]; [226; 128; 135]; [226; 128; 136]; [226; 128; 137]; [226; 128; 138];
    [226; 128; 168]; [226; 128; 169]; [226; 128; 175]; [226; 129; 159]; [227; 128; 128]]%N.

Fixpoint strip (pre l : bytes) : option bytes :=
  match pre, l with
  | [], _ => Some l
  | a :: pre', b :: l' => if Ascii.eqb a b then strip pre' l' else None
  | _ :: _, [] => None
  end.

(** What follows one of the sequences, if the text starts with one. *)
Definition strip_any (seqs : list bytes) (l : bytes) : option bytes :=
  fold_right (fun r rest => match strip r l with Some l' => Some l' | None => rest end) None seqs.

(** Every round takes at least a byte. *)
Fixpoint trim_left (n : nat) (seqs : list bytes) (l : bytes) : bytes :=
  match n with
  | O => l
  | S n' => match strip_any seqs l with Some l' => trim_left n' seqs l' | None => l end
  end.
Definition TrimSpace (s : string) : string :=
  let l := trim_left (slen s) space_runes (to_bytes s) in
  to_string (rev (trim_left (length l) (map (@rev _) space_runes) (rev l))).

(** ** Tor *)

(** What the control port answers: the errors of the dial, of the authentication with
    the cookie file and of the creation of the service in a directory, with its port and
    target; and the content of the file hostname there, if it can be read. *)
Record Outside := mkOutside {
  ou_Dial : string -> option error;
  ou_CookieAuthenticate : string -> option error;
  ou_CreateHiddenService : string -> Z -> string -> option error;
  ou_hostname : option string;
  ou_http : string -> option (option string);   (* Get, then ReadAll of the body *)
}.

(** [torc.ReadOnion(serviceDir)]. *)
Definition ReadOnion (o : Outside) : string * option error :=
  match ou_hostname o with
  | None => (""%string, Some (ErrText "reading Tor hidden service hostname file"))
  | Some onion => (onion, None)
  end.

(** [SetupZifTorService(port, tor, cookie)] in the directory of the program: the onion
    address. The error of [ReadOnion] is not looked at. *)
Definition SetupZifTorService (o : Outside) (serviceDir : string) (port tor : Z) (cookie : string) : string + error :=
  match ou_Dial o ("127.0.0.1:" +:+ Itoa tor) with
  | Some e => inr e
  | None =>
      match ou_CookieAuthenticate o cookie with
      | Some e => inr e
      | None =>
          match ou_CreateHiddenService o serviceDir port ("127.0.0.1:" +:+ Itoa port) with
          | Some e => inr e
          | None => inl (TrimSpace (ReadOnion o).1)
          end
      end
  end.

(** ** The external address *)

(** [ExternalIp()]. *)
Definition ExternalIp (o : Outside) : string :=
  match ou_http o "https://api.ipify.org/" with
  | Some (Some ret) => ret
  | _ => ""%string
  end.

(** The world of a start, with the services asked the way [main] asks them. *)
Definition with_outside {K : Msgpack} {W : Network} (o : Outside) (serviceDir : string) (port control : Z) (cookiePath : string) (w : World) : World :=
  mkWorld (w_fresh w) (w_spare w) (w_clock w) (SetupZifTorService o serviceDir port control (cookiePath +:+ "/cookie"))
    (ExternalIp o) (w_net w) (w_nanos w) (w_mkdir w) (w_file_faults w).

(** ** Properties *)

Lemma strip_app r l l' : strip r l = Some l' <-> l = r ++ l'.
Proof.
  revert l. induction r as [|a r IH]; intros l; cbn [strip app]; [split; congruence|].
  destruct l as [|b l]; [done|]. destruct (Ascii.eqb_spec a b) as [->|Hne]; [|by split; congruence].
  rewrite IH. split; congruence.
Qed.

Lemma strip_any_Some seqs l l' : strip_any seqs l = Some l' -> exists r, r ∈ seqs /\ l = r ++ l'.
Proof.
  induction seqs as [|r seqs IH]; [done|]. cbn [strip_any fold_right]. destruct (strip r l) as [l0|] eqn:E.
  - intros [= <-]. apply strip_app in E. exists r. set_solver.
  - intros H. destruct (IH H) as (r' & ? & ?). exists r'. set_solver.
Qed.

Lemma strip_any_None seqs l : strip_any seqs l = None -> forall r l', r ∈ seqs -> l <> r ++ l'.
Proof.
  induction seqs as [|r seqs IH]; intros H r' l' Hr; [set_solver|]. cbn [strip_any fold_right] in H.
  destruct (strip r l) as [l0|] eqn:E; [done|]. apply elem_of_cons in Hr as [->|Hr]; [|by apply IH].
  intros ->. assert (strip r (r ++ l') = Some l') as E' by (by apply strip_app). congruence.
Qed.

(** Enough rounds leave a text that starts with none of the sequences. *)
Lemma trim_left_spec seqs n : Forall (fun r => r <> []) seqs -> forall l, (length l <= n)%nat ->
  exists pre, l = concat pre ++ trim_left n seqs l /\ Forall (fun r => r ∈ seqs) pre /\ strip_any seqs (trim_left n seqs l) = None.
Proof.
  intros Hne. assert (strip_any seqs [] = None) as Hnil.
  { destruct (strip_any seqs []) as [l'|] eqn:E; [|done]. apply strip_any_Some in E as (r & Hr & E).
    rewrite List.Forall_forall in Hne. symmetry in E. apply app_nil in E as [-> _]. by destruct (Hne [] (proj1 (list_elem_of_In _ _) Hr)). }
  induction n as [|n IH]; intros l Hl.
  { destruct l; [|cbn in Hl; lia]. exists []. done. }
  cbn [trim_left]. destruct (strip_any seqs l) as [l'|] eqn:E; [|by exists []].
  apply strip_any_Some in E as (r & Hr & ->). rewrite List.Forall_forall in Hne.
  destruct (IH l') as (pre & Hp & Hf & Hs).
  { rewrite length_app in Hl. pose proof (Hne r (proj1 (list_elem_of_In _ _) Hr)). destruct r; [done|]. cbn in Hl. lia. }
  exists (r :: pre). split_and!; [|by constructor|done]. cbn [concat]. rewrite <-(assoc_L (++)). by f_equal.
Qed.

Lemma space_runes_ne : Forall (fun r => r <> []) space_runes.
Proof. by apply (bool_decide_unpack _). Qed.

(** [TrimSpace] takes away spaces at both ends, and all of them. *)
Lemma TrimSpace_spec s : exists pre post,
  to_bytes s = concat pre ++ to_bytes (TrimSpace s) ++ rev (concat post) /\
  Forall (fun r => r ∈ space_runes) pre /\ Forall (fun r => r ∈ map (@rev _) space_runes) post /\
  (forall r l, r ∈ space_runes -> to_bytes (TrimSpace s) <> r ++ l) /\
  (forall r l, r ∈ space_runes -> to_bytes (TrimSpace s) <> l ++ r).
Proof.
  destruct (trim_left_spec space_runes (slen s) space_runes_ne (to_bytes s)) as (pre & Hp & Hf & Hs); [done|].
  unfold TrimSpace. set (l := trim_left (slen s) space_runes (to_bytes s)) in *.
  assert (Forall (fun r => r <> []) (map (@rev _) space_runes)) as Hne2.
  { apply List.Forall_forall. intros r (r0 & <- & Hr0)%in_map_iff. pose proof space_runes_ne as Hne. rewrite List.Forall_forall in Hne.
    specialize (Hne r0 Hr0). intros E. apply Hne. rewrite <-(rev_involutive r0), E. done. }
  destruct (trim_left_spec (map (@rev _) space_runes) (length l) Hne2 (rev l)) as (post & Hq & Hg & Ht); [by rewrite length_rev|].
  set (m := trim_left (length l) (map (@rev _) space_runes) (rev l)) in *.
  assert (l = rev m ++ rev (concat post)) as Hl by (rewrite <-rev_app_distr, <-Hq; by rewrite rev_involutive).
  rewrite list_ascii_of_string_of_list_ascii. exists pre, post. split_and!; try done; [by rewrite Hp at 1; rewrite Hl|..].
  - intros r l' Hr E. apply (strip_any_None _ _ Hs r (l' ++ rev (concat post)) Hr). rewrite Hl, E. by rewrite <-(assoc_L (++)).
  - intros r l' Hr E. apply (strip_any_None _ _ Ht (rev r) (rev l')).
    + apply list_elem_of_In, in_map_iff. exists r. split; [done|]. by apply list_elem_of_In.
    + rewrite <-(rev_involutive m), E. by rewrite rev_app_distr.
Qed.

(** The first start over Tor, when the control port takes the cookie and creates the
    service: the public address of the entry is the content of the file hostname without
    the space around it; the entry is validly signed and on disk; and the peers are dialed
    through the configured proxy port. *)
Theorem first_start_tor {C : Crypto} {CL : CryptoLaws C} {D : Sqlite} {L : SqliteLaws D} {R : SqlOrder} {K : Msgpack} {W : Network}
    (cfg : Config) (o : Outside) (dir : string) (control : Z) (cookies : string) (w : World) (dk : Disk) (sk : bytes) (port : Z) (h : string) :
  bootable sk dk -> dk_identity dk = None -> dk_write dk = None -> dk_entry dk = None -> w_fresh w = Some sk ->
  cf_tor cfg = true -> bind_port (cf_bind cfg) = Ok port -> port <= 65535 -> w_clock w < 2 ^ 63 -> w_file_faults w = [] ->
  ou_Dial o ("127.0.0.1:" +:+ Itoa control) = None -> ou_CookieAuthenticate o (cookies +:+ "/cookie") = None ->
  ou_CreateHiddenService o dir port ("127.0.0.1:" +:+ Itoa port) = None -> ou_hostname o = Some h ->
  (1 <= slen (TrimSpace h) < 253)%nat ->
  exists dk' s, zifd cfg (with_outside o dir port control cookies w) dk = (dk', Ok s) /\ dk_identity dk' = Some sk /\
    let e := lp_Entry (nd_lp s) in
    PublicAddress e = TrimSpace h /\ EAddress e = key_address sk /\ Port e = port /\ Entry_Verify (Some e) = Ok tt /\
    lp_entry_file (nd_lp s) = Some e /\ pm_socks (nd_pm s) = true /\ pm_socksPort (nd_pm s) = cf_tor_socks cfg.
Proof.
  intros H Hi Hw He Hf Ht Hport Hp Hc Hff Hd Ha Hs Hh Hlen. set (w' := with_outside o dir port control cookies w).
  assert (w_onion w' = inl (TrimSpace h)) as Ho by (cbn; unfold SetupZifTorService, ReadOnion; by rewrite Hd, Ha, Hs, Hh).
  destruct (key_address_ok sk (bo_key _ _ H)) as [Hl _].
  destruct (zifd_run cfg w' dk sk (Some sk) port (set_PublicAddress (TrimSpace h) Entry_zero))
    as (s & d & id & i & E & Hlp & Hv & _ & _ & _ & _ & _ & Hpm); [done| | |].
  { by apply key_of_first. }
  { split; try done.
    - unfold public_address. by rewrite Ht, Ho, He.
    - split_and!; [exact Hl|cbn; lia|cbn; lia|done|apply Hlen|apply Hlen|done]. }
  eexists _, s. split; [exact E|]. cbv zeta. rewrite Hlp, Hpm. unfold proxy. by rewrite Ht.
Qed.

(** A failure of Tor is a panic. *)
Lemma start_without_tor {C : Crypto} {CL : CryptoLaws C} {D : Sqlite} {L : SqliteLaws D} {R : SqlOrder} {K : Msgpack} {W : Network}
    (cfg : Config) (w : World) (dk : Disk) (sk : bytes) (identity : option bytes) :
  bootable sk dk -> key_of w dk sk identity -> dk_entry dk = None ->
  public_address cfg (w_onion w) (w_external_ip w) Entry_zero = Panic -> (zifd cfg w dk).2 = Panic.
Proof.
  intros H Hk He Hp. unfold zifd. destruct (bind_port (cf_bind cfg)) as [port| |]; [|done|done].
  rewrite (SetupLocalPeer_run w dk sk identity H Hk). set (lp := setup_peer w sk dk).
  assert (prepare cfg port (w_onion w) (w_external_ip w) lp = (lp, Panic)) as E.
  { unfold prepare. erewrite (run_try_Err _ _ lp lp).
    2: { unfold LocalPeer_LoadEntry. rewrite run_get. change (lp_entry_file lp) with (dk_entry dk). by rewrite He. }
    rewrite run_get. change (lp_Entry lp) with Entry_zero. rewrite Hp. done. }
  unfold mbind, M_bind. by rewrite E.
Qed.

(** C30. Without a public address there is no first start. Three ways lead to one: a proxy
    that is not Tor, for which nothing sets the address; a web service that does not
    answer, or whose answer cannot be read; and a Tor service whose file hostname cannot be
    read, an error that is dropped. The entry is refused when it is saved, and the process
    ends. *)
Theorem first_start_needs_address {C : Crypto} {CL : CryptoLaws C} {D : Sqlite} {L : SqliteLaws D} {R : SqlOrder} {K : Msgpack} {W : Network}
    (cfg : Config) (o : Outside) (dir : string) (port control : Z) (cookies : string) (w : World) (dk : Disk) (sk : bytes) (identity : option bytes) :
  bootable sk dk -> key_of w dk sk identity -> dk_entry dk = None ->
  (if cf_tor cfg then ou_hostname o = None
   else cf_socks cfg = true \/ ou_http o "https://api.ipify.org/" = None \/ ou_http o "https://api.ipify.org/" = Some None) ->
  (zifd cfg (with_outside o dir port control cookies w) dk).2 = Panic.
Proof.
  intros H Hk He Hno. set (w' := with_outside o dir port control cookies w). assert (key_of w' dk sk identity) as Hk' by exact Hk.
  destruct (public_address cfg (w_onion w') (w_external_ip w') Entry_zero) as [e1|x|] eqn:Ep.
  - apply (start_refused cfg w' dk sk identity e1); [done|done|by rewrite He|]. left. revert Ep. unfold public_address. cbn [w_onion w_external_ip w' with_outside].
    destruct (cf_tor cfg).
    + unfold SetupZifTorService, ReadOnion. rewrite Hno. repeat (case_match; simplify_eq); intros [= <-]; done.
    + destruct (cf_socks cfg); [by intros [= <-]|]. destruct Hno as [Hno|Hno]; [done|].
      assert (ExternalIp o = ""%string) as -> by (unfold ExternalIp; destruct Hno as [->| ->]; done). by intros [= <-].
  - revert Ep. unfold public_address. repeat case_match; done.
  - by apply (start_without_tor cfg w' dk sk identity).
Qed.

(** ** Witnesses *)

#[local] Existing Instance toy_crypto.
#[local] Existing Instance toy_laws.
#[local] Existing Instance toy_sqlite.
#[local] Existing Instance toy_sqlite_laws.
#[local] Existing Instance toy_order.
#[local] Existing Instance toy_msgpack.
#[local] Existing Instance toy_network.

Definition toy_newline : string := String "010" "".
Definition toy_outside (hostname : option string) : Outside :=
  mkOutside (fun _ => None) (fun _ => None) (fun _ _ _ => None) hostname (fun _ => None).
Definition toy_tor : Config := mkConfig "0.0.0.0:5050" true 9050 false 0.

Lemma first_start_tor_witness :
  exists dk' s, zifd toy_tor (with_outside (toy_outside (Some ("zif.onion" +:+ toy_newline))) "/srv" 5050 9051 "/tor" toy_world) toy_disk = (dk', Ok s) /\
    dk_identity dk' = Some toy_sk /\
    let e := lp_Entry (nd_lp s) in
    PublicAddress e = TrimSpace ("zif.onion" +:+ toy_newline) /\ EAddress e = key_address toy_sk /\ Port e = 5050 /\ Entry_Verify (Some e) = Ok tt /\
    lp_entry_file (nd_lp s) = Some e /\ pm_socks (nd_pm s) = true /\ pm_socksPort (nd_pm s) = cf_tor_socks toy_tor.
Proof.
  apply (first_start_tor toy_tor (toy_outside (Some ("zif.onion" +:+ toy_newline))) "/srv" 9051 "/tor" toy_world toy_disk toy_sk 5050
    ("zif.onion" +:+ toy_newline) toy_bootable); try reflexivity.
  - lia.
  - assert (slen (TrimSpace ("zif.onion" +:+ toy_newline)) = 9%nat) as -> by (vm_compute; reflexivity). lia.
Defined.

Lemma first_start_needs_address_witness :
  (zifd toy_tor (with_outside (toy_outside None) "/srv" 5050 9051 "/tor" toy_world) toy_disk).2 = Panic.
Proof.
  apply (first_start_needs_address toy_tor (toy_outside None) "/srv" 5050 9051 "/tor" toy_world toy_disk toy_sk (Some toy_sk) toy_bootable).
  - by split.
  - reflexivity.
  - reflexivity.
Defined.
