(* ===== verification/Config.v ===== *)
(** The configuration of the daemon ([cmd/zifd/config.go]) and what viper answers for its
    keys (vendor/github.com/spf13/viper: the search through flags, file and defaults, and
    the conversions of vendor/github.com/spf13/cast that the daemon uses). *)

From stdpp Require Import sorting.
From S2P Require Import Prelude GoLib HttpLib Base58Check Crypto Address Entry Util Sqlite NetStore NetDB NetTable NetInv NetRun DHT DHTProps.
From S2P Require Import Post PieceStream PostDB PostDBProps DataProps Collection Proto Handshake StreamManager LocalPeer Client Peer PeerManager.
From S2P Require Import PeerManagerProps Daemon DaemonProps.

(** ** Values *)

(** What an [interface{}] of the configuration holds: the scalars of TOML, a
    [map[string]interface{}], a [map[string]string], or anything else, with what
    [cast] makes of it as text and as number. *)
Inductive value :=
| VStr (s : string)
| VInt (z : Z)
| VBool (b : bool)
| VTable (m : list (string * value))
| VStrings (m : list (string * string))
| VOther (text : string) (int : Z).

Fixpoint field {A} (k : string) (m : list (string * A)) : option A :=
  match m with
  | [] => None
  | (k', x) :: m' => if bool_decide (k = k') then Some x else field k m'
  end.

(** [strings.ToLower] of ASCII text. *)
Definition lower_char (c : byte) : byte := if (65 <=? bval c) && (bval c <=? 90) then byte_of (bval c + 32) else c.
Definition lower (s : string) : string := to_string (map lower_char (to_bytes s)).

(** [insensitiviseMap], [toCaseInsensitiveValue]: a [map[string]string] is left as it is. *)
Fixpoint toCaseInsensitiveValue (x : value) : value :=
  match x with
  | VTable m => VTable (map (fun kv => (lower kv.1, toCaseInsensitiveValue kv.2)) m)
  | _ => x
  end.
Definition insensitivise (m : list (string * value)) : list (string * value) :=
  map (fun kv => (lower kv.1, toCaseInsensitiveValue kv.2)) m.

(** [strings.Split(key, ".")]. *)
Fixpoint split_dot (s : string) : list string :=
  match s with
  | EmptyString => [""%string]
  | String c r =>
      if Ascii.eqb c "." then ""%string :: split_dot r
      else match split_dot r with h :: t => String c h :: t | [] => [String c ""] end
  end.

(** ** viper *)

Record flag := mkFlag { fl_value : string; fl_changed : bool }.

(** The layers that the daemon fills; no override, alias, environment or remote store is
    used, and their searches find nothing. *)
Record Viper := mkViper {
  v_pflags : list (string * flag);
  v_config : list (string * value);
  v_defaults : list (string * value);
}.

(** [searchMap]. *)
Fixpoint searchMap (source : list (string * value)) (path : list string) : option value :=
  match path with
  | [] => Some (VTable source)
  | k :: path' =>
      match field k source with
      | None => None
      | Some next =>
          match path' with
          | [] => Some next
          | _ => match next with VTable m => searchMap m path' | _ => None end
          end
      end
  end.

(** [searchMapWithPathPrefixes]: a key with dots in it comes before the nested ones. [fuel]
    is for the nesting, of which a path allows no more than its length. *)
Fixpoint searchPrefixes (fuel : nat) (source : list (string * value)) (path : list string) : option value :=
  match path with
  | [] => Some (VTable source)
  | _ =>
      match fuel with
      | O => None
      | S f =>
          (fix go (i : nat) : option value :=
             match i with
             | O => None
             | S i' =>
                 match field (lower (String.concat "." (take i path))) source with
                 | None => go i'
                 | Some next =>
                     if (i =? length path)%nat then Some next
                     else
                       match next with
                       | VTable m => match searchPrefixes f m (drop i path) with Some x => Some x | None => go i' end
                       | _ => go i'
                       end
                 end
             end) (length path)
      end
  end.

(** [isPathShadowedInDeepMap]: a value that is not a table, at a beginning of the path. *)
Fixpoint shadowed (m : list (string * value)) (pre rest : list string) : bool :=
  match rest with
  | [] | [_] => false
  | k :: rest' =>
      match searchMap m (pre ++ [k]) with
      | None => false
      | Some (VTable _) => shadowed m (pre ++ [k]) rest'
      | Some _ => true
      end
  end.

(** [find]: the flag if it was given, the file, the defaults, and last the default of the
    flag. *)
Definition find (v : Viper) (key : string) : option value :=
  let path := split_dot key in
  let flag := field key (v_pflags v) in
  match flag with
  | Some (mkFlag x true) => Some (VStr x)
  | _ =>
      match searchPrefixes (length path) (v_config v) path with
      | Some x => Some x
      | None =>
          if shadowed (v_config v) [] path then None
          else
            match searchMap (v_defaults v) path with
            | Some x => Some x
            | None =>
                if shadowed (v_defaults v) [] path then None
                else (fun f => VStr (fl_value f)) <$> flag
            end
      end
  end.

(** [SetDefault] of a key without dots. *)
Definition SetDefault (key : string) (x : value) (v : Viper) : Viper :=
  mkViper (v_pflags v) (v_config v) ((lower key, toCaseInsensitiveValue x) :: v_defaults v).

Section Getters.
(** [strconv.ParseInt(s, 0, 0)]. *)
Context (ParseInt : string -> option Z).

Definition ParseBool (s : string) : bool :=
  existsb (fun t => bool_decide (s = t)) ["1"; "t"; "T"; "TRUE"; "true"; "True"]%string.

Definition ToString (x : option value) : string :=
  match x with
  | Some (VStr s) => s
  | Some (VInt z) => Itoa z
  | Some (VBool b) => if b then "true" else "false"
  | Some (VOther t _) => t
  | _ => ""
  end.
Definition ToInt (x : option value) : Z :=
  match x with
  | Some (VStr s) => default 0 (ParseInt s)
  | Some (VInt z) => z
  | Some (VBool b) => if b then 1 else 0
  | Some (VOther _ z) => z
  | _ => 0
  end.
Definition ToBool (x : option value) : bool :=
  match x with
  | Some (VStr s) => ParseBool s
  | Some (VInt z) => negb (z =? 0)
  | Some (VBool b) => b
  | _ => false
  end.

Definition GetString (v : Viper) (key : string) : string := ToString (find v (lower key)).
Definition GetInt (v : Viper) (key : string) : Z := ToInt (find v (lower key)).
Definition GetBool (v : Viper) (key : string) : bool := ToBool (find v (lower key)).

(** ** The daemon *)

(** The flags, with their defaults where they are not given. *)
Definition pflags (bind http : option string) : list (string * flag) :=
  [("bind.zif", mkFlag (default "0.0.0.0:5050" bind) (bool_decide (is_Some bind)));
   ("bind.http", mkFlag (default "127.0.0.1:8080" http) (bool_decide (is_Some http)))]%string.

(** The flags as they are given, and the file in the first of the three directories that
    has one, decoded: without it, the process ends. *)
Definition SetupConfig (bind http : option string) (file : option (list (string * value))) : outcome Viper :=
  match file with
  | None => Panic
  | Some config =>
      let v := mkViper (pflags bind http) (insensitivise config) [] in
      let v := SetDefault "bind" (VStrings [("zif", "0.0.0.0:5050"); ("http", "127.0.0.1:8080")]) v in
      let v := SetDefault "database" (VStrings [("path", "./data/posts.db")]) v in
      let v := SetDefault "tor" (VTable [("enabled", VBool true); ("control", VInt 10051); ("socks", VInt 10050);
                                         ("cookiePath", VStr "./tor/")]) v in
      let v := SetDefault "socks" (VTable [("enabled", VBool true); ("port", VInt 10050)]) v in
      Ok (SetDefault "net" (VTable [("maxPeers", VInt 100)]) v)
  end%string.

(** What [main] asks for. *)
Definition config_of (v : Viper) : Config :=
  mkConfig (GetString v "bind.zif") (GetBool v "tor.enabled") (GetInt v "tor.socks") (GetBool v "socks.enabled")
    (GetInt v "socks.port").

(** [main] from the command line on: the directory is made before the settings are read. *)
Definition main {C : Crypto} {D : Sqlite} {R : SqlOrder} {K : Msgpack} {W : Network} (bind http : option string)
    (file : option (list (string * value))) (w : World) (dk : Disk) : Disk * outcome Node :=
  let dk' := os_Mkdir (w_mkdir w) dk in
  match SetupConfig bind http file with
  | Ok v => zifd (config_of v) w dk'
  | _ => (dk', Panic)
  end.
End Getters.

(** The file that comes with the program, config/zifd.toml. *)
Definition zifd_toml : list (string * value) :=
  [("bind", VTable [("zif", VStr "0.0.0.0:5050"); ("http", VStr "127.0.0.1:8080")]);
   ("database", VTable [("path", VStr "./data/posts.db")]);
   ("tor", VTable [("enabled", VBool true); ("control", VInt 10051); ("socks", VInt 10050); ("cookiePath", VStr "./tor/")]);
   ("socks", VTable [("enabled", VBool true); ("port", VInt 10050)]);
   ("net", VTable [("maxPeers", VInt 100)])]%string.
Example shipped : (v ← SetupConfig None None (Some zifd_toml); Ok (config_of (fun _ => None) v)) =
  Ok (mkConfig "0.0.0.0:5050" true 10050 true 10050).
Proof. vm_compute. reflexivity. Qed.
Example empty_file : (v ← SetupConfig None None (Some []); Ok (config_of (fun _ => None) v)) =
  Ok (mkConfig "" true 10050 true 10050).
Proof. vm_compute. reflexivity. Qed.

(** ** Lookups *)

(** What the flags, the file and the defaults have for a key of two parts. *)
Definition from_table (m : list (string * value)) (s k : string) (otherwise : option value) : option value :=
  match field s m with
  | Some (VTable t) => match field k t with Some x => Some x | None => otherwise end
  | Some _ => None
  | None => otherwise
  end.

Lemma search_two m key s k : String.concat "." [s; k] = key -> lower key = key -> lower s = s -> lower k = k ->
  searchPrefixes 2 m [s; k] =
  match field key m with
  | Some x => Some x
  | None => match field s m with Some (VTable t) => field k t | _ => None end
  end.
Proof.
  intros Hk Lkey Ls Lk. cbn [searchPrefixes length take drop Nat.eqb]. rewrite Hk, Lkey. destruct (field key m) as [x|]; [done|].
  change (String.concat "." [s]) with s. rewrite Ls. destruct (field s m) as [[]|]; try done.
  change (String.concat "." [k]) with k. rewrite Lk. by destruct (field k m0).
Qed.

Lemma find_two v key s k : split_dot key = [s; k] -> String.concat "." [s; k] = key ->
  lower key = key -> lower s = s -> lower k = k ->
  find v key =
  match field key (v_pflags v) with
  | Some (mkFlag x true) => Some (VStr x)
  | fl =>
      match field key (v_config v) with
      | Some x => Some x
      | None => from_table (v_config v) s k (from_table (v_defaults v) s k ((fun f => VStr (fl_value f)) <$> fl))
      end
  end.
Proof.
  intros Hp Hc Lkey Ls Lk. unfold find. rewrite Hp. cbv zeta. cbn [length]. rewrite (search_two _ key) by done.
  unfold from_table. cbn [shadowed app searchMap].
  destruct (field key (v_pflags v)) as [[x []]|] eqn:Ef; try done;
    (destruct (field key (v_config v)); [done|]);
    (destruct (field s (v_config v)) as [[]|]; try done; [destruct (field k m); [done|]|]);
    by (destruct (field s (v_defaults v)) as [[]|]; try done; destruct (field k _)).
Qed.

(** The keys of the daemon, and the defaults that the code states for them. *)
Definition stated_defaults : list (string * (string * value)) :=
  [("bind", ("zif", VStr "0.0.0.0:5050")); ("bind", ("http", VStr "127.0.0.1:8080")); ("database", ("path", VStr "./data/posts.db"));
   ("tor", ("enabled", VBool true)); ("tor", ("control", VInt 10051)); ("tor", ("socks", VInt 10050)); ("tor", ("cookiepath", VStr "./tor/"));
   ("socks", ("enabled", VBool true)); ("socks", ("port", VInt 10050)); ("net", ("maxpeers", VInt 100))]%string.
(** Those that are written as a [map[string]string]. *)
Definition lost (s : string) : bool := bool_decide (s = "bind"%string) || bool_decide (s = "database"%string).
(** The flag for a key, if it was given. *)
Definition given (bind http : option string) (s k : string) : option string :=
  if bool_decide (s = "bind"%string) then (if bool_decide (k = "zif"%string) then bind else http) else None.

Ltac each_key Hd := repeat (apply elem_of_cons in Hd as [[= -> -> ->]|Hd]; [|]); [..|by apply elem_of_nil in Hd].

Lemma keys_shape s k d : (s, (k, d)) ∈ stated_defaults -> let key := String.concat "." [s; k] in
  split_dot key = [s; k] /\ lower key = key /\ lower s = s /\ lower k = k.
Proof. intros Hd. each_key Hd; vm_compute; done. Qed.

Lemma keys_flag bind http s k d : (s, (k, d)) ∈ stated_defaults ->
  match field (String.concat "." [s; k]) (pflags bind http) with
  | Some (mkFlag x true) => given bind http s k = Some x
  | _ => given bind http s k = None
  end.
Proof. intros Hd. each_key Hd; try done; [by destruct bind|by destruct http]. Qed.

(** C29. Where a setting comes from. For every key of the daemon: a flag that is given wins,
    then the value of the file; of the defaults that the code sets, those for Tor, the proxy
    and the number of peers are used when the file says nothing, while those for the
    addresses to bind to and for the path of the database are not found -- they are of
    another map type -- and hide even the defaults of the flags. *)
Theorem config_lookup (bind http : option string) (file : list (string * value)) (s k : string) (d : value) (v : Viper) :
  (s, (k, d)) ∈ stated_defaults -> SetupConfig bind http (Some file) = Ok v ->
  let c := insensitivise file in let key := String.concat "." [s; k] in
  (forall x, given bind http s k = Some x -> find v key = Some (VStr x)) /\
  (given bind http s k = None -> field key c = None ->
   (forall t x, field s c = Some (VTable t) -> field k t = Some x -> find v key = Some x) /\
   (field s c = None \/ (exists t, field s c = Some (VTable t) /\ field k t = None) ->
    find v key = if lost s then None else Some d)).
Proof.
  intros Hd Hv c key. destruct (keys_shape s k d Hd) as (Hp & L1 & L2 & L3). pose proof (keys_flag bind http s k d Hd) as Hf.
  assert (v_config v = c /\ v_pflags v = pflags bind http) as [Ec Ep] by (by injection Hv as <-).
  assert (forall fl, from_table (v_defaults v) s k fl = if lost s then None else Some d) as Hdef.
  { intros fl. injection Hv as <-. clear -Hd. by each_key Hd. }
  rewrite (find_two v key s k Hp eq_refl L1 L2 L3), Ec, Ep. fold key in Hf.
  destruct (field key (pflags bind http)) as [[x []]|]; (split; [intros y Hy|intros Hg Hk]); try congruence;
    rewrite Hk, Hdef; unfold from_table; (split; [by intros t x' -> ->|by intros [->|(t & -> & ->)]]).
Qed.

(** C31. Without a value for the address to listen on the daemon does not start: without the
    flag --bind, no file, or a file that does not say it, ends the process, whatever else is
    configured, and all that has happened to the disk is that ./data was made if it was
    missing -- although both the flag and [SetDefault] state a default for it. *)
Theorem config_without_bind_ends {C : Crypto} {D : Sqlite} {R : SqlOrder} {K : Msgpack} {W : Network}
    (ParseInt : string -> option Z) (http : option string) (file : option (list (string * value))) (w : World) (dk : Disk) :
  (forall c, file = Some c ->
     field "bind.zif"%string (insensitivise c) = None /\ from_table (insensitivise c) "bind" "zif" None = None) ->
  main ParseInt None http file w dk = (os_Mkdir (w_mkdir w) dk, Panic).
Proof.
  intros Hc. unfold main. destruct file as [c|]; [|done]. destruct (Hc c eq_refl) as [Hk Ht]. cbn [SetupConfig].
  match goal with |- zifd (config_of _ ?v) _ _ = _ => set (v0 := v) end.
  assert (GetString v0 "bind.zif" = ""%string) as E.
  { unfold GetString. change (lower "bind.zif") with "bind.zif"%string.
    rewrite (find_two v0 "bind.zif" "bind" "zif") by reflexivity. change (v_config v0) with (insensitivise c).
    change (field "bind.zif" (v_pflags v0)) with (Some (mkFlag "0.0.0.0:5050"%string false)). cbv iota. rewrite Hk.
    change (from_table (v_defaults v0) "bind" "zif" _) with (@None value). by rewrite Ht. }
  unfold zifd, config_of. cbn [cf_bind]. by rewrite E.
Qed.

(** ** Witnesses *)

#[local] Existing Instance toy_crypto.
#[local] Existing Instance toy_sqlite.
#[local] Existing Instance toy_order.
#[local] Existing Instance toy_msgpack.
#[local] Existing Instance toy_network.

(** A file with Tor off and another table. *)
Definition toy_toml : list (string * value) := [("Tor", VTable [("Enabled", VBool false)]); ("net", VTable [])]%string.
Definition toy_viper : Viper := match SetupConfig None (Some "0.0.0.0:80"%string) (Some toy_toml) with Ok v => v | _ => mkViper [] [] [] end.

Lemma config_lookup_witness :
  find toy_viper "tor.enabled" = Some (VBool false) /\ find toy_viper "net.maxpeers" = Some (VInt 100) /\
  find toy_viper "bind.zif" = None /\ find toy_viper "bind.http" = Some (VStr "0.0.0.0:80").
Proof.
  split_and!.
  - apply (config_lookup None (Some "0.0.0.0:80"%string) toy_toml "tor" "enabled" (VBool true) toy_viper) with (t := [("enabled"%string, VBool false)]);
      first [reflexivity | do 3 right; left].
  - apply (config_lookup None (Some "0.0.0.0:80"%string) toy_toml "net" "maxpeers" (VInt 100) toy_viper);
      first [reflexivity | do 9 right; left | right; by exists []].
  - apply (config_lookup None (Some "0.0.0.0:80"%string) toy_toml "bind" "zif" (VStr "0.0.0.0:5050") toy_viper);
      first [reflexivity | left; reflexivity | left].
  - apply (config_lookup None (Some "0.0.0.0:80"%string) toy_toml "bind" "http" (VStr "127.0.0.1:8080") toy_viper);
      first [reflexivity | right; left].
Defined.

Lemma config_without_bind_ends_witness :
  main (fun _ => None) None None (Some toy_toml) toy_world toy_disk = (toy_disk, Panic).
Proof. apply (config_without_bind_ends (fun _ => None) None (Some toy_toml) toy_world toy_disk). intros c [= <-]. split; reflexivity. Defined.
