(* ===== verification/Life.v ===== *)
(** The life of the daemon ([cmd/zifd/main.go] as a whole): a start, any events, an
    interrupt that closes the local peer, or an end without one, and the next start on what
    is left on disk. The identity and the databases outlive any number of these while
    identity.dat can be read; when it cannot, another key is drawn. *)

From stdpp Require Import sorting.
From S2P Require Import Prelude GoLib HttpLib Base58Check Crypto Address Entry Util Sqlite NetStore NetDB NetTable NetInv NetRun DHT DHTProps.
From S2P Require Import Post PieceStream PostDB PostDBProps DataProps Collection CollectionProps Proto Handshake StreamManager LocalPeer Client.
From S2P Require Import Peer PeerManager PeerManagerProps Explore NetMap CommandServer CommandProps HttpServer HttpProps System Daemon DaemonProps Config.

Section Life.
Context {C : Crypto} {D : Sqlite} {R : SqlOrder} {K : Msgpack} {W : Network}.

(** One run: the settings of the runtime, of the command line, of the file, and what the
    world has in store for it. *)
Record Run := mkRun {
  rn_runtime : Runtime;
  rn_merge : list string -> list string;
  rn_ParseInt : string -> option Z;
  rn_bind : option string;
  rn_http : option string;
  rn_file : option (list (string * value));
  rn_world : World;
}.

(** [main] up to the wait for the interrupt: the disk, and the server that runs. The error
    of [StartExploring] is logged. *)
Definition start (r : Run) (dk : Disk) : Disk * outcome CommandServer :=
  match main (rn_ParseInt r) (rn_bind r) (rn_http r) (rn_file r) (rn_world r) dk with
  | (dk', Ok node) =>
      match on_node (try (StartExploring (ru_rand (rn_runtime r)) (ru_shuffle (rn_runtime r)))) (NewCommandServer node) with
      | (server, Ok _) => (dk', Ok server)
      | (server, _) => (disk_of dk' (dk_tree dk') (nd_lp (cs_node server)), Panic)
      end
  | (dk', _) => (dk', Panic)
  end.

(** The mirrored files afterwards: a database among them is one of the daemon or was there
    before. *)
Definition tree_after (dk : Disk) (lp : LocalPeer) (tree : list (string * disk_file)) : Prop :=
  forall path f d, (path, f) ∈ tree -> df_db f = Some d ->
    (exists a, lp_Databases lp !! a = Some d) \/ (exists path', (path', f) ∈ dk_tree dk).

(** The databases of a disk are in order. *)
Definition disk_wf (dk : Disk) : Prop :=
  pdb_wf (dk_posts dk) /\ forall path f d, (path, f) ∈ dk_tree dk -> df_db f = Some d -> pdb_wf d.
Definition opens_wf (r : Run) : Prop := forall a, pdb_wf (ru_open_db (rn_runtime r) a).

(** What may happen to a disk between two runs: everything but to identity.dat, as long as
    it can be read, and to the posts. *)
Record left_alone (dk dk' : Disk) : Prop := {
  la_dir : dk_dir dk' = dk_dir dk;
  la_identity : dk_identity dk' = dk_identity dk;
  la_readable : dk_readable dk' = dk_readable dk;
  la_posts : rows (dk_posts dk') = rows (dk_posts dk);
  la_tree : forall path f d, (path, f) ∈ dk_tree dk' -> df_db f = Some d ->
    exists f' d', (path, f') ∈ dk_tree dk /\ df_db f' = Some d' /\ rows d = rows d';
}.

(** The disks after any number of runs: each starts, goes through events and is interrupted
    or killed, or it ends before it gets to run. *)
Inductive lives (dk0 : Disk) : Disk -> Prop :=
| lives_new : lives dk0 dk0
| lives_closed dk r dk1 s0 s tree :
    lives dk0 dk -> opens_wf r -> start r dk = (dk1, Ok s0) -> reaches (rn_runtime r) (rn_merge r) s0 s ->
    tree_after dk (nd_lp (cs_node s)) tree -> lives dk0 (LocalPeer_Close dk1 tree (cs_node s))
| lives_killed dk r dk1 s0 s tree :
    lives dk0 dk -> opens_wf r -> start r dk = (dk1, Ok s0) -> reaches (rn_runtime r) (rn_merge r) s0 s ->
    tree_after dk (nd_lp (cs_node s)) tree -> lives dk0 (disk_of dk1 tree (nd_lp (cs_node s)))
| lives_failed dk r dk1 : lives dk0 dk -> start r dk = (dk1, Panic) -> lives dk0 dk1
| lives_alone dk dk1 : lives dk0 dk -> left_alone dk dk1 -> lives dk0 dk1.

(** ** The peer of a key *)

Record peer_of (sk : bytes) (lp : LocalPeer) : Prop := {
  po_key : lp_privateKey lp = sk;
  po_address : lp_address lp = key_address sk;
  po_entry : EAddress (lp_Entry lp) = key_address sk /\ PublicKey (lp_Entry lp) = ed25519_Public sk;
  po_posts : pdb_wf (lp_Database lp);
  po_mirrors : map_Forall (fun _ d => pdb_wf d) (lp_Databases lp);
}.

Lemma peer_of_kept sk lp0 lp : peer_of sk lp0 -> kept lp0 lp -> peer_of sk lp.
Proof. intros [? ? [? ?] ? ?] [? ? [? ?] ? ?]. split; try done; [congruence|congruence|split; congruence]. Qed.

Lemma peer_of_self sk lp : peer_of sk lp -> kept lp lp.
Proof. intros []. by split. Qed.

Lemma peer_of_preserves {A} sk (m : M LocalPeer A) : (forall lp0, preserves (kept lp0) m) -> preserves (peer_of sk) m.
Proof. intros Hm lp H. apply (peer_of_kept sk lp); [done|]. apply Hm. by eapply peer_of_self. Qed.

(** The databases that the walk registers. *)
Lemma wf_Connect : preserves pdb_wf Database_Connect.
Proof.
  unfold Database_Connect. apply preserves_bind; [apply preserves_try, preserves_nop|]. intros _.
  repeat (apply preserves_bind; [apply preserves_nop|]; intros _). apply preserves_nop.
Qed.

Lemma walk_wf tree : (forall path f d, (path, f) ∈ tree -> df_db f = Some d -> pdb_wf d) ->
  forall m m', map_Forall (fun _ d => pdb_wf d) m.1 -> walk tree m = Ok m' -> map_Forall (fun _ d => pdb_wf d) m'.1.
Proof.
  induction tree as [|[path f] tree IH]; intros Ht m m' Hm E; cbn [walk] in E; [by injection E as <-|].
  assert (forall x, walk_file path f m = Ok x -> map_Forall (fun _ d => pdb_wf d) x.1) as Hf.
  { intros x. unfold walk_file. destruct (_ && _).
    - destruct (df_db f) as [d|] eqn:Ed; [|done].
      pose proof (wf_Connect d (Ht path f d ltac:(by left) Ed)) as Hd.
      destruct (Database_Connect d) as [d' [u|e|]]; [|done|done].
      destruct (FindStringSubmatch _); intros [= <-]; [|done]. cbn. by apply map_Forall_insert_2.
    - destruct (_ && _); [|by intros [= <-]]. destruct (df_bytes f); [|done].
      by destruct (FindStringSubmatch _); intros [= <-]. }
  destruct (walk_file path f m) as [m1|e|]; [|by injection E as <-|done].
  apply (IH ltac:(intros; eapply Ht; [by right|done]) m1); [by apply Hf|done].
Qed.

(** ** A start *)

Lemma Setup_peer spare clock fs dk sk lp files : length sk = PrivateKeySize -> disk_wf dk ->
  Setup spare clock fs dk (sk, ed25519_Public sk) = Ok (lp, files) ->
  lp_privateKey lp = sk /\ lp_address lp = key_address sk /\ pdb_wf (lp_Database lp) /\
  map_Forall (fun _ d => pdb_wf d) (lp_Databases lp).
Proof.
  intros Hsk [Hp Ht] E. unfold Setup in E. apply obind_Ok in E as (dht & _ & E). apply obind_Ok in E as (m & Em & E).
  injection E as <- _. split_and!; try done. cbn [lp_Databases]. by apply (walk_wf (dk_tree dk) Ht (∅, ∅) m).
Qed.

(** From the prepared entry on. *)
Lemma kept_Connect lp0 : preserves (kept lp0) (on_Database Database_Connect).
Proof. apply kept_Database, wf_Connect. Qed.

Lemma prepare_peer cfg port onion ip sk lp lp' : length sk = PrivateKeySize ->
  lp_privateKey lp = sk -> lp_address lp = key_address sk -> pdb_wf (lp_Database lp) ->
  map_Forall (fun _ d => pdb_wf d) (lp_Databases lp) ->
  (_ ← prepare cfg port onion ip; LocalPeer_Listen) lp = (lp', Ok tt) -> peer_of sk lp'.
Proof.
  intros Hsk Hk Ha Hp Hm E. apply bind_Ok in E as (lp1 & [] & E1 & E).
  assert (preserves (peer_of sk) LocalPeer_Listen) as HL.
  { apply peer_of_preserves. intros lp0. unfold LocalPeer_Listen. apply kept_get. intros x Hx.
    apply preserves_bind; [apply preserves_try, kept_QueryEntry|]. intros [y|y]; [apply kept_SignEntry|apply preserves_pure]. }
  assert (peer_of sk lp1) as H1; [|specialize (HL lp1 H1); by rewrite E in HL].
  unfold prepare in E1. apply bind_Ok in E1 as (lp2 & l & E2 & E1). rewrite run_get in E1.
  assert (lp_privateKey lp2 = sk /\ lp_address lp2 = key_address sk /\ pdb_wf (lp_Database lp2) /\
    map_Forall (fun _ d => pdb_wf d) (lp_Databases lp2)) as (Hk2 & Ha2 & Hp2 & Hm2).
  { unfold try, LocalPeer_LoadEntry in E2. rewrite run_get in E2. destruct (lp_entry_file lp); by injection E2 as <- _. }
  apply bind_Ok in E1 as (? & e & E3 & E1). unfold lift in E3. injection E3 as -> _.
  apply bind_Ok in E1 as (? & pub & E4 & E1). unfold lift in E4. injection E4 as -> E4.
  rewrite Hk2, (Public_of_key sk Hsk) in E4. injection E4 as <-. rewrite run_modify in E1.
  revert E1. match goal with |- ?m ?s = _ -> _ => assert (peer_of sk s) as Hs by (by split; cbn; rewrite ?Ha2); generalize s Hs end.
  intros x Hx E1. match type of E1 with ?m _ = _ => assert (preserves (peer_of sk) m) as Hr end; [|by specialize (Hr x Hx); rewrite E1 in Hr].
  apply peer_of_preserves. intros lp0. apply preserves_bind; [apply kept_SignEntry|]. intros _.
  apply preserves_bind; [apply preserves_try, kept_SaveEntry|]. intros _.
  apply preserves_bind; [apply preserves_try, kept_SaveEntry|]. intros [y|y]; [|apply preserves_pure].
  apply preserves_bind; [apply preserves_try, kept_Connect|]. intros [z|z]; [apply preserves_ret|apply preserves_pure].
Qed.

(** *** Starts that fail *)

(** The key, and a property of the own posts that opening the database keeps. *)
Definition has_key (sk : bytes) (P : PostDb -> Prop) (lp : LocalPeer) : Prop := lp_privateKey lp = sk /\ P (lp_Database lp).

Section Key.
Context (sk : bytes) (P : PostDb -> Prop) (HP : preserves P Database_Connect).
Abbreviation held := (preserves (has_key sk P)).

Lemma key_DHT {A} (m : M NetDB A) : held (on_DHT m).
Proof. intros lp H. unfold on_DHT, zoom. by destruct (m _). Qed.
Lemma key_get {A} (f : LocalPeer -> M LocalPeer A) : (forall lp, held (f lp)) -> held (get ≫= f).
Proof. intros Hf lp H. by apply Hf. Qed.
Lemma key_modify f : (forall lp, lp_privateKey (f lp) = lp_privateKey lp /\ lp_Database (f lp) = lp_Database lp) -> held (modify f).
Proof. intros Hf. apply preserves_modify. unfold has_key. intros lp. by destruct (Hf lp) as [-> ->]. Qed.
Lemma key_SignEntry : held LocalPeer_SignEntry.
Proof.
  unfold LocalPeer_SignEntry. apply key_get. intros lp. apply preserves_bind; [apply preserves_pure|].
  intros e. by apply key_modify.
Qed.
Lemma key_SaveEntry : held LocalPeer_SaveEntry.
Proof.
  unfold LocalPeer_SaveEntry. apply preserves_bind; [apply key_SignEntry|]. intros _. apply key_get. intros lp.
  apply preserves_bind; [apply key_DHT|]. intros x. case_match; [apply preserves_fail|by apply preserves_WriteFile].
Qed.
Lemma key_start cfg port onion ip : held (_ ← prepare cfg port onion ip; LocalPeer_Listen).
Proof.
  apply preserves_bind.
  - unfold prepare. apply preserves_bind.
    { apply preserves_try. unfold LocalPeer_LoadEntry. apply key_get. intros lp. case_match; [by apply key_modify|apply preserves_fail]. }
    intros _. apply key_get. intros lp. apply preserves_bind; [apply preserves_pure|]. intros e.
    apply preserves_bind; [apply preserves_pure|]. intros pub. apply preserves_bind; [by apply key_modify|]. intros _.
    apply preserves_bind; [apply key_SignEntry|]. intros _.
    do 2 (apply preserves_bind; [apply preserves_try, key_SaveEntry|]; intros ?). case_match; [|apply preserves_pure].
    apply preserves_bind; [|intros [x|x]; [apply preserves_ret|apply preserves_pure]].
    apply preserves_try. intros lp' [Hk Hd]. specialize (HP _ Hd). unfold on_Database, zoom. by destruct (Database_Connect _).
  - intros _. unfold LocalPeer_Listen. apply key_get. intros lp. apply preserves_bind.
    + apply preserves_try. unfold LocalPeer_QueryEntry. apply key_get. intros lp'. case_match; [apply preserves_ret|].
      apply preserves_bind; [apply key_DHT|]. intros x. case_match; [apply preserves_ret|apply preserves_fail].
    + intros [x|x]; [apply key_SignEntry|apply preserves_pure].
Qed.
End Key.

(** The key can be read from the disk. *)
Record keyed (sk : bytes) (dk : Disk) : Prop := {
  kd_dir : dk_dir dk = true;
  kd_identity : dk_identity dk = Some sk;
  kd_readable : dk_readable dk = true;
  kd_wf : disk_wf dk;
}.

Lemma keyed_of sk dk tree lp : keyed sk dk -> pdb_wf (lp_Database lp) ->
  (forall path f d, (path, f) ∈ tree -> df_db f = Some d -> pdb_wf d) -> keyed sk (disk_of dk tree lp).
Proof. intros [] Hp Ht. by split. Qed.

Lemma keyed_alone sk dk dk' : keyed sk dk -> left_alone dk dk' -> keyed sk dk'.
Proof.
  intros [Hd Hi Hr [Hp Ht]] []. assert (forall d d', rows d' = rows d -> pdb_wf d -> pdb_wf d') as Hrows.
  { intros d d' E. unfold pdb_wf. by rewrite E. }
  split; [congruence..|]. split; [by apply (Hrows (dk_posts dk))|]. intros path f d Hin Ef.
  destruct (la_tree0 path f d Hin Ef) as (f' & d' & Hin' & Ef' & E). apply (Hrows d' d E). by apply (Ht path f').
Qed.

(** The key on disk is the key of the run, and it stays there whatever becomes of it. *)
Lemma SetupLocalPeer_key spare clock fs fresh dk sk : keyed sk dk -> length sk = PrivateKeySize ->
  SetupLocalPeer spare clock fs fresh dk = (dk, r ← Setup spare clock fs dk (sk, ed25519_Public sk); Ok r.1).
Proof.
  intros [Hd Hi Hr _] Hsk. unfold SetupLocalPeer, ReadKey, read_identity. rewrite Hd, Hr, Hi. cbn [andb].
  by rewrite (Public_of_key sk Hsk).
Qed.

Lemma zifd_peer cfg w dk sk : keyed sk dk -> length sk = PrivateKeySize ->
  keyed sk (zifd cfg w dk).1 /\ dk_tree (zifd cfg w dk).1 = dk_tree dk /\
  (forall s, (zifd cfg w dk).2 = Ok s -> peer_of sk (nd_lp s)).
Proof.
  intros Hd Hsk. unfold zifd. destruct (bind_port _) as [port|e|]; [|done..].
  rewrite (SetupLocalPeer_key _ _ _ _ dk sk Hd Hsk).
  destruct (Setup _ _ _ dk (sk, ed25519_Public sk)) as [[lp files]|e|] eqn:Es; [|done|done]. cbn [mbind outcome_bind fst].
  destruct (Setup_peer _ _ _ _ _ _ _ Hsk (kd_wf _ _ Hd) Es) as (H1 & H2 & H3 & H4).
  pose proof (key_start sk pdb_wf wf_Connect cfg port (w_onion w) (w_external_ip w) lp (conj H1 H3)) as [_ Hp].
  match goal with |- context [?m lp] => destruct (m lp) as [lp' [[]|e|]] eqn:Ep end; cbn [fst snd] in *;
    (split; [apply keyed_of; [done|done|apply Hd]|split; [done|]]); try done.
  intros s [= <-]. cbn [nd_lp]. by apply (prepare_peer cfg port (w_onion w) (w_external_ip w) sk lp).
Qed.

Lemma start_peer r dk sk : keyed sk dk -> length sk = PrivateKeySize ->
  keyed sk (start r dk).1 /\ (forall s, (start r dk).2 = Ok s -> peer_of sk (nd_lp (cs_node s))).
Proof.
  intros Hd Hsk. assert (os_Mkdir (w_mkdir (rn_world r)) dk = dk) as Em by (unfold os_Mkdir; by rewrite (kd_dir _ _ Hd)).
  unfold start, main. rewrite Em. destruct (SetupConfig _ _ _) as [v|e|]; [|done..].
  destruct (zifd_peer (config_of (rn_ParseInt r) v) (rn_world r) dk sk Hd Hsk) as (H1 & Ht & H2).
  destruct (zifd _ (rn_world r) dk) as [dk' [node|e|]]; cbn [fst snd] in *; [|done..]. specialize (H2 node eq_refl).
  assert (preserves (server_kept (nd_lp node)) (on_node (try (StartExploring (ru_rand (rn_runtime r)) (ru_shuffle (rn_runtime r)))))) as Hp
    by apply kept_on_node, preserves_try, kept_seedExplore.
  specialize (Hp (NewCommandServer node) (peer_of_self sk _ H2)).
  destruct (on_node _ (NewCommandServer node)) as [server o]. cbn [fst] in Hp. pose proof (peer_of_kept sk (nd_lp node) _ H2 Hp) as H3.
  destruct o as [x|e|]; cbn [fst snd]; [split; [done|by intros s [= <-]]|..];
    (split; [apply keyed_of; [done|apply H3|apply H1]|done]).
Qed.

Lemma run_peer r dk sk dk1 s0 s : keyed sk dk -> length sk = PrivateKeySize -> opens_wf r ->
  start r dk = (dk1, Ok s0) -> reaches (rn_runtime r) (rn_merge r) s0 s ->
  keyed sk dk1 /\ peer_of sk (nd_lp (cs_node s)).
Proof.
  intros Hd Hsk Hopen Es Hr. destruct (start_peer r dk sk Hd Hsk) as [H1 H2]. rewrite Es in H1, H2.
  split; [done|]. specialize (H2 s0 eq_refl). eapply peer_of_kept; [exact H2|].
  apply (kept_reaches (rn_runtime r) (rn_merge r) (nd_lp (cs_node s0)) s0 s Hopen); [|done]. by apply (peer_of_self sk).
Qed.

(** ** The disk *)

Lemma tree_after_wf sk dk lp tree : disk_wf dk -> peer_of sk lp -> tree_after dk lp tree ->
  forall path f d, (path, f) ∈ tree -> df_db f = Some d -> pdb_wf d.
Proof.
  intros [_ Hd] Hp Ht path f d Hin Ef. destruct (Ht path f d Hin Ef) as [[a Ha]|[path' Hin']].
  - exact (po_mirrors _ _ Hp a d Ha).
  - by apply (Hd path' f d).
Qed.

Lemma lives_disk dk0 dk sk : keyed sk dk0 -> length sk = PrivateKeySize -> lives dk0 dk -> keyed sk dk.
Proof.
  intros Hd Hsk. induction 1 as [|dk r dk1 s0 s tree _ IH Ho Es Hr Ht|dk r dk1 s0 s tree _ IH Ho Es Hr Ht
    |dk r dk1 _ IH Es|dk dk1 _ IH Ha]; [done| | | |by eapply keyed_alone].
  1-2: destruct (run_peer r dk sk dk1 s0 s IH Hsk Ho Es Hr) as [H1 Hp];
    (apply keyed_of; [done|apply Hp|exact (tree_after_wf sk dk _ tree (kd_wf _ _ IH) Hp Ht)]).
  destruct (start_peer r dk sk IH Hsk) as [H1 _]. by rewrite Es in H1.
Qed.
End Life.

(** C4. The identity and the databases outlive the process, as long as nothing but the
    daemon touches identity.dat, it can be read, and nothing else writes posts. From a
    disk with a key and databases in order, those that a mirror opens included, after any
    number of runs -- each with its own settings and its own failures of files and
    databases, going through any events, ended by an interrupt, killed, or ending before it got to run; what else is in the directory may
    change in between -- every later run has this key, its address, an own entry with this
    address and this public key, and in its own and in all mirrored databases the ids count
    the posts and no info hash is stored twice; the key stays on disk. *)
Theorem identity_outlives {C : Crypto} {D : Sqlite} {R : SqlOrder} {K : Msgpack} {W : Network}
    (sk : bytes) (dk0 dk : Disk) (r : Run) (dk1 : Disk) (s0 s : CommandServer) :
  keyed sk dk0 -> length sk = PrivateKeySize -> lives dk0 dk ->
  opens_wf r -> start r dk = (dk1, Ok s0) -> reaches (rn_runtime r) (rn_merge r) s0 s ->
  let lp := nd_lp (cs_node s) in
  dk_identity dk1 = Some sk /\ lp_privateKey lp = sk /\ lp_address lp = key_address sk /\
  EAddress (lp_Entry lp) = key_address sk /\ PublicKey (lp_Entry lp) = ed25519_Public sk /\
  pdb_wf (lp_Database lp) /\ (forall a d, lp_Databases lp !! a = Some d -> pdb_wf d).
Proof.
  intros Hd Hsk Hl Ho Es Hr lp. pose proof (lives_disk dk0 dk sk Hd Hsk Hl) as Hd'.
  destruct (run_peer r dk sk dk1 s0 s Hd' Hsk Ho Es Hr) as [[_ Hi _ _] [H1 H2 [H3 H4] H5 H6]].
  split_and!; try done.
Qed.

(** ** A key that is not read or not saved *)

(** Whatever keeps identity.dat from being read, the daemon draws another key, tries to
    write it over the file and does not look whether it could: it runs with the new key,
    and the disk has the old one, the new one, or a part of it. *)
Theorem unsaved_key {C : Crypto} {D : Sqlite} {R : SqlOrder} {K : Msgpack} {W : Network}
    (cfg : Config) (w : World) (dk dk1 : Disk) (s : Node) :
  read_identity dk = None -> zifd cfg w dk = (dk1, Ok s) ->
  let sk := lp_privateKey (nd_lp s) in
  w_fresh w = Some sk /\
  dk_identity dk1 = match dk_write dk with
                    | None => Some sk
                    | Some NotOpened => dk_identity dk
                    | Some (Cut n) => Some (take n sk)
                    end.
Proof.
  intros Hi. unfold zifd. destruct (bind_port _) as [port|e|]; [|done|done].
  unfold SetupLocalPeer, ReadKey, GenerateKey. rewrite Hi. destruct (w_fresh w) as [sk|]; [|done].
  destruct (PrivateKey_Public sk) as [pub|e|] eqn:Epub; [|done|done]. cbn [mbind outcome_bind fst]. cbv zeta.
  set (dk' := set_identity _ dk). destruct (Setup _ _ _ dk' (sk, pub)) as [[lp files]|e|] eqn:Es; [|done|done]. cbn [mbind outcome_bind fst].
  unfold Setup in Es. change (dk_dir dk') with (dk_dir dk) in Es. destruct (dk_dir dk) eqn:Hdir; [|done].
  assert (has_key sk (fun _ => True) lp) as Hk.
  { apply obind_Ok in Es as (dht & _ & Es). apply obind_Ok in Es as (m & _ & Es). by injection Es as <- _. }
  pose proof (key_start sk (fun _ => True) (fun d _ => I) cfg port (w_onion w) (w_external_ip w) lp Hk) as [H _].
  destruct ((_ ← prepare _ _ _ _; LocalPeer_Listen) lp) as [lp' [[]|e|]]; [|done|done].
  intros [= <- <-]. cbn [nd_lp fst dk_identity disk_of] in *. rewrite H. split; [done|]. unfold dk', WriteKey. rewrite Hdir.
  assert (length sk <> 0%nat) as Hl by (intros E; unfold PrivateKey_Public in Epub; by rewrite E in Epub).
  rewrite (proj2 (Nat.eqb_neq _ _) Hl). by destruct (dk_write dk) as [[]|].
Qed.

(** ** Witnesses *)

#[local] Existing Instance toy_crypto.
#[local] Existing Instance toy_sqlite.
#[local] Existing Instance toy_order.
#[local] Existing Instance toy_msgpack.
#[local] Existing Instance toy_network.

(** A first run without a proxy that is closed, and a second one that sees a heartbeat. *)
Definition toy_random : Runtime :=
  mkRuntime (fun n => Some (replicate n "r"%char)) 100 map_to_list "" (fun n => n) (fun k => k) (fun _ => ""%string) (fun n => 0%nat)
    (fun _ => mkPostDb [] [] 0 []) 0 (fun m => map snd (map_to_list m)) (fun _ => true) (fun _ => false)
    (fun _ => []) (fun _ => []) (fun _ _ => false) (fun _ => None) (fun _ => None) (fun _ => None)
    (fun s => s) (fun s => s) (fun _ => inr ErrEOF).
Definition toy_run : Run :=
  mkRun toy_random (fun l => l) (fun _ => None) (Some "0.0.0.0:5050"%string) None
    (Some [("tor", VTable [("enabled", VBool false)]); ("socks", VTable [("enabled", VBool false)])]%string) toy_world.
Definition toy_keyed : Disk :=
  mkDisk true (Some toy_sk) true (Some NotOpened) (mkDb [] [] [] []) None (Some []) None (mkPostDb [] [] 0 []) [].
Definition toy_server (dk : Disk) : CommandServer := Ok_or toy_daemon (start toy_run dk).2.
Definition toy_left : Disk := LocalPeer_Close (start toy_run toy_keyed).1 [] (cs_node (toy_server toy_keyed)).
Definition toy_second : CommandServer := (run_event toy_random (fun l => l) (EHeartbeat 0) (toy_server toy_left)).1.

Lemma toy_starts dk : (match (start toy_run dk).2 with Ok _ => true | _ => false end) = true ->
  start toy_run dk = ((start toy_run dk).1, Ok (toy_server dk)).
Proof. unfold toy_server. by destruct (start toy_run dk) as [i [s|e|]]. Qed.

Lemma toy_empty_wf : pdb_wf (mkPostDb [] [] 0 []).
Proof. split; [reflexivity|constructor]. Qed.

Lemma toy_left_lives : lives toy_keyed toy_left.
Proof.
  apply (lives_closed _ toy_keyed toy_run (start toy_run toy_keyed).1 (toy_server toy_keyed)).
  - constructor.
  - intros a. exact toy_empty_wf.
  - apply toy_starts; vm_compute; reflexivity.
  - constructor.
  - intros path f d Hin. by apply elem_of_nil in Hin.
Qed.

Lemma identity_outlives_witness :
  let lp := nd_lp (cs_node toy_second) in
  lp_privateKey lp = toy_sk /\ lp_address lp = key_address toy_sk /\
  EAddress (lp_Entry lp) = key_address toy_sk /\ pdb_wf (lp_Database lp).
Proof.
  destruct (identity_outlives toy_sk toy_keyed toy_left toy_run (start toy_run toy_left).1 (toy_server toy_left) toy_second)
    as (_ & H1 & H2 & H3 & _ & H4 & _).
  - split; [reflexivity..|]. split; [exact toy_empty_wf|]. intros path f d Hin. by apply elem_of_nil in Hin.
  - reflexivity.
  - exact toy_left_lives.
  - intros a. exact toy_empty_wf.
  - apply toy_starts; vm_compute; reflexivity.
  - exact (reach_event _ _ _ _ (EHeartbeat 0) (reach_start _ _ _)).
  - exact (conj H1 (conj H2 (conj H3 H4))).
Defined.

(** A start on a disk whose key cannot be read, but written over. *)
Definition toy_unreadable : Disk :=
  mkDisk true (Some (replicate 64 "o"%char)) false None (mkDb [] [] [] []) None (Some []) None (mkPostDb [] [] 0 []) [].
Definition toy_unsaved : Node := Ok_or (toy_node []) (zifd (toy_config false) toy_world toy_unreadable).2.

Lemma unsaved_key_witness :
  dk_identity (zifd (toy_config false) toy_world toy_unreadable).1 = Some (lp_privateKey (nd_lp toy_unsaved)).
Proof.
  apply (unsaved_key (toy_config false) toy_world toy_unreadable _ toy_unsaved); [reflexivity|].
  vm_compute. reflexivity.
Defined.
